(** * Transaction admission validator of metaverse

    A shallow embedding of [src/lib/blockchain/validate_transaction.cpp]:
    the stateless checks ([check_transaction] and the per-feature checks it
    chains), the per-input rule [connect_input], the fee and conservation
    checks, and the callback-driven pipeline that [start] sets off.

    Conventions.
    - [uint64_t] and [size_t] values are integers of [Z], [size_t] being
      64 bits wide; every operation that can wrap in the source is written
      with [wrap64] here. Indices into the inputs and the [int] counters of
      the checks stay small and are not wrapped.
    - A C++ function with reference parameters returns the new values next
      to its result.
    - [std::vector::at] throws [std::out_of_range]; a check that uses it
      lives in the [outcome] monad.
    - The asynchronous chain reads of the pipeline are [request]s: a
      callback returns the request it posted, and [run] serves requests
      until none is pending. *)

From Stdlib Require Import ZArith List String Ascii Bool Lia.
Import ListNotations.

Local Open Scope string_scope.
Local Open Scope list_scope.
Local Open Scope Z_scope.

(** ** Machine integers *)

Definition max_uint32 : Z := 2 ^ 32 - 1.
Definition max_uint64 : Z := 2 ^ 64 - 1.

Definition wrap32 (z : Z) : Z := z mod 2 ^ 32.
Definition wrap64 (z : Z) : Z := z mod 2 ^ 64.

(** [a + b] and [a - b] on [uint64_t] (and on a 64-bit [size_t]). *)
Definition add64 (a b : Z) : Z := wrap64 (a + b).
Definition sub64 (a b : Z) : Z := wrap64 (a - b).

(** [(int)x] for a [uint64_t] [x], with a 32-bit two's complement [int]. *)
Definition to_int32 (x : Z) : Z :=
  let r := wrap32 x in if r <? 2 ^ 31 then r else r - 2 ^ 32.

Definition in_uint64 (z : Z) : Prop := 0 <= z <= max_uint64.

(** ** Results of code that can throw *)

Inductive outcome (A : Type) : Type :=
| Ret (a : A)
| Throw_out_of_range   (* std::out_of_range from std::vector::at *)
| Assert_fail.         (* a BITCOIN_ASSERT about an index does not hold *)

Arguments Ret {A} a.
Arguments Throw_out_of_range {A}.
Arguments Assert_fail {A}.

Definition obind {A B} (m : outcome A) (k : A -> outcome B) : outcome B :=
  match m with
  | Ret a => k a
  | Throw_out_of_range => Throw_out_of_range
  | Assert_fail => Assert_fail
  end.

Notation "x <- m ;; k" := (obind m (fun x => k))
  (at level 61, m at next level, right associativity).

(** [v.at(i)] *)
Definition at_ {A} (v : list A) (i : Z) : outcome A :=
  if Z.of_nat (List.length v) <=? i then Throw_out_of_range
  else match nth_error v (Z.to_nat i) with
       | Some a => Ret a
       | None => Throw_out_of_range
       end.

(** ** Error codes *)

Module error.

Inductive code : Set :=
| success
| not_found | unspent_output | operation_failed
| coinbase_transaction | is_not_standard | duplicate | double_spend
| input_not_found | validate_inputs_failed | fees_out_of_range
| empty_transaction | size_limits | output_value_overflow
| transaction_version_error | nova_feature_not_activated
| script_not_standard | invalid_coinbase_script_size
| previous_output_null | invalid_input_script_lock_height
| invalid_output_script_lock_height | attenuation_model_param_error
| attachment_invalid | asset_symbol_invalid | did_symbol_invalid
| mit_symbol_invalid | asset_exist | asset_cert_exist | mit_exist
| did_exist | did_not_exist | address_registered_did | did_address_needed
| did_multi_type_exist | did_input_error | did_address_not_match
| did_symbol_not_match | asset_amount_not_equal | asset_symbol_not_match
| asset_cert_error | asset_cert_not_provided | asset_cert_issue_error
| asset_issue_error | asset_secondaryissue_error
| asset_secondaryissue_threshold_invalid
| asset_secondaryissue_share_not_enough | asset_did_registerr_not_match
| mit_error | mit_register_error.

Definition eq_dec (a b : code) : {a = b} + {a <> b}.
Proof. decide equality. Defined.

Definition eqb (a b : code) : bool := if eq_dec a b then true else false.

(** [if (ec)]: a code is true when it is an error. *)
Definition is_error (c : code) : bool := negb (eqb c success).

End error.

Abbreviation code := error.code.

(** ** Domain value types

    The output, attachment, script and chain types are declared in headers
    that are not part of the sources at hand; they are modelled from
    sections 3 and 4.1 of the specification and from the accessors the
    validator calls on them. *)

Module business_kind.
(** Modelled from the spec: "[business_kind] is the enum etp, asset_issue,
    asset_transfer, asset_cert, asset_mit, did_register, did_transfer". *)
Inductive t : Set :=
| etp | asset_issue | asset_transfer | asset_cert | asset_mit
| did_register | did_transfer.

Definition eqb (a b : t) : bool :=
  match a, b with
  | etp, etp | asset_issue, asset_issue | asset_transfer, asset_transfer
  | asset_cert, asset_cert | asset_mit, asset_mit
  | did_register, did_register | did_transfer, did_transfer => true
  | _, _ => false
  end.
End business_kind.

Module asset_cert_ns.
(** Modelled from the spec: the certificate types, "issue, domain,
    naming, none" and further ones. *)
Inductive asset_cert_type : Set :=
| none | issue | domain | naming | other (tag : N).

Definition eqb (a b : asset_cert_type) : bool :=
  match a, b with
  | none, none | issue, issue | domain, domain | naming, naming => true
  | other m, other n => N.eqb m n
  | _, _ => false
  end.
End asset_cert_ns.

Abbreviation asset_cert_type := asset_cert_ns.asset_cert_type.

Definition empty (s : string) : bool :=
  match s with EmptyString => true | String _ _ => false end.

Module asset_cert.

(** Modelled from the spec: the status of a certificate; the validator
    tests it against [ASSET_CERT_TRANSFER_TYPE], and the asset-cert-issue
    kind of section 3 is the status [ASSET_CERT_ISSUE_TYPE]. *)
Inductive status : Set :=
| ASSET_CERT_NORMAL_TYPE | ASSET_CERT_ISSUE_TYPE
| ASSET_CERT_TRANSFER_TYPE | ASSET_CERT_AUTOISSUE_TYPE.

(** Modelled from the spec: "a (symbol, cert_type, owner_did, address)
    tuple", with the status that the validator reads. *)
Record t : Set := mk {
  get_symbol : string;
  get_owner : string;
  get_address : string;
  get_type : asset_cert_type;
  get_status : status
}.

(** Modelled from the spec: "Domain of a symbol is the prefix before the
    first [.]". *)
Fixpoint get_domain (symbol : string) : string :=
  match symbol with
  | EmptyString => EmptyString
  | String c rest =>
      if Ascii.eqb c "."%char then EmptyString
      else String c (get_domain rest)
  end.

(** Modelled from the spec: [test_certs(total, cert_type)] tells whether
    [cert_type] occurs in [total] ("no duplicate cert_type in
    asset_certs_in", "already contains a domain cert"). *)
Definition test_certs (total : list asset_cert_type)
    (cert_type : asset_cert_type) : bool :=
  existsb (asset_cert_ns.eqb cert_type) total.

(** Modelled from the spec: the overload on two vectors tells whether
    every type of [parts] occurs in [total] ("the set of cert types
    present must satisfy the asset's cert_mask"). *)
Definition test_certs_all (total parts : list asset_cert_type) : bool :=
  forallb (test_certs total) parts.

End asset_cert.

Module asset_detail.
(** Modelled from the spec: the attributes of an asset, "maximum supply,
    issuing address, issuer-did, secondary-issue threshold, required cert
    mask at issuance", and whether the detail is one of a secondary
    issue. *)
Record t : Set := mk {
  get_symbol : string;
  get_maximum_supply : Z;
  get_secondaryissue_threshold : Z;
  is_asset_secondaryissue : bool;
  get_issuer : string;
  get_address : string;
  get_asset_cert_mask : list asset_cert_type
}.
End asset_detail.

Module asset_transfer.
(** Modelled from the spec: an asset transfer, a symbol and a quantity. *)
Record t : Set := mk {
  get_symbol : string;
  get_quantity : Z
}.
End asset_transfer.

Module asset_mit.
(** Modelled from the spec: "MIT token. A symbol with an address." *)
Record t : Set := mk {
  get_symbol : string;
  get_address : string
}.
End asset_mit.

Module did_detail.
(** Modelled from the spec: "DID. A symbol bound to an address." *)
Record t : Set := mk {
  get_symbol : string;
  get_address : string
}.
End did_detail.

Module did.
(** Modelled from the spec: "States: detail (registration) and
    transferable (transfer)." *)
Inductive status : Set := DID_DETAIL_TYPE | DID_TRANSFERABLE_TYPE.

Definition status_eqb (a b : status) : bool :=
  match a, b with
  | DID_DETAIL_TYPE, DID_DETAIL_TYPE
  | DID_TRANSFERABLE_TYPE, DID_TRANSFERABLE_TYPE => true
  | _, _ => false
  end.

(** Modelled from the spec: a did as [connect_did_input] receives it, the
    state with the detail. *)
Record t : Set := mk {
  get_status : status;
  get_data : did_detail.t
}.
End did.

Module script.
(** Modelled from the spec: the script interpreter and the codecs are
    external collaborators, so a script is what the validator looks at:
    its pattern, the operation patterns that [chain::operation] recognises
    (with the lock height or attenuation model parameter they carry), its
    size and the payment address it pays to. *)
Record t : Set := mk {
  is_non_standard : bool;
  sign_key_hash_with_lock_height : option Z;
  pay_key_hash_with_lock_height : option Z;
  pay_key_hash_with_attenuation_model : option string;
  serialized_size : Z;
  address : string
}.
End script.

(** Modelled from the spec: "a tagged variant selecting exactly one of:
    plain etp, message, asset-issue, asset-secondary-issue, asset-transfer,
    asset-cert, asset-cert-issue, asset-mit-register, asset-mit-transfer,
    did-register, did-transfer". A certificate carries its status (the
    source reads [asset_cert.get_status()]), so the asset-cert-issue kind is
    a certificate whose status is [ASSET_CERT_ISSUE_TYPE]. *)
Inductive attach : Set :=
| attach_etp
| attach_message (content : string)
| attach_asset_issue (detail : asset_detail.t)
| attach_asset_secondaryissue (detail : asset_detail.t)
| attach_asset_transfer (transfer : asset_transfer.t)
| attach_asset_cert (cert : asset_cert.t)
| attach_asset_mit_register (mit : asset_mit.t)
| attach_asset_mit_transfer (mit : asset_mit.t)
| attach_did_register (detail : did_detail.t)
| attach_did_transfer (detail : did_detail.t).

Module attachment.
(** Modelled from the spec: "An output's attachment also carries optional
    [from_did]/[to_did] strings and an attachment version." *)
Record t : Set := mk {
  get_version : Z;
  get_from_did : string;
  get_to_did : string;
  get_attach : attach
}.
End attachment.

Module output.

(** Modelled from the spec: "Each output carries an etp value, a locking
    script, and an attachment". *)
Record t : Set := mk {
  value : Z;
  script : script.t;
  attach_data : attachment.t
}.

Definition kind (o : t) : attach := attachment.get_attach (attach_data o).

(** Modelled from the spec: "predicate accessors become pattern matches"
    on the kind of the attachment; [is_asset], [is_asset_mit] and [is_did]
    gather the kinds of one primitive, and [is_asset_cert_issue] is a
    certificate of status [ASSET_CERT_ISSUE_TYPE]. *)

Definition is_etp (o : t) : bool :=
  match kind o with attach_etp => true | _ => false end.
Definition is_message (o : t) : bool :=
  match kind o with attach_message _ => true | _ => false end.
Definition is_asset_issue (o : t) : bool :=
  match kind o with attach_asset_issue _ => true | _ => false end.
Definition is_asset_secondaryissue (o : t) : bool :=
  match kind o with attach_asset_secondaryissue _ => true | _ => false end.
Definition is_asset_transfer (o : t) : bool :=
  match kind o with attach_asset_transfer _ => true | _ => false end.
Definition is_asset (o : t) : bool :=
  is_asset_issue o || is_asset_secondaryissue o || is_asset_transfer o.
Definition is_asset_cert (o : t) : bool :=
  match kind o with attach_asset_cert _ => true | _ => false end.
Definition is_asset_cert_issue (o : t) : bool :=
  match kind o with
  | attach_asset_cert c =>
      match asset_cert.get_status c with
      | asset_cert.ASSET_CERT_ISSUE_TYPE => true
      | _ => false
      end
  | _ => false
  end.
Definition is_asset_mit_register (o : t) : bool :=
  match kind o with attach_asset_mit_register _ => true | _ => false end.
Definition is_asset_mit_transfer (o : t) : bool :=
  match kind o with attach_asset_mit_transfer _ => true | _ => false end.
Definition is_asset_mit (o : t) : bool :=
  is_asset_mit_register o || is_asset_mit_transfer o.
Definition is_did_register (o : t) : bool :=
  match kind o with attach_did_register _ => true | _ => false end.
Definition is_did_transfer (o : t) : bool :=
  match kind o with attach_did_transfer _ => true | _ => false end.
Definition is_did (o : t) : bool := is_did_register o || is_did_transfer o.

(** Modelled from the spec: "Accessors are only valid for their matching
    kind". The validator calls an accessor on its matching kind only,
    except for [get_asset_symbol] and [get_did_symbol], which are empty on
    the other kinds; the defaults below are never looked at. *)
Definition get_asset_detail (o : t) : asset_detail.t :=
  match kind o with
  | attach_asset_issue d | attach_asset_secondaryissue d => d
  | _ => asset_detail.mk "" 0 0 false "" "" []
  end.
Definition get_asset_transfer (o : t) : asset_transfer.t :=
  match kind o with
  | attach_asset_transfer a => a
  | _ => asset_transfer.mk "" 0
  end.
Definition get_asset_cert (o : t) : asset_cert.t :=
  match kind o with
  | attach_asset_cert c => c
  | _ => asset_cert.mk "" "" "" asset_cert_ns.none
           asset_cert.ASSET_CERT_NORMAL_TYPE
  end.
Definition get_asset_mit (o : t) : asset_mit.t :=
  match kind o with
  | attach_asset_mit_register m | attach_asset_mit_transfer m => m
  | _ => asset_mit.mk "" ""
  end.
Definition get_did (o : t) : did.t :=
  match kind o with
  | attach_did_register d => did.mk did.DID_DETAIL_TYPE d
  | attach_did_transfer d => did.mk did.DID_TRANSFERABLE_TYPE d
  | _ => did.mk did.DID_DETAIL_TYPE (did_detail.mk "" "")
  end.

(** Modelled from the spec: the symbol of the asset, certificate or MIT
    of the output ("the first non-empty input asset/cert/did symbol"),
    empty on other kinds. *)
Definition get_asset_symbol (o : t) : string :=
  match kind o with
  | attach_asset_issue d | attach_asset_secondaryissue d =>
      asset_detail.get_symbol d
  | attach_asset_transfer a => asset_transfer.get_symbol a
  | attach_asset_cert c => asset_cert.get_symbol c
  | attach_asset_mit_register m | attach_asset_mit_transfer m =>
      asset_mit.get_symbol m
  | _ => ""
  end.
Definition get_asset_issuer (o : t) : string :=
  match kind o with
  | attach_asset_issue d | attach_asset_secondaryissue d =>
      asset_detail.get_issuer d
  | _ => ""
  end.
(** Modelled from the spec: the amount of an asset output ("asset adds
    transfer amount"): the maximum supply of an issue or secondary issue,
    the quantity of a transfer, 0 on other kinds. *)
Definition get_asset_amount (o : t) : Z :=
  match kind o with
  | attach_asset_issue d | attach_asset_secondaryissue d =>
      asset_detail.get_maximum_supply d
  | attach_asset_transfer a => asset_transfer.get_quantity a
  | _ => 0
  end.
Definition get_asset_cert_type (o : t) : asset_cert_type :=
  match kind o with
  | attach_asset_cert c => asset_cert.get_type c
  | _ => asset_cert_ns.none
  end.
Definition get_asset_cert_symbol (o : t) : string :=
  match kind o with
  | attach_asset_cert c => asset_cert.get_symbol c
  | _ => ""
  end.
Definition get_asset_cert_owner (o : t) : string :=
  match kind o with
  | attach_asset_cert c => asset_cert.get_owner c
  | _ => ""
  end.
Definition get_did_symbol (o : t) : string :=
  match kind o with
  | attach_did_register d | attach_did_transfer d =>
      did_detail.get_symbol d
  | _ => ""
  end.
Definition get_did_address (o : t) : string :=
  match kind o with
  | attach_did_register d | attach_did_transfer d =>
      did_detail.get_address d
  | _ => ""
  end.
Definition get_script_address (o : t) : string :=
  script.address (script o).
Definition get_attenuation_model_param (o : t) : string :=
  match script.pay_key_hash_with_attenuation_model (script o) with
  | Some param => param
  | None => ""
  end.

End output.

(** A hash, as a number. *)
Definition hash_digest : Set := Z.

Module output_point.
(** Modelled from the spec: "Each input references a previous output by
    (tx_hash, index)"; the index is a [uint32_t]. *)
Record t : Set := mk {
  hash : hash_digest;
  index : Z
}.
End output_point.

Module input.
(** Modelled from the spec: an input "references a previous output ... and
    carries a spending script". *)
Record t : Set := mk {
  previous_output : output_point.t;
  script : script.t
}.
End input.

Module transaction.

(** Modelled from the spec: "An ordered sequence of inputs and outputs plus
    a version." *)
Record t : Set := mk {
  version : Z;
  inputs : list input.t;
  outputs : list output.t
}.

(** Modelled from the spec: "Σ output.value", the [uint64_t] total of the
    output values. *)
Definition total_output_value (tx : t) : Z :=
  fold_left (fun total o => add64 total (output.value o)) (outputs tx) 0.

(** Modelled from the spec: "Σ output asset-transfer amount", the
    [uint64_t] total of the quantities of the asset-transfer outputs. *)
Definition total_output_transfer_amount (tx : t) : Z :=
  fold_left
    (fun total o =>
       if output.is_asset_transfer o
       then add64 total (output.get_asset_amount o) else total)
    (outputs tx) 0.

End transaction.

(** ** Storage interfaces

    The chain store and the memory pool, as the read interfaces the
    validator consumes. A [fetch_] function gives the arguments that the
    chain passes to the callback. *)

Module block_chain.
(** Modelled from the spec: the chain interface of section 6, the four
    asynchronous fetches and the synchronous lookups. *)
Record t : Type := mk {
  fetch_transaction : hash_digest -> code * transaction.t;
  fetch_transaction_index : hash_digest -> code * Z;
  fetch_last_height : code * Z;
  fetch_spend : output_point.t -> code;
  (* block_chain_impl, synchronous *)
  get_transaction : hash_digest -> option (transaction.t * Z);
  get_last_height : option Z;
  get_asset_volume : string -> Z;
  is_asset_exist : string -> bool -> bool;
  is_asset_cert_exist : string -> asset_cert_type -> bool;
  get_registered_mit : string -> option asset_mit.t;
  get_registered_did : string -> option did_detail.t;
  is_did_exist : string -> bool;
  is_address_registered_did : string -> bool;
  is_valid_address : string -> bool;
  get_did_from_address : string -> string;
  use_testnet_rules : bool
}.
End block_chain.

Module transaction_pool.
(** Modelled from the spec: "[is_in_pool(hash) -> bool],
    [find(out tx, hash) -> bool], [is_spent_in_pool(tx) -> bool]". *)
Record t : Type := mk {
  is_in_pool : hash_digest -> bool;
  find : hash_digest -> option transaction.t;
  is_spent_in_pool : transaction.t -> bool
}.
End transaction_pool.

(** ** Constants and collaborators declared outside the validator

    The consensus constants and the helper functions of other modules
    (script interpreter, codecs, symbol rules, attenuation model) are not
    defined in the validator's source file; the validator is embedded over
    any choice of them. *)

Record environment : Type := mk_environment {
  (* constants *)
  max_money : Z;
  coinbase_maturity : Z;
  version_check_output_script : Z;
  version_check_nova_testnet : Z;
  version_check_nova_feature : Z;
  version_max_version : Z;
  DID_ATTACH_VERIFY_VERSION : Z;
  all_enabled : Z;
  (* chain::transaction *)
  hash : transaction.t -> hash_digest;
  serialized_size : transaction.t -> Z;
  has_asset_transfer : transaction.t -> bool;
  has_did_transfer : transaction.t -> bool;
  (* chain::output_point *)
  is_null : output_point.t -> bool;
  (* chain::script::verify input_script prevout_script tx index flags *)
  verify : script.t -> script.t -> transaction.t -> Z -> Z -> bool;
  (* chain::output *)
  is_valid_symbol : string -> Z -> bool;
  is_valid_did_symbol : string -> bool -> bool;
  is_valid_mit_symbol : string -> bool -> bool;
  check_attachment_address : output.t -> block_chain.t -> code;
  check_attachment_did_match_address : output.t -> block_chain.t -> code;
  (* attachment *)
  is_valid : attachment.t -> bool;
  (* asset_detail *)
  is_secondaryissue_threshold_value_ok : asset_detail.t -> bool;
  is_secondaryissue_owns_enough : Z -> Z -> Z -> bool;
  (* asset_cert *)
  is_valid_domain : string -> bool;
  (* attenuation_model *)
  check_model_param : string -> Z -> bool;
  check_model_param_tx : transaction.t -> block_chain.t -> code;
  (* consensus::miner *)
  get_lock_heights_index : Z -> Z;
  (* bc::wallet::symbol *)
  is_forbidden : string -> bool
}.

(** Modelled from the spec: "Coinbase: exactly one input with a
    [previous_output.is_null()]". *)
Definition is_coinbase (E : environment) (tx : transaction.t) : bool :=
  match transaction.inputs tx with
  | [i] => is_null E (input.previous_output i)
  | _ => false
  end.

(** ** Loops with an early return *)

Inductive flow (R S : Type) : Type :=
| Return (r : R)
| Continue (s : S).

Arguments Return {R S} r.
Arguments Continue {R S} s.

(** [for (auto& x : xs) body], where [body] returns from the function or
    goes on with the updated locals. *)
Fixpoint for_each {A R S : Type} (body : A -> S -> flow R S)
    (xs : list A) (s : S) : flow R S :=
  match xs with
  | [] => Continue s
  | x :: rest =>
      match body x s with
      | Return c => Return c
      | Continue s' => for_each body rest s'
      end
  end.

(** The same for a body that can throw. *)
Fixpoint for_each_o {A R S : Type} (body : A -> S -> outcome (flow R S))
    (xs : list A) (s : S) : outcome (flow R S) :=
  match xs with
  | [] => Ret (Continue s)
  | x :: rest =>
      r <- body x s ;;
      match r with
      | Return c => Ret (Return c)
      | Continue s' => for_each_o body rest s'
      end
  end.

Definition min_tx_fee : Z := 10000.

(** Max transaction size is set to max block size (1,000,000). *)
Definition max_transaction_size : Z := 1000000.

(** [check_same(dest, src)]: the result and the new [dest]. *)
Definition check_same (dest src : string) : bool * string :=
  if empty dest then (true, src)
  else if negb (String.eqb dest src) then (false, dest)
  else (true, dest).

(** ** Locals of the per-feature checks *)

(** [check_secondaryissue_transaction] *)
Record secondaryissue_locals : Set := mk_secondaryissue_locals {
  si_asset_symbol : string;
  si_asset_address : string;
  si_asset_cert_owner : string;
  si_secondaryissue_threshold : Z;
  si_secondaryissue_asset_amount : Z;
  si_asset_transfer_volume : Z;
  si_num_asset_secondaryissue : Z;
  si_num_asset_transfer : Z;
  si_num_asset_cert : Z;
  si_certs_out : list asset_cert_type
}.

(** [check_asset_issue_transaction] *)
Record issue_locals : Set := mk_issue_locals {
  is_is_asset_issue : bool;
  is_num_asset_cert_issue : Z;
  is_num_asset_cert_domain_or_naming : Z;
  is_cert_mask : list asset_cert_type;
  is_cert_type : list asset_cert_type;
  is_asset_symbol : string;
  is_asset_address : string;
  is_cert_owner : string
}.

(** [check_asset_cert_issue_transaction] *)
Record cert_issue_locals : Set := mk_cert_issue_locals {
  ci_num_asset_cert_issue : Z;
  ci_num_asset_cert_domain : Z;
  ci_issue_cert_type : asset_cert_type;
  ci_cert_type : list asset_cert_type;
  ci_cert_symbol : string;
  ci_cert_owner : string
}.

Section Checks.

Variable E : environment.

(** [operation::is_pay_key_hash_with_attenuation_model_pattern] on the
    output script, followed by [attenuation_model::check_model_param] on
    the parameter it carries. *)
Definition attenuation_model_param_ok (o : output.t) (maximum_supply : Z)
    : bool :=
  match script.pay_key_hash_with_attenuation_model (output.script o) with
  | Some _ =>
      check_model_param E (output.get_attenuation_model_param o)
        maximum_supply
  | None => true
  end.

(** *** check_secondaryissue_transaction *)

Definition secondaryissue_output (o : output.t) (l : secondaryissue_locals)
    : flow code secondaryissue_locals :=
  let '(mk_secondaryissue_locals asset_symbol asset_address asset_cert_owner
          threshold amount volume num_si num_transfer num_cert certs_out)
    := l in
  if output.is_asset_secondaryissue o then
    let num_si := num_si + 1 in
    if num_si >? 1 then Return error.asset_secondaryissue_error else
    let asset_detail := output.get_asset_detail o in
    if negb (asset_detail.is_asset_secondaryissue asset_detail)
       || negb (is_secondaryissue_threshold_value_ok E asset_detail)
    then Return error.asset_secondaryissue_threshold_invalid else
    let (same_symbol, asset_symbol) :=
      check_same asset_symbol (asset_detail.get_symbol asset_detail) in
    if negb same_symbol then Return error.asset_secondaryissue_error else
    let (same_address, asset_address) :=
      check_same asset_address (asset_detail.get_address asset_detail) in
    if negb same_address then Return error.asset_secondaryissue_error else
    if negb (attenuation_model_param_ok o
               (asset_detail.get_maximum_supply asset_detail))
    then Return error.attenuation_model_param_error else
    Continue (mk_secondaryissue_locals asset_symbol asset_address
                asset_cert_owner
                (asset_detail.get_secondaryissue_threshold asset_detail)
                (asset_detail.get_maximum_supply asset_detail)
                volume num_si num_transfer num_cert certs_out)
  else if output.is_asset_transfer o then
    let num_transfer := num_transfer + 1 in
    let asset_transfer := output.get_asset_transfer o in
    let (same_symbol, asset_symbol) :=
      check_same asset_symbol (asset_transfer.get_symbol asset_transfer) in
    if negb same_symbol then Return error.asset_secondaryissue_error else
    let (same_address, asset_address) :=
      check_same asset_address (output.get_script_address o) in
    if negb same_address then Return error.asset_secondaryissue_error else
    Continue (mk_secondaryissue_locals asset_symbol asset_address
                asset_cert_owner threshold amount
                (add64 volume (asset_transfer.get_quantity asset_transfer))
                num_si num_transfer num_cert certs_out)
  else if output.is_asset_cert o then
    let num_cert := num_cert + 1 in
    if num_cert >? 1 then Return error.asset_secondaryissue_error else
    let asset_cert := output.get_asset_cert o in
    let cur_cert_type := asset_cert.get_type asset_cert in
    if asset_cert_ns.eqb cur_cert_type asset_cert_ns.issue then
      let (same_symbol, asset_symbol) :=
        check_same asset_symbol (asset_cert.get_symbol asset_cert) in
      if negb same_symbol then Return error.asset_secondaryissue_error else
      let (same_owner, asset_cert_owner) :=
        check_same asset_cert_owner (asset_cert.get_owner asset_cert) in
      if negb same_owner then Return error.asset_secondaryissue_error else
      Continue (mk_secondaryissue_locals asset_symbol asset_address
                  asset_cert_owner threshold amount volume
                  num_si num_transfer num_cert
                  (certs_out ++ [cur_cert_type]))
    else Return error.asset_secondaryissue_error
  else if negb (output.is_etp o) && negb (output.is_message o) then
    Return error.asset_secondaryissue_error
  else Continue l.

(** The loop "check inputs asset address". *)
Definition secondaryissue_input (blockchain : block_chain.t)
    (asset_symbol asset_address : string) (i : input.t) (_ : unit)
    : outcome (flow code unit) :=
  match block_chain.get_transaction blockchain
          (output_point.hash (input.previous_output i)) with
  | None => Ret (Return error.input_not_found)
  | Some (prev_tx, prev_height) =>
      prev_output <- at_ (transaction.outputs prev_tx)
                       (output_point.index (input.previous_output i)) ;;
      if output.is_asset prev_output || output.is_asset_cert prev_output
      then
        let asset_address_in := output.get_script_address prev_output in
        if output.is_asset_cert prev_output then
          let prev_asset_cert := output.get_asset_cert prev_output in
          if negb (String.eqb (asset_cert.get_symbol prev_asset_cert)
                     asset_symbol)
             || negb (asset_cert_ns.eqb (asset_cert.get_type prev_asset_cert)
                        asset_cert_ns.issue)
          then Ret (Return error.validate_inputs_failed)
          else Ret (Continue tt)
        else if negb (String.eqb asset_address asset_address_in) then
          Ret (Return error.validate_inputs_failed)
        else Ret (Continue tt)
      else Ret (Continue tt)
  end.

Definition secondaryissue_locals_init : secondaryissue_locals :=
  mk_secondaryissue_locals "" "" "" 0 0 0 0 0 0 [].

(** The part of [check_secondaryissue_transaction] after the loop over the
    outputs. *)
Definition secondaryissue_after_outputs (tx : transaction.t)
    (blockchain : block_chain.t) (l : secondaryissue_locals)
    : outcome code :=
  if (version_check_nova_feature E <=? transaction.version tx)
     && negb (asset_cert.test_certs (si_certs_out l) asset_cert_ns.issue)
  then Ret error.asset_cert_error else
  let total_volume :=
    block_chain.get_asset_volume blockchain (si_asset_symbol l) in
  if total_volume >? max_uint64 - si_secondaryissue_asset_amount l
  then Ret error.asset_secondaryissue_error else
  if negb (is_secondaryissue_owns_enough E (si_asset_transfer_volume l)
             total_volume (si_secondaryissue_threshold l))
  then Ret error.asset_secondaryissue_share_not_enough else
  r <- for_each_o
         (secondaryissue_input blockchain (si_asset_symbol l)
            (si_asset_address l))
         (transaction.inputs tx) tt ;;
  match r with
  | Return c => Ret c
  | Continue _ => Ret error.success
  end.

Definition check_secondaryissue_transaction (tx : transaction.t)
    (blockchain : block_chain.t) : outcome code :=
  if negb (existsb output.is_asset_secondaryissue (transaction.outputs tx))
  then Ret error.success else
  match for_each secondaryissue_output (transaction.outputs tx)
          secondaryissue_locals_init with
  | Return c => Ret c
  | Continue l => secondaryissue_after_outputs tx blockchain l
  end.

(** *** check_asset_issue_transaction *)

Definition issue_output (chain : block_chain.t) (o : output.t)
    (l : issue_locals) : flow code issue_locals :=
  let '(mk_issue_locals is_asset_issue num_asset_cert_issue
          num_asset_cert_domain_or_naming cert_mask cert_type
          asset_symbol asset_address cert_owner) := l in
  if output.is_asset_issue o then
    (* can not issue multiple assets at the same transaction *)
    if is_asset_issue then Return error.asset_issue_error else
    let detail := output.get_asset_detail o in
    if negb (is_secondaryissue_threshold_value_ok E detail)
    then Return error.asset_secondaryissue_threshold_invalid else
    let (same_symbol, asset_symbol) :=
      check_same asset_symbol (asset_detail.get_symbol detail) in
    if negb same_symbol then Return error.asset_issue_error else
    let (same_address, asset_address) :=
      check_same asset_address (asset_detail.get_address detail) in
    if negb same_address then Return error.asset_issue_error else
    if block_chain.is_asset_exist chain asset_symbol false
    then Return error.asset_exist else
    if negb (attenuation_model_param_ok o
               (asset_detail.get_maximum_supply detail))
    then Return error.attenuation_model_param_error else
    Continue (mk_issue_locals true num_asset_cert_issue
                num_asset_cert_domain_or_naming
                (asset_detail.get_asset_cert_mask detail) cert_type
                asset_symbol asset_address cert_owner)
  else if output.is_asset_cert o then
    let cert_info := output.get_asset_cert o in
    (* check cert *)
    let cur_cert_type := asset_cert.get_type cert_info in
    if asset_cert_ns.eqb cur_cert_type asset_cert_ns.issue then
      let num_asset_cert_issue := num_asset_cert_issue + 1 in
      if num_asset_cert_issue >? 1 then Return error.asset_issue_error else
      let (same_symbol, asset_symbol) :=
        check_same asset_symbol (asset_cert.get_symbol cert_info) in
      if negb same_symbol then Return error.asset_issue_error else
      let (same_address, asset_address) :=
        check_same asset_address (output.get_script_address o) in
      if negb same_address then Return error.asset_issue_error else
      Continue (mk_issue_locals is_asset_issue num_asset_cert_issue
                  num_asset_cert_domain_or_naming cert_mask
                  (cert_type ++ [cur_cert_type])
                  asset_symbol asset_address cert_owner)
    else if asset_cert_ns.eqb cur_cert_type asset_cert_ns.domain then
      let num_asset_cert_domain_or_naming :=
        num_asset_cert_domain_or_naming + 1 in
      if num_asset_cert_domain_or_naming >? 1
      then Return error.asset_issue_error else
      if negb (empty asset_symbol)
         && negb (String.eqb (asset_cert.get_domain asset_symbol)
                    (asset_cert.get_symbol cert_info))
      then Return error.asset_issue_error else
      let (same_owner, cert_owner) :=
        check_same cert_owner (asset_cert.get_owner cert_info) in
      if negb same_owner then Return error.asset_issue_error else
      Continue (mk_issue_locals is_asset_issue num_asset_cert_issue
                  num_asset_cert_domain_or_naming cert_mask
                  (cert_type ++ [cur_cert_type])
                  asset_symbol asset_address cert_owner)
    else if asset_cert_ns.eqb cur_cert_type asset_cert_ns.naming then
      let num_asset_cert_domain_or_naming :=
        num_asset_cert_domain_or_naming + 1 in
      if num_asset_cert_domain_or_naming >? 1
      then Return error.asset_issue_error else
      let (same_symbol, asset_symbol) :=
        check_same asset_symbol (asset_cert.get_symbol cert_info) in
      if negb same_symbol then Return error.asset_issue_error else
      let (same_owner, cert_owner) :=
        check_same cert_owner (asset_cert.get_owner cert_info) in
      if negb same_owner then Return error.asset_issue_error else
      Continue (mk_issue_locals is_asset_issue num_asset_cert_issue
                  num_asset_cert_domain_or_naming cert_mask
                  (cert_type ++ [cur_cert_type])
                  asset_symbol asset_address cert_owner)
    else Return error.asset_issue_error
  else if negb (output.is_etp o) && negb (output.is_message o) then
    Return error.asset_issue_error
  else Continue l.

Definition check_asset_issue_transaction (tx : transaction.t)
    (chain : block_chain.t) : code :=
  if negb (existsb output.is_asset_issue (transaction.outputs tx))
  then error.success else
  match for_each (issue_output chain) (transaction.outputs tx)
          (mk_issue_locals false 0 0 [] [] "" "" "") with
  | Return c => c
  | Continue l =>
      (* check cert for transactions after check_nova_feature version. *)
      if version_check_nova_feature E <=? transaction.version tx then
        if negb (asset_cert.test_certs_all (is_cert_type l) (is_cert_mask l))
        then error.asset_issue_error else
        let domain := asset_cert.get_domain (is_asset_symbol l) in
        if is_valid_domain E domain then
          if empty (is_cert_owner l) then error.asset_cert_error else
          if is_num_asset_cert_domain_or_naming l <? 1
          then (* no valid domain or naming cert *)
            error.asset_cert_not_provided
          else error.success
        else error.success
      else error.success
  end.

(** *** check_asset_cert_issue_transaction *)

Definition cert_issue_output (chain : block_chain.t) (o : output.t)
    (l : cert_issue_locals) : flow code cert_issue_locals :=
  let '(mk_cert_issue_locals num_asset_cert_issue num_asset_cert_domain
          issue_cert_type cert_type cert_symbol cert_owner) := l in
  if output.is_asset_cert_issue o then
    let num_asset_cert_issue := num_asset_cert_issue + 1 in
    (* can not issue multiple asset cert at the same transaction *)
    if num_asset_cert_issue >? 1 then Return error.asset_cert_issue_error else
    let cert_info := output.get_asset_cert o in
    let cur_cert_type := asset_cert.get_type cert_info in
    let (same_symbol, cert_symbol) :=
      check_same cert_symbol (asset_cert.get_symbol cert_info) in
    if negb same_symbol then Return error.asset_cert_issue_error else
    (* check cert not exists *)
    if block_chain.is_asset_cert_exist chain cert_symbol cur_cert_type
    then Return error.asset_cert_exist else
    Continue (mk_cert_issue_locals num_asset_cert_issue num_asset_cert_domain
                cur_cert_type cert_type cert_symbol cert_owner)
  else if output.is_asset_cert o then
    let cert_info := output.get_asset_cert o in
    (* check cert *)
    let cur_cert_type := asset_cert.get_type cert_info in
    if asset_cert_ns.eqb cur_cert_type asset_cert_ns.domain then
      if negb (asset_cert_ns.eqb issue_cert_type asset_cert_ns.naming)
      then Return error.asset_cert_issue_error else
      let num_asset_cert_domain := num_asset_cert_domain + 1 in
      if num_asset_cert_domain >? 1
      then Return error.asset_cert_issue_error else
      if negb (empty cert_symbol)
         && negb (String.eqb (asset_cert.get_domain cert_symbol)
                    (asset_cert.get_symbol cert_info))
      then Return error.asset_cert_issue_error else
      let cert_owner := asset_cert.get_owner cert_info in
      let address := asset_cert.get_address cert_info in
      match block_chain.get_registered_did chain cert_owner with
      | None => Return error.asset_cert_issue_error
      | Some diddetail =>
          if negb (String.eqb address (did_detail.get_address diddetail))
          then Return error.asset_cert_issue_error else
          Continue (mk_cert_issue_locals num_asset_cert_issue
                      num_asset_cert_domain issue_cert_type
                      (cert_type ++ [cur_cert_type]) cert_symbol cert_owner)
      end
    else Return error.asset_cert_issue_error
  else if negb (output.is_etp o) && negb (output.is_message o) then
    Return error.asset_cert_issue_error
  else Continue l.

Definition check_asset_cert_issue_transaction (tx : transaction.t)
    (chain : block_chain.t) : code :=
  if negb (existsb output.is_asset_cert_issue (transaction.outputs tx))
  then error.success else
  match for_each (cert_issue_output chain) (transaction.outputs tx)
          (mk_cert_issue_locals 0 0 asset_cert_ns.none [] "" "") with
  | Return c => c
  | Continue l =>
      if asset_cert_ns.eqb (ci_issue_cert_type l) asset_cert_ns.none
      then error.asset_cert_issue_error else
      if asset_cert_ns.eqb (ci_issue_cert_type l) asset_cert_ns.naming then
        if negb (asset_cert.test_certs (ci_cert_type l) asset_cert_ns.domain)
           || empty (ci_cert_owner l)
        then error.asset_cert_issue_error else
        (* check asset not exist. *)
        if block_chain.is_asset_exist chain (ci_cert_symbol l) false
        then error.asset_exist else error.success
      else error.success
  end.

(** *** check_asset_mit_register_transaction *)

(** The locals are [(asset_symbol, asset_address)]. *)
Definition mit_register_output (chain : block_chain.t) (o : output.t)
    (l : string * string) : flow code (string * string) :=
  let (asset_symbol, asset_address) := l in
  if output.is_asset_mit_register o then
    let asset_info := output.get_asset_mit o in
    let asset_symbol := asset_mit.get_symbol asset_info in
    let (same_address, asset_address) :=
      check_same asset_address (asset_mit.get_address asset_info) in
    if negb same_address then Return error.mit_exist else
    (* check asset not exists *)
    match block_chain.get_registered_mit chain asset_symbol with
    | Some _ => Return error.mit_exist
    | None => Continue (asset_symbol, asset_address)
    end
  else if negb (output.is_etp o) && negb (output.is_message o) then
    Return error.mit_register_error
  else Continue l.

(** The loop "check inputs etp address". *)
Definition mit_register_input (chain : block_chain.t)
    (asset_address : string) (i : input.t) (_ : unit)
    : outcome (flow code unit) :=
  match block_chain.get_transaction chain
          (output_point.hash (input.previous_output i)) with
  | None => Ret (Return error.input_not_found)
  | Some (prev_tx, prev_height) =>
      prev_output <- at_ (transaction.outputs prev_tx)
                       (output_point.index (input.previous_output i)) ;;
      if output.is_etp prev_output
         && negb (String.eqb asset_address
                    (output.get_script_address prev_output))
      then Ret (Return error.validate_inputs_failed)
      else Ret (Continue tt)
  end.

Definition check_asset_mit_register_transaction (tx : transaction.t)
    (chain : block_chain.t) : outcome code :=
  if negb (existsb output.is_asset_mit_register (transaction.outputs tx))
  then Ret error.success else
  match for_each (mit_register_output chain) (transaction.outputs tx)
          ("", "") with
  | Return c => Ret c
  | Continue (asset_symbol, asset_address) =>
      r <- for_each_o (mit_register_input chain asset_address)
             (transaction.inputs tx) tt ;;
      match r with
      | Return c => Ret c
      | Continue _ => Ret error.success
      end
  end.

(** *** check_did_transaction *)

(** The locals of the loop of [connect_did_input] are
    [(found_did_info, found_address_info)]. *)
Definition connect_did_input_body (chain : block_chain.t) (info : did.t)
    (i : input.t) (found : bool * bool)
    : outcome (flow bool (bool * bool)) :=
  let (found_did_info, found_address_info) := found in
  let detail_info := did.get_data info in
  match block_chain.get_transaction chain
          (output_point.hash (input.previous_output i)) with
  | None => Ret (Return false)
  | Some (prev_tx, prev_height) =>
      prev_output <- at_ (transaction.outputs prev_tx)
                       (output_point.index (input.previous_output i)) ;;
      if output.is_did_register prev_output
         || output.is_did_transfer prev_output
      then
        if did.status_eqb (did.get_status info) did.DID_TRANSFERABLE_TYPE
           && String.eqb (did_detail.get_symbol detail_info)
                (output.get_did_symbol prev_output)
        then Ret (Continue (true, found_address_info))
        else Ret (Continue found)
      else if output.is_etp prev_output then
        let did_address_in := output.get_script_address prev_output in
        if String.eqb (did_detail.get_address detail_info) did_address_in
        then Ret (Continue (found_did_info, true))
        else Ret (Continue found)
      else Ret (Continue found)
  end.

Definition connect_did_input (tx : transaction.t) (chain : block_chain.t)
    (info : did.t) : outcome bool :=
  if did.status_eqb (did.get_status info) did.DID_TRANSFERABLE_TYPE
     && negb (Nat.eqb (List.length (transaction.inputs tx)) 2)
  then Ret false else
  r <- for_each_o (connect_did_input_body chain info)
         (transaction.inputs tx) (false, false) ;;
  match r with
  | Return b => Ret b
  | Continue (found_did_info, found_address_info) =>
      Ret ((found_did_info && found_address_info
            && did.status_eqb (did.get_status info)
                 did.DID_TRANSFERABLE_TYPE)
           || (found_address_info
               && did.status_eqb (did.get_status info) did.DID_DETAIL_TYPE))
  end.

Definition connect_input_address_match_did_body (chain : block_chain.t)
    (attach : attachment.t) (i : input.t) (_ : unit)
    : outcome (flow bool unit) :=
  match block_chain.get_transaction chain
          (output_point.hash (input.previous_output i)) with
  | None => Ret (Return false)
  | Some (prev_tx, prev_height) =>
      prev_output <- at_ (transaction.outputs prev_tx)
                       (output_point.index (input.previous_output i)) ;;
      let address := output.get_script_address prev_output in
      if String.eqb (attachment.get_from_did attach)
           (block_chain.get_did_from_address chain address)
      then Ret (Return true)
      else Ret (Continue tt)
  end.

Definition connect_input_address_match_did (tx : transaction.t)
    (chain : block_chain.t) (o : output.t) : outcome bool :=
  let attach := output.attach_data o in
  if empty (attachment.get_from_did attach) then Ret true else
  r <- for_each_o (connect_input_address_match_did_body chain attach)
         (transaction.inputs tx) tt ;;
  match r with
  | Return b => Ret b
  | Continue _ => Ret false
  end.

(** The local [type] of [check_did_transaction] starts at 255 ([None]
    here) and takes the status of the did output met. *)
Definition check_did_output (tx : transaction.t) (chain : block_chain.t)
    (o : output.t) (type : option did.status)
    : outcome (flow code (option did.status)) :=
  let ret := check_attachment_address E o chain in
  if error.is_error ret then Ret (Return ret) else
  (* to_did check(strong check) *)
  let ret := check_attachment_did_match_address E o chain in
  if error.is_error ret then Ret (Return ret) else
  (* from_did (weak check) *)
  matched <- connect_input_address_match_did tx chain o ;;
  if negb matched then Ret (Return error.did_address_not_match) else
  if output.is_did_register o then
    if block_chain.is_valid_address chain (output.get_did_symbol o)
    then Ret (Return error.did_symbol_invalid) else
    if block_chain.is_did_exist chain (output.get_did_symbol o)
    then Ret (Return error.did_exist) else
    if block_chain.is_address_registered_did chain (output.get_did_address o)
    then Ret (Return error.address_registered_did) else
    match type with
    | Some _ => Ret (Return error.did_multi_type_exist)
    | None =>
        connected <- connect_did_input tx chain (output.get_did o) ;;
        if negb connected then Ret (Return error.did_input_error)
        else Ret (Continue (Some did.DID_DETAIL_TYPE))
    end
  else if output.is_did_transfer o then
    (* did transfer only for did is exist *)
    if negb (block_chain.is_did_exist chain (output.get_did_symbol o))
    then Ret (Return error.did_not_exist) else
    if block_chain.is_address_registered_did chain (output.get_did_address o)
    then Ret (Return error.address_registered_did) else
    match type with
    | Some _ => Ret (Return error.did_multi_type_exist)
    | None =>
        connected <- connect_did_input tx chain (output.get_did o) ;;
        if negb connected then Ret (Return error.did_input_error)
        else Ret (Continue (Some did.DID_TRANSFERABLE_TYPE))
    end
  else if output.is_asset_issue o || output.is_asset_secondaryissue o then
    if (attachment.get_version (output.attach_data o)
        =? DID_ATTACH_VERIFY_VERSION E)
       && negb (String.eqb (output.get_asset_issuer o)
                  (attachment.get_to_did (output.attach_data o)))
    then Ret (Return error.asset_did_registerr_not_match)
    else Ret (Continue type)
  else if output.is_asset_cert o then
    if (attachment.get_version (output.attach_data o)
        =? DID_ATTACH_VERIFY_VERSION E)
       && negb (String.eqb (output.get_asset_cert_owner o)
                  (attachment.get_to_did (output.attach_data o)))
    then Ret (Return error.asset_did_registerr_not_match)
    else Ret (Continue type)
  else Ret (Continue type).

Definition check_did_transaction (tx : transaction.t)
    (chain : block_chain.t) : outcome code :=
  r <- for_each_o (check_did_output tx chain) (transaction.outputs tx) None ;;
  match r with
  | Return c => Ret c
  | Continue _ => Ret error.success
  end.

(** *** Nova activation *)

Definition is_nova_feature_activated (chain : block_chain.t) : bool :=
  if block_chain.use_testnet_rules chain then true else
  let current_blockheight :=
    match block_chain.get_last_height chain with
    | Some height => height
    | None => 0
    end in
  (* active SuperNove on 2018-06-18 (duanwu festival) *)
  current_blockheight >? 1270000.

(** *** check_transaction_basic *)

(** "Check for negative or overflow output values": the local is
    [total_output_value]. *)
Definition basic_output_value (o : output.t) (total_output_value : Z)
    : flow code Z :=
  if output.value o >? max_money E then Return error.output_value_overflow
  else
    let total_output_value := add64 total_output_value (output.value o) in
    if total_output_value >? max_money E
    then Return error.output_value_overflow
    else Continue total_output_value.

Definition basic_output_kind (tx : transaction.t) (chain : block_chain.t)
    (o : output.t) (_ : unit) : flow code unit :=
  let kind_error :=
    if output.is_asset_issue o then
      if negb (is_valid_symbol E (output.get_asset_symbol o)
                 (transaction.version tx))
      then Some error.asset_symbol_invalid else None
    else if output.is_asset_cert o then
      let asset_cert := output.get_asset_cert o in
      if negb (block_chain.is_did_exist chain (asset_cert.get_owner asset_cert))
      then Some error.did_address_needed else None
    else if output.is_did_register o then
      let is_test := block_chain.use_testnet_rules chain in
      if negb (is_valid_did_symbol E (output.get_did_symbol o) (negb is_test))
      then Some error.did_symbol_invalid else None
    else if output.is_asset_mit_register o then
      if negb (is_valid_mit_symbol E (output.get_asset_symbol o) true)
      then Some error.mit_symbol_invalid else None
    else None in
  match kind_error with
  | Some c => Return c
  | None =>
      (* check attachment, from nova version. *)
      if (version_check_nova_feature E <=? transaction.version tx)
         && negb (is_valid E (output.attach_data o))
      then Return error.attachment_invalid
      else Continue tt
  end.

Definition basic_input (chain : block_chain.t) (i : input.t) (_ : unit)
    : flow code unit :=
  if is_null E (input.previous_output i)
  then Return error.previous_output_null else
  match script.sign_key_hash_with_lock_height (input.script i) with
  | Some lock_height =>
      let current_blockheight :=
        match block_chain.get_last_height chain with
        | Some height => height
        | None => 0
        end in
      match block_chain.get_transaction chain
              (output_point.hash (input.previous_output i)) with
      | None => Return error.input_not_found
      | Some (prev_tx, prev_output_blockheight) =>
          if lock_height
             >? sub64 current_blockheight prev_output_blockheight
          then Return error.invalid_input_script_lock_height
          else Continue tt
      end
  | None => Continue tt
  end.

Definition basic_output_lock_height (o : output.t) (_ : unit)
    : flow code unit :=
  match script.pay_key_hash_with_lock_height (output.script o) with
  | Some lock_height =>
      if (to_int32 lock_height <? 0)
         || (get_lock_heights_index E lock_height <? 0)
      then Return error.invalid_output_script_lock_height
      else Continue tt
  | None => Continue tt
  end.

Definition check_transaction_basic (tx : transaction.t)
    (chain : block_chain.t) : code :=
  if version_max_version E <=? transaction.version tx
  then error.transaction_version_error else
  if (transaction.version tx =? version_check_nova_feature E)
     && negb (is_nova_feature_activated chain)
  then error.nova_feature_not_activated else
  if (transaction.version tx =? version_check_nova_testnet E)
     && negb (block_chain.use_testnet_rules chain)
  then error.transaction_version_error else
  if (version_check_output_script E <=? transaction.version tx)
     && existsb (fun o => script.is_non_standard (output.script o))
          (transaction.outputs tx)
  then error.script_not_standard else
  if match transaction.inputs tx with [] => true | _ => false end
     || match transaction.outputs tx with [] => true | _ => false end
  then error.empty_transaction else
  if serialized_size E tx >? max_transaction_size
  then error.size_limits else
  match for_each basic_output_value (transaction.outputs tx) 0 with
  | Return c => c
  | Continue _ =>
  match for_each (basic_output_kind tx chain) (transaction.outputs tx) tt with
  | Return c => c
  | Continue _ =>
  if is_coinbase E tx then
    match transaction.inputs tx with
    | i :: _ =>
        let coinbase_size := script.serialized_size (input.script i) in
        if (coinbase_size <? 2) || (100 <? coinbase_size)
        then error.invalid_coinbase_script_size
        else error.success
    | [] => error.success
    end
  else
    match for_each (basic_input chain) (transaction.inputs tx) tt with
    | Return c => c
    | Continue _ =>
    match for_each basic_output_lock_height (transaction.outputs tx) tt with
    | Return c => c
    | Continue _ =>
        if version_check_nova_feature E <=? transaction.version tx
        then check_model_param_tx E tx chain
        else error.success
    end
    end
  end
  end.

(** *** check_transaction *)

Definition check_transaction (tx : transaction.t) (chain : block_chain.t)
    : outcome code :=
  let ret := check_transaction_basic tx chain in
  if error.is_error ret then Ret ret else
  let ret := check_asset_issue_transaction tx chain in
  if error.is_error ret then Ret ret else
  let ret := check_asset_cert_issue_transaction tx chain in
  if error.is_error ret then Ret ret else
  ret <- check_secondaryissue_transaction tx chain ;;
  if error.is_error ret then Ret ret else
  ret <- check_asset_mit_register_transaction tx chain ;;
  if error.is_error ret then Ret ret else
  ret <- check_did_transaction tx chain ;;
  Ret ret.

End Checks.

(** ** Connecting one input *)

(** The reference parameters of [connect_input]: the running aggregates of
    one validation. *)
Record aggregates : Set := mk_aggregates {
  value_in : Z;
  asset_amount_in : Z;
  asset_certs_in : list asset_cert_type;
  old_symbol_in : string;
  new_symbol_in : string;
  business_kind_in : business_kind.t
}.

(** "init old symbol", else "symbol must be same": the new [old_symbol_in],
    or [None] where the source returns false. *)
Definition latch_symbol (old_symbol_in new_symbol_in : string)
    : option string :=
  if empty old_symbol_in then Some new_symbol_in
  else if negb (String.eqb old_symbol_in new_symbol_in) then None
  else Some old_symbol_in.

Section Connect.

Variable E : environment.

(** Validate script consensus conformance based on flags provided. Both
    builds of the source (with and without libbitcoin-consensus) hand the
    scripts, the transaction and the index to the interpreter, [verify]. *)
Definition check_consensus (prevout_script : script.t)
    (current_tx : transaction.t) (input_index : nat) (flags : Z)
    : outcome bool :=
  if max_uint32 <? Z.of_nat input_index then Assert_fail else
  match nth_error (transaction.inputs current_tx) input_index with
  | None => Assert_fail
  | Some current_input =>
      let input_index32 := wrap32 (Z.of_nat input_index) in
      Ret (verify E (input.script current_input) prevout_script current_tx
             input_index32 flags)
  end.

(** The part of [connect_input] that depends on the kind of the previous
    output. [Return a] is [return false] with the references left at [a];
    otherwise the references and the locals [asset_certs] and
    [asset_transfer_amount]. *)
Definition connect_input_kind (previous_output : output.t) (a : aggregates)
    : flow aggregates (aggregates * asset_cert_type * Z) :=
  let '(mk_aggregates value_in asset_amount_in asset_certs_in
          old_symbol_in new_symbol_in business_kind_in) := a in
  if output.is_asset previous_output then
    (* 1. do asset transfer amount check *)
    let asset_transfer_amount := output.get_asset_amount previous_output in
    (* 2. do asset symbol check *)
    let new_symbol_in := output.get_asset_symbol previous_output in
    match (if empty new_symbol_in then Some old_symbol_in
           else latch_symbol old_symbol_in new_symbol_in) with
    | None =>
        (* there are different asset symbol in this transaction *)
        Return (mk_aggregates value_in asset_amount_in asset_certs_in
                  old_symbol_in new_symbol_in business_kind_in)
    | Some old_symbol_in =>
        (* 3. set business type *)
        let business_kind_in :=
          if output.is_asset_issue previous_output
             || output.is_asset_secondaryissue previous_output
          then business_kind.asset_issue
          else if output.is_asset_transfer previous_output
          then business_kind.did_transfer
          else business_kind_in in
        Continue (mk_aggregates value_in asset_amount_in asset_certs_in
                    old_symbol_in new_symbol_in business_kind_in,
                  asset_cert_ns.none, asset_transfer_amount)
    end
  else if output.is_asset_cert previous_output then
    let business_kind_in := business_kind.asset_cert in
    let new_symbol_in := output.get_asset_symbol previous_output in
    let asset_certs := output.get_asset_cert_type previous_output in
    match (if empty old_symbol_in then Some new_symbol_in
           else if asset_cert.test_certs asset_certs_in asset_cert_ns.domain
           then
             let domain := asset_cert.get_domain old_symbol_in in
             if negb (String.eqb domain
                        (output.get_asset_cert_symbol previous_output))
             then None else Some old_symbol_in
           else if negb (String.eqb old_symbol_in new_symbol_in)
           then None (* asset symbol must be same *)
           else Some old_symbol_in) with
    | None =>
        Return (mk_aggregates value_in asset_amount_in asset_certs_in
                  old_symbol_in new_symbol_in business_kind_in)
    | Some old_symbol_in =>
        if asset_cert.test_certs asset_certs_in asset_certs
        then (* double certs exists *)
          Return (mk_aggregates value_in asset_amount_in asset_certs_in
                    old_symbol_in new_symbol_in business_kind_in)
        else
          Continue (mk_aggregates value_in asset_amount_in asset_certs_in
                      old_symbol_in new_symbol_in business_kind_in,
                    asset_certs, 0)
    end
  else if output.is_asset_mit previous_output then
    let business_kind_in := business_kind.asset_mit in
    let new_symbol_in := output.get_asset_symbol previous_output in
    match latch_symbol old_symbol_in new_symbol_in with
    | None =>
        Return (mk_aggregates value_in asset_amount_in asset_certs_in
                  old_symbol_in new_symbol_in business_kind_in)
    | Some old_symbol_in =>
        Continue (mk_aggregates value_in asset_amount_in asset_certs_in
                    old_symbol_in new_symbol_in business_kind_in,
                  asset_cert_ns.none, 0)
    end
  else if output.is_did previous_output then
    (* 2. do did symbol check *)
    let new_symbol_in := output.get_did_symbol previous_output in
    match (if empty new_symbol_in then Some old_symbol_in
           else latch_symbol old_symbol_in new_symbol_in) with
    | None =>
        (* there are different did symbol in this transaction *)
        Return (mk_aggregates value_in asset_amount_in asset_certs_in
                  old_symbol_in new_symbol_in business_kind_in)
    | Some old_symbol_in =>
        (* 3. set business type *)
        let business_kind_in :=
          if output.is_did_register previous_output
          then business_kind.did_register
          else if output.is_did_transfer previous_output
          then business_kind.did_transfer
          else business_kind_in in
        Continue (mk_aggregates value_in asset_amount_in asset_certs_in
                    old_symbol_in new_symbol_in business_kind_in,
                  asset_cert_ns.none, 0)
    end
  else Continue (a, asset_cert_ns.none, 0).

(** [connect_input]: the result and the values left in the reference
    parameters. *)
Definition connect_input (tx : transaction.t) (current_input : nat)
    (previous_tx : transaction.t) (parent_height last_block_height : Z)
    (flags : Z) (a : aggregates) : outcome (bool * aggregates) :=
  match nth_error (transaction.inputs tx) current_input with
  | None => Assert_fail
  | Some input =>
  let previous_outpoint := input.previous_output input in
  if Z.of_nat (List.length (transaction.outputs previous_tx))
     <=? output_point.index previous_outpoint
  then Ret (false, a) (* output point index outof bounds! *) else
  match nth_error (transaction.outputs previous_tx)
          (Z.to_nat (output_point.index previous_outpoint)) with
  | None => Assert_fail
  | Some previous_output =>
  let output_value := output.value previous_output in
  if output_value >? max_money E
  then Ret (false, a) (* output etp value exceeds max amount! *) else
  match connect_input_kind previous_output a with
  | Return a => Ret (false, a)
  | Continue (a, asset_certs, asset_transfer_amount) =>
  if is_coinbase E previous_tx
     && (sub64 last_block_height parent_height <? coinbase_maturity E)
  then Ret (false, a) else
  (* check forbidden symbol *)
  if output.is_asset previous_output && is_forbidden E (new_symbol_in a)
  then Ret (false, a) else
  valid <- check_consensus (output.script previous_output) tx current_input
             flags ;;
  if negb valid then Ret (false, a) else
  let value_in := add64 (value_in a) output_value in
  let asset_amount_in := add64 (asset_amount_in a) asset_transfer_amount in
  let asset_certs_in :=
    if negb (asset_cert_ns.eqb asset_certs asset_cert_ns.none)
    then asset_certs_in a ++ [asset_certs] else asset_certs_in a in
  Ret (value_in <=? max_money E,
       mk_aggregates value_in asset_amount_in asset_certs_in
         (old_symbol_in a) (new_symbol_in a) (business_kind_in a))
  end
  end
  end.

(** [tally_fees]: the result and the new [total_fees]. *)
Definition tally_fees (tx : transaction.t) (value_in total_fees : Z)
    : bool * Z :=
  let value_out := transaction.total_output_value tx in
  if value_in <? value_out then (false, total_fees) else
  let fee := sub64 value_in value_out in
  if fee <? min_tx_fee then (false, total_fees) else
  let total_fees := add64 total_fees fee in
  (total_fees <=? max_money E, total_fees).

End Connect.

(** ** The validator object and its pipeline *)

(** The data members that a validation run writes; [aggregates_] groups
    [value_in_], [asset_amount_in_], [asset_certs_in_], [old_symbol_in_],
    [new_symbol_in_] and [business_kind_in_]. The constructor leaves the
    scalar members uninitialised, so a run starts from any [members]. *)
Record members : Set := mk_members {
  last_block_height_ : Z;
  current_input_ : nat;
  aggregates_ : aggregates;
  unconfirmed_ : list nat
}.

(** One invocation of [handle_validate_(ec, tx_, indexes)]. *)
Record verdict : Set := mk_verdict {
  verdict_code : code;
  verdict_indexes : list nat
}.

(** An asynchronous chain read, posted through the dispatcher together
    with the member function that receives its result. *)
Inductive request : Set :=
| fetch_transaction_duplicate (hash : hash_digest)
    (* handle_duplicate_check *)
| fetch_last_height
    (* set_last_height *)
| fetch_transaction_index (hash : hash_digest)
    (* previous_tx_index *)
| fetch_transaction_previous (hash : hash_digest) (parent_height : Z)
    (* handle_previous_tx *)
| fetch_spend (outpoint : output_point.t).
    (* check_double_spend *)

(** What a member function leaves behind: the members, the handler
    invocations it made, and the read it posted, if any. *)
Definition step : Set := members * list verdict * option request.

Definition handle_validate_ (m : members) (ec : code) (indexes : list nat)
    : step :=
  (m, [mk_verdict ec indexes], None).

Definition post (m : members) (r : request) : step := (m, [], Some r).

Section Pipeline.

Variable E : environment.
Variable blockchain_ : block_chain.t.
Variable tx_ : transaction.t.
Variable pool_ : transaction_pool.t.

Definition tx_hash_ : hash_digest := hash E tx_.

Definition is_standard : bool := true.

Definition basic_checks (chain : block_chain.t) : outcome code :=
  ec <- check_transaction E tx_ chain ;;
  if error.is_error ec then Ret ec else
  (* This should probably preceed check_transaction. *)
  if is_coinbase E tx_ then Ret error.coinbase_transaction else
  if negb is_standard then Ret error.is_not_standard else
  if transaction_pool.is_in_pool pool_ tx_hash_ then Ret error.duplicate else
  (* Check for blockchain duplicates in start (after this returns). *)
  Ret error.success.

Definition start (m : members) : outcome step :=
  ec <- basic_checks blockchain_ ;;
  if error.is_error ec then
    if error.eqb ec error.input_not_found
    then Ret (handle_validate_ m ec [current_input_ m])
    else Ret (handle_validate_ m ec [])
  else
    (* Check for duplicates in the blockchain. *)
    Ret (post m (fetch_transaction_duplicate tx_hash_)).

Definition handle_duplicate_check (m : members) (ec : code) : step :=
  if negb (error.eqb ec error.not_found)
  then handle_validate_ m error.duplicate [] else
  if transaction_pool.is_spent_in_pool pool_ tx_
  then handle_validate_ m error.double_spend [] else
  (* Check inputs, we already know it is not a coinbase tx. *)
  post m fetch_last_height.

Definition next_previous_transaction (m : members) : outcome step :=
  match nth_error (transaction.inputs tx_) (current_input_ m) with
  | None => Assert_fail
  | Some current_input =>
      (* First we fetch the parent block height for a transaction. *)
      Ret (post m (fetch_transaction_index
                     (output_point.hash (input.previous_output current_input))))
  end.

Definition set_last_height (m : members) (ec : code) (last_height : Z)
    : outcome step :=
  if error.is_error ec then Ret (handle_validate_ m ec []) else
  (* Used for checking coinbase maturity *)
  let m := mk_members last_height 0
             (mk_aggregates 0 0 [] "" "" business_kind.etp)
             (unconfirmed_ m) in
  (* Begin looping through the inputs, fetching the previous tx. *)
  match transaction.inputs tx_ with
  | [] => Ret (m, [], None)
  | _ :: _ => next_previous_transaction m
  end.

Definition handle_previous_tx (m : members) (ec : code)
    (previous_tx : transaction.t) (parent_height : Z) : outcome step :=
  if error.is_error ec
  then Ret (handle_validate_ m error.input_not_found [current_input_ m]) else
  (* Should check if inputs are standard here... *)
  r <- connect_input E tx_ (current_input_ m) previous_tx parent_height
         (last_block_height_ m) (all_enabled E) (aggregates_ m) ;;
  let (connected, a) := r in
  let m := mk_members (last_block_height_ m) (current_input_ m) a
             (unconfirmed_ m) in
  if negb connected
  then Ret (handle_validate_ m error.validate_inputs_failed
              [current_input_ m]) else
  (* Search for double spends... *)
  match nth_error (transaction.inputs tx_) (current_input_ m) with
  | None => Assert_fail
  | Some current_input =>
      Ret (post m (fetch_spend (input.previous_output current_input)))
  end.

(** [handle_previous_tx] posts its read and returns; the index is pushed
    on [unconfirmed_] before the posted read is served. *)
Definition search_pool_previous_tx (m : members) : outcome step :=
  match nth_error (transaction.inputs tx_) (current_input_ m) with
  | None => Assert_fail
  | Some current_input =>
      match transaction_pool.find pool_
              (output_point.hash (input.previous_output current_input)) with
      | None =>
          Ret (handle_validate_ m error.input_not_found [current_input_ m])
      | Some previous_tx =>
          (* parent_height ignored here as mempool transactions cannot be
             coinbase. *)
          if is_coinbase E previous_tx then Assert_fail else
          let parent_height := 0 in
          r <- handle_previous_tx m error.success previous_tx parent_height ;;
          let '(m, verdicts, posted) := r in
          Ret (mk_members (last_block_height_ m) (current_input_ m)
                 (aggregates_ m) (unconfirmed_ m ++ [current_input_ m]),
               verdicts, posted)
      end
  end.

Definition previous_tx_index (m : members) (ec : code) (parent_height : Z)
    : outcome step :=
  if error.is_error ec then search_pool_previous_tx m else
  match nth_error (transaction.inputs tx_) (current_input_ m) with
  | None => Assert_fail
  | Some current_input =>
      let prev_tx_hash :=
        output_point.hash (input.previous_output current_input) in
      (* Now fetch actual transaction body *)
      Ret (post m (fetch_transaction_previous prev_tx_hash parent_height))
  end.

Definition check_asset_amount (m : members) (tx : transaction.t) : bool :=
  let asset_amount_out := transaction.total_output_transfer_amount tx in
  (* asset amount must be equal *)
  if negb (asset_amount_in (aggregates_ m) =? asset_amount_out) then false
  else true.

(** The loop of [check_asset_symbol] and of [check_did_symbol_match] over
    the symbols of the outputs; the local is [old_symbol]. *)
Definition symbol_match_body (symbol_of : output.t -> string)
    (elem : output.t) (old_symbol : string) : flow bool string :=
  let new_symbol := symbol_of elem in
  if negb (empty new_symbol) then
    if empty old_symbol then Continue new_symbol
    else if negb (String.eqb old_symbol new_symbol)
    then Return false (* different asset in outputs *)
    else Continue old_symbol
  else Continue old_symbol.

Definition check_asset_symbol (m : members) (tx : transaction.t) : bool :=
  (* check asset symbol in out *)
  match for_each (symbol_match_body output.get_asset_symbol)
          (transaction.outputs tx) "" with
  | Return b => b
  | Continue old_symbol =>
      (* symbol in input and output not match *)
      if negb (String.eqb old_symbol (old_symbol_in (aggregates_ m)))
      then false else true
  end.

(** The locals of the loop of [check_asset_certs] are
    [(is_cert_transfer, asset_certs_out)]. *)
Definition check_asset_certs_body (m : members) (o : output.t)
    (l : bool * list asset_cert_type)
    : flow bool (bool * list asset_cert_type) :=
  let (is_cert_transfer, asset_certs_out) := l in
  if output.is_asset_cert o then
    let asset_cert := output.get_asset_cert o in
    let cert_type := asset_cert.get_type asset_cert in
    let is_cert_transfer :=
      match asset_cert.get_status asset_cert with
      | asset_cert.ASSET_CERT_TRANSFER_TYPE => true
      | _ => is_cert_transfer
      end in
    if asset_cert.test_certs asset_certs_out cert_type
    then Return false (* double certs exists *) else
    (* check asset cert symbol *)
    if (if asset_cert.test_certs (asset_certs_in (aggregates_ m))
             asset_cert_ns.domain
        then negb (String.eqb
                     (asset_cert.get_domain (asset_cert.get_symbol asset_cert))
                     (old_symbol_in (aggregates_ m)))
        else negb (String.eqb (old_symbol_in (aggregates_ m))
                     (asset_cert.get_symbol asset_cert)))
    then Return false else
    Continue (is_cert_transfer, asset_certs_out ++ [cert_type])
  else if negb (empty (output.get_asset_symbol o)) then
    Continue l (* asset related *)
  else if negb (output.is_etp o) && negb (output.is_message o) then
    (* asset cert transfer tx only related to asset_cert and etp output *)
    Return false
  else Continue l.

Definition check_asset_certs (m : members) (tx : transaction.t) : bool :=
  match for_each (check_asset_certs_body m) (transaction.outputs tx)
          (false, []) with
  | Return b => b
  | Continue (is_cert_transfer, asset_certs_out) =>
      if is_cert_transfer
         && (negb (Nat.eqb (List.length (asset_certs_in (aggregates_ m))) 1)
             || negb (Nat.eqb (List.length asset_certs_out) 1))
      then false
      else asset_cert.test_certs_all asset_certs_out
             (asset_certs_in (aggregates_ m))
  end.

(** The local of the loop of [check_asset_mit] is [num_mit]. *)
Definition check_asset_mit_body (m : members) (o : output.t) (num_mit : Z)
    : flow bool Z :=
  if output.is_asset_mit_transfer o then
    let num_mit := num_mit + 1 in
    if num_mit >? 1 then Return false else
    let asset_info := output.get_asset_mit o in
    if negb (String.eqb (old_symbol_in (aggregates_ m))
               (asset_mit.get_symbol asset_info))
    then Return false
    else Continue num_mit
  else if negb (output.is_etp o) && negb (output.is_message o) then
    Return false
  else Continue num_mit.

Definition check_asset_mit (m : members) (tx : transaction.t) : bool :=
  match for_each (check_asset_mit_body m) (transaction.outputs tx) 0 with
  | Return b => b
  | Continue num_mit => num_mit =? 1
  end.

Definition check_did_symbol_match (m : members) (tx : transaction.t)
    : bool :=
  (* check did symbol in out *)
  match for_each (symbol_match_body output.get_did_symbol)
          (transaction.outputs tx) "" with
  | Return b => b
  | Continue old_symbol =>
      (* symbol in input and output not match *)
      if negb (String.eqb old_symbol (old_symbol_in (aggregates_ m)))
      then false else true
  end.

Definition check_fees (m : members) : step :=
  let fee := 0 in
  let (tallied, fee) := tally_fees E tx_ (value_in (aggregates_ m)) fee in
  if negb tallied then handle_validate_ m error.fees_out_of_range [] else
  let kind := business_kind_in (aggregates_ m) in
  let is_asset_type :=
    business_kind.eqb kind business_kind.asset_issue
    || business_kind.eqb kind business_kind.asset_transfer in
  let conservation_error :=
    if is_asset_type then
      if has_asset_transfer E tx_ then
        if negb (check_asset_amount m tx_)
        then Some error.asset_amount_not_equal
        else if negb (check_asset_symbol m tx_)
        then Some error.asset_symbol_not_match
        else None
      else None
    else if business_kind.eqb kind business_kind.asset_cert then
      if negb (check_asset_certs m tx_) then Some error.asset_cert_error
      else None
    else if business_kind.eqb kind business_kind.asset_mit then
      if negb (check_asset_mit m tx_) then Some error.mit_error else None
    else None in
  match conservation_error with
  | Some ec => handle_validate_ m ec []
  | None =>
      let is_did_type :=
        business_kind.eqb kind business_kind.did_register
        || business_kind.eqb kind business_kind.did_transfer in
      if is_did_type && has_did_transfer E tx_
         && negb (check_did_symbol_match m tx_)
      then handle_validate_ m error.did_symbol_not_match []
      else handle_validate_ m error.success (unconfirmed_ m)
  end.

Definition check_double_spend (m : members) (ec : code) : outcome step :=
  if negb (error.eqb ec error.unspent_output)
  then Ret (handle_validate_ m error.double_spend []) else
  (* End of connect_input checks. *)
  let m := mk_members (last_block_height_ m) (S (current_input_ m))
             (aggregates_ m) (unconfirmed_ m) in
  if Nat.ltb (current_input_ m) (List.length (transaction.inputs tx_))
  then next_previous_transaction m
  else
    (* current_input_ will be invalid on last pass. *)
    Ret (check_fees m).

(** The chain serves a read and calls the member function bound to it. *)
Definition serve (m : members) (r : request) : outcome step :=
  match r with
  | fetch_transaction_duplicate hash =>
      let (ec, _) := block_chain.fetch_transaction blockchain_ hash in
      Ret (handle_duplicate_check m ec)
  | fetch_last_height =>
      let (ec, last_height) := block_chain.fetch_last_height blockchain_ in
      set_last_height m ec last_height
  | fetch_transaction_index hash =>
      let (ec, parent_height) :=
        block_chain.fetch_transaction_index blockchain_ hash in
      previous_tx_index m ec parent_height
  | fetch_transaction_previous hash parent_height =>
      let (ec, previous_tx) :=
        block_chain.fetch_transaction blockchain_ hash in
      handle_previous_tx m ec previous_tx parent_height
  | fetch_spend outpoint =>
      check_double_spend m (block_chain.fetch_spend blockchain_ outpoint)
  end.

(** The dispatcher: serve the pending read until none is posted. [None] is
    a run that still has a read pending after [fuel] of them. *)
Fixpoint run (fuel : nat) (s : step)
    : outcome (option (members * list verdict)) :=
  let '(m, verdicts, posted) := s in
  match posted with
  | None => Ret (Some (m, verdicts))
  | Some r =>
      match fuel with
      | O => Ret None
      | S fuel =>
          s' <- serve m r ;;
          let '(m', verdicts', posted') := s' in
          run fuel (m', verdicts ++ verdicts', posted')
      end
  end.

(** A whole validation: [start] and every callback it leads to. Two reads
    precede the inputs and each input takes three. *)
Definition validate (m : members)
    : outcome (option (members * list verdict)) :=
  s <- start m ;;
  run (2 + 3 * List.length (transaction.inputs tx_)) s.

End Pipeline.

(** ** Previous outputs and input totals, for the statements *)

Section Resolution.

Variable blockchain_ : block_chain.t.
Variable pool_ : transaction_pool.t.

(** The previous transaction and parent height that the pipeline hands to
    [connect_input] for an input: the confirmed one when the chain knows
    the hash ([previous_tx_index], then [handle_previous_tx]), else the
    pooled one with height 0 ([search_pool_previous_tx]). *)
Definition resolve_previous_tx (i : input.t) : option (transaction.t * Z) :=
  let hash := output_point.hash (input.previous_output i) in
  let (ec, parent_height) :=
    block_chain.fetch_transaction_index blockchain_ hash in
  if error.is_error ec then
    match transaction_pool.find pool_ hash with
    | Some previous_tx => Some (previous_tx, 0)
    | None => None
    end
  else
    let (ec, previous_tx) := block_chain.fetch_transaction blockchain_ hash in
    if error.is_error ec then None else Some (previous_tx, parent_height).

(** The output that a transaction's input points at. *)
Definition output_at (previous_tx : transaction.t) (i : input.t)
    : option output.t :=
  let index := output_point.index (input.previous_output i) in
  if Z.of_nat (List.length (transaction.outputs previous_tx)) <=? index
  then None
  else nth_error (transaction.outputs previous_tx) (Z.to_nat index).

Definition resolved_previous_output (i : input.t) : option output.t :=
  match resolve_previous_tx i with
  | Some (previous_tx, _) => output_at previous_tx i
  | None => None
  end.

(** The asset amount that an input brings in: the amount of its previous
    output when that is an asset output. *)
Definition input_asset_amount (i : input.t) : Z :=
  match resolved_previous_output i with
  | Some previous_output =>
      if output.is_asset previous_output
      then output.get_asset_amount previous_output else 0
  | None => 0
  end.

(** The exact sum of the asset amounts over the resolved previous outputs
    of a transaction. *)
Definition sum_input_asset_amount (tx : transaction.t) : Z :=
  fold_right (fun i total => input_asset_amount i + total) 0
    (transaction.inputs tx).

End Resolution.

(** The exact sum of the asset-transfer amounts over the outputs. *)
Definition sum_output_transfer_amount (tx : transaction.t) : Z :=
  fold_right
    (fun o total =>
       (if output.is_asset_transfer o then output.get_asset_amount o else 0)
       + total)
    0 (transaction.outputs tx).

(** The symbol rule of a certificate input, as a proposition: with a
    domain certificate among the inputs so far the certificate's symbol is
    the domain of [old_symbol_in], otherwise it is [old_symbol_in]. *)
Definition cert_symbol_rule (a : aggregates) (po : output.t) : Prop :=
  if asset_cert.test_certs (asset_certs_in a) asset_cert_ns.domain
  then output.get_asset_cert_symbol po
       = asset_cert.get_domain (old_symbol_in a)
  else output.get_asset_symbol po = old_symbol_in a.

(** An input spends an output according to the synchronous chain lookup of
    the stateless checks. *)
Definition spends (chain : block_chain.t) (i : input.t) (o : output.t)
    : Prop :=
  exists prev_tx prev_height,
    block_chain.get_transaction chain
      (output_point.hash (input.previous_output i))
    = Some (prev_tx, prev_height)
    /\ at_ (transaction.outputs prev_tx)
         (output_point.index (input.previous_output i)) = Ret o.

(** ** Invariants of a run, for the proofs *)

Section RunInvariant.

Variable blockchain_ : block_chain.t.
Variable tx_ : transaction.t.
Variable pool_ : transaction_pool.t.

(** The exact sum of the asset amounts that the first [k] inputs bring. *)
Definition prefix_asset_amount (k : nat) : Z :=
  fold_right (fun i total => input_asset_amount blockchain_ pool_ i + total)
    0 (firstn k (transaction.inputs tx_)).

(** What holds of the members once [k] inputs are connected. *)
Definition loop_invariant (m : members) (k : nat) : Prop :=
  asset_amount_in (aggregates_ m) = wrap64 (prefix_asset_amount k)
  /\ 0 <= value_in (aggregates_ m) <= max_uint64.

(** [hash] is the hash that the current input points at. *)
Definition current_hash (m : members) (hash : hash_digest) : Prop :=
  exists i,
    nth_error (transaction.inputs tx_) (current_input_ m) = Some i
    /\ hash = output_point.hash (input.previous_output i).

(** What holds of the members while a read is pending. *)
Definition request_invariant (m : members) (r : request) : Prop :=
  match r with
  | fetch_transaction_duplicate _ | fetch_last_height => True
  | fetch_transaction_index hash =>
      loop_invariant m (current_input_ m) /\ current_hash m hash
  | fetch_transaction_previous hash parent_height =>
      loop_invariant m (current_input_ m) /\ current_hash m hash
      /\ exists ec,
           block_chain.fetch_transaction_index blockchain_ hash
           = (ec, parent_height)
           /\ error.is_error ec = false
  | fetch_spend _ =>
      loop_invariant m (S (current_input_ m))
      /\ (current_input_ m < List.length (transaction.inputs tx_))%nat
  end.

(** An upper bound on the reads that are still to be served. *)
Definition reads_left (m : members) (r : request) : nat :=
  let n := List.length (transaction.inputs tx_) in
  match r with
  | fetch_transaction_duplicate _ => 2 + 3 * n
  | fetch_last_height => 1 + 3 * n
  | fetch_transaction_index _ => 3 * (n - current_input_ m)
  | fetch_transaction_previous _ _ => 3 * (n - current_input_ m) - 1
  | fetch_spend _ => 3 * (n - current_input_ m) - 2
  end.

End RunInvariant.

(** A step that ends the run with one verdict, which is an error. *)
Definition fails (s : step) : Prop :=
  exists m c indexes,
    s = (m, [mk_verdict c indexes], None) /\ c <> error.success.

(** The certificate of the output is one in transfer. *)
Definition is_cert_transfer_output (o : output.t) : bool :=
  output.is_asset_cert o
  && match asset_cert.get_status (output.get_asset_cert o) with
     | asset_cert.ASSET_CERT_TRANSFER_TYPE => true
     | _ => false
     end.

(** What [check_asset_certs] asks of one output. *)
Definition cert_output_rule (m : members) (o : output.t) : Prop :=
  if output.is_asset_cert o then
    if asset_cert.test_certs (asset_certs_in (aggregates_ m))
         asset_cert_ns.domain
    then asset_cert.get_domain
           (asset_cert.get_symbol (output.get_asset_cert o))
         = old_symbol_in (aggregates_ m)
    else asset_cert.get_symbol (output.get_asset_cert o)
         = old_symbol_in (aggregates_ m)
  else output.get_asset_symbol o <> ""
       \/ output.is_etp o = true \/ output.is_message o = true.

(** The exact sum of the etp values of the outputs. *)
Definition sum_output_value (tx : transaction.t) : Z :=
  fold_right (fun o total => output.value o + total) 0
    (transaction.outputs tx).

(** The confirmed height that [check_transaction_basic] reads, 0 when the
    chain gives none. *)
Definition current_blockheight (chain : block_chain.t) : Z :=
  match block_chain.get_last_height chain with
  | Some height => height
  | None => 0
  end.

(** ** What an accepted transaction went through, for the statements *)

(** The business kind that [connect_input] leaves after an input that
    spends [po], from the kind [previous] before it. *)
Definition output_business_kind (po : output.t) (previous : business_kind.t)
    : business_kind.t :=
  if output.is_asset_issue po || output.is_asset_secondaryissue po
  then business_kind.asset_issue
  else if output.is_asset_transfer po then business_kind.did_transfer
  else if output.is_asset_cert po then business_kind.asset_cert
  else if output.is_asset_mit po then business_kind.asset_mit
  else if output.is_did_register po then business_kind.did_register
  else if output.is_did_transfer po then business_kind.did_transfer
  else previous.

(** The symbol that an asset, MIT or did output brings to [old_symbol_in];
    a certificate follows the rule of its own, [cert_symbol_rule]. *)
Definition output_symbol (po : output.t) : string :=
  if output.is_asset po || output.is_asset_mit po
  then output.get_asset_symbol po
  else if output.is_did po then output.get_did_symbol po
  else "".

(** The certificate type that an output adds to [asset_certs_in]. *)
Definition output_certs (po : output.t) : list asset_cert_type :=
  if output.is_asset_cert po
     && negb (asset_cert_ns.eqb (output.get_asset_cert_type po)
                asset_cert_ns.none)
  then [output.get_asset_cert_type po] else [].

Definition sum_Z (l : list Z) : Z := fold_right Z.add 0 l.

Section Admission.

Variable E : environment.
Variable blockchain_ : block_chain.t.
Variable tx_ : transaction.t.
Variable pool_ : transaction_pool.t.

(** The chain does not know the previous transaction of the input, so
    [previous_tx_index] turns to the pool. *)
Definition resolved_from_pool (i : input.t) : bool :=
  error.is_error
    (fst (block_chain.fetch_transaction_index blockchain_
            (output_point.hash (input.previous_output i)))).

(** The positions, among the first [k] inputs, of those resolved from the
    pool. *)
Definition pool_indexes (k : nat) : list nat :=
  filter
    (fun j =>
       match nth_error (transaction.inputs tx_) j with
       | Some i => resolved_from_pool i
       | None => false
       end)
    (seq 0 k).

(** What [search_pool_previous_tx] and [connect_input] have checked of the
    input at position [k]. *)
Definition input_connected (last_block_height : Z) (k : nat) (i : input.t)
    : Prop :=
  exists previous_tx parent_height po,
    resolve_previous_tx blockchain_ pool_ i = Some (previous_tx, parent_height)
    /\ output_at previous_tx i = Some po
    /\ output.value po <= max_money E
    /\ (is_coinbase E previous_tx = true ->
        resolved_from_pool i = false
        /\ coinbase_maturity E <= sub64 last_block_height parent_height)
    /\ (output.is_asset po = true ->
        is_forbidden E (output.get_asset_symbol po) = false)
    /\ verify E (input.script i) (output.script po) tx_
         (wrap32 (Z.of_nat k)) (all_enabled E) = true.

(** The etp value that an input brings in. *)
Definition input_value (i : input.t) : Z :=
  match resolved_previous_output blockchain_ pool_ i with
  | Some po => output.value po
  | None => 0
  end.

Definition input_certs (i : input.t) : list asset_cert_type :=
  match resolved_previous_output blockchain_ pool_ i with
  | Some po => output_certs po
  | None => []
  end.

Definition input_symbol (i : input.t) : string :=
  match resolved_previous_output blockchain_ pool_ i with
  | Some po => output_symbol po
  | None => ""
  end.

Definition input_business_kind (previous : business_kind.t) (i : input.t)
    : business_kind.t :=
  match resolved_previous_output blockchain_ pool_ i with
  | Some po => output_business_kind po previous
  | None => previous
  end.

(** One input as the pipeline takes it from [previous_tx_index] to the end
    of [handle_previous_tx]: [None] when its previous transaction is not
    found or [connect_input] refuses it, else the new aggregates. *)
Definition connect_resolved (last_block_height : Z) (k : nat) (i : input.t)
    (a : aggregates) : outcome (option aggregates) :=
  match resolve_previous_tx blockchain_ pool_ i with
  | None => Ret None
  | Some (previous_tx, parent_height) =>
      if resolved_from_pool i && is_coinbase E previous_tx then Assert_fail
      else
        r <- connect_input E tx_ k previous_tx parent_height
               last_block_height (all_enabled E) a ;;
        let (connected, a') := r in
        Ret (if connected then Some a' else None)
  end.

(** The inputs from position [k] on, connected one after the other. *)
Fixpoint connect_inputs (last_block_height : Z) (inputs_left : list input.t)
    (k : nat) (a : aggregates) : outcome (option aggregates) :=
  match inputs_left with
  | [] => Ret (Some a)
  | i :: rest =>
      r <- connect_resolved last_block_height k i a ;;
      match r with
      | None => Ret None
      | Some a' => connect_inputs last_block_height rest (S k) a'
      end
  end.

(** The exact totals over the first [k] inputs. *)
Definition prefix_value (k : nat) : Z :=
  sum_Z (map input_value (firstn k (transaction.inputs tx_))).

Definition prefix_certs (k : nat) : list asset_cert_type :=
  flat_map input_certs (firstn k (transaction.inputs tx_)).

Definition prefix_business_kind (k : nat) : business_kind.t :=
  fold_left input_business_kind (firstn k (transaction.inputs tx_))
    business_kind.etp.

(** What holds of the members once [k] inputs are connected. *)
Definition connected_prefix (m : members) (k : nat) : Prop :=
  (forall j i, (j < k)%nat ->
     nth_error (transaction.inputs tx_) j = Some i ->
     input_connected (last_block_height_ m) j i)
  /\ value_in (aggregates_ m) = wrap64 (prefix_value k)
  /\ (forall j, (0 < j <= k)%nat -> wrap64 (prefix_value j) <= max_money E)
  /\ asset_certs_in (aggregates_ m) = prefix_certs k
  /\ NoDup (prefix_certs k)
  /\ business_kind_in (aggregates_ m) = prefix_business_kind k
  /\ (forall j i, (j < k)%nat ->
        nth_error (transaction.inputs tx_) j = Some i ->
        input_symbol i = "" \/ input_symbol i = old_symbol_in (aggregates_ m))
  /\ connect_inputs (last_block_height_ m)
       (firstn k (transaction.inputs tx_)) 0
       (mk_aggregates 0 0 [] "" "" business_kind.etp)
     = Ret (Some (aggregates_ m)).

(** The chain reports each of the first [k] previous outputs unspent. *)
Definition unspent_prefix (k : nat) : Prop :=
  forall j i, (j < k)%nat ->
    nth_error (transaction.inputs tx_) j = Some i ->
    block_chain.fetch_spend blockchain_ (input.previous_output i)
    = error.unspent_output.

(** What [handle_duplicate_check] has established. *)
Definition not_known : Prop :=
  fst (block_chain.fetch_transaction blockchain_ (tx_hash_ E tx_))
  = error.not_found
  /\ transaction_pool.is_spent_in_pool pool_ tx_ = false.

(** What [set_last_height] has established. *)
Definition height_known (m : members) : Prop :=
  error.is_error (fst (block_chain.fetch_last_height blockchain_)) = false
  /\ last_block_height_ m = snd (block_chain.fetch_last_height blockchain_).

(** What holds of the members while a read is pending, in a run that
    started with [unconfirmed_] at [u0]. *)
Definition admission_invariant (u0 : list nat) (m : members) (r : request)
    : Prop :=
  match r with
  | fetch_transaction_duplicate hash =>
      hash = tx_hash_ E tx_ /\ unconfirmed_ m = u0
  | fetch_last_height => not_known /\ unconfirmed_ m = u0
  | fetch_transaction_index _ | fetch_transaction_previous _ _ =>
      not_known /\ height_known m
      /\ connected_prefix m (current_input_ m)
      /\ unspent_prefix (current_input_ m)
      /\ unconfirmed_ m = u0 ++ pool_indexes (current_input_ m)
  | fetch_spend outpoint =>
      not_known /\ height_known m
      /\ connected_prefix m (S (current_input_ m))
      /\ unspent_prefix (current_input_ m)
      /\ unconfirmed_ m = u0 ++ pool_indexes (S (current_input_ m))
      /\ exists i,
           nth_error (transaction.inputs tx_) (current_input_ m) = Some i
           /\ outpoint = input.previous_output i
  end.

(** What holds of the members when [check_fees] is reached. *)
Definition admitted (u0 : list nat) (m : members) : Prop :=
  let n := List.length (transaction.inputs tx_) in
  not_known /\ height_known m
  /\ current_input_ m = n
  /\ connected_prefix m n
  /\ unspent_prefix n
  /\ unconfirmed_ m = u0 ++ pool_indexes n.

End Admission.

(** The exact sum of the etp values over the resolved previous outputs of
    a transaction. *)
Definition sum_input_value (chain : block_chain.t) (pool : transaction_pool.t)
    (tx : transaction.t) : Z :=
  sum_Z (map (input_value chain pool) (transaction.inputs tx)).

(** ** Inputs that the validator can follow without throwing *)

(** Every input whose previous transaction the synchronous lookup finds
    points at one of its outputs. *)
Definition indexes_in_range (chain : block_chain.t) (tx : transaction.t)
    : Prop :=
  forall i prev_tx prev_height,
    In i (transaction.inputs tx) ->
    block_chain.get_transaction chain
      (output_point.hash (input.previous_output i))
    = Some (prev_tx, prev_height) ->
    0 <= output_point.index (input.previous_output i)
      < Z.of_nat (List.length (transaction.outputs prev_tx)).

(** What the assertions of the pipeline rely on: output indexes are not
    negative and input positions fit in 32 bits, as their C++ types have
    it, and the pool holds no coinbase for an input to spend. *)
Definition assertions_hold (E : environment) (tx : transaction.t)
    (pool : transaction_pool.t) : Prop :=
  (forall i, In i (transaction.inputs tx) ->
     0 <= output_point.index (input.previous_output i))
  /\ Z.of_nat (List.length (transaction.inputs tx)) <= max_uint32 + 1
  /\ (forall i previous_tx,
        In i (transaction.inputs tx) ->
        transaction_pool.find pool
          (output_point.hash (input.previous_output i)) = Some previous_tx ->
        is_coinbase E previous_tx = false).

(** ** Kinds of outputs, for the statements about the per-feature checks *)

(** The output carries a certificate of type [t]. *)
Definition is_cert_of (t : asset_cert_type) (o : output.t) : bool :=
  output.is_asset_cert o
  && asset_cert_ns.eqb (output.get_asset_cert_type o) t.

Definition is_domain_or_naming_cert (o : output.t) : bool :=
  is_cert_of asset_cert_ns.domain o || is_cert_of asset_cert_ns.naming o.

Definition is_etp_or_message (o : output.t) : bool :=
  output.is_etp o || output.is_message o.

(** What holds of the locals of [check_asset_cert_issue_transaction] after
    the outputs [done]. *)
Definition cert_issue_invariant (chain : block_chain.t)
    (done : list output.t) (l : cert_issue_locals) : Prop :=
  ((filter output.is_asset_cert_issue done = []
    /\ ci_num_asset_cert_issue l = 0
    /\ ci_issue_cert_type l = asset_cert_ns.none)
   \/ exists o,
        filter output.is_asset_cert_issue done = [o]
        /\ ci_num_asset_cert_issue l = 1
        /\ ci_issue_cert_type l = output.get_asset_cert_type o
        /\ ci_cert_symbol l = output.get_asset_cert_symbol o
        /\ block_chain.is_asset_cert_exist chain
             (output.get_asset_cert_symbol o) (output.get_asset_cert_type o)
           = false)
  /\ (forall o',
        In o' done ->
        output.is_asset_cert_issue o' = true
        \/ (is_cert_of asset_cert_ns.domain o' = true
            /\ ci_issue_cert_type l = asset_cert_ns.naming
            /\ (exists d,
                  block_chain.get_registered_did chain
                    (output.get_asset_cert_owner o') = Some d
                  /\ asset_cert.get_address (output.get_asset_cert o')
                     = did_detail.get_address d))
        \/ is_etp_or_message o' = true)
  /\ ci_num_asset_cert_domain l
     = Z.of_nat
         (List.length
            (filter (fun o' => negb (output.is_asset_cert_issue o')
                               && output.is_asset_cert o') done))
  /\ ci_num_asset_cert_domain l <= 1
  /\ (In asset_cert_ns.domain (ci_cert_type l) ->
      exists o',
        In o' done /\ output.is_asset_cert_issue o' = false
        /\ is_cert_of asset_cert_ns.domain o' = true).

(** The strings that successive calls of [check_same] let through, from an
    empty [dest] to [dest = final]: empty ones, then [final] only, which
    is the last of them. *)
Definition check_same_run (srcs : list string) (final : string) : Prop :=
  final = last srcs ""
  /\ exists empties same,
       srcs = empties ++ same
       /\ Forall (fun s => s = "") empties
       /\ Forall (fun s => s = final) same.

(** The addresses that [check_asset_mit_register_transaction] hands to
    [check_same], in output order. *)
Definition mit_register_addresses (outs : list output.t) : list string :=
  map (fun o => asset_mit.get_address (output.get_asset_mit o))
    (filter output.is_asset_mit_register outs).

(** What holds of the locals [(asset_symbol, asset_address)] of
    [check_asset_mit_register_transaction] after the outputs [done]. *)
Definition mit_register_invariant (chain : block_chain.t)
    (done : list output.t) (l : string * string) : Prop :=
  (forall o,
     In o done ->
     (output.is_asset_mit_register o = true
      /\ block_chain.get_registered_mit chain
           (asset_mit.get_symbol (output.get_asset_mit o)) = None)
     \/ is_etp_or_message o = true)
  /\ check_same_run (mit_register_addresses done) (snd l).

(** What [check_did_output] asks of one output. *)
Definition did_output_rule (E : environment) (tx : transaction.t)
    (chain : block_chain.t) (o : output.t) : Prop :=
  check_attachment_address E o chain = error.success
  /\ check_attachment_did_match_address E o chain = error.success
  /\ (attachment.get_from_did (output.attach_data o) = ""
      \/ exists i po,
           In i (transaction.inputs tx) /\ spends chain i po
           /\ block_chain.get_did_from_address chain
                (output.get_script_address po)
              = attachment.get_from_did (output.attach_data o))
  /\ (output.is_did_register o = true ->
      block_chain.is_valid_address chain (output.get_did_symbol o) = false
      /\ block_chain.is_did_exist chain (output.get_did_symbol o) = false
      /\ block_chain.is_address_registered_did chain
           (output.get_did_address o) = false
      /\ exists i po,
           In i (transaction.inputs tx) /\ spends chain i po
           /\ output.is_etp po = true
           /\ output.get_script_address po = output.get_did_address o)
  /\ (output.is_did_transfer o = true ->
      block_chain.is_did_exist chain (output.get_did_symbol o) = true
      /\ block_chain.is_address_registered_did chain
           (output.get_did_address o) = false)
  /\ (output.is_asset_issue o || output.is_asset_secondaryissue o = true ->
      attachment.get_version (output.attach_data o)
      = DID_ATTACH_VERIFY_VERSION E ->
      output.get_asset_issuer o
      = attachment.get_to_did (output.attach_data o))
  /\ (output.is_asset_cert o = true ->
      attachment.get_version (output.attach_data o)
      = DID_ATTACH_VERIFY_VERSION E ->
      output.get_asset_cert_owner o
      = attachment.get_to_did (output.attach_data o)).

(** The symbol and the address that the loop of
    [check_secondaryissue_transaction] hands to [check_same] for an
    output: the symbol of a secondary issue, of a transfer and of an issue
    certificate, the address of a secondary issue and of a transfer. *)
Definition secondaryissue_symbol (o : output.t) : list string :=
  if output.is_asset_secondaryissue o
  then [asset_detail.get_symbol (output.get_asset_detail o)]
  else if output.is_asset_transfer o
  then [asset_transfer.get_symbol (output.get_asset_transfer o)]
  else if is_cert_of asset_cert_ns.issue o
  then [asset_cert.get_symbol (output.get_asset_cert o)]
  else [].

Definition secondaryissue_address (o : output.t) : list string :=
  if output.is_asset_secondaryissue o
  then [asset_detail.get_address (output.get_asset_detail o)]
  else if output.is_asset_transfer o
  then [output.get_script_address o]
  else [].

(** What the loop of [check_secondaryissue_transaction] asks of one
    output by itself. *)
Definition secondaryissue_output_rule (E : environment) (o : output.t)
    : Prop :=
  (output.is_asset_secondaryissue o = true
   /\ asset_detail.is_asset_secondaryissue (output.get_asset_detail o) = true
   /\ is_secondaryissue_threshold_value_ok E (output.get_asset_detail o)
      = true
   /\ attenuation_model_param_ok E o
        (asset_detail.get_maximum_supply (output.get_asset_detail o)) = true)
  \/ output.is_asset_transfer o = true
  \/ is_cert_of asset_cert_ns.issue o = true
  \/ is_etp_or_message o = true.

(** What holds of the locals of [check_secondaryissue_transaction] after
    the outputs [done]. *)
Definition secondaryissue_invariant (E : environment)
    (done : list output.t) (l : secondaryissue_locals) : Prop :=
  si_num_asset_secondaryissue l
  = Z.of_nat (List.length (filter output.is_asset_secondaryissue done))
  /\ si_num_asset_secondaryissue l <= 1
  /\ si_num_asset_cert l
     = Z.of_nat (List.length (filter output.is_asset_cert done))
  /\ si_num_asset_cert l <= 1
  /\ (forall o, In o done -> secondaryissue_output_rule E o)
  /\ check_same_run (flat_map secondaryissue_symbol done) (si_asset_symbol l)
  /\ check_same_run (flat_map secondaryissue_address done)
       (si_asset_address l)
  /\ (In asset_cert_ns.issue (si_certs_out l) ->
      exists o, In o done /\ is_cert_of asset_cert_ns.issue o = true).

(** ** Rejections of the pipeline, for the statements *)

Section Rejection.

Variable E : environment.
Variable blockchain_ : block_chain.t.
Variable tx_ : transaction.t.
Variable pool_ : transaction_pool.t.

(** The first [k] inputs connect one after the other at the last height of
    the chain, from the aggregates that [set_last_height] leaves, and end
    with the aggregates [a]. *)
Definition connected_up_to (k : nat) (a : aggregates) : Prop :=
  connect_inputs E blockchain_ tx_ pool_
    (snd (block_chain.fetch_last_height blockchain_))
    (firstn k (transaction.inputs tx_)) 0
    (mk_aggregates 0 0 [] "" "" business_kind.etp)
  = Ret (Some a).

(** The verdict of [search_pool_previous_tx] or [handle_previous_tx] on
    the input [i] at position [k], reached with the aggregates [a]:
    [input_not_found] when neither the chain nor the pool gives its
    previous transaction, [validate_inputs_failed] when [connect_input]
    refuses it; either way with the index [k] and no other. *)
Definition input_rejection (k : nat) (i : input.t) (a : aggregates)
    (v : verdict) : Prop :=
  verdict_indexes v = [k]
  /\ ((verdict_code v = error.input_not_found
       /\ resolve_previous_tx blockchain_ pool_ i = None)
      \/ (verdict_code v = error.validate_inputs_failed
          /\ exists previous_tx parent_height a',
               resolve_previous_tx blockchain_ pool_ i
               = Some (previous_tx, parent_height)
               /\ connect_input E tx_ k previous_tx parent_height
                    (snd (block_chain.fetch_last_height blockchain_))
                    (all_enabled E) a
                  = Ret (false, a'))).

(** The verdicts of the pipeline that are no success, by the callback that
    gives them, with [m'] the members at the end:
    [handle_duplicate_check], [set_last_height], then for the first input
    that fails [search_pool_previous_tx] or [handle_previous_tx] and
    [check_double_spend], and at last [check_fees]. *)
Definition pipeline_rejection (m' : members) (v : verdict) : Prop :=
  (verdict_indexes v = [] /\ verdict_code v = error.duplicate
   /\ fst (block_chain.fetch_transaction blockchain_ (tx_hash_ E tx_))
      <> error.not_found)
  \/ (verdict_indexes v = [] /\ verdict_code v = error.double_spend
      /\ fst (block_chain.fetch_transaction blockchain_ (tx_hash_ E tx_))
         = error.not_found
      /\ transaction_pool.is_spent_in_pool pool_ tx_ = true)
  \/ (verdict_indexes v = []
      /\ verdict_code v = fst (block_chain.fetch_last_height blockchain_)
      /\ error.is_error (fst (block_chain.fetch_last_height blockchain_))
         = true
      /\ not_known E blockchain_ tx_ pool_)
  \/ (not_known E blockchain_ tx_ pool_
      /\ error.is_error (fst (block_chain.fetch_last_height blockchain_))
         = false
      /\ ((exists k i a,
             nth_error (transaction.inputs tx_) k = Some i
             /\ connected_up_to k a
             /\ unspent_prefix blockchain_ tx_ k
             /\ input_rejection k i a v)
          \/ (exists k i a,
                nth_error (transaction.inputs tx_) k = Some i
                /\ connected_up_to (S k) a
                /\ unspent_prefix blockchain_ tx_ k
                /\ block_chain.fetch_spend blockchain_
                     (input.previous_output i)
                   <> error.unspent_output
                /\ verdict_code v = error.double_spend
                /\ verdict_indexes v = [])
          \/ (connected_up_to (List.length (transaction.inputs tx_))
                (aggregates_ m')
              /\ unspent_prefix blockchain_ tx_
                   (List.length (transaction.inputs tx_))
              /\ check_fees E tx_ m' = (m', [v], None)
              /\ verdict_indexes v = []))).

End Rejection.

(** ** Scenarios

    A small chain, pool and environment to run the validator on. Scripts
    always verify and every symbol and attachment is well formed, so that a
    scenario exercises the rule it is about. *)

Module Scenario.

(** Modelled from the spec: the share test of a secondary issue, read off
    scenario S5 (with a threshold of 50, owning 40% of the volume is not
    enough and owning 60% is): the owned amount is at least [threshold]
    percent of the total. The sentinel thresholds are not modelled. *)
Definition owns_percent (own total threshold : Z) : bool :=
  total * threshold <=? own * 100.

Definition env : environment :=
  mk_environment
    (* max_money, coinbase_maturity *)
    10000000000000000 1000
    (* check_output_script, check_nova_testnet, check_nova_feature,
       max_version *)
    2 3 4 5
    (* DID_ATTACH_VERIFY_VERSION, all_enabled *)
    207 4294967295
    (* hash, serialized_size *)
    (fun tx =>
       fold_left
         (fun h i => h * 31 + output_point.hash (input.previous_output i)
                     + output_point.index (input.previous_output i))
         (transaction.inputs tx) 17)
    (fun tx =>
       10 + 150 * Z.of_nat (List.length (transaction.inputs tx))
       + 40 * Z.of_nat (List.length (transaction.outputs tx)))
    (* has_asset_transfer, has_did_transfer *)
    (fun tx => existsb output.is_asset_transfer (transaction.outputs tx))
    (fun tx => existsb output.is_did_transfer (transaction.outputs tx))
    (* is_null *)
    (fun p => (output_point.hash p =? 0)
              && (output_point.index p =? max_uint32))
    (* verify *)
    (fun _ _ _ _ _ => true)
    (* is_valid_symbol, is_valid_did_symbol, is_valid_mit_symbol *)
    (fun _ _ => true) (fun _ _ => true) (fun _ _ => true)
    (* check_attachment_address, check_attachment_did_match_address *)
    (fun _ _ => error.success) (fun _ _ => error.success)
    (* is_valid *)
    (fun _ => true)
    (* is_secondaryissue_threshold_value_ok, is_secondaryissue_owns_enough *)
    (fun d => (0 <=? asset_detail.get_secondaryissue_threshold d)
              && (asset_detail.get_secondaryissue_threshold d <=? 100))
    owns_percent
    (* is_valid_domain *)
    (fun domain => negb (empty domain))
    (* check_model_param, check_model_param_tx *)
    (fun _ _ => true) (fun _ _ => error.success)
    (* get_lock_heights_index, is_forbidden *)
    (fun _ => 0) (fun _ => false).

Definition no_transaction : transaction.t := transaction.mk 0 [] [].

Fixpoint lookup {A : Type} (confirmed : list (hash_digest * A))
    (hash : hash_digest) : option A :=
  match confirmed with
  | [] => None
  | (h, a) :: rest => if h =? hash then Some a else lookup rest hash
  end.

(** A chain that holds the [confirmed] transactions (hash, transaction,
    height), all of them unspent, with the given last height, asset
    volumes and registered dids [(symbol, address)]. *)
Definition chain (confirmed : list (hash_digest * (transaction.t * Z)))
    (last_height : Z) (testnet : bool) (volumes : list (string * Z))
    (dids : list (string * string)) : block_chain.t :=
  block_chain.mk
    (* fetch_transaction *)
    (fun hash =>
       match lookup confirmed hash with
       | Some (tx, _) => (error.success, tx)
       | None => (error.not_found, no_transaction)
       end)
    (* fetch_transaction_index *)
    (fun hash =>
       match lookup confirmed hash with
       | Some (_, height) => (error.success, height)
       | None => (error.not_found, 0)
       end)
    (* fetch_last_height *)
    (error.success, last_height)
    (* fetch_spend *)
    (fun _ => error.unspent_output)
    (* get_transaction, get_last_height *)
    (lookup confirmed) (Some last_height)
    (* get_asset_volume *)
    (fun symbol =>
       match find (fun v => String.eqb (fst v) symbol) volumes with
       | Some (_, volume) => volume
       | None => 0
       end)
    (* is_asset_exist, is_asset_cert_exist *)
    (fun symbol _ => existsb (fun v => String.eqb (fst v) symbol) volumes)
    (fun _ _ => false)
    (* get_registered_mit, get_registered_did *)
    (fun _ => None)
    (fun symbol =>
       match find (fun d => String.eqb (fst d) symbol) dids with
       | Some (s, a) => Some (did_detail.mk s a)
       | None => None
       end)
    (* is_did_exist, is_address_registered_did *)
    (fun symbol => existsb (fun d => String.eqb (fst d) symbol) dids)
    (fun address => existsb (fun d => String.eqb (snd d) address) dids)
    (* is_valid_address *)
    (fun _ => false)
    (* get_did_from_address *)
    (fun address =>
       match find (fun d => String.eqb (snd d) address) dids with
       | Some (s, _) => s
       | None => ""
       end)
    testnet.

Definition empty_pool : transaction_pool.t :=
  transaction_pool.mk (fun _ => false) (fun _ => None) (fun _ => false).

(** Members as left by the constructor. *)
Definition fresh : members :=
  mk_members 0 0 (mk_aggregates 0 0 [] "" "" business_kind.etp) [].

Definition pay_to (address : string) : script.t :=
  script.mk false None None None 25 address.

Definition sign : script.t := script.mk false None None None 107 "".

Definition plain (a : attach) : attachment.t := attachment.mk 1 "" "" a.

Definition etp_output (value : Z) (address : string) : output.t :=
  output.mk value (pay_to address) (plain attach_etp).

Definition spend (hash : hash_digest) (index : Z) : input.t :=
  input.mk (output_point.mk hash index) sign.

Definition coinbase_input : input.t :=
  input.mk (output_point.mk 0 max_uint32) sign.

(** S5: the asset "ABC" has a volume of 1000000 on the chain; the
    transaction issues more of it with a threshold of 50 and sends
    [volume] units of it along. *)
Definition abc_detail : asset_detail.t :=
  asset_detail.mk "ABC" 500000 50 true "alice" "A" [].

Definition abc_holding : transaction.t :=
  transaction.mk 1 [spend 55 0]
    [output.mk 0 (pay_to "A")
       (plain (attach_asset_transfer (asset_transfer.mk "ABC" 600000)));
     etp_output 20000 "A"].

Definition abc_chain : block_chain.t :=
  chain [(201, (abc_holding, 10))] 2000 false [("ABC", 1000000)] [].

Definition secondaryissue_tx (volume : Z) : transaction.t :=
  transaction.mk 1 [spend 201 0; spend 201 1]
    [output.mk 0 (pay_to "A")
       (plain (attach_asset_secondaryissue abc_detail));
     output.mk 0 (pay_to "A")
       (plain (attach_asset_transfer (asset_transfer.mk "ABC" volume)))].


(** S1: one etp input of 20000 and one etp output. *)
Definition funding : transaction.t :=
  transaction.mk 1 [spend 55 0] [etp_output 20000 "A"].

Definition funded_chain : block_chain.t :=
  chain [(101, (funding, 5))] 2000 false [] [].

Definition pay (value : Z) : transaction.t :=
  transaction.mk 1 [spend 101 0] [etp_output value "B"].

(** A transaction whose only input points past the outputs of [funding]
    and whose output names a sending did. *)
Definition dangling_tx : transaction.t :=
  transaction.mk 1 [spend 101 5]
    [output.mk 10000 (pay_to "B")
       (attachment.mk 207 "alice" "" attach_etp)].

(** An output that issued 100 units of "ABC", spent by a transaction
    with a single etp output. *)
Definition abc_issue : transaction.t :=
  transaction.mk 1 [spend 55 0]
    [output.mk 20000 (pay_to "A")
       (plain (attach_asset_issue
                 (asset_detail.mk "ABC" 100 50 false "alice" "A" [])))].

Definition abc_issue_chain : block_chain.t :=
  chain [(102, (abc_issue, 5))] 2000 false [("ABC", 100)] [].

Definition burn_tx : transaction.t :=
  transaction.mk 1 [spend 102 0] [etp_output 10000 "B"].

(** S6: the did "alice", registered at address "A", moves to "B". *)
Definition alice_registration : transaction.t :=
  transaction.mk 1 [spend 55 0]
    [output.mk 0 (pay_to "A")
       (plain (attach_did_register (did_detail.mk "alice" "A")))].

Definition funding_at (address : string) : transaction.t :=
  transaction.mk 1 [spend 55 1] [etp_output 20000 address].

Definition alice_chain : block_chain.t :=
  chain [(301, (alice_registration, 5)); (302, (funding_at "B", 6));
         (303, (funding_at "C", 7))]
    2000 false [] [("alice", "A")].

Definition alice_to_b : output.t :=
  output.mk 0 (pay_to "B")
    (plain (attach_did_transfer (did_detail.mk "alice" "B"))).

Definition did_transfer_two : transaction.t :=
  transaction.mk 1 [spend 301 0; spend 302 0] [alice_to_b].

Definition did_transfer_three : transaction.t :=
  transaction.mk 1 [spend 301 0; spend 302 0; spend 303 0] [alice_to_b].

(** S7: a coinbase confirmed at height 500. *)
Definition reward : transaction.t :=
  transaction.mk 1 [coinbase_input] [etp_output 20000 "A"].

Definition reward_chain (last_height : Z) : block_chain.t :=
  chain [(401, (reward, 500))] last_height false [] [].

Definition spend_reward : transaction.t :=
  transaction.mk 1 [spend 401 0] [etp_output 10000 "B"].

(** S8: a transaction of version [check_nova_feature]. *)
Definition nova_chain (last_height : Z) : block_chain.t :=
  chain [(101, (funding, 5))] last_height false [] [].

Definition nova_tx : transaction.t :=
  transaction.mk 4 [spend 101 0] [etp_output 10000 "B"].

(** A certificate input after a domain certificate. *)
Definition naming_cert : output.t :=
  output.mk 0 (pay_to "A")
    (plain (attach_asset_cert
              (asset_cert.mk "ABC" "alice" "A" asset_cert_ns.naming
                 asset_cert.ASSET_CERT_NORMAL_TYPE))).

Definition cert_holding : transaction.t :=
  transaction.mk 1 [spend 55 0] [naming_cert].

Definition spend_cert : transaction.t :=
  transaction.mk 1 [spend 501 0] [naming_cert].

Definition after_domain_cert : aggregates :=
  mk_aggregates 0 0 [asset_cert_ns.domain] "ABC.X" "ABC"
    business_kind.asset_cert.


(** The 100 units of [abc_issue] sent on in full. *)
Definition transfer_all : transaction.t :=
  transaction.mk 1 [spend 102 0]
    [output.mk 0 (pay_to "B")
       (plain (attach_asset_transfer (asset_transfer.mk "ABC" 100)))].

(** Members at the end of some runs. *)
Definition connected (last_height : Z) (inputs : nat) (a : aggregates)
    : members :=
  mk_members last_height inputs a [].

Definition at_height (last_height : Z) : members :=
  mk_members last_height 0 (aggregates_ fresh) [].

(** A pool that holds one unconfirmed transaction, and a payment that
    spends it next to a confirmed output. *)
Definition funded_pool : transaction_pool.t :=
  transaction_pool.mk (fun _ => false)
    (fun hash => if hash =? 601 then Some (funding_at "C") else None)
    (fun _ => false).

Definition pay_mixed : transaction.t :=
  transaction.mk 1 [spend 101 0; spend 601 0] [etp_output 30000 "B"].

(** A payment whose input points past the outputs of [funding]. *)
Definition dangling_plain : transaction.t :=
  transaction.mk 1 [spend 101 5] [etp_output 10000 "B"].

(** The asset "XYZ" issued to address "A", with its issue certificate. *)
Definition xyz_detail : asset_detail.t :=
  asset_detail.mk "XYZ" 1000 50 false "alice" "A" [asset_cert_ns.issue].

Definition xyz_issue_cert (status : asset_cert.status) : output.t :=
  output.mk 0 (pay_to "A")
    (plain (attach_asset_cert
              (asset_cert.mk "XYZ" "alice" "A" asset_cert_ns.issue status))).

Definition issue_tx : transaction.t :=
  transaction.mk 1 [spend 101 0]
    [output.mk 0 (pay_to "A") (plain (attach_asset_issue xyz_detail));
     xyz_issue_cert asset_cert.ASSET_CERT_NORMAL_TYPE;
     etp_output 10000 "A"].

Definition cert_issue_tx : transaction.t :=
  transaction.mk 1 [spend 101 0]
    [xyz_issue_cert asset_cert.ASSET_CERT_ISSUE_TYPE; etp_output 10000 "A"].

(** The MIT "M1" registered to, and then sent on from, address "A". *)
Definition m1_register : output.t :=
  output.mk 0 (pay_to "A")
    (plain (attach_asset_mit_register (asset_mit.mk "M1" "A"))).

Definition m1_transfer : output.t :=
  output.mk 0 (pay_to "B")
    (plain (attach_asset_mit_transfer (asset_mit.mk "M1" "B"))).

Definition mit_register_tx : transaction.t :=
  transaction.mk 1 [spend 101 0] [m1_register; etp_output 10000 "A"].

Definition mit_transfer_tx : transaction.t :=
  transaction.mk 1 [spend 701 0] [m1_transfer].

(** A chain that holds the naming certificate of "ABC", and a transaction
    that sends it on. *)
Definition cert_chain : block_chain.t :=
  chain [(501, (cert_holding, 5)); (101, (funding, 5))] 2000 false []
    [("alice", "A")].

Definition move_cert : transaction.t :=
  transaction.mk 1 [spend 501 0; spend 101 0]
    [naming_cert; etp_output 10000 "A"].

End Scenario.

(** * Properties *)

(** ** Booleans of the model *)

Lemma error_eqb_eq (a b : code) : error.eqb a b = true <-> a = b.
Proof.
  unfold error.eqb. destruct (error.eq_dec a b); split; congruence.
Qed.

Lemma error_eqb_neq (a b : code) : error.eqb a b = false <-> a <> b.
Proof.
  unfold error.eqb. destruct (error.eq_dec a b); split; congruence.
Qed.

Lemma is_error_false (c : code) :
  error.is_error c = false <-> c = error.success.
Proof.
  unfold error.is_error. rewrite negb_false_iff. apply error_eqb_eq.
Qed.

Lemma is_error_true (c : code) :
  error.is_error c = true <-> c <> error.success.
Proof.
  unfold error.is_error. rewrite negb_true_iff. apply error_eqb_neq.
Qed.

Lemma empty_true (s : string) : empty s = true <-> s = "".
Proof. destruct s; simpl; split; congruence. Qed.

Lemma empty_false (s : string) : empty s = false <-> s <> "".
Proof. destruct s; simpl; split; congruence. Qed.

Lemma cert_type_eqb_eq (a b : asset_cert_type) :
  asset_cert_ns.eqb a b = true <-> a = b.
Proof.
  destruct a, b; simpl; split; try congruence; intros H.
  - apply N.eqb_eq in H. congruence.
  - apply N.eqb_eq. congruence.
Qed.

Lemma test_certs_In (total : list asset_cert_type) (t : asset_cert_type) :
  asset_cert.test_certs total t = true <-> In t total.
Proof.
  unfold asset_cert.test_certs. rewrite existsb_exists. split.
  - intros [x [Hin Heq]]. apply cert_type_eqb_eq in Heq. congruence.
  - intros Hin. exists t. split; [assumption | now apply cert_type_eqb_eq].
Qed.

Lemma latch_symbol_some (old new s : string) :
  latch_symbol old new = Some s ->
  (old = "" /\ s = new) \/ (old <> "" /\ old = new /\ s = old).
Proof.
  unfold latch_symbol. destruct (empty old) eqn:He.
  - intros H. injection H as <-. left. now apply empty_true in He.
  - destruct (String.eqb old new) eqn:Hs; simpl; [|discriminate].
    intros H. injection H as <-. right. apply empty_false in He.
    apply String.eqb_eq in Hs. auto.
Qed.

(** ** Machine arithmetic *)

Lemma wrap64_range (z : Z) : 0 <= wrap64 z <= max_uint64.
Proof.
  unfold wrap64, max_uint64.
  pose proof (Z.mod_pos_bound z (2 ^ 64) ltac:(lia)). lia.
Qed.

Lemma wrap64_small (z : Z) : 0 <= z <= max_uint64 -> wrap64 z = z.
Proof.
  unfold wrap64, max_uint64. intros H. apply Z.mod_small. lia.
Qed.

Lemma add64_wrap_l (a b : Z) : add64 (wrap64 a) b = wrap64 (a + b).
Proof.
  unfold add64, wrap64. now rewrite Zplus_mod_idemp_l.
Qed.

Lemma sub64_exact (a b : Z) :
  0 <= b <= a -> a <= max_uint64 -> sub64 a b = a - b.
Proof.
  intros Hb Ha. unfold sub64. apply wrap64_small. lia.
Qed.

(** ** Connecting one input *)

Section ConnectFacts.

Variable E : environment.

(** What the kind-dependent part leaves untouched, and the amount it
    reports. *)
Lemma connect_input_kind_continue (po : output.t) (a a1 : aggregates)
    (certs : asset_cert_type) (amount : Z) :
  connect_input_kind po a = Continue (a1, certs, amount) ->
  value_in a1 = value_in a
  /\ asset_amount_in a1 = asset_amount_in a
  /\ asset_certs_in a1 = asset_certs_in a
  /\ amount = (if output.is_asset po then output.get_asset_amount po else 0).
Proof.
  unfold connect_input_kind. destruct a as [v am cs old new k].
  destruct (output.is_asset po).
  { destruct (if empty _ then _ else _); [|discriminate].
    intros H; injection H as <- <- <-. simpl. auto. }
  destruct (output.is_asset_cert po).
  { destruct (if empty old then _ else _); [|discriminate].
    destruct (asset_cert.test_certs cs _); [discriminate|].
    intros H; injection H as <- <- <-. simpl. auto. }
  destruct (output.is_asset_mit po).
  { destruct (latch_symbol _ _); [|discriminate].
    intros H; injection H as <- <- <-. simpl. auto. }
  destruct (output.is_did po).
  { destruct (if empty _ then _ else _); [|discriminate].
    intros H; injection H as <- <- <-. simpl. auto. }
  intros H; injection H as <- <- <-. simpl. auto.
Qed.

(** Everything that holds when [connect_input] accepts an input. *)
Lemma connect_input_accepted (tx : transaction.t) (current_input : nat)
    (previous_tx : transaction.t) (parent_height last_block_height flags : Z)
    (a a' : aggregates) (i : input.t) :
  nth_error (transaction.inputs tx) current_input = Some i ->
  connect_input E tx current_input previous_tx parent_height
    last_block_height flags a = Ret (true, a') ->
  exists po a1 certs amount,
    output_at previous_tx i = Some po
    /\ output.value po <= max_money E
    /\ connect_input_kind po a = Continue (a1, certs, amount)
    /\ (is_coinbase E previous_tx = true ->
        coinbase_maturity E <= sub64 last_block_height parent_height)
    /\ (output.is_asset po = true -> is_forbidden E (new_symbol_in a1) = false)
    /\ check_consensus E (output.script po) tx current_input flags = Ret true
    /\ value_in a' = add64 (value_in a1) (output.value po)
    /\ value_in a' <= max_money E
    /\ asset_amount_in a' = add64 (asset_amount_in a1) amount
    /\ asset_certs_in a' =
         (if negb (asset_cert_ns.eqb certs asset_cert_ns.none)
          then asset_certs_in a1 ++ [certs] else asset_certs_in a1)
    /\ old_symbol_in a' = old_symbol_in a1
    /\ new_symbol_in a' = new_symbol_in a1
    /\ business_kind_in a' = business_kind_in a1.
Proof.
  intros Hi. unfold connect_input, output_at. rewrite Hi.
  destruct (_ <=? _); [discriminate|].
  destruct (nth_error (transaction.outputs previous_tx) _) as [po|];
    [|discriminate].
  destruct (output.value po >? max_money E) eqn:Hv; [discriminate|].
  destruct (connect_input_kind po a) as [?|[[a1 certs] amount]] eqn:Hk;
    [discriminate|].
  destruct (is_coinbase E previous_tx && _) eqn:Hc; [discriminate|].
  destruct (output.is_asset po && _) eqn:Hf; [discriminate|].
  destruct (check_consensus E _ tx current_input flags) as [valid| |] eqn:Hs;
    simpl; try discriminate.
  destruct valid; simpl; [|discriminate].
  intros H. injection H as Hle <-. simpl.
  exists po, a1, certs, amount.
  repeat match goal with |- _ /\ _ => split end; try reflexivity.
  - lia.
  - exact Hk.
  - intros Hcb. rewrite Hcb in Hc. simpl in Hc. lia.
  - intros Ha. rewrite Ha in Hf. exact Hf.
  - exact Hs.
  - lia.
Qed.


(** The business kind that the kind-dependent part latches for an asset
    output. *)
Lemma connect_input_kind_asset (po : output.t) (a a1 : aggregates)
    (certs : asset_cert_type) (amount : Z) :
  output.is_asset po = true ->
  connect_input_kind po a = Continue (a1, certs, amount) ->
  business_kind_in a1 =
    (if output.is_asset_issue po || output.is_asset_secondaryissue po
     then business_kind.asset_issue
     else if output.is_asset_transfer po then business_kind.did_transfer
     else business_kind_in a).
Proof.
  unfold connect_input_kind. destruct a as [v am cs old new k].
  intros ->. destruct (if empty _ then _ else _); [|discriminate].
  intros H; injection H as <- _ _. reflexivity.
Qed.

(** Past the kind-dependent part, [connect_input] leaves the business kind
    as that part set it, whatever it returns. *)
Lemma connect_input_keeps_business_kind (tx : transaction.t)
    (current_input : nat) (previous_tx : transaction.t)
    (parent_height last_block_height flags : Z) (a a' a1 : aggregates)
    (i : input.t) (po : output.t) (certs : asset_cert_type) (amount : Z)
    (b : bool) :
  nth_error (transaction.inputs tx) current_input = Some i ->
  output_at previous_tx i = Some po ->
  output.value po <= max_money E ->
  connect_input_kind po a = Continue (a1, certs, amount) ->
  connect_input E tx current_input previous_tx parent_height
    last_block_height flags a = Ret (b, a') ->
  business_kind_in a' = business_kind_in a1.
Proof.
  intros Hi Hpo Hv Hkind. unfold connect_input. rewrite Hi.
  unfold output_at in Hpo. destruct (_ <=? _); [discriminate|]. rewrite Hpo.
  destruct (output.value po >? max_money E) eqn:Hgt; [lia|].
  rewrite Hkind.
  destruct (is_coinbase E previous_tx && _); [congruence|].
  destruct (output.is_asset po && _); [congruence|].
  destruct (check_consensus E _ tx current_input flags) as [[]| |]; simpl;
    try discriminate; intros H; injection H as _ <-; reflexivity.
Qed.

(** The kind-dependent part goes past the symbol check of an asset output
    when the symbols agree. *)
Lemma connect_input_kind_asset_agree (po : output.t) (a : aggregates) :
  output.is_asset po = true ->
  output.get_asset_symbol po = "" \/ old_symbol_in a = ""
  \/ old_symbol_in a = output.get_asset_symbol po ->
  exists a1 amount,
    connect_input_kind po a = Continue (a1, asset_cert_ns.none, amount).
Proof.
  intros Hasset Hsym. unfold connect_input_kind. rewrite Hasset.
  destruct a as [v am cs old new k]. simpl in Hsym.
  destruct (empty (output.get_asset_symbol po)) eqn:Hnew; [eauto|].
  unfold latch_symbol. destruct (empty old) eqn:Hold; [eauto|].
  apply empty_false in Hnew, Hold.
  destruct Hsym as [?|[?|Heq]]; try contradiction.
  rewrite Heq, String.eqb_refl. simpl. eauto.
Qed.

(** C2. For an input whose previous output is an asset output,
    [connect_input] leaves [business_kind_in] at [asset_issue] if that
    output is an asset issue or secondary issue, and at [did_transfer] (not
    [asset_transfer]) if it is an asset transfer. This holds whenever the
    input is accepted, and more generally whenever the returns before the
    assignment are not taken: the etp value of the output is in range and
    its symbol agrees with [old_symbol_in]. *)
Theorem connect_input_asset_business_kind (tx : transaction.t)
    (current_input : nat) (previous_tx : transaction.t)
    (parent_height last_block_height flags : Z) (a a' : aggregates)
    (i : input.t) (previous_output : output.t) (b : bool) :
  nth_error (transaction.inputs tx) current_input = Some i ->
  output_at previous_tx i = Some previous_output ->
  output.is_asset previous_output = true ->
  connect_input E tx current_input previous_tx parent_height
    last_block_height flags a = Ret (b, a') ->
  b = true
  \/ (output.value previous_output <= max_money E
      /\ (output.get_asset_symbol previous_output = ""
          \/ old_symbol_in a = ""
          \/ old_symbol_in a = output.get_asset_symbol previous_output)) ->
  (output.is_asset_issue previous_output
   || output.is_asset_secondaryissue previous_output = true ->
   business_kind_in a' = business_kind.asset_issue)
  /\ (output.is_asset_transfer previous_output = true ->
      business_kind_in a' = business_kind.did_transfer
      /\ business_kind_in a' <> business_kind.asset_transfer).
Proof.
  intros Hi Hpo Hasset Hconnect Hreached.
  assert (Hk : exists a1 certs amount,
             connect_input_kind previous_output a
             = Continue (a1, certs, amount)
             /\ business_kind_in a' = business_kind_in a1).
  { destruct Hreached as [-> | (Hv & Hsym)].
    - destruct (connect_input_accepted _ _ _ _ _ _ _ _ _ Hi Hconnect)
        as (po & a1 & certs & amount & Hpo' & _ & Hkind & _ & _ & _ & _ & _
            & _ & _ & _ & _ & Hk).
      rewrite Hpo in Hpo'. injection Hpo' as <-. eauto 6.
    - destruct (connect_input_kind_asset_agree _ _ Hasset Hsym)
        as (a1 & amount & Hkind).
      exists a1, asset_cert_ns.none, amount. split; [exact Hkind|].
      eapply connect_input_keeps_business_kind; eauto. }
  destruct Hk as (a1 & certs & amount & Hkind & ->).
  rewrite (connect_input_kind_asset _ _ _ _ _ Hasset Hkind).
  split.
  - intros ->. reflexivity.
  - intros Ht.
    assert (Hni : output.is_asset_issue previous_output
                  || output.is_asset_secondaryissue previous_output = false).
    { revert Ht. unfold output.is_asset_transfer, output.is_asset_issue,
        output.is_asset_secondaryissue.
      destruct (output.kind previous_output); simpl; congruence. }
    rewrite Hni, Ht. split; [reflexivity | discriminate].
Qed.


Lemma is_asset_cert_not_asset (po : output.t) :
  output.is_asset_cert po = true -> output.is_asset po = false.
Proof.
  unfold output.is_asset_cert, output.is_asset, output.is_asset_issue,
    output.is_asset_secondaryissue, output.is_asset_transfer.
  destruct (output.kind po); simpl; congruence.
Qed.

Lemma is_etp_no_other_kind (po : output.t) :
  output.is_etp po = true ->
  output.is_asset po = false /\ output.is_asset_cert po = false
  /\ output.is_asset_mit po = false /\ output.is_did po = false.
Proof.
  unfold output.is_etp, output.is_asset_cert, output.is_asset,
    output.is_asset_issue, output.is_asset_secondaryissue,
    output.is_asset_transfer, output.is_asset_mit,
    output.is_asset_mit_register, output.is_asset_mit_transfer,
    output.is_did, output.is_did_register, output.is_did_transfer.
  destruct (output.kind po); simpl; try congruence. auto.
Qed.

Lemma connect_input_kind_cert (po : output.t) (a : aggregates) :
  output.is_asset_cert po = true ->
  match connect_input_kind po a with
  | Return a1 => business_kind_in a1 = business_kind.asset_cert
  | Continue (a1, certs, amount) =>
      business_kind_in a1 = business_kind.asset_cert
      /\ ~ In (output.get_asset_cert_type po) (asset_certs_in a)
      /\ (old_symbol_in a <> "" -> cert_symbol_rule a po)
  end.
Proof.
  intros Hc. unfold connect_input_kind, cert_symbol_rule.
  rewrite (is_asset_cert_not_asset _ Hc), Hc.
  destruct a as [v am cs old new k]. simpl.
  destruct (empty old) eqn:He.
  - destruct (asset_cert.test_certs cs (output.get_asset_cert_type po))
      eqn:Ht; simpl; [reflexivity|].
    repeat split.
    + intros Hin. apply test_certs_In in Hin. congruence.
    + apply empty_true in He. congruence.
  - destruct (asset_cert.test_certs cs asset_cert_ns.domain).
    + destruct (String.eqb _ _) eqn:Hs; simpl; [|reflexivity].
      destruct (asset_cert.test_certs cs (output.get_asset_cert_type po))
        eqn:Ht; simpl; [reflexivity|].
      repeat split.
      * intros Hin. apply test_certs_In in Hin. congruence.
      * intros _. apply String.eqb_eq in Hs. congruence.
    + destruct (String.eqb _ _) eqn:Hs; simpl; [|reflexivity].
      destruct (asset_cert.test_certs cs (output.get_asset_cert_type po))
        eqn:Ht; simpl; [reflexivity|].
      repeat split.
      * intros Hin. apply test_certs_In in Hin. congruence.
      * intros _. apply String.eqb_eq in Hs. congruence.
Qed.

(** C7. For an input whose previous output is an asset-cert output,
    [connect_input] sets [business_kind_in] to [asset_cert] (once the etp
    value of the output is in range), rejects the input if its cert type
    already occurs in [asset_certs_in], and accepts it only if the symbol
    rule holds: when [old_symbol_in] is not empty, the certificate's symbol
    equals the domain of [old_symbol_in] if [asset_certs_in] contains a
    domain cert, and equals [old_symbol_in] otherwise. *)
Theorem connect_input_asset_cert (tx : transaction.t) (current_input : nat)
    (previous_tx : transaction.t) (parent_height last_block_height flags : Z)
    (a : aggregates) (i : input.t) (previous_output : output.t) :
  nth_error (transaction.inputs tx) current_input = Some i ->
  output_at previous_tx i = Some previous_output ->
  output.is_asset_cert previous_output = true ->
  (In (output.get_asset_cert_type previous_output) (asset_certs_in a) ->
   exists a',
     connect_input E tx current_input previous_tx parent_height
       last_block_height flags a = Ret (false, a'))
  /\ forall b a',
       connect_input E tx current_input previous_tx parent_height
         last_block_height flags a = Ret (b, a') ->
       (output.value previous_output <= max_money E ->
        business_kind_in a' = business_kind.asset_cert)
       /\ (b = true ->
           business_kind_in a' = business_kind.asset_cert
           /\ (old_symbol_in a <> "" -> cert_symbol_rule a previous_output)).
Proof.
  intros Hi Hpo Hc.
  pose proof (connect_input_kind_cert previous_output a Hc) as Hkind.
  unfold connect_input. rewrite Hi.
  unfold output_at in Hpo.
  destruct (_ <=? _); [discriminate|]. rewrite Hpo.
  destruct (output.value previous_output >? max_money E) eqn:Hv.
  { split.
    - intros _. eauto.
    - intros b a' H. injection H as <- <-. split; [lia | discriminate]. }
  destruct (connect_input_kind previous_output a)
    as [a1|[[a1 certs] amount]].
  { split.
    - intros _. eauto.
    - intros b a' H. injection H as <- <-. split; [auto | discriminate]. }
  destruct Hkind as (Hk & Hnin & Hrule).
  split; [intros Hin; contradiction|].
  intros b a'.
  destruct (is_coinbase E previous_tx && _).
  { intros H. injection H as <- <-. split; [auto | discriminate]. }
  destruct (output.is_asset previous_output && _).
  { intros H. injection H as <- <-. split; [auto | discriminate]. }
  destruct (check_consensus E _ tx current_input flags) as [valid| |];
    simpl; try discriminate.
  destruct valid; simpl.
  - intros H. injection H as <- <-. simpl. auto.
  - intros H. injection H as <- <-. split; [auto | discriminate].
Qed.

(** C10. An input whose [previous_output.index] is not below the number of
    outputs of the previous transaction makes [connect_input] return false
    with the aggregates untouched, and [handle_previous_tx] then reports
    [validate_inputs_failed] with the index of that input; no output is
    read. *)
Theorem connect_input_index_out_of_bounds (tx : transaction.t)
    (previous_tx : transaction.t) (parent_height : Z) (m : members)
    (i : input.t) :
  nth_error (transaction.inputs tx) (current_input_ m) = Some i ->
  Z.of_nat (List.length (transaction.outputs previous_tx))
  <= output_point.index (input.previous_output i) ->
  connect_input E tx (current_input_ m) previous_tx parent_height
    (last_block_height_ m) (all_enabled E) (aggregates_ m)
  = Ret (false, aggregates_ m)
  /\ handle_previous_tx E tx m error.success previous_tx parent_height
     = Ret (m, [mk_verdict error.validate_inputs_failed [current_input_ m]],
            None).
Proof.
  intros Hi Hle.
  assert (Hc : connect_input E tx (current_input_ m) previous_tx
                 parent_height (last_block_height_ m) (all_enabled E)
                 (aggregates_ m) = Ret (false, aggregates_ m)).
  { unfold connect_input. rewrite Hi.
    destruct (_ <=? _) eqn:Hb; [reflexivity | lia]. }
  split; [exact Hc|].
  unfold handle_previous_tx. simpl. rewrite Hc. simpl.
  destruct m; reflexivity.
Qed.


Lemma connect_input_kind_etp (po : output.t) (a : aggregates) :
  output.is_etp po = true ->
  connect_input_kind po a = Continue (a, asset_cert_ns.none, 0).
Proof.
  intros He. destruct (is_etp_no_other_kind _ He) as (H1 & H2 & H3 & H4).
  unfold connect_input_kind. rewrite H1, H2, H3, H4.
  destruct a; reflexivity.
Qed.

(** What the maturity check of [connect_input] does establish. For an
    input whose previous transaction is a coinbase, [connect_input] accepts
    only if the [size_t] difference of [last_block_height] and
    [parent_height] is at least [coinbase_maturity]; that is the number of
    blocks in between only when [parent_height] is not above
    [last_block_height], which [connect_input] does not ask. A spend of a
    coinbase output confirmed at height [H] is rejected at height
    [H + coinbase_maturity - 1], where [handle_previous_tx] reports
    [validate_inputs_failed] with the input's index, and a spend of an etp
    coinbase output with a valid script is accepted at height
    [H + coinbase_maturity]. *)
Lemma connect_input_coinbase_maturity (tx : transaction.t)
    (previous_tx : transaction.t) (m : members) (i : input.t)
    (previous_output : output.t) :
  nth_error (transaction.inputs tx) (current_input_ m) = Some i ->
  output_at previous_tx i = Some previous_output ->
  is_coinbase E previous_tx = true ->
  (* accepted only if mature *)
  (forall parent_height a',
     connect_input E tx (current_input_ m) previous_tx parent_height
       (last_block_height_ m) (all_enabled E) (aggregates_ m)
     = Ret (true, a') ->
     coinbase_maturity E <= sub64 (last_block_height_ m) parent_height
     /\ (0 <= parent_height <= last_block_height_ m ->
         last_block_height_ m <= max_uint64 ->
         coinbase_maturity E <= last_block_height_ m - parent_height))
  (* rejected one block early *)
  /\ (forall H,
        0 <= H -> 1 <= coinbase_maturity E ->
        last_block_height_ m = H + coinbase_maturity E - 1 ->
        last_block_height_ m <= max_uint64 ->
        (exists a',
           connect_input E tx (current_input_ m) previous_tx H
             (last_block_height_ m) (all_enabled E) (aggregates_ m)
           = Ret (false, a'))
        /\ exists m',
             handle_previous_tx E tx m error.success previous_tx H
             = Ret (m', [mk_verdict error.validate_inputs_failed
                           [current_input_ m]], None))
  (* accepted at maturity *)
  /\ (forall H,
        0 <= H -> 0 <= coinbase_maturity E ->
        last_block_height_ m = H + coinbase_maturity E ->
        last_block_height_ m <= max_uint64 ->
        output.is_etp previous_output = true ->
        output.value previous_output <= max_money E ->
        add64 (value_in (aggregates_ m)) (output.value previous_output)
        <= max_money E ->
        check_consensus E (output.script previous_output) tx
          (current_input_ m) (all_enabled E) = Ret true ->
        exists a',
          connect_input E tx (current_input_ m) previous_tx H
            (last_block_height_ m) (all_enabled E) (aggregates_ m)
          = Ret (true, a')).
Proof.
  intros Hi Hpo Hcb. split; [|split].
  - intros parent_height a' Hconnect.
    destruct (connect_input_accepted _ _ _ _ _ _ _ _ _ Hi Hconnect)
      as (po & a1 & certs & amount & _ & _ & _ & Hm & _).
    specialize (Hm Hcb). split; [exact Hm|].
    intros Hp Hl. rewrite sub64_exact in Hm by lia. exact Hm.
  - intros H HH HM Hlast Hmax.
    assert (Hdiff : (sub64 (last_block_height_ m) H <? coinbase_maturity E)
                    = true).
    { rewrite sub64_exact by lia. lia. }
    assert (Hrej : exists a',
               connect_input E tx (current_input_ m) previous_tx H
                 (last_block_height_ m) (all_enabled E) (aggregates_ m)
               = Ret (false, a')).
    { unfold connect_input. rewrite Hi. unfold output_at in Hpo.
      destruct (_ <=? _); [discriminate|]. rewrite Hpo.
      destruct (output.value previous_output >? max_money E); [eauto|].
      destruct (connect_input_kind previous_output (aggregates_ m))
        as [a1|[[a1 certs] amount]]; [eauto|].
      rewrite Hcb, Hdiff. simpl. eauto. }
    split; [exact Hrej|].
    destruct Hrej as [a' Hrej].
    unfold handle_previous_tx. simpl. rewrite Hrej. simpl.
    eexists. reflexivity.
  - intros H HH HM Hlast Hmax Hetp Hv Hsum Hscript.
    unfold connect_input. rewrite Hi. unfold output_at in Hpo.
    destruct (_ <=? _); [discriminate|]. rewrite Hpo.
    destruct (output.value previous_output >? max_money E) eqn:Hgt; [lia|].
    rewrite (connect_input_kind_etp _ _ Hetp).
    assert (Hdiff : (sub64 (last_block_height_ m) H <? coinbase_maturity E)
                    = false).
    { rewrite sub64_exact by lia. lia. }
    rewrite Hcb, Hdiff. simpl.
    destruct (is_etp_no_other_kind _ Hetp) as (-> & _). simpl.
    rewrite Hscript. simpl.
    destruct (_ <=? max_money E) eqn:Hle; [eauto | lia].
Qed.

End ConnectFacts.

(** ** Loops *)

Lemma for_each_return {A R S : Type} (body : A -> S -> flow R S)
    (xs : list A) (s : S) (r : R) :
  for_each body xs s = Return r ->
  exists x s', In x xs /\ body x s' = Return r.
Proof.
  revert s. induction xs as [|x xs IH]; simpl; intros s; [discriminate|].
  destruct (body x s) as [r'|s'] eqn:Hb.
  - intros H. injection H as ->. exists x, s. auto.
  - intros H. destruct (IH _ H) as (y & s1 & Hin & Hy). exists y, s1. auto.
Qed.

Lemma for_each_o_return {A R S : Type} (body : A -> S -> outcome (flow R S))
    (xs : list A) (s : S) (r : R) :
  for_each_o body xs s = Ret (Return r) ->
  exists x s', In x xs /\ body x s' = Ret (Return r).
Proof.
  revert s. induction xs as [|x xs IH]; simpl; intros s; [discriminate|].
  destruct (body x s) as [[r'|s']| |] eqn:Hb; simpl; try discriminate.
  - intros H. injection H as ->. exists x, s. auto.
  - intros H. destruct (IH _ H) as (y & s1 & Hin & Hy). exists y, s1. auto.
Qed.

Lemma for_each_o_continue {A R S : Type}
    (body : A -> S -> outcome (flow R S)) (xs : list A) (s s' : S) :
  for_each_o body xs s = Ret (Continue s') ->
  forall x, In x xs -> exists s1 s2, body x s1 = Ret (Continue s2).
Proof.
  revert s. induction xs as [|x xs IH]; simpl; intros s H y Hin; [easy|].
  destruct (body x s) as [[r'|s1]| |] eqn:Hb; simpl in H; try discriminate.
  destruct Hin as [<-|Hin]; [eauto|]. eapply IH; eauto.
Qed.

(** ** The stateless checks *)

Section CheckFacts.

Variable E : environment.

(** The codes that the loops of [check_transaction_basic] return. *)
Lemma basic_output_value_return (o : output.t) (total : Z) (c : code) :
  basic_output_value E o total = Return c -> c = error.output_value_overflow.
Proof.
  unfold basic_output_value.
  repeat match goal with |- context [if ?b then _ else _] => destruct b end;
    congruence.
Qed.

Lemma basic_output_kind_return (tx : transaction.t) (chain : block_chain.t)
    (o : output.t) (u : unit) (c : code) :
  basic_output_kind E tx chain o u = Return c ->
  c <> error.nova_feature_not_activated.
Proof.
  unfold basic_output_kind. cbv zeta.
  repeat match goal with |- context [if ?b then _ else _] => destruct b end;
    intros H; try discriminate H; injection H as <-; discriminate.
Qed.

Lemma basic_input_return (chain : block_chain.t) (i : input.t) (u : unit)
    (c : code) :
  basic_input E chain i u = Return c -> c <> error.nova_feature_not_activated.
Proof.
  unfold basic_input.
  destruct (is_null E _); [intros H; injection H as <-; discriminate|].
  destruct (script.sign_key_hash_with_lock_height _); [|discriminate].
  destruct (block_chain.get_transaction _ _) as [[? ?]|];
    [|intros H; injection H as <-; discriminate].
  destruct (_ >? _); [|discriminate].
  intros H; injection H as <-; discriminate.
Qed.

Lemma basic_output_lock_height_return (o : output.t) (u : unit) (c : code) :
  basic_output_lock_height E o u = Return c ->
  c = error.invalid_output_script_lock_height.
Proof.
  unfold basic_output_lock_height.
  destruct (script.pay_key_hash_with_lock_height _); [|discriminate].
  destruct (_ || _); congruence.
Qed.

(** C6. The nova feature gate is active on testnet whatever the height,
    and on mainnet exactly when the confirmed height is above 1,270,000.
    On mainnet at height 1,270,000, [check_transaction_basic] rejects a
    transaction of version [check_nova_feature] with
    [nova_feature_not_activated]; at height 1,270,001 the gate lets it
    through: that code can then only come from the attenuation model
    check. *)
Theorem nova_feature_gate (chain : block_chain.t) :
  (block_chain.use_testnet_rules chain = true ->
   is_nova_feature_activated chain = true)
  /\ (block_chain.use_testnet_rules chain = false ->
      forall height,
        block_chain.get_last_height chain = Some height ->
        (is_nova_feature_activated chain = true <-> 1270000 < height))
  /\ (forall tx,
        block_chain.use_testnet_rules chain = false ->
        transaction.version tx = version_check_nova_feature E ->
        version_check_nova_feature E < version_max_version E ->
        (block_chain.get_last_height chain = Some 1270000 ->
         check_transaction_basic E tx chain
         = error.nova_feature_not_activated)
        /\ (block_chain.get_last_height chain = Some 1270001 ->
            is_nova_feature_activated chain = true
            /\ (check_transaction_basic E tx chain
                = error.nova_feature_not_activated ->
                check_model_param_tx E tx chain
                = error.nova_feature_not_activated))).
Proof.
  split; [|split].
  - unfold is_nova_feature_activated. intros ->. reflexivity.
  - unfold is_nova_feature_activated. intros -> height ->. lia.
  - intros tx Hmain Hv Hlt. split.
    + intros Hh. unfold check_transaction_basic, is_nova_feature_activated.
      rewrite Hmain, Hh, Hv.
      destruct (_ <=? _) eqn:Hmax; [lia|].
      rewrite Z.eqb_refl. reflexivity.
    + intros Hh.
      assert (Hact : is_nova_feature_activated chain = true).
      { unfold is_nova_feature_activated. rewrite Hmain, Hh. reflexivity. }
      split; [exact Hact|].
      unfold check_transaction_basic. rewrite Hact.
      destruct (_ <=? _); [discriminate|].
      rewrite andb_false_r.
      destruct (_ && negb (block_chain.use_testnet_rules chain));
        [discriminate|].
      destruct (_ && existsb _ _); [discriminate|].
      destruct (_ || _); [discriminate|].
      destruct (_ >? _); [discriminate|].
      destruct (for_each (basic_output_value E) _ _) eqn:H1.
      { apply for_each_return in H1. destruct H1 as (o & s & _ & H1).
        apply basic_output_value_return in H1. congruence. }
      destruct (for_each (basic_output_kind E tx chain) _ _) eqn:H2.
      { apply for_each_return in H2. destruct H2 as (o & u & _ & H2).
        apply basic_output_kind_return in H2. congruence. }
      destruct (is_coinbase E tx).
      { destruct (transaction.inputs tx); [discriminate|].
        destruct (_ || _); discriminate. }
      destruct (for_each (basic_input E chain) _ _) eqn:H3.
      { apply for_each_return in H3. destruct H3 as (o & u & _ & H3).
        apply basic_input_return in H3. congruence. }
      destruct (for_each (basic_output_lock_height E) _ _) eqn:H4.
      { apply for_each_return in H4. destruct H4 as (o & u & _ & H4).
        apply basic_output_lock_height_return in H4. congruence. }
      destruct (_ <=? _); [auto | discriminate].
Qed.

End CheckFacts.

(** ** Secondary issue *)

Lemma check_same_true (dest src dest' : string) :
  check_same dest src = (true, dest') -> dest' = src.
Proof.
  unfold check_same. destruct (empty dest); [congruence|].
  destruct (String.eqb dest src) eqn:Hs; simpl; [|discriminate].
  apply String.eqb_eq in Hs. congruence.
Qed.

Lemma check_same_keeps (dest src dest' : string) :
  check_same dest src = (true, dest') -> dest <> "" -> dest' = dest.
Proof.
  unfold check_same. destruct (empty dest) eqn:He.
  - apply empty_true in He. congruence.
  - destruct (String.eqb dest src); simpl; congruence.
Qed.

Section SecondaryIssueFacts.

Variable E : environment.

Lemma secondaryissue_output_return (o : output.t)
    (l : secondaryissue_locals) (c : code) :
  secondaryissue_output E o l = Return c -> c <> error.success.
Proof.
  unfold secondaryissue_output. destruct l. cbv zeta.
  repeat match goal with
         | |- context [if ?b then _ else _] => destruct b
         | |- context [let (_, _) := ?p in _] => destruct p
         end;
    intros H; try discriminate H; injection H as <-; discriminate.
Qed.

(** One step of the loop over the outputs, on the locals that the volume
    checks read. *)
Lemma secondaryissue_output_step (o : output.t)
    (l l' : secondaryissue_locals) :
  secondaryissue_output E o l = Continue l' ->
  si_asset_transfer_volume l' =
    (if output.is_asset_transfer o
     then add64 (si_asset_transfer_volume l) (output.get_asset_amount o)
     else si_asset_transfer_volume l)
  /\ (si_asset_symbol l <> "" -> si_asset_symbol l' = si_asset_symbol l)
  /\ (if output.is_asset_secondaryissue o
      then si_num_asset_secondaryissue l <= 0
           /\ si_num_asset_secondaryissue l'
              = si_num_asset_secondaryissue l + 1
           /\ si_secondaryissue_asset_amount l'
              = asset_detail.get_maximum_supply (output.get_asset_detail o)
           /\ si_secondaryissue_threshold l'
              = asset_detail.get_secondaryissue_threshold
                  (output.get_asset_detail o)
           /\ si_asset_symbol l'
              = asset_detail.get_symbol (output.get_asset_detail o)
      else si_num_asset_secondaryissue l' = si_num_asset_secondaryissue l
           /\ si_secondaryissue_asset_amount l'
              = si_secondaryissue_asset_amount l
           /\ si_secondaryissue_threshold l'
              = si_secondaryissue_threshold l).
Proof.
  unfold secondaryissue_output.
  destruct l as [sym addr owner th amt vol nsi ntr ncert certs]. cbv zeta.
  destruct (output.is_asset_secondaryissue o) eqn:Hsi.
  { assert (Ht : output.is_asset_transfer o = false).
    { revert Hsi. unfold output.is_asset_secondaryissue,
        output.is_asset_transfer. destruct (output.kind o); congruence. }
    rewrite Ht.
    destruct (nsi + 1 >? 1) eqn:Hn; [discriminate|].
    destruct (_ || _); [discriminate|].
    destruct (check_same sym _) as [[] sym'] eqn:Hs; simpl; [|discriminate].
    destruct (check_same addr _) as [[] addr'] eqn:Ha; simpl; [|discriminate].
    destruct (negb (attenuation_model_param_ok E o _)); [discriminate|].
    intros H. injection H as <-. simpl.
    pose proof (check_same_true _ _ _ Hs).
    pose proof (check_same_keeps _ _ _ Hs).
    repeat split; auto; lia. }
  destruct (output.is_asset_transfer o) eqn:Ht.
  { destruct (check_same sym _) as [[] sym'] eqn:Hs; simpl; [|discriminate].
    destruct (check_same addr _) as [[] addr'] eqn:Ha; simpl; [|discriminate].
    intros H. injection H as <-. simpl.
    pose proof (check_same_keeps _ _ _ Hs).
    repeat split; auto.
    unfold output.get_asset_amount, output.get_asset_transfer.
    revert Ht. unfold output.is_asset_transfer.
    destruct (output.kind o); congruence. }
  destruct (output.is_asset_cert o).
  { destruct (_ >? 1); [discriminate|].
    destruct (asset_cert_ns.eqb _ _); [|discriminate].
    destruct (check_same sym _) as [[] sym'] eqn:Hs; simpl; [|discriminate].
    destruct (check_same owner _) as [[] owner'] eqn:Ho; simpl;
      [|discriminate].
    intros H. injection H as <-. simpl.
    pose proof (check_same_keeps _ _ _ Hs).
    repeat split; auto. }
  destruct (_ && _); [discriminate|].
  intros H. injection H as <-. simpl. repeat split; auto.
Qed.

(** The loop over the outputs: the transfer volume is the total of the
    asset-transfer outputs, and the amount, threshold and symbol are those
    of the one secondary-issue output. *)
Lemma secondaryissue_outputs_loop (outs : list output.t)
    (l l' : secondaryissue_locals) :
  for_each (secondaryissue_output E) outs l = Continue l' ->
  0 <= si_num_asset_secondaryissue l ->
  si_asset_transfer_volume l' =
    fold_left
      (fun total o =>
         if output.is_asset_transfer o
         then add64 total (output.get_asset_amount o) else total)
      outs (si_asset_transfer_volume l)
  /\ (si_asset_symbol l <> "" -> si_asset_symbol l' = si_asset_symbol l)
  /\ ((existsb output.is_asset_secondaryissue outs = false
       /\ si_num_asset_secondaryissue l' = si_num_asset_secondaryissue l
       /\ si_secondaryissue_asset_amount l' = si_secondaryissue_asset_amount l
       /\ si_secondaryissue_threshold l' = si_secondaryissue_threshold l)
      \/ (si_num_asset_secondaryissue l = 0
          /\ exists o,
               In o outs
               /\ output.is_asset_secondaryissue o = true
               /\ si_secondaryissue_asset_amount l'
                  = asset_detail.get_maximum_supply
                      (output.get_asset_detail o)
               /\ si_secondaryissue_threshold l'
                  = asset_detail.get_secondaryissue_threshold
                      (output.get_asset_detail o)
               /\ (asset_detail.get_symbol (output.get_asset_detail o) <> ""
                   -> si_asset_symbol l'
                      = asset_detail.get_symbol (output.get_asset_detail o)))).
Proof.
  revert l. induction outs as [|o outs IH]; simpl; intros l H Hn.
  - injection H as <-. split; [reflexivity|]. split; [auto|]. left. auto.
  - destruct (secondaryissue_output E o l) as [c|l1] eqn:Hb; [discriminate|].
    destruct (secondaryissue_output_step _ _ _ Hb) as (Hvol & Hsym & Hsi).
    destruct (output.is_asset_secondaryissue o) eqn:Ho.
    + destruct Hsi as (Hle & Hnum & Hamt & Hth & Hs).
      destruct (IH l1 H ltac:(lia)) as (Hvol' & Hsym' & Hrest).
      split; [rewrite Hvol', Hvol; reflexivity|].
      split; [intros Hne; rewrite Hsym' by (rewrite Hsym by assumption;
                assumption); now apply Hsym|].
      right. split; [lia|]. exists o.
      destruct Hrest as [(_ & _ & Ha & Ht)|(Hzero & _)]; [|lia].
      repeat split; auto; try congruence.
      intros Hne. rewrite Hsym'; congruence.
    + destruct Hsi as (Hnum & Hamt & Hth).
      destruct (IH l1 H ltac:(lia)) as (Hvol' & Hsym' & Hrest).
      split; [rewrite Hvol', Hvol; reflexivity|].
      split; [intros Hne; rewrite Hsym' by (rewrite Hsym by assumption;
                assumption); now apply Hsym|].
      destruct Hrest as [(Hex & Hn' & Ha & Ht)|(Hzero & o' & Hin & Hrest)].
      * left. simpl. repeat split; congruence.
      * right. split; [lia|]. exists o'. tauto.
Qed.


(** C4. In a transaction with a secondary-issue output whose outputs pass
    the loop of [check_secondaryissue_transaction], the loop leaves the
    total of the asset-transfer outputs in [asset_transfer_volume] and the
    maximum supply and threshold of the secondary-issue output in
    [secondaryissue_asset_amount] and [secondaryissue_threshold]. The check
    rejects when the chain's volume for the symbol plus that amount
    exceeds [max_uint64], and when [is_secondaryissue_owns_enough] fails;
    the codes are [asset_secondaryissue_error] and
    [asset_secondaryissue_share_not_enough] when no earlier check fails.
    With a chain volume of 1000000 and a threshold of 50, a transfer volume
    of 400000 is rejected with [asset_secondaryissue_share_not_enough] and a
    transfer volume of 600000 passes. *)
Theorem check_secondaryissue_transaction_volume (tx : transaction.t)
    (chain : block_chain.t) :
  existsb output.is_asset_secondaryissue (transaction.outputs tx) = true ->
  (check_secondaryissue_transaction E tx chain = Ret error.success ->
   exists l,
     for_each (secondaryissue_output E) (transaction.outputs tx)
       secondaryissue_locals_init = Continue l
     /\ block_chain.get_asset_volume chain (si_asset_symbol l)
        + si_secondaryissue_asset_amount l <= max_uint64
     /\ is_secondaryissue_owns_enough E (si_asset_transfer_volume l)
          (block_chain.get_asset_volume chain (si_asset_symbol l))
          (si_secondaryissue_threshold l) = true)
  /\ (forall l,
        for_each (secondaryissue_output E) (transaction.outputs tx)
          secondaryissue_locals_init = Continue l ->
        let total_volume :=
          block_chain.get_asset_volume chain (si_asset_symbol l) in
        let no_cert_error :=
          (version_check_nova_feature E <=? transaction.version tx)
          && negb (asset_cert.test_certs (si_certs_out l) asset_cert_ns.issue)
          = false in
        si_asset_transfer_volume l = transaction.total_output_transfer_amount tx
        /\ (exists o,
              In o (transaction.outputs tx)
              /\ output.is_asset_secondaryissue o = true
              /\ si_secondaryissue_asset_amount l
                 = asset_detail.get_maximum_supply (output.get_asset_detail o)
              /\ si_secondaryissue_threshold l
                 = asset_detail.get_secondaryissue_threshold
                     (output.get_asset_detail o)
              /\ (asset_detail.get_symbol (output.get_asset_detail o) <> ""
                  -> si_asset_symbol l
                     = asset_detail.get_symbol (output.get_asset_detail o)))
        /\ (max_uint64 < total_volume + si_secondaryissue_asset_amount l ->
            exists c,
              check_secondaryissue_transaction E tx chain = Ret c
              /\ c <> error.success
              /\ (no_cert_error -> c = error.asset_secondaryissue_error))
        /\ (is_secondaryissue_owns_enough E (si_asset_transfer_volume l)
              total_volume (si_secondaryissue_threshold l) = false ->
            exists c,
              check_secondaryissue_transaction E tx chain = Ret c
              /\ c <> error.success
              /\ (no_cert_error ->
                  total_volume + si_secondaryissue_asset_amount l
                  <= max_uint64 ->
                  c = error.asset_secondaryissue_share_not_enough)))
  /\ (Scenario.owns_percent 400000 1000000 50 = false
      /\ check_secondaryissue_transaction Scenario.env
           (Scenario.secondaryissue_tx 400000) Scenario.abc_chain
         = Ret error.asset_secondaryissue_share_not_enough
      /\ Scenario.owns_percent 600000 1000000 50 = true
      /\ check_secondaryissue_transaction Scenario.env
           (Scenario.secondaryissue_tx 600000) Scenario.abc_chain
         = Ret error.success).
Proof.
  intros Hex. split; [|split].
  - unfold check_secondaryissue_transaction. rewrite Hex. simpl.
    destruct (for_each _ _ _) as [c|l] eqn:Hloop.
    { intros H. injection H as ->.
      apply for_each_return in Hloop. destruct Hloop as (o & l & _ & Hb).
      now apply secondaryissue_output_return in Hb. }
    unfold secondaryissue_after_outputs.
    destruct (_ && _); [discriminate|].
    destruct (_ >? _) eqn:Hov; [discriminate|].
    destruct (is_secondaryissue_owns_enough E _ _ _) eqn:Hown;
      [|discriminate].
    intros _. exists l. repeat split; auto. lia.
  - intros l Hloop total_volume no_cert_error.
    destruct (secondaryissue_outputs_loop _ _ _ Hloop) as (Hvol & _ & Hsi);
      [simpl; lia|].
    split; [exact Hvol|]. split.
    { destruct Hsi as [(Hnone & _)|(_ & o & Ho)]; [congruence|].
      exists o. exact Ho. }
    unfold check_secondaryissue_transaction. rewrite Hex, Hloop. simpl.
    unfold secondaryissue_after_outputs. fold total_volume.
    subst no_cert_error. split.
    + intros Hov. destruct (_ && _).
      { eexists. split; [reflexivity|]. split; discriminate. }
      destruct (total_volume >? _) eqn:Hgt; [|lia].
      eexists. split; [reflexivity|]. split; [discriminate | reflexivity].
    + intros Hown. destruct (_ && _).
      { eexists. split; [reflexivity|]. split; discriminate. }
      destruct (total_volume >? _) eqn:Hgt.
      { eexists. split; [reflexivity|]. split; [discriminate|]. lia. }
      rewrite Hown. simpl.
      eexists. split; [reflexivity|]. split; [discriminate | reflexivity].
  - repeat split; vm_compute; reflexivity.
Qed.

End SecondaryIssueFacts.

(** ** Did transfer *)

Section DidFacts.

Variable E : environment.

(** What the flags of the loop of [connect_did_input] witness. *)
Lemma connect_did_input_loop (chain : block_chain.t) (info : did.t)
    (xs : list input.t) (found found' : bool * bool) :
  for_each_o (connect_did_input_body chain info) xs found
  = Ret (Continue found') ->
  (fst found' = true ->
   fst found = true
   \/ exists i po,
        In i xs /\ spends chain i po /\ output.is_did po = true
        /\ output.get_did_symbol po
           = did_detail.get_symbol (did.get_data info))
  /\ (snd found' = true ->
      snd found = true
      \/ exists i po,
           In i xs /\ spends chain i po /\ output.is_etp po = true
           /\ output.get_script_address po
              = did_detail.get_address (did.get_data info)).
Proof.
  revert found. induction xs as [|i xs IH]; simpl; intros found H.
  - injection H as <-. auto.
  - destruct (connect_did_input_body chain info i found)
      as [[b|found1]| |] eqn:Hb; simpl in H; try discriminate.
    specialize (IH _ H).
    assert (Hstep :
      (fst found1 = true ->
       fst found = true
       \/ exists po,
            spends chain i po /\ output.is_did po = true
            /\ output.get_did_symbol po
               = did_detail.get_symbol (did.get_data info))
      /\ (snd found1 = true ->
          snd found = true
          \/ exists po,
               spends chain i po /\ output.is_etp po = true
               /\ output.get_script_address po
                  = did_detail.get_address (did.get_data info))).
    { clear IH H. revert Hb. unfold connect_did_input_body.
      destruct found as [fd fa].
      destruct (block_chain.get_transaction chain _)
        as [[prev_tx prev_height]|] eqn:Hget; [|discriminate].
      destruct (at_ (transaction.outputs prev_tx) _) as [po| |] eqn:Hat;
        simpl; try discriminate.
      assert (Hsp : spends chain i po) by (exists prev_tx, prev_height; auto).
      destruct (output.is_did_register po || output.is_did_transfer po)
        eqn:Hdid.
      - destruct (did.status_eqb _ _ && String.eqb _ _) eqn:Hs;
          intros H; injection H as <-; simpl; [|auto].
        split; [|auto]. intros _. right. exists po.
        apply andb_true_iff in Hs. destruct Hs as (_ & Hs).
        apply String.eqb_eq in Hs. auto.
      - destruct (output.is_etp po) eqn:Hetp; [|intros H; injection H as <-;
          auto].
        destruct (String.eqb _ _) eqn:Hs; intros H; injection H as <-; simpl;
          [|auto].
        split; [auto|]. intros _. right. exists po.
        apply String.eqb_eq in Hs. auto. }
    destruct IH as (IHd & IHa). destruct Hstep as (Hd & Ha). split.
    + intros Hf. destruct (IHd Hf) as [Hf1|(j & po & Hin & Hrest)].
      * destruct (Hd Hf1) as [?|(po & Hrest)]; [auto|].
        right. exists i, po. auto.
      * right. exists j, po. auto.
    + intros Hf. destruct (IHa Hf) as [Hf1|(j & po & Hin & Hrest)].
      * destruct (Ha Hf1) as [?|(po & Hrest)]; [auto|].
        right. exists i, po. auto.
      * right. exists j, po. auto.
Qed.

(** [connect_did_input] accepts a transferable did only in a transaction
    with two inputs, one of which spends a did output of the same symbol
    and one an etp output at the did's address. *)
Lemma connect_did_input_transferable (tx : transaction.t)
    (chain : block_chain.t) (info : did.t) :
  did.get_status info = did.DID_TRANSFERABLE_TYPE ->
  connect_did_input tx chain info = Ret true ->
  List.length (transaction.inputs tx) = 2%nat
  /\ (exists i po,
        In i (transaction.inputs tx) /\ spends chain i po
        /\ output.is_did po = true
        /\ output.get_did_symbol po
           = did_detail.get_symbol (did.get_data info))
  /\ (exists i po,
        In i (transaction.inputs tx) /\ spends chain i po
        /\ output.is_etp po = true
        /\ output.get_script_address po
           = did_detail.get_address (did.get_data info)).
Proof.
  intros Hst. unfold connect_did_input. rewrite Hst. simpl.
  destruct (Nat.eqb _ 2) eqn:Hlen; simpl; [|discriminate].
  apply Nat.eqb_eq in Hlen.
  destruct (for_each_o _ _ _) as [[b|[fd fa]]| |] eqn:Hloop; simpl;
    try discriminate.
  { intros H. injection H as ->.
    apply for_each_o_return in Hloop. destruct Hloop as (i & f & _ & Hb).
    revert Hb. unfold connect_did_input_body. destruct f.
    destruct (block_chain.get_transaction chain _) as [[? ?]|];
      [|discriminate].
    destruct (at_ _ _); simpl; try discriminate.
    repeat match goal with
           | |- context [if ?b then _ else _] => destruct b
           end; discriminate. }
  intros H. injection H as H.
  rewrite andb_false_r, orb_false_r, andb_true_r in H.
  apply andb_true_iff in H. destruct H as (-> & ->).
  destruct (connect_did_input_loop _ _ _ _ _ Hloop) as (Hd & Ha).
  simpl in Hd, Ha. split; [exact Hlen|]. split.
  - destruct (Hd eq_refl) as [?|?]; [discriminate | assumption].
  - destruct (Ha eq_refl) as [?|?]; [discriminate | assumption].
Qed.

Lemma connect_did_input_not_two (tx : transaction.t) (chain : block_chain.t)
    (info : did.t) :
  did.get_status info = did.DID_TRANSFERABLE_TYPE ->
  List.length (transaction.inputs tx) <> 2%nat ->
  connect_did_input tx chain info = Ret false.
Proof.
  intros Hst Hlen. unfold connect_did_input. rewrite Hst. simpl.
  apply Nat.eqb_neq in Hlen. rewrite Hlen. reflexivity.
Qed.

Lemma check_did_output_return (tx : transaction.t) (chain : block_chain.t)
    (o : output.t) (type : option did.status) (c : code) :
  check_did_output E tx chain o type = Ret (Return c) -> c <> error.success.
Proof.
  unfold check_did_output.
  destruct (error.is_error (check_attachment_address E o chain)) eqn:H1.
  { intros H. injection H as <-. now apply is_error_true. }
  destruct (error.is_error (check_attachment_did_match_address E o chain))
    eqn:H2.
  { intros H. injection H as <-. now apply is_error_true. }
  destruct (connect_input_address_match_did tx chain o); simpl;
    try discriminate.
  repeat match goal with
         | |- context [if ?b then _ else _] => destruct b
         | |- context [match ?t with Some _ => _ | None => _ end] =>
             destruct t
         | |- context [obind ?m _] => destruct m; simpl
         end;
    intros H; try discriminate H; injection H as <-; discriminate.
Qed.

(** A did-transfer output passes [check_did_transaction] only through
    [connect_did_input]. *)
Lemma check_did_output_transfer (tx : transaction.t) (chain : block_chain.t)
    (o : output.t) (type type' : option did.status) :
  output.is_did_transfer o = true ->
  check_did_output E tx chain o type = Ret (Continue type') ->
  connect_did_input tx chain (output.get_did o) = Ret true.
Proof.
  intros Ht. unfold check_did_output.
  assert (Hr : output.is_did_register o = false).
  { revert Ht. unfold output.is_did_transfer, output.is_did_register.
    destruct (output.kind o); congruence. }
  rewrite Hr, Ht.
  destruct (error.is_error _); [discriminate|].
  destruct (error.is_error _); [discriminate|].
  destruct (connect_input_address_match_did tx chain o) as [[]| |]; simpl;
    try discriminate.
  destruct (negb _); [discriminate|].
  destruct (block_chain.is_address_registered_did _ _); [discriminate|].
  destruct type; [discriminate|].
  destruct (connect_did_input tx chain (output.get_did o)) as [[]| |]; simpl;
    congruence.
Qed.

Lemma check_did_transaction_success (tx : transaction.t)
    (chain : block_chain.t) (o : output.t) :
  check_did_transaction E tx chain = Ret error.success ->
  In o (transaction.outputs tx) ->
  exists type type',
    check_did_output E tx chain o type = Ret (Continue type').
Proof.
  unfold check_did_transaction.
  destruct (for_each_o _ _ _) as [[c|t]| |] eqn:Hloop; simpl;
    try discriminate.
  - intros H. injection H as ->.
    apply for_each_o_return in Hloop. destruct Hloop as (x & s & _ & Hb).
    now apply check_did_output_return in Hb.
  - intros _ Hin. eapply for_each_o_continue; eauto.
Qed.

Lemma get_did_of_transfer (o : output.t) :
  output.is_did_transfer o = true ->
  did.get_status (output.get_did o) = did.DID_TRANSFERABLE_TYPE
  /\ did_detail.get_symbol (did.get_data (output.get_did o))
     = output.get_did_symbol o
  /\ did_detail.get_address (did.get_data (output.get_did o))
     = output.get_did_address o.
Proof.
  unfold output.is_did_transfer, output.get_did, output.get_did_symbol,
    output.get_did_address.
  destruct (output.kind o); try discriminate. auto.
Qed.

(** The stateless part of C8. *)
Lemma check_did_transaction_transfer (tx : transaction.t)
    (chain : block_chain.t) (o : output.t) :
  In o (transaction.outputs tx) ->
  output.is_did_transfer o = true ->
  check_did_transaction E tx chain = Ret error.success ->
  List.length (transaction.inputs tx) = 2%nat
  /\ (exists i po,
        In i (transaction.inputs tx) /\ spends chain i po
        /\ output.is_did po = true
        /\ output.get_did_symbol po = output.get_did_symbol o)
  /\ (exists i po,
        In i (transaction.inputs tx) /\ spends chain i po
        /\ output.is_etp po = true
        /\ output.get_script_address po = output.get_did_address o).
Proof.
  intros Hin Ht Hok.
  destruct (check_did_transaction_success _ _ _ Hok Hin) as (t & t' & Hb).
  pose proof (check_did_output_transfer _ _ _ _ _ Ht Hb) as Hc.
  destruct (get_did_of_transfer _ Ht) as (Hst & Hsym & Haddr).
  rewrite <- Hsym, <- Haddr.
  now apply connect_did_input_transferable.
Qed.

End DidFacts.

(** ** The pipeline *)

Section PipelineFacts.

Variable E : environment.
Variable blockchain_ : block_chain.t.
Variable tx_ : transaction.t.
Variable pool_ : transaction_pool.t.

Local Abbreviation inv := (request_invariant blockchain_ tx_ pool_).
Local Abbreviation linv := (loop_invariant blockchain_ tx_ pool_).

Lemma prefix_asset_amount_S (k : nat) (i : input.t) :
  nth_error (transaction.inputs tx_) k = Some i ->
  prefix_asset_amount blockchain_ tx_ pool_ (S k)
  = prefix_asset_amount blockchain_ tx_ pool_ k
    + input_asset_amount blockchain_ pool_ i.
Proof.
  unfold prefix_asset_amount. generalize (transaction.inputs tx_).
  induction k as [|k IH]; intros [|x xs]; simpl; try discriminate.
  - intros H. injection H as ->. destruct xs; simpl; lia.
  - intros H. specialize (IH _ H). simpl in IH. rewrite IH. lia.
Qed.

Lemma prefix_asset_amount_all :
  prefix_asset_amount blockchain_ tx_ pool_
    (List.length (transaction.inputs tx_))
  = sum_input_asset_amount blockchain_ pool_ tx_.
Proof.
  unfold prefix_asset_amount, sum_input_asset_amount.
  now rewrite firstn_all.
Qed.

Lemma handle_previous_tx_step (m : members) (ec : code)
    (previous_tx : transaction.t) (parent_height : Z) (i : input.t)
    (s : step) :
  nth_error (transaction.inputs tx_) (current_input_ m) = Some i ->
  linv m (current_input_ m) ->
  (error.is_error ec = false ->
   resolve_previous_tx blockchain_ pool_ i = Some (previous_tx, parent_height))
  ->
  handle_previous_tx E tx_ m ec previous_tx parent_height = Ret s ->
  fails s
  \/ exists m' outpoint,
       s = (m', [], Some (fetch_spend outpoint))
       /\ current_input_ m' = current_input_ m
       /\ linv m' (S (current_input_ m)).
Proof.
  intros Hi (Hamt & Hval) Hres. unfold handle_previous_tx.
  destruct (error.is_error ec) eqn:Hec.
  { intros H. injection H as <-. left. unfold fails, handle_validate_.
    eexists _, _, _. split; [reflexivity | discriminate]. }
  destruct (connect_input E tx_ _ _ _ _ _ _) as [[b a]| |] eqn:Hc; simpl;
    try discriminate.
  destruct b; simpl.
  - rewrite Hi. intros H. injection H as <-. right.
    eexists _, _. split; [reflexivity|]. split; [reflexivity|].
    destruct (connect_input_accepted _ _ _ _ _ _ _ _ _ _ Hi Hc)
      as (po & a1 & certs & amount & Hpo & _ & Hkind & _ & _ & _ & Hv & _
          & Ha & _).
    destruct (connect_input_kind_continue _ _ _ _ _ Hkind)
      as (_ & Ha1 & _ & Hamount).
    unfold loop_invariant. simpl. split.
    + rewrite Ha, Ha1, Hamt, add64_wrap_l.
      rewrite (prefix_asset_amount_S _ _ Hi).
      unfold input_asset_amount, resolved_previous_output.
      rewrite (Hres eq_refl), Hpo, Hamount. reflexivity.
    + rewrite Hv. apply wrap64_range.
  - intros H. injection H as <-. left. unfold fails, handle_validate_.
    eexists _, _, _. split; [reflexivity | discriminate].
Qed.


Lemma fails_handle_validate_ (m : members) (c : code) (indexes : list nat) :
  c <> error.success -> fails (handle_validate_ m c indexes).
Proof.
  intros Hc. exists m, c, indexes. split; [reflexivity | exact Hc].
Qed.

Lemma nth_error_lt {A : Type} (xs : list A) (k : nat) (x : A) :
  nth_error xs k = Some x -> (k < List.length xs)%nat.
Proof.
  intros H. apply nth_error_Some. congruence.
Qed.

Lemma search_pool_previous_tx_step (m : members) (s : step) :
  linv m (current_input_ m) ->
  (exists ec parent_height i,
     nth_error (transaction.inputs tx_) (current_input_ m) = Some i
     /\ block_chain.fetch_transaction_index blockchain_
          (output_point.hash (input.previous_output i)) = (ec, parent_height)
     /\ error.is_error ec = true) ->
  search_pool_previous_tx E tx_ pool_ m = Ret s ->
  fails s
  \/ exists m' outpoint,
       s = (m', [], Some (fetch_spend outpoint))
       /\ current_input_ m' = current_input_ m
       /\ linv m' (S (current_input_ m)).
Proof.
  intros Hinv (ec & ph & i & Hi & Hidx & Hec). unfold search_pool_previous_tx.
  rewrite Hi.
  destruct (transaction_pool.find pool_ _) as [previous_tx|] eqn:Hfind.
  - destruct (is_coinbase E previous_tx); [discriminate|].
    destruct (handle_previous_tx E tx_ m error.success previous_tx 0)
      as [[[m1 vs] posted]| |] eqn:Hh; simpl; try discriminate.
    intros H. injection H as <-.
    assert (Hres : error.is_error error.success = false ->
                   resolve_previous_tx blockchain_ pool_ i
                   = Some (previous_tx, 0)).
    { intros _. unfold resolve_previous_tx. rewrite Hidx, Hec, Hfind.
      reflexivity. }
    destruct (handle_previous_tx_step _ _ _ _ _ _ Hi Hinv Hres Hh)
      as [(m2 & c & idx & Heq & Hc)|(m2 & op & Heq & Hk & Hl)].
    + injection Heq as -> -> ->. left. eexists _, c, idx. split;
        [reflexivity | exact Hc].
    + injection Heq as -> -> ->. right. eexists _, op.
      split; [reflexivity|]. split; [exact Hk|]. exact Hl.
  - intros H. injection H as <-. left.
    apply fails_handle_validate_. discriminate.
Qed.

Lemma next_previous_transaction_step (m : members) (s : step) :
  linv m (current_input_ m) ->
  (current_input_ m < List.length (transaction.inputs tx_))%nat ->
  next_previous_transaction tx_ m = Ret s ->
  exists hash,
    s = (m, [], Some (fetch_transaction_index hash))
    /\ inv m (fetch_transaction_index hash).
Proof.
  intros Hinv Hlt. unfold next_previous_transaction.
  destruct (nth_error _ _) as [i|] eqn:Hi; [|discriminate].
  intros H. injection H as <-. eexists. split; [reflexivity|].
  simpl. split; [exact Hinv|]. exists i. auto.
Qed.

Lemma check_fees_shape (m : members) :
  exists v, check_fees E tx_ m = (m, [v], None).
Proof.
  unfold check_fees, handle_validate_.
  destruct (tally_fees E tx_ _ 0) as [[] fee]; simpl; [|eauto].
  destruct (if _ || _ then _ else _); [eauto|].
  destruct (_ && _); eauto.
Qed.

(** The outcome of serving one read. *)
Lemma serve_step (m : members) (r : request) (s : step) :
  transaction.inputs tx_ <> [] ->
  inv m r ->
  serve E blockchain_ tx_ pool_ m r = Ret s ->
  fails s
  \/ (exists m' r',
        s = (m', [], Some r') /\ inv m' r'
        /\ (reads_left tx_ m' r' < reads_left tx_ m r)%nat)
  \/ (exists m',
        s = check_fees E tx_ m'
        /\ linv m' (List.length (transaction.inputs tx_))).
Proof.
  intros Hne Hinv. destruct r as [h| |h|h ph|op]; simpl.
  - (* handle_duplicate_check *)
    destruct (block_chain.fetch_transaction blockchain_ h) as [ec t].
    intros H. injection H as <-. unfold handle_duplicate_check.
    destruct (negb (error.eqb ec error.not_found)).
    { left. apply fails_handle_validate_. discriminate. }
    destruct (transaction_pool.is_spent_in_pool pool_ tx_).
    { left. apply fails_handle_validate_. discriminate. }
    right. left. eexists _, _. split; [reflexivity|]. simpl. split; [exact I|].
    lia.
  - (* set_last_height *)
    destruct (block_chain.fetch_last_height blockchain_) as [ec height].
    unfold set_last_height.
    destruct (error.is_error ec) eqn:Hec.
    { intros H. injection H as <-. left. apply fails_handle_validate_.
      now apply is_error_true. }
    destruct (transaction.inputs tx_) as [|i0 rest] eqn:Hin; [congruence|].
    intros H.
    assert (Hl : linv (mk_members height 0
                         (mk_aggregates 0 0 [] "" "" business_kind.etp)
                         (unconfirmed_ m)) 0).
    { unfold loop_invariant, prefix_asset_amount. simpl.
      split; [reflexivity | unfold max_uint64; lia]. }
    apply next_previous_transaction_step in H;
      [|exact Hl | simpl; rewrite Hin; simpl; lia].
    destruct H as (hash & -> & Hi). right. left. eexists _, _.
    split; [reflexivity|]. split; [exact Hi|]. simpl. rewrite Hin. simpl. lia.
  - (* previous_tx_index *)
    destruct Hinv as (Hl & i & Hi & ->).
    destruct (block_chain.fetch_transaction_index blockchain_ _)
      as [ec ph] eqn:Hidx.
    unfold previous_tx_index.
    destruct (error.is_error ec) eqn:Hec.
    + intros H. apply search_pool_previous_tx_step in H;
        [|exact Hl | exists ec, ph, i; auto].
      destruct H as [Hf|(m' & op & -> & Hk & Hl')]; [auto|].
      right. left. eexists _, _. split; [reflexivity|].
      pose proof (nth_error_lt _ _ _ Hi) as Hlt.
      simpl. rewrite Hk. repeat split; try apply Hl'; try lia.
    + rewrite Hi. intros H. injection H as <-. right. left. eexists _, _.
      split; [reflexivity|]. pose proof (nth_error_lt _ _ _ Hi) as Hlt.
      simpl. repeat split; try apply Hl; try lia.
      * exists i. auto.
      * exists ec. auto.
  - (* handle_previous_tx *)
    destruct Hinv as (Hl & (i & Hi & ->) & ec & Hidx & Hec).
    destruct (block_chain.fetch_transaction blockchain_ _)
      as [ec' previous_tx] eqn:Hft.
    intros H. apply (handle_previous_tx_step _ _ _ _ i) in H; auto.
    + destruct H as [Hf|(m' & op & -> & Hk & Hl')]; [auto|].
      right. left. eexists _, _. split; [reflexivity|].
      pose proof (nth_error_lt _ _ _ Hi) as Hlt.
      simpl. rewrite Hk. repeat split; try apply Hl'; try lia.
    + intros Hec'. unfold resolve_previous_tx. rewrite Hidx, Hec, Hft, Hec'.
      reflexivity.
  - (* check_double_spend *)
    destruct Hinv as (Hl & Hlt). unfold check_double_spend.
    destruct (negb (error.eqb _ _)).
    { intros H. injection H as <-. left. apply fails_handle_validate_.
      discriminate. }
    simpl. destruct (Nat.ltb _ _) eqn:Hnext.
    + apply Nat.ltb_lt in Hnext. intros H.
      apply next_previous_transaction_step in H; auto.
      destruct H as (hash & -> & Hi). right. left. eexists _, _.
      split; [reflexivity|]. split; [exact Hi|]. simpl. lia.
    + apply Nat.ltb_ge in Hnext. intros H. injection H as <-.
      right. right. eexists. split; [reflexivity|].
      assert (Hn : List.length (transaction.inputs tx_)
                   = S (current_input_ m)) by lia.
      rewrite Hn. exact Hl.
Qed.


(** A run that starts from a pending read with enough fuel ends, unless it
    throws, with exactly one more verdict; if that verdict is a success it
    is the one of [check_fees], reached with every input connected. *)
Lemma run_pending (fuel : nat) (m : members) (verdicts : list verdict)
    (r : request) (result : option (members * list verdict)) :
  transaction.inputs tx_ <> [] ->
  inv m r ->
  (reads_left tx_ m r <= fuel)%nat ->
  run E blockchain_ tx_ pool_ fuel (m, verdicts, Some r) = Ret result ->
  exists m' v,
    result = Some (m', verdicts ++ [v])
    /\ (verdict_code v = error.success ->
        check_fees E tx_ m' = (m', [v], None)
        /\ linv m' (List.length (transaction.inputs tx_))).
Proof.
  intros Hne. revert m verdicts r.
  induction fuel as [|fuel IH]; intros m verdicts r Hinv Hfuel.
  - destruct r; simpl in Hfuel; try lia;
      destruct Hinv as (_ & Hinv);
      try (destruct Hinv as ((i & Hi & _) & _));
      try (destruct Hinv as (i & Hi & _));
      try apply nth_error_lt in Hi; lia.
  - simpl.
    destruct (serve E blockchain_ tx_ pool_ m r) as [s| |] eqn:Hs;
      simpl; try discriminate.
    destruct (serve_step _ _ _ Hne Hinv Hs)
      as [(m1 & c & idx & -> & Hc)
         |[(m1 & r1 & -> & Hinv1 & Hlt)|(m1 & -> & Hl)]].
    + destruct fuel; simpl; intros H; injection H as <-;
        exists m1, (mk_verdict c idx); (split; [reflexivity|]);
        simpl; congruence.
    + rewrite app_nil_r. apply IH; [exact Hinv1 | lia].
    + destruct (check_fees_shape m1) as (v & Hv). rewrite Hv.
      destruct fuel; simpl; intros H; injection H as <-;
        exists m1, v; auto.
Qed.

Lemma check_transaction_success (chain : block_chain.t) :
  check_transaction E tx_ chain = Ret error.success ->
  check_transaction_basic E tx_ chain = error.success
  /\ check_did_transaction E tx_ chain = Ret error.success.
Proof.
  unfold check_transaction.
  destruct (error.is_error (check_transaction_basic E tx_ chain)) eqn:H1.
  { intros H. injection H as H. rewrite H in H1. discriminate. }
  apply is_error_false in H1.
  destruct (error.is_error (check_asset_issue_transaction E tx_ chain))
    eqn:H2.
  { intros H. injection H as H. rewrite H in H2. discriminate. }
  destruct (error.is_error (check_asset_cert_issue_transaction tx_ chain))
    eqn:H3.
  { intros H. injection H as H. rewrite H in H3. discriminate. }
  destruct (check_secondaryissue_transaction E tx_ chain) as [c4| |];
    simpl; try discriminate.
  destruct (error.is_error c4) eqn:H4.
  { intros H. injection H as H. rewrite H in H4. discriminate. }
  destruct (check_asset_mit_register_transaction tx_ chain) as [c5| |];
    simpl; try discriminate.
  destruct (error.is_error c5) eqn:H5.
  { intros H. injection H as H. rewrite H in H5. discriminate. }
  destruct (check_did_transaction E tx_ chain) as [c6| |];
    simpl; try discriminate.
  intros H. injection H as ->. auto.
Qed.

Lemma check_transaction_basic_inputs (chain : block_chain.t) :
  check_transaction_basic E tx_ chain = error.success ->
  transaction.inputs tx_ <> [] /\ transaction.outputs tx_ <> [].
Proof.
  unfold check_transaction_basic.
  destruct (_ <=? _); [discriminate|].
  destruct (_ && negb (is_nova_feature_activated chain)); [discriminate|].
  destruct (_ && negb (block_chain.use_testnet_rules chain)); [discriminate|].
  destruct (_ && existsb _ _); [discriminate|].
  destruct (transaction.inputs tx_); [discriminate|].
  destruct (transaction.outputs tx_); [discriminate|].
  intros _. split; discriminate.
Qed.

Lemma basic_checks_success (chain : block_chain.t) (ec : code) :
  basic_checks E tx_ pool_ chain = Ret ec ->
  error.is_error ec = false ->
  ec = error.success
  /\ check_transaction E tx_ chain = Ret error.success
  /\ is_coinbase E tx_ = false
  /\ transaction_pool.is_in_pool pool_ (tx_hash_ E tx_) = false.
Proof.
  unfold basic_checks.
  destruct (check_transaction E tx_ chain) as [c| |]; simpl;
    try discriminate.
  destruct (error.is_error c) eqn:Hc.
  { intros H. injection H as <-. congruence. }
  apply is_error_false in Hc. subst c.
  destruct (is_coinbase E tx_); [intros H; injection H as <-; discriminate|].
  simpl.
  destruct (transaction_pool.is_in_pool pool_ _);
    [intros H; injection H as <-; discriminate|].
  intros H. injection H as <-. auto.
Qed.

(** A validation that does not throw delivers exactly one verdict: the
    fuel of [validate] is enough, and no path of the pipeline calls the
    handler twice or not at all. A verdict of success comes from
    [check_fees], after [check_transaction] has passed and every input has
    been connected. *)
Lemma validate_verdict (m : members)
    (result : option (members * list verdict)) :
  validate E blockchain_ tx_ pool_ m = Ret result ->
  exists m' v,
    result = Some (m', [v])
    /\ (verdict_code v = error.success ->
        check_transaction E tx_ blockchain_ = Ret error.success
        /\ check_fees E tx_ m' = (m', [v], None)
        /\ linv m' (List.length (transaction.inputs tx_))).
Proof.
  unfold validate, start.
  destruct (basic_checks E tx_ pool_ blockchain_) as [ec| |] eqn:Hb;
    cbn [obind]; try discriminate.
  destruct (error.is_error ec) eqn:Hec.
  - apply is_error_true in Hec.
    destruct (error.eqb ec error.input_not_found); simpl;
      intros H; injection H as <-; eexists _, _;
      (split; [reflexivity|]); simpl; congruence.
  - destruct (basic_checks_success _ _ Hb Hec) as (-> & Hct & _ & _).
    destruct (check_transaction_success _ Hct) as (Hbasic & _).
    destruct (check_transaction_basic_inputs _ Hbasic) as (Hne & _).
    unfold post. cbn [obind]. intros H.
    apply run_pending in H; [|exact Hne | exact I | simpl; lia].
    destruct H as (m' & v & -> & Hv). exists m', v.
    split; [reflexivity|]. intros Hs. destruct (Hv Hs). auto.
Qed.


Lemma total_output_value_range :
  0 <= transaction.total_output_value tx_ <= max_uint64.
Proof.
  unfold transaction.total_output_value.
  assert (H : forall outs acc,
             0 <= acc <= max_uint64 ->
             0 <= fold_left (fun total o => add64 total (output.value o))
                    outs acc <= max_uint64).
  { induction outs as [|o outs IH]; simpl; intros acc Hacc; [exact Hacc|].
    apply IH. apply wrap64_range. }
  apply H. unfold max_uint64. lia.
Qed.

Lemma total_output_transfer_amount_sum :
  transaction.total_output_transfer_amount tx_
  = wrap64 (sum_output_transfer_amount tx_).
Proof.
  unfold transaction.total_output_transfer_amount, sum_output_transfer_amount.
  assert (H : forall outs acc,
             fold_left
               (fun total o =>
                  if output.is_asset_transfer o
                  then add64 total (output.get_asset_amount o) else total)
               outs (wrap64 acc)
             = wrap64
                 (acc
                  + fold_right
                      (fun o total =>
                         (if output.is_asset_transfer o
                          then output.get_asset_amount o else 0) + total)
                      0 outs)).
  { induction outs as [|o outs IH]; simpl; intros acc.
    - now rewrite Z.add_0_r.
    - destruct (output.is_asset_transfer o).
      + rewrite add64_wrap_l, IH. f_equal. lia.
      + rewrite IH. f_equal. }
  exact (H (transaction.outputs tx_) 0).
Qed.

(** What a verdict of success from [check_fees] stands for. *)
Lemma check_fees_success (m : members) (v : verdict) :
  check_fees E tx_ m = (m, [v], None) ->
  verdict_code v = error.success ->
  fst (tally_fees E tx_ (value_in (aggregates_ m)) 0) = true
  /\ (business_kind_in (aggregates_ m) = business_kind.asset_issue
      \/ business_kind_in (aggregates_ m) = business_kind.asset_transfer ->
      has_asset_transfer E tx_ = true ->
      check_asset_amount m tx_ = true /\ check_asset_symbol m tx_ = true).
Proof.
  unfold check_fees, handle_validate_.
  destruct (tally_fees E tx_ _ 0) as [[] fee] eqn:Ht; simpl;
    [|intros H; injection H as <-; discriminate].
  intros H Hv. split; [reflexivity|].
  intros Hk Hat.
  assert (Hty : business_kind.eqb (business_kind_in (aggregates_ m))
                  business_kind.asset_issue
                || business_kind.eqb (business_kind_in (aggregates_ m))
                     business_kind.asset_transfer = true).
  { destruct Hk as [-> | ->]; reflexivity. }
  rewrite Hty, Hat in H.
  destruct (check_asset_amount m tx_);
    [|injection H as <-; discriminate].
  destruct (check_asset_symbol m tx_);
    [|injection H as <-; discriminate].
  auto.
Qed.

Lemma tally_fees_true (value_in : Z) :
  0 <= value_in <= max_uint64 ->
  fst (tally_fees E tx_ value_in 0) = true ->
  transaction.total_output_value tx_ <= value_in
  /\ min_tx_fee <= value_in - transaction.total_output_value tx_
  /\ value_in - transaction.total_output_value tx_ <= max_money E.
Proof.
  intros Hv. pose proof total_output_value_range as Ho.
  unfold tally_fees.
  destruct (_ <? _) eqn:H1; [discriminate|].
  rewrite sub64_exact by lia.
  destruct (_ <? min_tx_fee) eqn:H2; [discriminate|].
  unfold add64. rewrite Z.add_0_l.
  rewrite wrap64_small by (unfold min_tx_fee in *; lia).
  simpl. lia.
Qed.

Lemma tally_fees_false (value_in : Z) :
  0 <= value_in <= max_uint64 ->
  ~ (transaction.total_output_value tx_ <= value_in
     /\ min_tx_fee <= value_in - transaction.total_output_value tx_
     /\ value_in - transaction.total_output_value tx_ <= max_money E) ->
  fst (tally_fees E tx_ value_in 0) = false.
Proof.
  intros Hv Hn. pose proof total_output_value_range as Ho.
  unfold tally_fees.
  destruct (_ <? _) eqn:H1; [reflexivity|].
  rewrite sub64_exact by lia.
  destruct (_ <? min_tx_fee) eqn:H2; [reflexivity|].
  unfold add64. rewrite Z.add_0_l.
  rewrite wrap64_small by (unfold min_tx_fee in *; lia).
  simpl. lia.
Qed.

End PipelineFacts.

(** ** Conservation of the asset amount *)

(** C1, as the specification states it, fails: the transaction [burn_tx]
    spends an asset-issue output of 100 units of "ABC" into a single etp
    output. It is accepted with [business_kind_in = asset_issue], while
    100 units come in and no asset-transfer output goes out:
    [has_asset_transfer] is false, so [check_fees] skips
    [check_asset_amount]. *)
Lemma burn_tx_accepted_without_conservation :
  exists m' v,
    validate Scenario.env Scenario.abc_issue_chain Scenario.burn_tx
      Scenario.empty_pool Scenario.fresh = Ret (Some (m', [v]))
    /\ verdict_code v = error.success
    /\ business_kind_in (aggregates_ m') = business_kind.asset_issue
    /\ sum_input_asset_amount Scenario.abc_issue_chain Scenario.empty_pool
         Scenario.burn_tx = 100
    /\ sum_output_transfer_amount Scenario.burn_tx = 0
    /\ sum_input_asset_amount Scenario.abc_issue_chain Scenario.empty_pool
         Scenario.burn_tx
       <> sum_output_transfer_amount Scenario.burn_tx.
Proof.
  eexists _, _. split; [vm_compute; reflexivity|].
  repeat split; vm_compute; congruence.
Qed.

(** C1, amended. For a transaction that the validator accepts with
    [business_kind_in] at [asset_issue] or [asset_transfer] and for which
    [has_asset_transfer] holds, [asset_amount_in] is the 64-bit sum of the
    asset amounts over the resolved previous outputs and equals
    [total_output_transfer_amount], the 64-bit sum of the asset-transfer
    amounts over the outputs; the two exact sums are equal when both fit in
    64 bits. The outputs name one asset symbol, [old_symbol_in]. *)
Theorem accepted_asset_amount_conserved (E : environment)
    (chain : block_chain.t) (tx : transaction.t) (pool : transaction_pool.t)
    (m m' : members) (v : verdict) :
  validate E chain tx pool m = Ret (Some (m', [v])) ->
  verdict_code v = error.success ->
  business_kind_in (aggregates_ m') = business_kind.asset_issue
  \/ business_kind_in (aggregates_ m') = business_kind.asset_transfer ->
  has_asset_transfer E tx = true ->
  asset_amount_in (aggregates_ m')
  = wrap64 (sum_input_asset_amount chain pool tx)
  /\ transaction.total_output_transfer_amount tx
     = wrap64 (sum_output_transfer_amount tx)
  /\ asset_amount_in (aggregates_ m')
     = transaction.total_output_transfer_amount tx
  /\ (in_uint64 (sum_input_asset_amount chain pool tx) ->
      in_uint64 (sum_output_transfer_amount tx) ->
      sum_input_asset_amount chain pool tx = sum_output_transfer_amount tx)
  /\ check_asset_symbol m' tx = true.
Proof.
  intros Hval Hv Hkind Hat.
  destruct (validate_verdict _ _ _ _ _ _ Hval)
    as (m1 & v1 & Heq & Hsucc).
  injection Heq as <- <-.
  destruct (Hsucc Hv) as (_ & Hfees & Hamt & _).
  destruct (check_fees_success _ _ _ _ Hfees Hv) as (_ & Hcons).
  destruct (Hcons Hkind Hat) as (Hamount & Hsymbol).
  unfold check_asset_amount in Hamount.
  destruct (_ =? _) eqn:Heq; [|discriminate]. apply Z.eqb_eq in Heq.
  rewrite prefix_asset_amount_all in Hamt.
  pose proof (total_output_transfer_amount_sum tx) as Hout.
  repeat match goal with |- _ /\ _ => split end; auto.
  intros Hi Ho. unfold in_uint64 in *.
  rewrite <- (wrap64_small _ Hi), <- (wrap64_small _ Ho). congruence.
Qed.

(** ** The minimum fee *)

(** C3. The validator accepts a transaction only if the fee,
    [value_in - value_out], is at least [min_tx_fee] = 10000 and at most
    [max_money]; once the inputs are connected, [check_fees] reports
    [fees_out_of_range] otherwise. With one etp input of 20000, an etp
    output of 10000 is accepted with a fee of 10000 and an etp output of
    10001 is rejected with [fees_out_of_range]. *)
Theorem accepted_fee_in_range (E : environment) (chain : block_chain.t)
    (tx : transaction.t) (pool : transaction_pool.t) :
  (forall m m' v,
     validate E chain tx pool m = Ret (Some (m', [v])) ->
     verdict_code v = error.success ->
     min_tx_fee = 10000
     /\ min_tx_fee
        <= value_in (aggregates_ m') - transaction.total_output_value tx
     /\ value_in (aggregates_ m') - transaction.total_output_value tx
        <= max_money E)
  /\ (forall m,
        0 <= value_in (aggregates_ m) <= max_uint64 ->
        ~ (min_tx_fee
           <= value_in (aggregates_ m) - transaction.total_output_value tx
           <= max_money E) ->
        check_fees E tx m
        = (m, [mk_verdict error.fees_out_of_range []], None))
  /\ (exists m',
        validate Scenario.env Scenario.funded_chain (Scenario.pay 10000)
          Scenario.empty_pool Scenario.fresh
        = Ret (Some (m', [mk_verdict error.success []]))
        /\ value_in (aggregates_ m')
           - transaction.total_output_value (Scenario.pay 10000) = 10000)
  /\ (exists m',
        validate Scenario.env Scenario.funded_chain (Scenario.pay 10001)
          Scenario.empty_pool Scenario.fresh
        = Ret (Some (m', [mk_verdict error.fees_out_of_range []]))
        /\ value_in (aggregates_ m')
           - transaction.total_output_value (Scenario.pay 10001) = 9999).
Proof.
  split; [|split; [|split]].
  - intros m m' v Hval Hv.
    destruct (validate_verdict _ _ _ _ _ _ Hval)
      as (m1 & v1 & Heq & Hsucc).
    injection Heq as <- <-.
    destruct (Hsucc Hv) as (_ & Hfees & _ & Hrange).
    destruct (check_fees_success _ _ _ _ Hfees Hv) as (Htally & _).
    destruct (tally_fees_true _ _ _ Hrange Htally) as (_ & Hmin & Hmax).
    auto.
  - intros m Hrange Hfee.
    assert (Ht : fst (tally_fees E tx (value_in (aggregates_ m)) 0) = false).
    { apply tally_fees_false; [exact Hrange | lia]. }
    unfold check_fees.
    destruct (tally_fees E tx _ 0) as [tallied fee]. simpl in Ht. subst.
    reflexivity.
  - eexists. split; vm_compute; reflexivity.
  - eexists. split; vm_compute; reflexivity.
Qed.

(** ** Did transfer *)

(** C8. A transaction with a did-transfer output is accepted only if it
    has exactly two inputs, one spending a did output of the transferred
    symbol and one spending an etp output at the did's new address. With
    any other number of inputs [connect_did_input] fails:
    [check_did_transaction] does not succeed, and the did-transfer output
    gives [did_input_error] when the checks before [connect_did_input]
    pass. The transfer of "alice" is accepted with two inputs and rejected
    with [did_input_error] with three. *)
Theorem did_transfer_needs_two_inputs (E : environment)
    (chain : block_chain.t) (tx : transaction.t) (pool : transaction_pool.t)
    (o : output.t) :
  In o (transaction.outputs tx) ->
  output.is_did_transfer o = true ->
  (forall m m' v,
     validate E chain tx pool m = Ret (Some (m', [v])) ->
     verdict_code v = error.success ->
     List.length (transaction.inputs tx) = 2%nat
     /\ (exists i po,
           In i (transaction.inputs tx) /\ spends chain i po
           /\ output.is_did po = true
           /\ output.get_did_symbol po = output.get_did_symbol o)
     /\ (exists i po,
           In i (transaction.inputs tx) /\ spends chain i po
           /\ output.is_etp po = true
           /\ output.get_script_address po = output.get_did_address o))
  /\ (List.length (transaction.inputs tx) <> 2%nat ->
      connect_did_input tx chain (output.get_did o) = Ret false
      /\ check_did_transaction E tx chain <> Ret error.success
      /\ (check_attachment_address E o chain = error.success ->
          check_attachment_did_match_address E o chain = error.success ->
          connect_input_address_match_did tx chain o = Ret true ->
          block_chain.is_did_exist chain (output.get_did_symbol o) = true ->
          block_chain.is_address_registered_did chain
            (output.get_did_address o) = false ->
          check_did_output E tx chain o None
          = Ret (Return error.did_input_error)))
  /\ (exists m',
        validate Scenario.env Scenario.alice_chain Scenario.did_transfer_two
          Scenario.empty_pool Scenario.fresh
        = Ret (Some (m', [mk_verdict error.success []])))
  /\ (exists m',
        validate Scenario.env Scenario.alice_chain
          Scenario.did_transfer_three Scenario.empty_pool Scenario.fresh
        = Ret (Some (m', [mk_verdict error.did_input_error []]))).
Proof.
  intros Hin Ht. split; [|split; [|split]].
  - intros m m' v Hval Hv.
    destruct (validate_verdict _ _ _ _ _ _ Hval)
      as (m1 & v1 & Heq & Hsucc).
    injection Heq as <- <-.
    destruct (Hsucc Hv) as (Hct & _).
    destruct (check_transaction_success _ _ _ Hct) as (_ & Hdid).
    exact (check_did_transaction_transfer _ _ _ _ Hin Ht Hdid).
  - intros Hlen.
    destruct (get_did_of_transfer _ Ht) as (Hst & _).
    pose proof (connect_did_input_not_two _ chain _ Hst Hlen) as Hc.
    split; [exact Hc|]. split.
    + intros Hok.
      destruct (check_did_transaction_transfer _ _ _ _ Hin Ht Hok)
        as (Hlen' & _). contradiction.
    + intros H1 H2 H3 H4 H5. unfold check_did_output.
      assert (Hr : output.is_did_register o = false).
      { revert Ht. unfold output.is_did_transfer, output.is_did_register.
        destruct (output.kind o); congruence. }
      rewrite H1, H2, H3, Hr, Ht, H4, H5, Hc. reflexivity.
  - eexists. vm_compute. reflexivity.
  - eexists. vm_compute. reflexivity.
Qed.

(** ** One verdict per validation *)

(** C9 fails on [dangling_tx]: its output names a sending did and its input
    points at output 5 of a confirmed transaction that has one output.
    [connect_input_address_match_did] reads that output with [at], which
    throws out of [start] before any handler call. *)
Theorem start_throws_without_verdict :
  check_transaction_basic Scenario.env Scenario.dangling_tx
    Scenario.funded_chain = error.success
  /\ connect_input_address_match_did Scenario.dangling_tx
       Scenario.funded_chain
       (output.mk 10000 (Scenario.pay_to "B")
          (attachment.mk 207 "alice" "" attach_etp))
     = Throw_out_of_range
  /\ start Scenario.env Scenario.funded_chain Scenario.dangling_tx
       Scenario.empty_pool Scenario.fresh = Throw_out_of_range
  /\ validate Scenario.env Scenario.funded_chain Scenario.dangling_tx
       Scenario.empty_pool Scenario.fresh = Throw_out_of_range.
Proof.
  repeat split; vm_compute; reflexivity.
Qed.

(** ** Coinbase maturity *)

(** S7: the coinbase of height 500 is refused at height 1499 and accepted
    at height 1500. *)
Lemma connect_input_coinbase_maturity_boundary :
  (exists a',
     connect_input Scenario.env Scenario.spend_reward 0 Scenario.reward 500
       1499 (all_enabled Scenario.env) (aggregates_ Scenario.fresh)
     = Ret (false, a'))
  /\ (exists a',
        connect_input Scenario.env Scenario.spend_reward 0 Scenario.reward
          500 1500 (all_enabled Scenario.env) (aggregates_ Scenario.fresh)
        = Ret (true, a')).
Proof.
  split.
  - apply (proj1 (proj2
             (connect_input_coinbase_maturity Scenario.env
                Scenario.spend_reward Scenario.reward (Scenario.at_height 1499)
                (Scenario.spend 401 0) (Scenario.etp_output 20000 "A")
                eq_refl eq_refl eq_refl)) 500);
      [lia | simpl; lia | reflexivity | vm_compute; discriminate].
  - apply (proj2 (proj2
             (connect_input_coinbase_maturity Scenario.env
                Scenario.spend_reward Scenario.reward (Scenario.at_height 1500)
                (Scenario.spend 401 0) (Scenario.etp_output 20000 "A")
                eq_refl eq_refl eq_refl)) 500);
      try reflexivity; try (simpl; lia); try (vm_compute; discriminate).
Qed.

(** C5. For an input whose previous transaction is a coinbase,
    [connect_input] is to succeed only if [last_block_height] is at least
    [coinbase_maturity] blocks above [parent_height]. It subtracts the two
    heights on [size_t] without comparing them first: for the coinbase
    confirmed at height 500, with a last height of 100 and a maturity of
    1000, the difference of -400 wraps to [2 ^ 64 - 400], [connect_input]
    accepts the input, and the validator accepts the transaction that
    spends it. *)
Theorem connect_input_coinbase_maturity_wraps :
  is_coinbase Scenario.env Scenario.reward = true
  /\ 100 - 500 < coinbase_maturity Scenario.env
  /\ sub64 100 500 = 2 ^ 64 - 400
  /\ connect_input Scenario.env Scenario.spend_reward 0 Scenario.reward 500
       100 (all_enabled Scenario.env) (aggregates_ Scenario.fresh)
     = Ret (true, mk_aggregates 20000 0 [] "" "" business_kind.etp)
  /\ validate Scenario.env (Scenario.reward_chain 100) Scenario.spend_reward
       Scenario.empty_pool Scenario.fresh
     = Ret (Some (Scenario.connected 100 1
                    (mk_aggregates 20000 0 [] "" "" business_kind.etp),
                  [mk_verdict error.success []])).
Proof.
  split; [reflexivity|]. split; [simpl; lia|].
  split; [reflexivity|]. split; vm_compute; reflexivity.
Qed.

(** ** Witnesses: the theorems at work on the scenarios *)

Lemma connect_input_asset_business_kind_witness :
  connect_input Scenario.env (Scenario.secondaryissue_tx 600000) 0
    Scenario.abc_holding 10 2000 (all_enabled Scenario.env)
    (aggregates_ Scenario.fresh)
  = Ret (true,
         mk_aggregates 0 600000 [] "ABC" "ABC" business_kind.did_transfer)
  /\ business_kind_in
       (mk_aggregates 0 600000 [] "ABC" "ABC" business_kind.did_transfer)
     <> business_kind.asset_transfer.
Proof.
  assert (H : connect_input Scenario.env (Scenario.secondaryissue_tx 600000)
                0 Scenario.abc_holding 10 2000 (all_enabled Scenario.env)
                (aggregates_ Scenario.fresh)
              = Ret (true,
                     mk_aggregates 0 600000 [] "ABC" "ABC"
                       business_kind.did_transfer))
    by (vm_compute; reflexivity).
  split; [exact H|].
  apply (connect_input_asset_business_kind Scenario.env
           (Scenario.secondaryissue_tx 600000) 0 Scenario.abc_holding 10 2000
           (all_enabled Scenario.env) (aggregates_ Scenario.fresh) _
           (Scenario.spend 201 0)
           (output.mk 0 (Scenario.pay_to "A")
              (Scenario.plain
                 (attach_asset_transfer (asset_transfer.mk "ABC" 600000))))
           true eq_refl eq_refl eq_refl H (or_introl eq_refl)).
  reflexivity.
Defined.

Lemma connect_input_asset_cert_witness :
  connect_input Scenario.env Scenario.spend_cert 0 Scenario.cert_holding 5
    2000 (all_enabled Scenario.env) Scenario.after_domain_cert
  = Ret (true,
         mk_aggregates 0 0 [asset_cert_ns.domain; asset_cert_ns.naming]
           "ABC.X" "ABC" business_kind.asset_cert)
  /\ cert_symbol_rule Scenario.after_domain_cert Scenario.naming_cert.
Proof.
  assert (H : connect_input Scenario.env Scenario.spend_cert 0
                Scenario.cert_holding 5 2000 (all_enabled Scenario.env)
                Scenario.after_domain_cert
              = Ret (true,
                     mk_aggregates 0 0
                       [asset_cert_ns.domain; asset_cert_ns.naming]
                       "ABC.X" "ABC" business_kind.asset_cert))
    by (vm_compute; reflexivity).
  split; [exact H|].
  refine (proj2 (proj2 (proj2
            (connect_input_asset_cert Scenario.env Scenario.spend_cert 0
               Scenario.cert_holding 5 2000 (all_enabled Scenario.env)
               Scenario.after_domain_cert (Scenario.spend 501 0)
               Scenario.naming_cert eq_refl eq_refl eq_refl)
            _ _ H) eq_refl) _).
  discriminate.
Defined.

Lemma connect_input_index_out_of_bounds_witness :
  1 <= 5
  /\ handle_previous_tx Scenario.env Scenario.dangling_tx Scenario.fresh
       error.success Scenario.funding 5
     = Ret (Scenario.fresh,
            [mk_verdict error.validate_inputs_failed [0%nat]], None).
Proof.
  split; [lia|].
  apply (connect_input_index_out_of_bounds Scenario.env Scenario.dangling_tx
           Scenario.funding 5 Scenario.fresh (Scenario.spend 101 5) eq_refl).
  simpl. lia.
Defined.

Lemma nova_feature_gate_witness :
  check_transaction_basic Scenario.env Scenario.nova_tx
    (Scenario.nova_chain 1270000) = error.nova_feature_not_activated
  /\ is_nova_feature_activated (Scenario.nova_chain 1270001) = true.
Proof.
  split.
  - apply (proj2 (proj2 (nova_feature_gate Scenario.env
                           (Scenario.nova_chain 1270000)))
             Scenario.nova_tx); (reflexivity || (simpl; lia)).
  - apply (proj2 (proj2 (nova_feature_gate Scenario.env
                           (Scenario.nova_chain 1270001)))
             Scenario.nova_tx); (reflexivity || (simpl; lia)).
Defined.

Lemma check_secondaryissue_transaction_volume_witness :
  exists c,
    check_secondaryissue_transaction Scenario.env
      (Scenario.secondaryissue_tx 400000) Scenario.abc_chain = Ret c
    /\ c <> error.success.
Proof.
  destruct (proj2 (proj2 (proj2
              (proj1 (proj2
                 (check_secondaryissue_transaction_volume Scenario.env
                    (Scenario.secondaryissue_tx 400000) Scenario.abc_chain
                    eq_refl))
                 (mk_secondaryissue_locals "ABC" "A" "" 50 500000 400000 1 1
                    0 [])
                 ltac:(vm_compute; reflexivity))))
              ltac:(vm_compute; reflexivity))
    as (c & Hc & Hne & _).
  exists c. auto.
Defined.

Lemma accepted_asset_amount_conserved_witness :
  sum_input_asset_amount Scenario.abc_issue_chain Scenario.empty_pool
    Scenario.transfer_all
  = sum_output_transfer_amount Scenario.transfer_all.
Proof.
  apply (accepted_asset_amount_conserved Scenario.env
           Scenario.abc_issue_chain Scenario.transfer_all Scenario.empty_pool
           Scenario.fresh
           (Scenario.connected 2000 1
              (mk_aggregates 20000 100 [] "ABC" "ABC"
                 business_kind.asset_issue))
           (mk_verdict error.success []));
    try (vm_compute; reflexivity).
  - left. reflexivity.
  - vm_compute. split; discriminate.
  - vm_compute. split; discriminate.
Defined.

Lemma accepted_fee_in_range_witness :
  min_tx_fee <= 20000 - transaction.total_output_value (Scenario.pay 10000)
  /\ check_fees Scenario.env (Scenario.pay 10001)
       (Scenario.connected 2000 1
          (mk_aggregates 20000 0 [] "" "" business_kind.etp))
     = (Scenario.connected 2000 1
          (mk_aggregates 20000 0 [] "" "" business_kind.etp),
        [mk_verdict error.fees_out_of_range []], None).
Proof.
  split.
  - apply (proj1 (accepted_fee_in_range Scenario.env Scenario.funded_chain
                    (Scenario.pay 10000) Scenario.empty_pool)
             Scenario.fresh
             (Scenario.connected 2000 1
                (mk_aggregates 20000 0 [] "" "" business_kind.etp))
             (mk_verdict error.success []));
      vm_compute; reflexivity.
  - apply (proj1 (proj2 (accepted_fee_in_range Scenario.env
                           Scenario.funded_chain (Scenario.pay 10001)
                           Scenario.empty_pool))).
    + vm_compute. split; discriminate.
    + vm_compute. intros [H _]. apply H. reflexivity.
Defined.

Lemma did_transfer_needs_two_inputs_witness :
  List.length (transaction.inputs Scenario.did_transfer_two) = 2%nat
  /\ connect_did_input Scenario.did_transfer_three Scenario.alice_chain
       (output.get_did Scenario.alice_to_b) = Ret false.
Proof.
  split.
  - apply (proj1 (did_transfer_needs_two_inputs Scenario.env
                    Scenario.alice_chain Scenario.did_transfer_two
                    Scenario.empty_pool Scenario.alice_to_b
                    (or_introl eq_refl) eq_refl)
             Scenario.fresh
             (Scenario.connected 2000 2
                (mk_aggregates 20000 0 [] "alice" "alice"
                   business_kind.did_register))
             (mk_verdict error.success []));
      vm_compute; reflexivity.
  - apply (proj1 (proj2 (did_transfer_needs_two_inputs Scenario.env
                           Scenario.alice_chain Scenario.did_transfer_three
                           Scenario.empty_pool Scenario.alice_to_b
                           (or_introl eq_refl) eq_refl))).
    simpl. discriminate.
Defined.

(** * Further properties of the validator *)

(** ** The conservation checks of [check_fees] *)

(** The loop over the output symbols, from any [old_symbol]: it goes
    through exactly when the non-empty symbols agree with each other and
    with a non-empty [old_symbol], and it ends on that common symbol. *)
Lemma symbol_match_loop (symbol_of : output.t -> string)
    (outs : list output.t) (old_symbol : string) :
  match for_each (symbol_match_body symbol_of) outs old_symbol with
  | Return b =>
      b = false
      /\ exists o,
           In o outs /\ symbol_of o <> ""
           /\ ((old_symbol <> "" /\ symbol_of o <> old_symbol)
               \/ exists o',
                    In o' outs /\ symbol_of o' <> ""
                    /\ symbol_of o <> symbol_of o')
  | Continue s =>
      (forall o, In o outs -> symbol_of o <> "" -> symbol_of o = s)
      /\ (old_symbol <> "" -> s = old_symbol)
      /\ (s <> "" ->
          s = old_symbol \/ exists o, In o outs /\ symbol_of o = s)
  end.
Proof.
  revert old_symbol. induction outs as [|o outs IH]; intros old; simpl.
  - split; [contradiction|]. split; auto.
  - unfold symbol_match_body at 1.
    destruct (empty (symbol_of o)) eqn:Hnew; simpl.
    + apply empty_true in Hnew. specialize (IH old).
      destruct (for_each _ outs old) as [b|s].
      * destruct IH as (-> & o1 & Hin & Hne & Hcase). split; [reflexivity|].
        exists o1. repeat split; auto.
        destruct Hcase as [?|(o2 & ? & ? & ?)]; [auto|].
        right. exists o2. auto.
      * destruct IH as (Hall & Hold & Hs). split; [|split]; auto.
        -- intros o1 [<-|Hin] Hne; [congruence | auto].
        -- intros Hne. destruct (Hs Hne) as [?|(o1 & ? & ?)]; [auto|].
           right. exists o1. auto.
    + apply empty_false in Hnew.
      destruct (empty old) eqn:Hold; simpl.
      * apply empty_true in Hold. subst old. specialize (IH (symbol_of o)).
        destruct (for_each _ outs (symbol_of o)) as [b|s].
        -- destruct IH as (-> & o1 & Hin & Hne & Hcase). split; [reflexivity|].
           exists o1. repeat split; auto. right.
           destruct Hcase as [(_ & ?)|(o2 & ? & ? & ?)].
           ++ exists o. auto.
           ++ exists o2. auto.
        -- destruct IH as (Hall & Hold & Hs). specialize (Hold Hnew).
           subst s. split; [|split].
           ++ intros o1 [<-|Hin] Hne; [reflexivity | auto].
           ++ congruence.
           ++ intros _. right. exists o. auto.
      * apply empty_false in Hold.
        destruct (String.eqb old (symbol_of o)) eqn:Heq; simpl.
        -- apply String.eqb_eq in Heq. specialize (IH old).
           destruct (for_each _ outs old) as [b|s].
           ++ destruct IH as (-> & o1 & Hin & Hne & Hcase).
              split; [reflexivity|]. exists o1. repeat split; auto.
              destruct Hcase as [?|(o2 & ? & ? & ?)]; [auto|].
              right. exists o2. auto.
           ++ destruct IH as (Hall & Hold' & Hs). specialize (Hold' Hold).
              subst s. split; [|split]; auto.
              intros o1 [<-|Hin] Hne; [congruence | auto].
        -- apply String.eqb_neq in Heq. split; [reflexivity|].
           exists o. repeat split; auto.
Qed.

(** X1. [check_asset_symbol] holds exactly when every output with a
    non-empty asset symbol carries [old_symbol_in_], and some output does
    when [old_symbol_in_] is not empty: the outputs name the one asset of
    the inputs, and an input asset cannot disappear from the outputs. *)
Theorem check_asset_symbol_iff (m : members) (tx : transaction.t) :
  check_asset_symbol m tx = true
  <-> (forall o,
         In o (transaction.outputs tx) ->
         output.get_asset_symbol o <> "" ->
         output.get_asset_symbol o = old_symbol_in (aggregates_ m))
      /\ (old_symbol_in (aggregates_ m) <> "" ->
          exists o,
            In o (transaction.outputs tx)
            /\ output.get_asset_symbol o = old_symbol_in (aggregates_ m)).
Proof.
  unfold check_asset_symbol.
  pose proof (symbol_match_loop output.get_asset_symbol
                (transaction.outputs tx) "") as H.
  destruct (for_each _ _ _) as [b|s].
  - destruct H as (-> & o & Hin & Hne & [(Habs & _)|(o' & Hin' & Hne' & Hd)]);
      [congruence|].
    split; [discriminate|]. intros (Hall & _).
    rewrite (Hall o Hin Hne), (Hall o' Hin' Hne') in Hd. congruence.
  - destruct H as (Hall & _ & Hs).
    destruct (String.eqb s (old_symbol_in (aggregates_ m))) eqn:Heq; simpl.
    + apply String.eqb_eq in Heq. subst s. split; [|reflexivity].
      intros _. split; [exact Hall|]. intros Hne.
      destruct (Hs Hne) as [Habs|?]; [congruence | assumption].
    + apply String.eqb_neq in Heq. split; [discriminate|].
      intros (Hall' & Hex). exfalso. apply Heq.
      destruct (string_dec s "") as [->|Hne].
      * destruct (string_dec (old_symbol_in (aggregates_ m)) "")
          as [->|Hne']; [reflexivity|].
        destruct (Hex Hne') as (o & Hin & Ho).
        symmetry. rewrite <- Ho. apply Hall; [exact Hin | congruence].
      * destruct (Hs Hne) as [Habs|(o & Hin & Ho)]; [congruence|].
        rewrite <- Ho. apply Hall'; [exact Hin | congruence].
Qed.

(** X2. [check_did_symbol_match] holds exactly when every output with a
    non-empty did symbol carries [old_symbol_in_], and some output does
    when [old_symbol_in_] is not empty. *)
Theorem check_did_symbol_match_iff (m : members) (tx : transaction.t) :
  check_did_symbol_match m tx = true
  <-> (forall o,
         In o (transaction.outputs tx) ->
         output.get_did_symbol o <> "" ->
         output.get_did_symbol o = old_symbol_in (aggregates_ m))
      /\ (old_symbol_in (aggregates_ m) <> "" ->
          exists o,
            In o (transaction.outputs tx)
            /\ output.get_did_symbol o = old_symbol_in (aggregates_ m)).
Proof.
  unfold check_did_symbol_match.
  pose proof (symbol_match_loop output.get_did_symbol
                (transaction.outputs tx) "") as H.
  destruct (for_each _ _ _) as [b|s].
  - destruct H as (-> & o & Hin & Hne & [(Habs & _)|(o' & Hin' & Hne' & Hd)]);
      [congruence|].
    split; [discriminate|]. intros (Hall & _).
    rewrite (Hall o Hin Hne), (Hall o' Hin' Hne') in Hd. congruence.
  - destruct H as (Hall & _ & Hs).
    destruct (String.eqb s (old_symbol_in (aggregates_ m))) eqn:Heq; simpl.
    + apply String.eqb_eq in Heq. subst s. split; [|reflexivity].
      intros _. split; [exact Hall|]. intros Hne.
      destruct (Hs Hne) as [Habs|?]; [congruence | assumption].
    + apply String.eqb_neq in Heq. split; [discriminate|].
      intros (Hall' & Hex). exfalso. apply Heq.
      destruct (string_dec s "") as [->|Hne].
      * destruct (string_dec (old_symbol_in (aggregates_ m)) "")
          as [->|Hne']; [reflexivity|].
        destruct (Hex Hne') as (o & Hin & Ho).
        symmetry. rewrite <- Ho. apply Hall; [exact Hin | congruence].
      * destruct (Hs Hne) as [Habs|(o & Hin & Ho)]; [congruence|].
        rewrite <- Ho. apply Hall'; [exact Hin | congruence].
Qed.

(** The loop of [check_asset_mit], from any [num_mit]. *)
Lemma check_asset_mit_loop (m : members) (outs : list output.t) (n0 : Z) :
  let transfers := filter output.is_asset_mit_transfer outs in
  match for_each (check_asset_mit_body m) outs n0 with
  | Continue n =>
      n = n0 + Z.of_nat (List.length transfers)
      /\ (transfers <> [] -> n <= 1)
      /\ (forall o,
            In o outs ->
            if output.is_asset_mit_transfer o
            then asset_mit.get_symbol (output.get_asset_mit o)
                 = old_symbol_in (aggregates_ m)
            else output.is_etp o = true \/ output.is_message o = true)
  | Return b =>
      b = false
      /\ (1 < n0 + Z.of_nat (List.length transfers)
          \/ exists o,
               In o outs
               /\ if output.is_asset_mit_transfer o
                  then asset_mit.get_symbol (output.get_asset_mit o)
                       <> old_symbol_in (aggregates_ m)
                  else output.is_etp o = false
                       /\ output.is_message o = false)
  end.
Proof.
  revert n0. induction outs as [|o outs IH]; intros n0;
    cbn -[Z.of_nat Z.add].
  - split; [simpl; lia|]. split; [congruence | contradiction].
  - unfold check_asset_mit_body at 1.
    destruct (output.is_asset_mit_transfer o) eqn:Ht;
      cbn -[Z.of_nat Z.add]; rewrite ?Nat2Z.inj_succ.
    + destruct (n0 + 1 >? 1) eqn:Hn.
      { split; [reflexivity|]. left. lia. }
      destruct (String.eqb _ _) eqn:Hs; cbn -[Z.of_nat Z.add].
      * apply String.eqb_eq in Hs. specialize (IH (n0 + 1)).
        destruct (for_each _ outs (n0 + 1)) as [b|n].
        -- destruct IH as (-> & [Hc|(o1 & Hin & Ho1)]).
           ++ split; [reflexivity|]. left. lia.
           ++ split; [reflexivity|]. right. exists o1. auto.
        -- destruct IH as (-> & Hle & Hall). split; [lia|]. split.
           ++ intros _.
              destruct (filter output.is_asset_mit_transfer outs) eqn:Hf.
              ** simpl. lia.
              ** specialize (Hle ltac:(discriminate)).
                 cbn [List.length] in *. lia.
           ++ intros o1 [<-|Hin]; [rewrite Ht; congruence|].
              exact (Hall _ Hin).
      * apply String.eqb_neq in Hs. split; [reflexivity|]. right.
        exists o. rewrite Ht. split; [auto | congruence].
    + destruct (negb (output.is_etp o) && negb (output.is_message o)) eqn:Hk.
      * split; [reflexivity|]. right. exists o. rewrite Ht.
        apply andb_true_iff in Hk. destruct Hk as (H1 & H2).
        apply negb_true_iff in H1, H2. auto.
      * specialize (IH n0).
        destruct (for_each _ outs n0) as [b|n].
        -- destruct IH as (-> & [Hc|(o1 & Hin & Ho1)]).
           ++ split; [reflexivity|]. left. lia.
           ++ split; [reflexivity|]. right. exists o1. auto.
        -- destruct IH as (-> & Hle & Hall). split; [lia|].
           split; [exact Hle|].
           intros o1 [<-|Hin]; [|exact (Hall _ Hin)]. rewrite Ht.
           destruct (output.is_etp o); [auto|].
           destruct (output.is_message o); [auto | discriminate].
Qed.

(** X3. [check_asset_mit] holds exactly when the outputs hold one MIT
    transfer, of the symbol [old_symbol_in_], and otherwise only etp and
    message outputs: a MIT that comes in goes out once, and nothing else
    rides along. *)
Theorem check_asset_mit_iff (m : members) (tx : transaction.t) :
  check_asset_mit m tx = true
  <-> List.length
        (filter output.is_asset_mit_transfer (transaction.outputs tx))
      = 1%nat
      /\ forall o,
           In o (transaction.outputs tx) ->
           if output.is_asset_mit_transfer o
           then asset_mit.get_symbol (output.get_asset_mit o)
                = old_symbol_in (aggregates_ m)
           else output.is_etp o = true \/ output.is_message o = true.
Proof.
  unfold check_asset_mit.
  pose proof (check_asset_mit_loop m (transaction.outputs tx) 0) as H.
  cbv zeta in H.
  destruct (for_each _ _ _) as [b|n].
  - destruct H as (-> & Hcase). split; [discriminate|].
    intros (Hlen & Hall). exfalso.
    destruct Hcase as [Hc|(o & Hin & Ho)]; [lia|].
    specialize (Hall o Hin).
    destruct (output.is_asset_mit_transfer o); [congruence|].
    destruct Ho as (H1 & H2). destruct Hall; congruence.
  - destruct H as (-> & _ & Hall). rewrite Z.add_0_l. split.
    + intros Hn. apply Z.eqb_eq in Hn. split; [lia | exact Hall].
    + intros (Hlen & _). apply Z.eqb_eq. lia.
Qed.

Lemma NoDup_snoc {A : Type} (xs : list A) (x : A) :
  NoDup xs -> ~ In x xs -> NoDup (xs ++ [x]).
Proof.
  intros Hnd Hnin. induction Hnd as [|y ys Hy Hys IH]; simpl.
  - constructor; [simpl; tauto | constructor].
  - constructor.
    + rewrite in_app_iff. simpl. intros [?|[?|[]]]; [contradiction|].
      subst. apply Hnin. now left.
    + apply IH. intros Hin. apply Hnin. now right.
Qed.

(** The loop of [check_asset_certs], from any locals. *)
Lemma check_asset_certs_loop (m : members) (outs : list output.t)
    (transfer transfer' : bool) (certs certs' : list asset_cert_type) :
  for_each (check_asset_certs_body m) outs (transfer, certs)
  = Continue (transfer', certs') ->
  certs' = certs ++ map output.get_asset_cert_type
                      (filter output.is_asset_cert outs)
  /\ (NoDup certs -> NoDup certs')
  /\ transfer' = transfer || existsb is_cert_transfer_output outs
  /\ forall o, In o outs -> cert_output_rule m o.
Proof.
  revert transfer certs.
  induction outs as [|o outs IH]; intros transfer certs; simpl.
  - intros H. injection H as <- <-. rewrite app_nil_r, orb_false_r.
    repeat split; auto. contradiction.
  - unfold check_asset_certs_body at 1, is_cert_transfer_output at 1,
      cert_output_rule.
    destruct (output.is_asset_cert o) eqn:Hc; simpl.
    + destruct (asset_cert.test_certs certs _) eqn:Hdup; [discriminate|].
      destruct (if asset_cert.test_certs _ asset_cert_ns.domain
                then _ else _) eqn:Hrule; [discriminate|].
      intros H. apply IH in H. destruct H as (-> & Hnd & -> & Hall).
      assert (Htype : asset_cert.get_type (output.get_asset_cert o)
                      = output.get_asset_cert_type o).
      { revert Hc. unfold output.is_asset_cert, output.get_asset_cert,
          output.get_asset_cert_type.
        destruct (output.kind o); congruence. }
      rewrite Htype in *. split; [now rewrite <- app_assoc|]. split.
      { intros Hn. apply Hnd. apply NoDup_snoc; [exact Hn|].
        intros Hin. apply test_certs_In in Hin. congruence. }
      split.
      { destruct (asset_cert.get_status _), transfer; reflexivity. }
      intros o1 [<-|Hin]; [|exact (Hall _ Hin)]. rewrite Hc.
      destruct (asset_cert.test_certs _ asset_cert_ns.domain).
      * apply negb_false_iff, String.eqb_eq in Hrule. exact Hrule.
      * apply negb_false_iff, String.eqb_eq in Hrule. congruence.
    + destruct (negb (empty (output.get_asset_symbol o))) eqn:Hsym.
      * intros H. apply IH in H. destruct H as (-> & Hnd & -> & Hall).
        repeat split; auto.
        intros o1 [<-|Hin]; [|exact (Hall _ Hin)]. rewrite Hc. left.
        apply negb_true_iff, empty_false in Hsym. exact Hsym.
      * destruct (negb (output.is_etp o) && negb (output.is_message o))
          eqn:Hk; [discriminate|].
        intros H. apply IH in H. destruct H as (-> & Hnd & -> & Hall).
        repeat split; auto.
        intros o1 [<-|Hin]; [|exact (Hall _ Hin)]. rewrite Hc. right.
        destruct (output.is_etp o); [auto|].
        destruct (output.is_message o); [auto | discriminate].
Qed.

(** X4. When [check_asset_certs] holds, the certificate types of the
    outputs are pairwise different and include every type of
    [asset_certs_in_]; each certificate output obeys the symbol rule (the
    domain of its symbol is [old_symbol_in_] when the inputs hold a domain
    certificate, its symbol is [old_symbol_in_] otherwise); the other
    outputs are asset-related, etp or message outputs; and a certificate in
    transfer allows one certificate in and one out only. *)
Theorem check_asset_certs_true (m : members) (tx : transaction.t) :
  check_asset_certs m tx = true ->
  let certs_out :=
    map output.get_asset_cert_type
      (filter output.is_asset_cert (transaction.outputs tx)) in
  NoDup certs_out
  /\ (forall t, In t (asset_certs_in (aggregates_ m)) -> In t certs_out)
  /\ (forall o, In o (transaction.outputs tx) -> cert_output_rule m o)
  /\ (existsb is_cert_transfer_output (transaction.outputs tx) = true ->
      List.length (asset_certs_in (aggregates_ m)) = 1%nat
      /\ List.length certs_out = 1%nat).
Proof.
  unfold check_asset_certs.
  destruct (for_each _ _ _) as [b|[transfer certs]] eqn:Hloop.
  - intros ->. apply for_each_return in Hloop.
    destruct Hloop as (o & [tr cs] & _ & Hb). exfalso. revert Hb.
    unfold check_asset_certs_body.
    repeat match goal with
           | |- context [if ?b then _ else _] => destruct b
           end; discriminate.
  - apply check_asset_certs_loop in Hloop.
    destruct Hloop as (-> & Hnd & -> & Hall). simpl in *.
    specialize (Hnd (NoDup_nil _)).
    destruct (existsb is_cert_transfer_output (transaction.outputs tx)
              && _) eqn:Hsize; [discriminate|].
    intros Hsub. repeat split; auto.
    + intros t Hin. unfold asset_cert.test_certs_all in Hsub.
      rewrite forallb_forall in Hsub. apply test_certs_In. auto.
    + destruct (existsb _ _); [|discriminate]. simpl in Hsize.
      apply orb_false_iff in Hsize. destruct Hsize as (H1 & _).
      apply negb_false_iff, Nat.eqb_eq in H1. exact H1.
    + destruct (existsb _ _); [|discriminate]. simpl in Hsize.
      apply orb_false_iff in Hsize. destruct Hsize as (_ & H2).
      apply negb_false_iff, Nat.eqb_eq in H2. exact H2.
Qed.

(** ** Aggregates that [connect_input] keeps *)

Ltac unfold_kinds :=
  unfold output.is_asset, output.is_asset_mit, output.is_did,
    output.is_asset_issue, output.is_asset_secondaryissue,
    output.is_asset_transfer, output.is_asset_cert,
    output.is_asset_mit_register, output.is_asset_mit_transfer,
    output.is_did_register, output.is_did_transfer, output.is_etp,
    output.is_message, output.get_asset_symbol, output.get_did_symbol,
    output.get_asset_cert_type, output.get_asset_cert_symbol in *.

Lemma latch_symbol_keeps (old new s : string) :
  latch_symbol old new = Some s ->
  (old <> "" -> s = old) /\ (new <> "" -> s = new).
Proof.
  intros H. destruct (latch_symbol_some _ _ _ H) as [(-> & ->)|(Hne & <- & ->)];
    split; congruence.
Qed.

(** The symbols after the kind-dependent part. *)
Lemma connect_input_kind_symbols (po : output.t) (a a1 : aggregates)
    (certs : asset_cert_type) (amount : Z) :
  connect_input_kind po a = Continue (a1, certs, amount) ->
  (old_symbol_in a <> "" -> old_symbol_in a1 = old_symbol_in a)
  /\ (output.is_asset po = true \/ output.is_asset_mit po = true ->
      output.get_asset_symbol po <> "" ->
      old_symbol_in a1 = output.get_asset_symbol po)
  /\ (output.is_did po = true ->
      output.get_did_symbol po <> "" ->
      old_symbol_in a1 = output.get_did_symbol po)
  /\ (output.is_etp po = true \/ output.is_message po = true ->
      old_symbol_in a1 = old_symbol_in a).
Proof.
  unfold connect_input_kind. destruct a as [v am cs old new k].
  unfold_kinds. simpl.
  destruct (output.kind po) eqn:Hk; simpl.
  all: try (destruct (empty _) eqn:He;
            [apply empty_true in He|apply empty_false in He]).
  all: try (destruct (latch_symbol old _) as [s|] eqn:Hl;
            [apply latch_symbol_keeps in Hl; destruct Hl as (Hl1 & Hl2)
            |discriminate]).
  all: try (destruct (asset_cert.test_certs cs asset_cert_ns.domain);
            (destruct (String.eqb _ _); simpl; [|discriminate])).
  all: try (destruct (asset_cert.test_certs cs _); [discriminate|]).
  all: intros H; injection H as <- _ _; simpl.
  all: repeat split; intros; try congruence; auto.
  all: try (match goal with H : _ \/ _ |- _ => destruct H; discriminate end).
Qed.

(** The certificate that the kind-dependent part reports. *)
Lemma connect_input_kind_certs (po : output.t) (a a1 : aggregates)
    (certs : asset_cert_type) (amount : Z) :
  connect_input_kind po a = Continue (a1, certs, amount) ->
  certs = (if output.is_asset_cert po
           then output.get_asset_cert_type po else asset_cert_ns.none)
  /\ (output.is_asset_cert po = true -> ~ In certs (asset_certs_in a)).
Proof.
  unfold connect_input_kind. destruct a as [v am cs old new k].
  unfold_kinds. simpl.
  destruct (output.kind po) eqn:Hk; simpl;
    try (destruct (if empty _ then _ else _); [|discriminate]);
    try (destruct (latch_symbol old _); [|discriminate]);
    try (intros H; injection H as _ <- _; split;
         [reflexivity | discriminate]).
  destruct (asset_cert.test_certs cs _) eqn:Ht; [discriminate|].
  intros H; injection H as _ <- _. split; [reflexivity|].
  intros _ Hin. apply test_certs_In in Hin. congruence.
Qed.

Section ConnectKeeps.

Variable E : environment.

(** X5. [old_symbol_in] is written once: an accepted input leaves a
    non-empty [old_symbol_in] as it is, and after an accepted asset, MIT or
    did input with a non-empty symbol, [old_symbol_in] is that symbol. So
    the asset, MIT and did inputs of a transaction that connects all name
    one symbol. An etp or message input does not touch it. *)
Theorem connect_input_latches_symbol (tx : transaction.t)
    (current_input : nat) (previous_tx : transaction.t)
    (parent_height last_block_height flags : Z) (a a' : aggregates)
    (i : input.t) (previous_output : output.t) :
  nth_error (transaction.inputs tx) current_input = Some i ->
  output_at previous_tx i = Some previous_output ->
  connect_input E tx current_input previous_tx parent_height
    last_block_height flags a = Ret (true, a') ->
  (old_symbol_in a <> "" -> old_symbol_in a' = old_symbol_in a)
  /\ (output.is_asset previous_output = true
      \/ output.is_asset_mit previous_output = true ->
      output.get_asset_symbol previous_output <> "" ->
      old_symbol_in a' = output.get_asset_symbol previous_output)
  /\ (output.is_did previous_output = true ->
      output.get_did_symbol previous_output <> "" ->
      old_symbol_in a' = output.get_did_symbol previous_output)
  /\ (output.is_etp previous_output = true
      \/ output.is_message previous_output = true ->
      old_symbol_in a' = old_symbol_in a).
Proof.
  intros Hi Hpo Hconnect.
  destruct (connect_input_accepted _ _ _ _ _ _ _ _ _ _ Hi Hconnect)
    as (po & a1 & certs & amount & Hpo' & _ & Hkind & _ & _ & _ & _ & _ & _
        & _ & Hold & _).
  rewrite Hpo in Hpo'. injection Hpo' as <-. rewrite Hold.
  exact (connect_input_kind_symbols _ _ _ _ _ Hkind).
Qed.

(** X6. An accepted input adds to [asset_certs_in] the type of the
    certificate it spends, at the end, and nothing otherwise; that type was
    not in the list, so the list stays free of repetitions, and [none] is
    never added. *)
Theorem connect_input_certs_distinct (tx : transaction.t)
    (current_input : nat) (previous_tx : transaction.t)
    (parent_height last_block_height flags : Z) (a a' : aggregates)
    (i : input.t) (previous_output : output.t) :
  nth_error (transaction.inputs tx) current_input = Some i ->
  output_at previous_tx i = Some previous_output ->
  connect_input E tx current_input previous_tx parent_height
    last_block_height flags a = Ret (true, a') ->
  asset_certs_in a'
  = (if output.is_asset_cert previous_output
        && negb (asset_cert_ns.eqb
                   (output.get_asset_cert_type previous_output)
                   asset_cert_ns.none)
     then asset_certs_in a ++ [output.get_asset_cert_type previous_output]
     else asset_certs_in a)
  /\ (NoDup (asset_certs_in a) -> NoDup (asset_certs_in a'))
  /\ (~ In asset_cert_ns.none (asset_certs_in a) ->
      ~ In asset_cert_ns.none (asset_certs_in a')).
Proof.
  intros Hi Hpo Hconnect.
  destruct (connect_input_accepted _ _ _ _ _ _ _ _ _ _ Hi Hconnect)
    as (po & a1 & certs & amount & Hpo' & _ & Hkind & _ & _ & _ & _ & _ & _
        & Hcerts & _).
  rewrite Hpo in Hpo'. injection Hpo' as <-.
  destruct (connect_input_kind_continue _ _ _ _ _ Hkind) as (_ & _ & Hc1 & _).
  destruct (connect_input_kind_certs _ _ _ _ _ Hkind) as (Hc & Hnin).
  rewrite Hcerts, Hc1. subst certs.
  destruct (output.is_asset_cert previous_output); simpl.
  - destruct (asset_cert_ns.eqb _ asset_cert_ns.none) eqn:Hn; simpl.
    + auto.
    + split; [reflexivity|]. split.
      * intros Hnd. apply NoDup_snoc; auto.
      * intros Hno Hin. apply in_app_iff in Hin.
        destruct Hin as [?|[Heq|[]]]; [contradiction|].
        rewrite Heq in Hn. discriminate.
  - auto.
Qed.

End ConnectKeeps.

(** ** What [check_transaction_basic] guarantees *)

Lemma for_each_continue {A R S : Type} (body : A -> S -> flow R S)
    (xs : list A) (s s' : S) :
  for_each body xs s = Continue s' ->
  forall x, In x xs -> exists s1 s2, body x s1 = Continue s2.
Proof.
  revert s. induction xs as [|x xs IH]; simpl; intros s H y Hin; [easy|].
  destruct (body x s) as [r|s1] eqn:Hb; [discriminate|].
  destruct Hin as [<-|Hin]; [eauto|]. eapply IH; eauto.
Qed.

Section BasicFacts.

Variable E : environment.

(** The loop "Check for negative or overflow output values", from any
    running total. *)
Lemma basic_output_value_loop (outs : list output.t) (total total' : Z) :
  for_each (basic_output_value E) outs total = Continue total' ->
  total' = fold_left (fun t o => add64 t (output.value o)) outs total
  /\ (forall o, In o outs -> output.value o <= max_money E)
  /\ (outs <> [] -> total' <= max_money E)
  /\ (0 <= total <= max_money E ->
      2 * max_money E <= max_uint64 ->
      (forall o, In o outs -> 0 <= output.value o) ->
      total' = total + fold_right (fun o t => output.value o + t) 0 outs
      /\ 0 <= total' <= max_money E).
Proof.
  revert total. induction outs as [|o outs IH]; intros total;
    cbn [for_each fold_left fold_right].
  - intros H. injection H as <-.
    split; [reflexivity|]. split; [contradiction|].
    split; [congruence|]. intros Hr _ _. split; lia.
  - unfold basic_output_value at 1.
    destruct (output.value o >? max_money E) eqn:Hv; [discriminate|].
    destruct (add64 total (output.value o) >? max_money E) eqn:Ht;
      [discriminate|].
    intros H. apply IH in H. destruct H as (Hfold & Hall & Hle & Hexact).
    split; [exact Hfold|]. split.
    { intros o1 [<-|Hin]; [lia | auto]. }
    split.
    { intros _. destruct outs as [|o2 outs2].
      - simpl in Hfold. subst total'. lia.
      - apply Hle. discriminate. }
    intros Hrange Hmax Hpos.
    assert (Hadd : add64 total (output.value o) = total + output.value o).
    { unfold add64. apply wrap64_small.
      specialize (Hpos o (or_introl eq_refl)).
      lia. }
    rewrite Hadd in *.
    assert (Hrange' : 0 <= total + output.value o <= max_money E).
    { specialize (Hpos o (or_introl eq_refl)). lia. }
    destruct (Hexact Hrange' Hmax (fun o1 Hin => Hpos o1 (or_intror Hin)))
      as (-> & Hr).
    split; [lia | exact Hr].
Qed.

(** The output values of a transaction that passes
    [check_transaction_basic]. *)
Lemma check_transaction_basic_total (tx : transaction.t)
    (chain : block_chain.t) :
  check_transaction_basic E tx chain = error.success ->
  (forall o, In o (transaction.outputs tx) -> output.value o <= max_money E)
  /\ transaction.total_output_value tx <= max_money E
  /\ (2 * max_money E <= max_uint64 ->
      (forall o, In o (transaction.outputs tx) -> 0 <= output.value o) ->
      transaction.total_output_value tx = sum_output_value tx
      /\ 0 <= sum_output_value tx <= max_money E).
Proof.
  unfold check_transaction_basic.
  destruct (_ <=? _); [discriminate|].
  destruct (_ && negb (is_nova_feature_activated chain)); [discriminate|].
  destruct (_ && negb (block_chain.use_testnet_rules chain)); [discriminate|].
  destruct (_ && existsb _ _); [discriminate|].
  destruct (transaction.inputs tx) as [|i0 ins]; [discriminate|].
  destruct (transaction.outputs tx) as [|o0 outs] eqn:Houts; [discriminate|].
  simpl orb. cbv iota.
  destruct (serialized_size E tx >? max_transaction_size); [discriminate|].
  destruct (for_each (basic_output_value E) (o0 :: outs) 0)
    as [c|total] eqn:Hloop.
  { intros ->. apply for_each_return in Hloop.
    destruct Hloop as (o & s & _ & Hb).
    apply basic_output_value_return in Hb. discriminate. }
  intros _. apply basic_output_value_loop in Hloop.
  destruct Hloop as (Hfold & Hall & Hle & Hexact).
  unfold transaction.total_output_value, sum_output_value. rewrite Houts.
  rewrite <- Hfold.
  split; [exact Hall|]. split; [apply Hle; discriminate|].
  intros Hmax Hpos.
  assert (H0 : 0 <= 0 <= max_money E).
  { specialize (Hall o0 (or_introl eq_refl)).
    specialize (Hpos o0 (or_introl eq_refl)). lia. }
  destruct (Hexact H0 Hmax Hpos) as (Hx & Hr).
  rewrite Z.add_0_l in Hx. rewrite <- Hx. split; [reflexivity | exact Hr].
Qed.

(** X7. A transaction that passes [check_transaction_basic] has a version
    below [max_version], at least one input and one output, a serialized
    size of at most 1,000,000, and no output above [max_money]; the 64-bit
    total of its output values is at most [max_money], and so is their
    exact sum when twice [max_money] fits in 64 bits: the running total
    cannot wrap unnoticed. *)
Theorem check_transaction_basic_values (tx : transaction.t)
    (chain : block_chain.t) :
  check_transaction_basic E tx chain = error.success ->
  transaction.version tx < version_max_version E
  /\ transaction.inputs tx <> []
  /\ transaction.outputs tx <> []
  /\ serialized_size E tx <= 1000000
  /\ (forall o, In o (transaction.outputs tx) ->
      output.value o <= max_money E)
  /\ transaction.total_output_value tx <= max_money E
  /\ (2 * max_money E <= max_uint64 ->
      (forall o, In o (transaction.outputs tx) -> 0 <= output.value o) ->
      transaction.total_output_value tx = sum_output_value tx
      /\ 0 <= sum_output_value tx <= max_money E).
Proof.
  unfold check_transaction_basic.
  destruct (_ <=? _) eqn:Hver; [discriminate|].
  destruct (_ && negb (is_nova_feature_activated chain)); [discriminate|].
  destruct (_ && negb (block_chain.use_testnet_rules chain)); [discriminate|].
  destruct (_ && existsb _ _); [discriminate|].
  destruct (transaction.inputs tx) as [|i0 ins] eqn:Hins; [discriminate|].
  destruct (transaction.outputs tx) as [|o0 outs] eqn:Houts; [discriminate|].
  simpl orb. cbv iota.
  destruct (serialized_size E tx >? max_transaction_size) eqn:Hsize;
    [discriminate|].
  destruct (for_each (basic_output_value E) (o0 :: outs) 0)
    as [c|total] eqn:Hloop.
  { intros ->. apply for_each_return in Hloop.
    destruct Hloop as (o & s & _ & Hb).
    apply basic_output_value_return in Hb. discriminate. }
  intros _. apply basic_output_value_loop in Hloop.
  destruct Hloop as (Hfold & Hall & Hle & Hexact).
  unfold transaction.total_output_value, sum_output_value. rewrite Houts.
  rewrite <- Hfold. unfold max_transaction_size in Hsize.
  split; [lia|]. split; [discriminate|]. split; [discriminate|].
  split; [lia|]. split; [exact Hall|].
  split; [apply Hle; discriminate|].
  intros Hmax Hpos.
  assert (H0 : 0 <= 0 <= max_money E).
  { specialize (Hall o0 (or_introl eq_refl)).
    specialize (Hpos o0 (or_introl eq_refl)). lia. }
  destruct (Hexact H0 Hmax Hpos) as (Hx & Hr).
  rewrite Z.add_0_l in Hx. rewrite <- Hx. split; [reflexivity | exact Hr].
Qed.

End BasicFacts.

Section BasicFacts2.

Variable E : environment.

Lemma basic_output_kind_return_error (tx : transaction.t)
    (chain : block_chain.t) (o : output.t) (u : unit) (c : code) :
  basic_output_kind E tx chain o u = Return c -> c <> error.success.
Proof.
  unfold basic_output_kind. cbv zeta.
  repeat match goal with |- context [if ?b then _ else _] => destruct b end;
    intros H; try discriminate H; injection H as <-; discriminate.
Qed.

Lemma basic_input_return_error (chain : block_chain.t) (i : input.t)
    (u : unit) (c : code) :
  basic_input E chain i u = Return c -> c <> error.success.
Proof.
  unfold basic_input.
  destruct (is_null E _); [intros H; injection H as <-; discriminate|].
  destruct (script.sign_key_hash_with_lock_height _); [|discriminate].
  destruct (block_chain.get_transaction _ _) as [[? ?]|];
    [|intros H; injection H as <-; discriminate].
  destruct (_ >? _); [|discriminate].
  intros H; injection H as <-; discriminate.
Qed.

Lemma basic_output_kind_continue (tx : transaction.t)
    (chain : block_chain.t) (o : output.t) (u u' : unit) :
  basic_output_kind E tx chain o u = Continue u' ->
  (output.is_asset_issue o = true ->
   is_valid_symbol E (output.get_asset_symbol o) (transaction.version tx)
   = true)
  /\ (output.is_asset_cert o = true ->
      block_chain.is_did_exist chain
        (asset_cert.get_owner (output.get_asset_cert o)) = true)
  /\ (output.is_did_register o = true ->
      is_valid_did_symbol E (output.get_did_symbol o)
        (negb (block_chain.use_testnet_rules chain)) = true)
  /\ (output.is_asset_mit_register o = true ->
      is_valid_mit_symbol E (output.get_asset_symbol o) true = true)
  /\ (version_check_nova_feature E <= transaction.version tx ->
      is_valid E (output.attach_data o) = true).
Proof.
  unfold basic_output_kind. cbv zeta.
  unfold output.is_asset_issue, output.is_asset_cert,
    output.is_did_register, output.is_asset_mit_register.
  destruct (output.kind o); simpl;
    repeat match goal with
           | |- context [negb ?b] => destruct b eqn:?; simpl
           end;
    try discriminate;
    destruct (_ <=? _) eqn:Hv; simpl; try discriminate;
    intros _; repeat split; intros; try congruence; try lia.
Qed.

Lemma basic_input_continue (chain : block_chain.t) (i : input.t)
    (u u' : unit) :
  basic_input E chain i u = Continue u' ->
  is_null E (input.previous_output i) = false
  /\ forall lock_height,
       script.sign_key_hash_with_lock_height (input.script i)
       = Some lock_height ->
       exists prev_tx prev_height,
         block_chain.get_transaction chain
           (output_point.hash (input.previous_output i))
         = Some (prev_tx, prev_height)
         /\ lock_height <= sub64 (current_blockheight chain) prev_height.
Proof.
  unfold basic_input, current_blockheight.
  destruct (is_null E _); [discriminate|].
  destruct (script.sign_key_hash_with_lock_height _) as [lh|].
  - destruct (block_chain.get_transaction chain _) as [[prev h]|];
      [|discriminate].
    destruct (lh >? _) eqn:Hlh; [discriminate|].
    intros _. split; [reflexivity|]. intros lock_height H.
    injection H as <-. exists prev, h. split; [reflexivity | lia].
  - intros _. split; [reflexivity | discriminate].
Qed.

Lemma basic_output_lock_height_continue (o : output.t) (u u' : unit) :
  basic_output_lock_height E o u = Continue u' ->
  forall lock_height,
    script.pay_key_hash_with_lock_height (output.script o)
    = Some lock_height ->
    0 <= to_int32 lock_height /\ 0 <= get_lock_heights_index E lock_height.
Proof.
  unfold basic_output_lock_height.
  destruct (script.pay_key_hash_with_lock_height _) as [lh|];
    [|discriminate].
  destruct (to_int32 lh <? 0) eqn:H1; [discriminate|].
  destruct (get_lock_heights_index E lh <? 0) eqn:H2; [discriminate|].
  intros _ lock_height H. injection H as <-. lia.
Qed.

(** X8. A transaction that passes [check_transaction_basic] has only
    standard output scripts from version [check_output_script] on, valid
    symbols on its asset-issue, did-register and MIT-register outputs, a
    registered owner on each certificate output and valid attachments from
    version [check_nova_feature] on. If it is a coinbase, its script has
    2 to 100 bytes. If it is not, no input has a null previous output; each
    input locked to a height spends a confirmed transaction, and its lock
    height is at most the 64-bit difference of the last height and the
    height of that transaction; each output locked to a height names a
    known lock height; and from version [check_nova_feature] on the
    attenuation model check passed. The difference is taken without
    comparing the heights: the lock height has passed since the previous
    transaction was confirmed when that height is not above the last
    height, and nothing is said otherwise. *)
Theorem check_transaction_basic_details (tx : transaction.t)
    (chain : block_chain.t) :
  check_transaction_basic E tx chain = error.success ->
  (version_check_output_script E <= transaction.version tx ->
   forall o, In o (transaction.outputs tx) ->
   script.is_non_standard (output.script o) = false)
  /\ (forall o, In o (transaction.outputs tx) ->
      (output.is_asset_issue o = true ->
       is_valid_symbol E (output.get_asset_symbol o)
         (transaction.version tx) = true)
      /\ (output.is_asset_cert o = true ->
          block_chain.is_did_exist chain
            (asset_cert.get_owner (output.get_asset_cert o)) = true)
      /\ (output.is_did_register o = true ->
          is_valid_did_symbol E (output.get_did_symbol o)
            (negb (block_chain.use_testnet_rules chain)) = true)
      /\ (output.is_asset_mit_register o = true ->
          is_valid_mit_symbol E (output.get_asset_symbol o) true = true)
      /\ (version_check_nova_feature E <= transaction.version tx ->
          is_valid E (output.attach_data o) = true))
  /\ (is_coinbase E tx = true ->
      exists i,
        transaction.inputs tx = [i]
        /\ 2 <= script.serialized_size (input.script i) <= 100)
  /\ (is_coinbase E tx = false ->
      (forall i, In i (transaction.inputs tx) ->
       is_null E (input.previous_output i) = false
       /\ forall lock_height,
            script.sign_key_hash_with_lock_height (input.script i)
            = Some lock_height ->
            exists prev_tx prev_height,
              block_chain.get_transaction chain
                (output_point.hash (input.previous_output i))
              = Some (prev_tx, prev_height)
              /\ lock_height
                 <= sub64 (current_blockheight chain) prev_height
              /\ (0 <= prev_height <= current_blockheight chain ->
                  current_blockheight chain <= max_uint64 ->
                  lock_height <= current_blockheight chain - prev_height))
      /\ (forall o lock_height,
            In o (transaction.outputs tx) ->
            script.pay_key_hash_with_lock_height (output.script o)
            = Some lock_height ->
            0 <= to_int32 lock_height
            /\ 0 <= get_lock_heights_index E lock_height)
      /\ (version_check_nova_feature E <= transaction.version tx ->
          check_model_param_tx E tx chain = error.success)).
Proof.
  unfold check_transaction_basic.
  destruct (_ <=? _); [discriminate|].
  destruct (_ && negb (is_nova_feature_activated chain)); [discriminate|].
  destruct (_ && negb (block_chain.use_testnet_rules chain)); [discriminate|].
  destruct (_ && existsb _ _) eqn:Hstd; [discriminate|].
  destruct (_ || _); [discriminate|].
  destruct (_ >? _); [discriminate|].
  destruct (for_each (basic_output_value E) _ _) as [c|total] eqn:H1.
  { intros ->. apply for_each_return in H1. destruct H1 as (o & s & _ & H1).
    apply basic_output_value_return in H1. discriminate. }
  destruct (for_each (basic_output_kind E tx chain) _ _) as [c|u] eqn:H2.
  { intros ->. apply for_each_return in H2. destruct H2 as (o & s & _ & H2).
    now apply basic_output_kind_return_error in H2. }
  intros Hrest.
  split.
  { intros Hv o Hin.
    destruct (version_check_output_script E <=? transaction.version tx)
      eqn:Hle; [|lia].
    simpl in Hstd.
    destruct (script.is_non_standard (output.script o)) eqn:Hns;
      [|reflexivity].
    assert (Hex : existsb (fun o => script.is_non_standard (output.script o))
                    (transaction.outputs tx) = true).
    { apply existsb_exists. exists o. auto. }
    congruence. }
  split.
  { intros o Hin.
    destruct (for_each_continue _ _ _ _ H2 o Hin) as ([] & [] & Hb).
    exact (basic_output_kind_continue _ _ _ _ _ Hb). }
  destruct (is_coinbase E tx) eqn:Hcb.
  - split; [|split; [discriminate|discriminate]]. intros _.
    revert Hcb Hrest. unfold is_coinbase.
    destruct (transaction.inputs tx) as [|i [|i2 rest]]; try discriminate.
    intros _.
    destruct (script.serialized_size (input.script i) <? 2) eqn:Hlo;
      [discriminate|].
    destruct (100 <? script.serialized_size (input.script i)) eqn:Hhi;
      [discriminate|].
    intros _. exists i. split; [reflexivity | lia].
  - split; [discriminate|]. intros _.
    destruct (for_each (basic_input E chain) _ _) as [c|u3] eqn:H3.
    { subst c. apply for_each_return in H3.
      destruct H3 as (i & s & _ & H3).
      now apply basic_input_return_error in H3. }
    destruct (for_each (basic_output_lock_height E) _ _) as [c|u4] eqn:H4.
    { subst c. apply for_each_return in H4.
      destruct H4 as (o & s & _ & H4).
      apply basic_output_lock_height_return in H4. discriminate. }
    split.
    { intros i Hin.
      destruct (for_each_continue _ _ _ _ H3 i Hin) as ([] & [] & Hb).
      destruct (basic_input_continue _ _ _ _ Hb) as (Hnull & Hlock).
      split; [exact Hnull|]. intros lh Hlh.
      destruct (Hlock lh Hlh) as (prev_tx & prev_height & Hget & Hle).
      exists prev_tx, prev_height. split; [exact Hget|].
      split; [exact Hle|]. intros Hp Hc.
      rewrite sub64_exact in Hle by assumption. exact Hle. }
    split.
    { intros o lh Hin Hlh.
      destruct (for_each_continue _ _ _ _ H4 o Hin) as ([] & [] & Hb).
      exact (basic_output_lock_height_continue _ _ _ Hb _ Hlh). }
    intros Hv.
    destruct (version_check_nova_feature E <=? transaction.version tx)
      eqn:Hle; [exact Hrest | lia].
Qed.

End BasicFacts2.

(** ** What an accepted transaction went through *)

Lemma firstn_S_nth_error {A : Type} (l : list A) (k : nat) (x : A) :
  nth_error l k = Some x -> firstn (S k) l = firstn k l ++ [x].
Proof.
  revert l. induction k as [|k IH]; intros [|y l]; simpl; try discriminate.
  - intros H. injection H as ->. reflexivity.
  - intros H. f_equal. exact (IH _ H).
Qed.

Lemma sum_Z_app (l1 l2 : list Z) : sum_Z (l1 ++ l2) = sum_Z l1 + sum_Z l2.
Proof.
  unfold sum_Z. induction l1 as [|x l1 IH]; simpl; [reflexivity|].
  rewrite IH. lia.
Qed.

(** The business kind and the new symbol after the kind-dependent part. *)
Lemma connect_input_kind_business_kind (po : output.t) (a a1 : aggregates)
    (certs : asset_cert_type) (amount : Z) :
  connect_input_kind po a = Continue (a1, certs, amount) ->
  business_kind_in a1 = output_business_kind po (business_kind_in a)
  /\ (output.is_asset po = true ->
      new_symbol_in a1 = output.get_asset_symbol po).
Proof.
  unfold connect_input_kind, output_business_kind.
  destruct a as [v am cs old new k].
  unfold_kinds. simpl.
  destruct (output.kind po) eqn:Hk; simpl;
    try (destruct (if empty _ then _ else _); [|discriminate]);
    try (destruct (latch_symbol old _); [|discriminate]);
    try (destruct (asset_cert.test_certs cs _); [discriminate|]);
    intros H; injection H as <- _ _; simpl; split; try reflexivity;
    try discriminate.
Qed.

(** An output that [connect_input] accepts leaves its symbol, if any, in
    [old_symbol_in]. *)
Lemma connect_input_kind_output_symbol (po : output.t) (a a1 : aggregates)
    (certs : asset_cert_type) (amount : Z) :
  connect_input_kind po a = Continue (a1, certs, amount) ->
  output_symbol po = "" \/ output_symbol po = old_symbol_in a1.
Proof.
  intros Hkind.
  destruct (connect_input_kind_symbols _ _ _ _ _ Hkind)
    as (_ & Hasset & Hdid & _).
  unfold output_symbol.
  destruct (output.is_asset po || output.is_asset_mit po) eqn:Ha.
  - apply orb_true_iff in Ha.
    destruct (string_dec (output.get_asset_symbol po) "") as [?|Hne];
      [now left | right].
    symmetry. now apply Hasset.
  - destruct (output.is_did po) eqn:Hd; [|now left].
    destruct (string_dec (output.get_did_symbol po) "") as [?|Hne];
      [now left | right].
    symmetry. now apply Hdid.
Qed.

Lemma check_consensus_true (E : environment) (prevout_script : script.t)
    (tx : transaction.t) (k : nat) (flags : Z) (i : input.t) :
  nth_error (transaction.inputs tx) k = Some i ->
  check_consensus E prevout_script tx k flags = Ret true ->
  verify E (input.script i) prevout_script tx (wrap32 (Z.of_nat k)) flags
  = true.
Proof.
  unfold check_consensus. intros ->.
  destruct (_ <? _); [discriminate|]. intros H. now injection H.
Qed.

Section AdmissionFacts.

Variable E : environment.
Variable blockchain_ : block_chain.t.
Variable tx_ : transaction.t.
Variable pool_ : transaction_pool.t.

Local Abbreviation inputs := (transaction.inputs tx_).
Local Abbreviation cprefix := (connected_prefix E blockchain_ tx_ pool_).
Local Abbreviation ainv := (admission_invariant E blockchain_ tx_ pool_).

Lemma prefix_value_S (k : nat) (i : input.t) :
  nth_error inputs k = Some i ->
  prefix_value blockchain_ tx_ pool_ (S k)
  = prefix_value blockchain_ tx_ pool_ k + input_value blockchain_ pool_ i.
Proof.
  intros Hi. unfold prefix_value.
  rewrite (firstn_S_nth_error _ _ _ Hi), map_app, sum_Z_app.
  unfold sum_Z. simpl. lia.
Qed.

Lemma prefix_certs_S (k : nat) (i : input.t) :
  nth_error inputs k = Some i ->
  prefix_certs blockchain_ tx_ pool_ (S k)
  = prefix_certs blockchain_ tx_ pool_ k ++ input_certs blockchain_ pool_ i.
Proof.
  intros Hi. unfold prefix_certs.
  rewrite (firstn_S_nth_error _ _ _ Hi), flat_map_app. simpl.
  now rewrite app_nil_r.
Qed.

Lemma prefix_business_kind_S (k : nat) (i : input.t) :
  nth_error inputs k = Some i ->
  prefix_business_kind blockchain_ tx_ pool_ (S k)
  = input_business_kind blockchain_ pool_
      (prefix_business_kind blockchain_ tx_ pool_ k) i.
Proof.
  intros Hi. unfold prefix_business_kind.
  now rewrite (firstn_S_nth_error _ _ _ Hi), fold_left_app.
Qed.

Lemma pool_indexes_S (k : nat) (i : input.t) :
  nth_error inputs k = Some i ->
  pool_indexes blockchain_ tx_ (S k)
  = pool_indexes blockchain_ tx_ k
    ++ (if resolved_from_pool blockchain_ i then [k] else []).
Proof.
  intros Hi. unfold pool_indexes.
  rewrite seq_S, filter_app. simpl. rewrite Hi. reflexivity.
Qed.

Lemma connect_inputs_snoc (last_block_height : Z) (l : list input.t)
    (i : input.t) (k : nat) (a a1 a2 : aggregates) :
  connect_inputs E blockchain_ tx_ pool_ last_block_height l k a
  = Ret (Some a1) ->
  connect_resolved E blockchain_ tx_ pool_ last_block_height
    (k + List.length l) i a1 = Ret (Some a2) ->
  connect_inputs E blockchain_ tx_ pool_ last_block_height (l ++ [i]) k a
  = Ret (Some a2).
Proof.
  revert k a. induction l as [|x l IH]; intros k a; simpl.
  - intros H. injection H as <-. rewrite Nat.add_0_r. intros ->. reflexivity.
  - destruct (connect_resolved E blockchain_ tx_ pool_ _ k x a)
      as [[ax|]| |]; simpl; try discriminate.
    intros H1 H2. apply IH; [exact H1|].
    now rewrite Nat.add_succ_comm.
Qed.

(** One more input connected. *)
Lemma connect_input_prefix (m : members) (k : nat) (i : input.t)
    (previous_tx : transaction.t) (parent_height : Z) (a' : aggregates) :
  nth_error inputs k = Some i ->
  cprefix m k ->
  resolve_previous_tx blockchain_ pool_ i = Some (previous_tx, parent_height) ->
  (is_coinbase E previous_tx = true ->
   resolved_from_pool blockchain_ i = false) ->
  connect_input E tx_ k previous_tx parent_height (last_block_height_ m)
    (all_enabled E) (aggregates_ m) = Ret (true, a') ->
  cprefix (mk_members (last_block_height_ m) (current_input_ m) a'
             (unconfirmed_ m)) (S k).
Proof.
  intros Hi (Hconn & Hval & Hmax & Hcerts & Hnd & Hkind & Hsym & Hseq) Hres
    Hcb Hc.
  destruct (connect_input_accepted _ _ _ _ _ _ _ _ _ _ Hi Hc)
    as (po & a1 & certs & amount & Hpo & Hv & Hk & Hmat & Hforb & Hcons
        & Hv' & Hle & _ & Hc' & Hold & _ & Hbk).
  destruct (connect_input_kind_continue _ _ _ _ _ Hk)
    as (Hv1 & _ & Hc1 & _).
  destruct (connect_input_kind_business_kind _ _ _ _ _ Hk) as (Hbk1 & Hnew).
  destruct (connect_input_kind_certs _ _ _ _ _ Hk) as (Hct & Hnin).
  destruct (connect_input_kind_symbols _ _ _ _ _ Hk) as (Hkeep & _).
  pose proof (connect_input_kind_output_symbol _ _ _ _ _ Hk) as Hosym.
  assert (Hrpo : resolved_previous_output blockchain_ pool_ i = Some po).
  { unfold resolved_previous_output. now rewrite Hres. }
  assert (Hvalue : value_in a' = wrap64 (prefix_value blockchain_ tx_ pool_
                                           (S k))).
  { rewrite Hv', Hv1, Hval, add64_wrap_l, (prefix_value_S _ _ Hi).
    unfold input_value. now rewrite Hrpo. }
  unfold connected_prefix. cbn [last_block_height_ aggregates_].
  repeat match goal with |- _ /\ _ => split end.
  - intros j i' Hj Hi'.
    destruct (Nat.eq_dec j k) as [->|Hne].
    + rewrite Hi in Hi'. injection Hi' as <-.
      exists previous_tx, parent_height, po.
      repeat match goal with |- _ /\ _ => split end; auto.
      * intros Ha. rewrite <- (Hnew Ha). auto.
      * exact (check_consensus_true _ _ _ _ _ _ Hi Hcons).
    + apply Hconn; [lia | exact Hi'].
  - exact Hvalue.
  - intros j Hj. destruct (Nat.eq_dec j (S k)) as [->|Hne].
    + rewrite <- Hvalue. exact Hle.
    + apply Hmax. lia.
  - rewrite Hc', Hc1, Hcerts, (prefix_certs_S _ _ Hi).
    unfold input_certs, output_certs. rewrite Hrpo, Hct.
    destruct (output.is_asset_cert po); simpl.
    + destruct (asset_cert_ns.eqb (output.get_asset_cert_type po) _); simpl;
        rewrite ?app_nil_r; reflexivity.
    + now rewrite app_nil_r.
  - rewrite (prefix_certs_S _ _ Hi). unfold input_certs, output_certs.
    rewrite Hrpo.
    destruct (output.is_asset_cert po) eqn:Hic; simpl;
      [|now rewrite app_nil_r].
    destruct (asset_cert_ns.eqb (output.get_asset_cert_type po) _); simpl;
      [now rewrite app_nil_r|].
    apply NoDup_snoc; [exact Hnd|].
    rewrite <- Hcerts. subst certs. now apply Hnin.
  - rewrite Hbk, Hbk1, Hkind, (prefix_business_kind_S _ _ Hi).
    unfold input_business_kind. now rewrite Hrpo.
  - intros j i' Hj Hi'. rewrite Hold.
    destruct (Nat.eq_dec j k) as [->|Hne].
    + rewrite Hi in Hi'. injection Hi' as <-.
      unfold input_symbol. rewrite Hrpo. exact Hosym.
    + assert (Hlt : (j < k)%nat) by lia.
      destruct (Hsym j i' Hlt Hi') as [He|He]; [now left|].
      destruct (string_dec (input_symbol blockchain_ pool_ i') "")
        as [?|Hnz]; [now left | right].
      rewrite He. symmetry. apply Hkeep. congruence.
  - rewrite (firstn_S_nth_error _ _ _ Hi).
    apply (connect_inputs_snoc _ _ _ _ _ _ _ Hseq).
    rewrite length_firstn, Nat.min_l
      by (apply Nat.lt_le_incl; exact (nth_error_lt _ _ _ Hi)).
    unfold connect_resolved. rewrite Hres. simpl Nat.add.
    destruct (resolved_from_pool blockchain_ i) eqn:Hp; simpl.
    + destruct (is_coinbase E previous_tx) eqn:Hcoin;
        [specialize (Hcb eq_refl); congruence|].
      rewrite Hc. reflexivity.
    + rewrite Hc. reflexivity.
Qed.

Lemma handle_previous_tx_keeps (m : members) (ec : code)
    (previous_tx : transaction.t) (parent_height : Z) (i : input.t)
    (m' : members) (outpoint : output_point.t) :
  nth_error inputs (current_input_ m) = Some i ->
  cprefix m (current_input_ m) ->
  (error.is_error ec = false ->
   resolve_previous_tx blockchain_ pool_ i = Some (previous_tx, parent_height)
   /\ (is_coinbase E previous_tx = true ->
       resolved_from_pool blockchain_ i = false)) ->
  handle_previous_tx E tx_ m ec previous_tx parent_height
  = Ret (m', [], Some (fetch_spend outpoint)) ->
  cprefix m' (S (current_input_ m))
  /\ last_block_height_ m' = last_block_height_ m
  /\ current_input_ m' = current_input_ m
  /\ unconfirmed_ m' = unconfirmed_ m
  /\ outpoint = input.previous_output i.
Proof.
  intros Hi Hpre Hres. unfold handle_previous_tx.
  destruct (error.is_error ec) eqn:Hec; [discriminate|].
  destruct (Hres eq_refl) as (Hr & Hcb).
  destruct (connect_input E tx_ _ _ _ _ _ _) as [[b a]| |] eqn:Hc; simpl;
    try discriminate.
  destruct b; simpl; [|discriminate].
  rewrite Hi. intros H. injection H as <- <-.
  split; [|auto].
  exact (connect_input_prefix _ _ _ _ _ _ Hi Hpre Hr Hcb Hc).
Qed.

Lemma search_pool_previous_tx_keeps (m : members) (i : input.t)
    (m' : members) (outpoint : output_point.t) :
  nth_error inputs (current_input_ m) = Some i ->
  cprefix m (current_input_ m) ->
  resolved_from_pool blockchain_ i = true ->
  search_pool_previous_tx E tx_ pool_ m
  = Ret (m', [], Some (fetch_spend outpoint)) ->
  cprefix m' (S (current_input_ m))
  /\ last_block_height_ m' = last_block_height_ m
  /\ current_input_ m' = current_input_ m
  /\ unconfirmed_ m' = unconfirmed_ m ++ [current_input_ m]
  /\ outpoint = input.previous_output i.
Proof.
  intros Hi Hpre Hpool. unfold search_pool_previous_tx. rewrite Hi.
  destruct (transaction_pool.find pool_ _) as [previous_tx|] eqn:Hfind;
    [|discriminate].
  destruct (is_coinbase E previous_tx) eqn:Hcb; [discriminate|].
  destruct (handle_previous_tx E tx_ m error.success previous_tx 0)
    as [[[m1 vs] posted]| |] eqn:Hh; simpl; try discriminate.
  intros H. injection H as <- -> ->.
  apply (handle_previous_tx_keeps _ _ _ _ i) in Hh; auto.
  - destruct Hh as (Hp & Hl & Hk & Hu & Ho).
    split; [exact Hp|].
    cbn [last_block_height_ current_input_ unconfirmed_].
    rewrite Hu, Hk. auto.
  - intros _. split; [|congruence].
    unfold resolve_previous_tx. unfold resolved_from_pool in Hpool.
    destruct (block_chain.fetch_transaction_index blockchain_ _) as [c ph].
    simpl in Hpool. rewrite Hpool, Hfind. reflexivity.
Qed.

Lemma next_previous_transaction_post (m : members) (s : step) :
  next_previous_transaction tx_ m = Ret s ->
  exists hash, s = (m, [], Some (fetch_transaction_index hash)).
Proof.
  unfold next_previous_transaction.
  destruct (nth_error _ _); [|discriminate].
  intros H. injection H as <-. eexists. reflexivity.
Qed.

(** Serving one read keeps the invariant. *)
Lemma serve_keeps (u0 : list nat) (m : members) (r : request)
    (m' : members) (r' : request) :
  request_invariant blockchain_ tx_ pool_ m r ->
  ainv u0 m r ->
  serve E blockchain_ tx_ pool_ m r = Ret (m', [], Some r') ->
  ainv u0 m' r'.
Proof.
  intros Hinv Hainv. destruct r as [h| |h|h ph|op]; simpl.
  - (* handle_duplicate_check *)
    destruct Hainv as (-> & Hu).
    destruct (block_chain.fetch_transaction blockchain_ _) as [ec t] eqn:Hf.
    intros H. injection H as H. revert H. unfold handle_duplicate_check.
    destruct (negb (error.eqb ec error.not_found)) eqn:Hnf; [discriminate|].
    destruct (transaction_pool.is_spent_in_pool pool_ tx_) eqn:Hsp;
      [discriminate|].
    intros H. injection H as <- <-. simpl. split; [|exact Hu].
    split; [|exact Hsp]. rewrite Hf. simpl.
    apply negb_false_iff in Hnf. now apply error_eqb_eq.
  - (* set_last_height *)
    destruct Hainv as (Hnk & Hu).
    destruct (block_chain.fetch_last_height blockchain_) as [ec height]
      eqn:Hf.
    unfold set_last_height.
    destruct (error.is_error ec) eqn:Hec; [discriminate|].
    destruct (transaction.inputs tx_) as [|i0 rest] eqn:Hin; [discriminate|].
    intros H. apply next_previous_transaction_post in H.
    destruct H as (hash & H). injection H as Hm Hr. subst m' r'.
    simpl. repeat match goal with |- _ /\ _ => split end; auto.
    + unfold height_known. rewrite Hf. simpl. auto.
    + unfold connected_prefix, prefix_value, prefix_certs,
        prefix_business_kind. simpl.
      repeat match goal with |- _ /\ _ => split end; try reflexivity;
        try (intros; lia).
      constructor.
    + intros j i Hj. lia.
    + unfold pool_indexes. simpl. now rewrite app_nil_r.
  - (* previous_tx_index *)
    destruct Hainv as (Hnk & Hh & Hpre & Hun & Hu).
    destruct Hinv as (_ & i & Hi & ->).
    destruct (block_chain.fetch_transaction_index blockchain_ _)
      as [ec ph] eqn:Hidx.
    unfold previous_tx_index.
    destruct (error.is_error ec) eqn:Hec.
    + intros H.
      assert (Hpool : resolved_from_pool blockchain_ i = true).
      { unfold resolved_from_pool. now rewrite Hidx. }
      pose proof H as H0. unfold search_pool_previous_tx in H0.
      rewrite Hi in H0.
      destruct r' as [h'| |h'|h' ph'|op'];
        try (exfalso; revert H0;
             destruct (transaction_pool.find pool_ _); [|discriminate];
             destruct (is_coinbase E _); [discriminate|];
             unfold handle_previous_tx; simpl;
             destruct (connect_input E tx_ _ _ _ _ _ _) as [[[] a]| |];
             simpl; try discriminate; rewrite Hi; discriminate).
      clear H0.
      destruct (search_pool_previous_tx_keeps _ _ _ _ Hi Hpre Hpool H)
        as (Hp & Hl & Hk & Hu' & Ho).
      simpl. rewrite Hk.
      repeat match goal with |- _ /\ _ => split end; auto.
      * destruct Hh as (Hh1 & Hh2). split; [exact Hh1 | congruence].
      * rewrite Hu', Hu, (pool_indexes_S _ _ Hi), Hpool.
        now rewrite app_assoc.
      * exists i. auto.
    + rewrite Hi. intros H. injection H as <- <-. simpl. auto.
  - (* handle_previous_tx *)
    destruct Hainv as (Hnk & Hh & Hpre & Hun & Hu).
    destruct Hinv as (_ & (i & Hi & ->) & ec & Hidx & Hec).
    destruct (block_chain.fetch_transaction blockchain_ _)
      as [ec' previous_tx] eqn:Hft.
    intros H.
    assert (Hchain : resolved_from_pool blockchain_ i = false).
    { unfold resolved_from_pool. now rewrite Hidx. }
    pose proof H as H0. unfold handle_previous_tx in H0.
    destruct r' as [h'| |h'|h' ph'|op'];
      try (exfalso; revert H0;
           destruct (error.is_error ec'); [discriminate|];
           destruct (connect_input E tx_ _ _ _ _ _ _) as [[[] a]| |];
           simpl; try discriminate; rewrite Hi; discriminate).
    clear H0.
    apply (handle_previous_tx_keeps _ _ _ _ i) in H; auto.
    + destruct H as (Hp & Hl & Hk & Hu' & Ho).
      simpl. rewrite Hk.
      repeat match goal with |- _ /\ _ => split end; auto.
      * destruct Hh as (Hh1 & Hh2). split; [exact Hh1 | congruence].
      * rewrite Hu', Hu, (pool_indexes_S _ _ Hi), Hchain.
        now rewrite app_nil_r.
      * exists i. auto.
    + intros Hec'. split; [|auto]. unfold resolve_previous_tx.
      rewrite Hidx, Hec, Hft, Hec'. reflexivity.
  - (* check_double_spend *)
    destruct Hainv as (Hnk & Hh & Hpre & Hun & Hu & i & Hi & ->).
    unfold check_double_spend.
    destruct (negb (error.eqb _ _)) eqn:Hsp; [discriminate|].
    apply negb_false_iff in Hsp. apply error_eqb_eq in Hsp.
    cbn [current_input_].
    destruct (Nat.ltb _ _).
    + intros H. apply next_previous_transaction_post in H.
      destruct H as (hash & H). injection H as Hm Hr. subst m' r'. simpl.
      repeat match goal with |- _ /\ _ => split end; auto.
      intros j i' Hj Hi'. destruct (Nat.eq_dec j (current_input_ m))
        as [->|Hne].
      * rewrite Hi in Hi'. injection Hi' as <-. exact Hsp.
      * apply (Hun j); [lia | exact Hi'].
    + intros H. destruct (check_fees_shape E tx_
                            (mk_members (last_block_height_ m)
                               (S (current_input_ m)) (aggregates_ m)
                               (unconfirmed_ m))) as (v & Hv).
      rewrite Hv in H. discriminate.
Qed.

Lemma handle_previous_tx_verdict (m : members) (ec : code)
    (previous_tx : transaction.t) (parent_height : Z) (m' : members)
    (v : verdict) (posted : option request) :
  handle_previous_tx E tx_ m ec previous_tx parent_height
  = Ret (m', [v], posted) ->
  verdict_code v <> error.success.
Proof.
  unfold handle_previous_tx.
  destruct (error.is_error ec);
    [intros H; injection H as _ <- _; discriminate|].
  destruct (connect_input E tx_ _ _ _ _ _ _) as [[[] a]| |]; simpl;
    try discriminate.
  - destruct (nth_error _ _); discriminate.
  - intros H; injection H as _ <- _; discriminate.
Qed.

(** A verdict of success after a read is the one of [check_fees], reached
    from [check_double_spend] on the last input. *)
Lemma serve_fees (u0 : list nat) (m : members) (r : request)
    (m' : members) (v : verdict) :
  request_invariant blockchain_ tx_ pool_ m r ->
  ainv u0 m r ->
  serve E blockchain_ tx_ pool_ m r = Ret (m', [v], None) ->
  verdict_code v = error.success ->
  admitted E blockchain_ tx_ pool_ u0 m'.
Proof.
  intros Hinv Hainv. destruct r as [h| |h|h ph|op]; simpl.
  - destruct (block_chain.fetch_transaction blockchain_ _) as [ec t].
    unfold handle_duplicate_check.
    destruct (negb _); [intros H; injection H as _ <-; discriminate|].
    destruct (transaction_pool.is_spent_in_pool pool_ tx_);
      [intros H; injection H as _ <-; discriminate | discriminate].
  - destruct (block_chain.fetch_last_height blockchain_) as [ec height].
    unfold set_last_height.
    destruct (error.is_error ec) eqn:Hec.
    { intros H; injection H as _ <-. simpl. intros ->. discriminate. }
    destruct (transaction.inputs tx_) as [|i0 rest]; [discriminate|].
    intros H. apply next_previous_transaction_post in H.
    destruct H as (hash & H). discriminate.
  - destruct (block_chain.fetch_transaction_index blockchain_ _) as [ec ph].
    unfold previous_tx_index.
    destruct (error.is_error ec).
    + unfold search_pool_previous_tx.
      destruct (nth_error _ _) as [i|]; [|discriminate].
      destruct (transaction_pool.find pool_ _) as [previous_tx|];
        [|intros H; injection H as _ <-; discriminate].
      destruct (is_coinbase E previous_tx); [discriminate|].
      destruct (handle_previous_tx E tx_ m error.success previous_tx 0)
        as [[[m1 vs] posted]| |] eqn:Hh; simpl; try discriminate.
      intros H. injection H as _ -> ->.
      intros Hs. now apply handle_previous_tx_verdict in Hh.
    + destruct (nth_error _ _); discriminate.
  - destruct (block_chain.fetch_transaction blockchain_ _)
      as [ec' previous_tx].
    intros H Hs. now apply handle_previous_tx_verdict in H.
  - destruct Hainv as (Hnk & Hh & Hpre & Hun & Hu & i & Hi & ->).
    destruct Hinv as (_ & Hlt).
    unfold check_double_spend.
    destruct (negb (error.eqb _ _)) eqn:Hsp;
      [intros H; injection H as _ <-; discriminate|].
    apply negb_false_iff in Hsp. apply error_eqb_eq in Hsp.
    cbn [current_input_].
    destruct (Nat.ltb _ _) eqn:Hnext.
    + intros H. apply next_previous_transaction_post in H.
      destruct H as (hash & H). discriminate.
    + apply Nat.ltb_ge in Hnext.
      assert (Hn : List.length (transaction.inputs tx_)
                   = S (current_input_ m)) by lia.
      destruct (check_fees_shape E tx_
                  (mk_members (last_block_height_ m)
                     (S (current_input_ m)) (aggregates_ m)
                     (unconfirmed_ m))) as (v' & Hv).
      rewrite Hv. intros H. injection H as <- _. intros _.
      unfold admitted. cbv zeta. rewrite Hn.
      cbn [current_input_ unconfirmed_].
      repeat match goal with |- _ /\ _ => split end; auto.
      intros j i' Hj Hi'. destruct (Nat.eq_dec j (current_input_ m))
        as [->|Hne].
      * rewrite Hi in Hi'. injection Hi' as <-. exact Hsp.
      * apply (Hun j); [lia | exact Hi'].
Qed.

(** A run that starts from a pending read with enough fuel ends, unless it
    throws, with exactly one more verdict; a verdict of success is the one
    of [check_fees], reached with every input connected and unspent. *)
Lemma run_admitted (u0 : list nat) (fuel : nat) (m : members)
    (verdicts : list verdict) (r : request)
    (result : option (members * list verdict)) :
  transaction.inputs tx_ <> [] ->
  request_invariant blockchain_ tx_ pool_ m r ->
  ainv u0 m r ->
  (reads_left tx_ m r <= fuel)%nat ->
  run E blockchain_ tx_ pool_ fuel (m, verdicts, Some r) = Ret result ->
  exists m' v,
    result = Some (m', verdicts ++ [v])
    /\ (verdict_code v = error.success ->
        check_fees E tx_ m' = (m', [v], None)
        /\ admitted E blockchain_ tx_ pool_ u0 m').
Proof.
  intros Hne. revert m verdicts r.
  induction fuel as [|fuel IH]; intros m verdicts r Hinv Hainv Hfuel.
  - destruct r; simpl in Hfuel; try lia;
      destruct Hinv as (_ & Hinv);
      try (destruct Hinv as ((i & Hi & _) & _));
      try (destruct Hinv as (i & Hi & _));
      try apply nth_error_lt in Hi; lia.
  - simpl.
    destruct (serve E blockchain_ tx_ pool_ m r) as [s| |] eqn:Hs;
      simpl; try discriminate.
    destruct (serve_step _ _ _ _ _ _ _ Hne Hinv Hs)
      as [(m1 & c & idx & -> & Hc)
         |[(m1 & r1 & -> & Hinv1 & Hlt)|(m1 & -> & Hl)]].
    + destruct fuel; simpl; intros H; injection H as <-;
        exists m1, (mk_verdict c idx); (split; [reflexivity|]);
        simpl; congruence.
    + rewrite app_nil_r. apply IH; [exact Hinv1 | | lia].
      exact (serve_keeps _ _ _ _ _ Hinv Hainv Hs).
    + destruct (check_fees_shape E tx_ m1) as (v & Hv). rewrite Hv in *.
      destruct fuel; simpl; intros H; injection H as <-;
        exists m1, v; (split; [reflexivity|]); intros Hsucc;
        (split; [exact Hv|]);
        exact (serve_fees _ _ _ _ _ Hinv Hainv Hs Hsucc).
Qed.

(** What a verdict of success stands for: the stateless checks have passed,
    the transaction is neither a coinbase nor known to the pool or the
    chain, and [check_fees] was reached with every input connected and
    unspent. *)
Lemma validate_admitted (m : members)
    (result : option (members * list verdict)) :
  validate E blockchain_ tx_ pool_ m = Ret result ->
  exists m' v,
    result = Some (m', [v])
    /\ (verdict_code v = error.success ->
        check_transaction E tx_ blockchain_ = Ret error.success
        /\ is_coinbase E tx_ = false
        /\ transaction_pool.is_in_pool pool_ (tx_hash_ E tx_) = false
        /\ check_fees E tx_ m' = (m', [v], None)
        /\ admitted E blockchain_ tx_ pool_ (unconfirmed_ m) m').
Proof.
  unfold validate, start.
  destruct (basic_checks E tx_ pool_ blockchain_) as [ec| |] eqn:Hb;
    cbn [obind]; try discriminate.
  destruct (error.is_error ec) eqn:Hec.
  - apply is_error_true in Hec.
    destruct (error.eqb ec error.input_not_found); simpl;
      intros H; injection H as <-; eexists _, _;
      (split; [reflexivity|]); simpl; congruence.
  - destruct (basic_checks_success _ _ _ _ _ Hb Hec)
      as (-> & Hct & Hcb & Hpool).
    destruct (check_transaction_success _ _ _ Hct) as (Hbasic & _).
    destruct (check_transaction_basic_inputs _ _ _ Hbasic) as (Hne & _).
    unfold post. cbn [obind]. intros H.
    apply (run_admitted (unconfirmed_ m)) in H;
      [|exact Hne | exact I | simpl; auto | simpl; lia].
    destruct H as (m' & v & -> & Hv). exists m', v.
    split; [reflexivity|]. intros Hs. destruct (Hv Hs). auto.
Qed.

End AdmissionFacts.

(** ** Accepted transactions *)

(** What a verdict of success from [check_fees] carries, and the check it
    stands for by business kind. *)
Lemma check_fees_accepts (E : environment) (tx : transaction.t)
    (m : members) (v : verdict) :
  check_fees E tx m = (m, [v], None) ->
  verdict_code v = error.success ->
  verdict_indexes v = unconfirmed_ m
  /\ fst (tally_fees E tx (value_in (aggregates_ m)) 0) = true
  /\ (business_kind_in (aggregates_ m) = business_kind.asset_cert ->
      check_asset_certs m tx = true)
  /\ (business_kind_in (aggregates_ m) = business_kind.asset_mit ->
      check_asset_mit m tx = true)
  /\ (business_kind_in (aggregates_ m) = business_kind.did_register
      \/ business_kind_in (aggregates_ m) = business_kind.did_transfer ->
      has_did_transfer E tx = true ->
      check_did_symbol_match m tx = true).
Proof.
  unfold check_fees, handle_validate_.
  destruct (tally_fees E tx _ 0) as [[] fee]; simpl;
    [|intros H; injection H as <-; discriminate].
  destruct (business_kind_in (aggregates_ m)); simpl;
    destruct (has_asset_transfer E tx), (check_asset_amount m tx),
      (check_asset_symbol m tx), (check_asset_certs m tx),
      (check_asset_mit m tx), (has_did_transfer E tx),
      (check_did_symbol_match m tx); simpl;
    intros H Hs; injection H as <-; simpl in Hs; try discriminate Hs;
    simpl;
    (split; [reflexivity|]); (split; [reflexivity|]);
    (split; [intros; (reflexivity || discriminate)|]);
    (split; [intros; (reflexivity || discriminate)|]);
    intros [Hk|Hk] Hd; (reflexivity || discriminate).
Qed.

Lemma output_business_kind_not_transfer (po : output.t)
    (previous : business_kind.t) :
  previous <> business_kind.asset_transfer ->
  output_business_kind po previous <> business_kind.asset_transfer.
Proof.
  unfold output_business_kind. intros H.
  repeat match goal with |- context [if ?b then _ else _] => destruct b end;
    (discriminate || exact H).
Qed.

Lemma output_business_kind_etp (po : output.t) (previous : business_kind.t) :
  output_business_kind po previous = business_kind.etp ->
  previous = business_kind.etp
  /\ (output.is_etp po = true \/ output.is_message po = true).
Proof.
  unfold output_business_kind. unfold_kinds.
  destruct (output.kind po); simpl; try discriminate; auto.
Qed.

Section AcceptedFacts.

Variable E : environment.
Variable chain : block_chain.t.
Variable tx : transaction.t.
Variable pool : transaction_pool.t.

Lemma prefix_business_kind_not_transfer (l : list input.t)
    (previous : business_kind.t) :
  previous <> business_kind.asset_transfer ->
  fold_left (input_business_kind chain pool) l previous
  <> business_kind.asset_transfer.
Proof.
  revert previous. induction l as [|i l IH]; intros previous H; simpl;
    [exact H|].
  apply IH. unfold input_business_kind.
  destruct (resolved_previous_output chain pool i); [|exact H].
  now apply output_business_kind_not_transfer.
Qed.

Lemma prefix_business_kind_etp (l : list input.t)
    (previous : business_kind.t) :
  fold_left (input_business_kind chain pool) l previous = business_kind.etp ->
  previous = business_kind.etp
  /\ forall i po,
       In i l -> resolved_previous_output chain pool i = Some po ->
       output.is_etp po = true \/ output.is_message po = true.
Proof.
  revert previous. induction l as [|i l IH]; intros previous; simpl.
  - intros ->. split; [reflexivity | contradiction].
  - intros H. apply IH in H. destruct H as (Hk & Hall).
    unfold input_business_kind in Hk.
    destruct (resolved_previous_output chain pool i) as [po|] eqn:Hpo.
    + apply output_business_kind_etp in Hk. destruct Hk as (-> & Hpo').
      split; [reflexivity|]. intros i' po' [<-|Hin] Hr; [|eauto].
      rewrite Hpo in Hr. injection Hr as <-. exact Hpo'.
    + split; [exact Hk|]. intros i' po' [<-|Hin] Hr; [congruence | eauto].
Qed.

Lemma prefix_value_all :
  prefix_value chain tx pool (List.length (transaction.inputs tx))
  = sum_input_value chain pool tx.
Proof.
  unfold prefix_value, sum_input_value. now rewrite firstn_all.
Qed.

(** The running total of the input values does not wrap when twice
    [max_money] fits in 64 bits. *)
Lemma prefix_value_exact (m : members) (n : nat) :
  connected_prefix E chain tx pool m n ->
  (n <= List.length (transaction.inputs tx))%nat ->
  2 * max_money E <= max_uint64 ->
  (forall i po,
     In i (transaction.inputs tx) ->
     resolved_previous_output chain pool i = Some po ->
     0 <= output.value po) ->
  forall j, (j <= n)%nat ->
    0 <= prefix_value chain tx pool j
    /\ ((0 < j)%nat -> prefix_value chain tx pool j <= max_money E).
Proof.
  intros (Hconn & _ & Hmax & _) Hn H2 Hpos.
  induction j as [|j IH]; intros Hj.
  - unfold prefix_value, sum_Z. simpl. split; [lia | intros; lia].
  - destruct IH as (IH0 & IHle); [lia|].
    destruct (nth_error (transaction.inputs tx) j) as [i|] eqn:Hi;
      [|apply nth_error_None in Hi; lia].
    rewrite (prefix_value_S _ _ _ _ _ Hi).
    destruct (Hconn j i ltac:(lia) Hi)
      as (ptx & ph & po & Hres & Hpo & Hv & _).
    assert (Hrpo : resolved_previous_output chain pool i = Some po).
    { unfold resolved_previous_output. now rewrite Hres. }
    pose proof (Hpos i po (nth_error_In _ _ Hi) Hrpo) as Hv0.
    assert (Hiv : input_value chain pool i = output.value po).
    { unfold input_value. now rewrite Hrpo. }
    rewrite Hiv.
    assert (Hprev : prefix_value chain tx pool j <= max_money E).
    { destruct j as [|j']; [|apply IHle; lia].
      unfold prefix_value, sum_Z. simpl. lia. }
    split; [lia|]. intros _.
    pose proof (Hmax (S j) ltac:(lia)) as Hw.
    rewrite (prefix_value_S _ _ _ _ _ Hi), Hiv in Hw.
    rewrite wrap64_small in Hw by lia. exact Hw.
Qed.

(** X9. The validator accepts a transaction only if it is no coinbase,
    its hash is neither in the pool nor on the chain, the pool spends none
    of its previous outputs, and the chain gave its last height, which the
    run keeps in [last_block_height_]; the run ends with [current_input_]
    past the last input. *)
Theorem accepted_transaction_is_new (m m' : members) (v : verdict) :
  validate E chain tx pool m = Ret (Some (m', [v])) ->
  verdict_code v = error.success ->
  is_coinbase E tx = false
  /\ transaction_pool.is_in_pool pool (hash E tx) = false
  /\ fst (block_chain.fetch_transaction chain (hash E tx)) = error.not_found
  /\ transaction_pool.is_spent_in_pool pool tx = false
  /\ error.is_error (fst (block_chain.fetch_last_height chain)) = false
  /\ last_block_height_ m' = snd (block_chain.fetch_last_height chain)
  /\ current_input_ m' = List.length (transaction.inputs tx).
Proof.
  intros Hval Hv.
  destruct (validate_admitted _ _ _ _ _ _ Hval) as (m1 & v1 & Heq & Hsucc).
  injection Heq as <- <-.
  destruct (Hsucc Hv)
    as (_ & Hcb & Hpool & _ & (Hdup & Hspent) & (Hh1 & Hh2) & Hk & _).
  repeat match goal with |- _ /\ _ => split end; auto.
Qed.

(** X10. The validator accepts a transaction only if every input went
    through [connect_input] and [check_double_spend]: its previous
    transaction is on the chain or, failing that, in the pool; the output
    it points at exists and holds at most [max_money]; a coinbase it spends
    is confirmed, and the 64-bit difference of the last height and its
    height is at least [coinbase_maturity]; the symbol of an asset it
    spends is not forbidden; its script verifies against the previous
    output's with every flag enabled; and the chain reports the previous
    output unspent. The difference is taken without comparing the heights:
    the coinbase is [coinbase_maturity] blocks deep when its height is not
    above the last height, and nothing is said of its depth otherwise. *)
Theorem accepted_inputs_connected (m m' : members) (v : verdict) (k : nat)
    (i : input.t) :
  validate E chain tx pool m = Ret (Some (m', [v])) ->
  verdict_code v = error.success ->
  nth_error (transaction.inputs tx) k = Some i ->
  (exists previous_tx parent_height previous_output,
     resolve_previous_tx chain pool i = Some (previous_tx, parent_height)
     /\ output_at previous_tx i = Some previous_output
     /\ output.value previous_output <= max_money E
     /\ (is_coinbase E previous_tx = true ->
         resolved_from_pool chain i = false
         /\ coinbase_maturity E
            <= sub64 (snd (block_chain.fetch_last_height chain))
                 parent_height
         /\ (0 <= parent_height <= snd (block_chain.fetch_last_height chain)
             -> snd (block_chain.fetch_last_height chain) <= max_uint64
             -> coinbase_maturity E
                <= snd (block_chain.fetch_last_height chain)
                   - parent_height))
     /\ (output.is_asset previous_output = true ->
         is_forbidden E (output.get_asset_symbol previous_output) = false)
     /\ verify E (input.script i) (output.script previous_output) tx
          (wrap32 (Z.of_nat k)) (all_enabled E) = true)
  /\ block_chain.fetch_spend chain (input.previous_output i)
     = error.unspent_output.
Proof.
  intros Hval Hv Hi.
  destruct (validate_admitted _ _ _ _ _ _ Hval) as (m1 & v1 & Heq & Hsucc).
  injection Heq as <- <-.
  destruct (Hsucc Hv)
    as (_ & _ & _ & _ & _ & (_ & Hh) & _ & (Hconn & _) & Hun & _).
  pose proof (nth_error_lt _ _ _ Hi) as Hlt.
  split; [|exact (Hun k i Hlt Hi)].
  rewrite <- Hh.
  destruct (Hconn k i Hlt Hi)
    as (previous_tx & parent_height & po & Hr & Hat & Hval' & Hcb & Hf & Hs).
  exists previous_tx, parent_height, po.
  split; [exact Hr|]. split; [exact Hat|]. split; [exact Hval'|].
  split; [|split; [exact Hf | exact Hs]].
  intros Hcoin. destruct (Hcb Hcoin) as (Hpool & Hm).
  split; [exact Hpool|]. split; [exact Hm|].
  intros Hp Hl. rewrite sub64_exact in Hm by assumption. exact Hm.
Qed.

(** X11. The indexes that come with a verdict of success are those that
    [unconfirmed_] held when the run started, followed by the positions,
    in increasing order, of the inputs whose previous transaction the
    chain did not know; each of these was found in the pool and is no
    coinbase. A validator that starts with an empty [unconfirmed_] reports
    exactly the inputs that spend pooled transactions. *)
Theorem accepted_verdict_indexes (m m' : members) (v : verdict) :
  validate E chain tx pool m = Ret (Some (m', [v])) ->
  verdict_code v = error.success ->
  verdict_indexes v
  = unconfirmed_ m
    ++ pool_indexes chain tx (List.length (transaction.inputs tx))
  /\ forall k,
       In k (pool_indexes chain tx (List.length (transaction.inputs tx))) ->
       exists i previous_tx,
         nth_error (transaction.inputs tx) k = Some i
         /\ resolved_from_pool chain i = true
         /\ transaction_pool.find pool
              (output_point.hash (input.previous_output i))
            = Some previous_tx
         /\ is_coinbase E previous_tx = false.
Proof.
  intros Hval Hv.
  destruct (validate_admitted _ _ _ _ _ _ Hval) as (m1 & v1 & Heq & Hsucc).
  injection Heq as <- <-.
  destruct (Hsucc Hv)
    as (_ & _ & _ & Hfees & _ & _ & _ & (Hconn & _) & _ & Hu).
  destruct (check_fees_accepts _ _ _ _ Hfees Hv) as (Hidx & _).
  split; [congruence|].
  intros k Hin. unfold pool_indexes in Hin. apply filter_In in Hin.
  destruct Hin as (Hseq & Hk). apply in_seq in Hseq.
  destruct (nth_error (transaction.inputs tx) k) as [i|] eqn:Hi;
    [|discriminate].
  destruct (Hconn k i ltac:(lia) Hi)
    as (ptx & ph & po & Hres & _ & _ & Hcb & _).
  exists i, ptx. split; [reflexivity|]. split; [exact Hk|].
  pose proof Hk as Hk0.
  unfold resolve_previous_tx in Hres. unfold resolved_from_pool in Hk.
  destruct (block_chain.fetch_transaction_index chain _) as [ec ph'].
  simpl in Hk. rewrite Hk in Hres.
  destruct (transaction_pool.find pool _) as [ptx'|]; [|discriminate].
  injection Hres as -> _. split; [reflexivity|].
  destruct (is_coinbase E ptx) eqn:Hc; [|reflexivity].
  destruct (Hcb eq_refl) as (Habs & _). congruence.
Qed.

(** X12. For an accepted transaction, [value_in_] is the 64-bit sum of the
    values of the previous outputs and is at most [max_money]; the 64-bit
    total of the output values plus the minimum fee does not exceed it.
    When twice [max_money] fits in 64 bits (and values are not negative, as
    [uint64_t] values are), no total wraps: the exact sum of the output
    values plus 10000 is at most the exact sum of the input values, which
    is at most [max_money]. *)
Theorem accepted_value_conserved (m m' : members) (v : verdict) :
  validate E chain tx pool m = Ret (Some (m', [v])) ->
  verdict_code v = error.success ->
  value_in (aggregates_ m') = wrap64 (sum_input_value chain pool tx)
  /\ value_in (aggregates_ m') <= max_money E
  /\ transaction.total_output_value tx + min_tx_fee
     <= value_in (aggregates_ m')
  /\ (2 * max_money E <= max_uint64 ->
      (forall i po,
         In i (transaction.inputs tx) ->
         resolved_previous_output chain pool i = Some po ->
         0 <= output.value po) ->
      (forall o, In o (transaction.outputs tx) -> 0 <= output.value o) ->
      value_in (aggregates_ m') = sum_input_value chain pool tx
      /\ sum_output_value tx + min_tx_fee <= sum_input_value chain pool tx
      /\ sum_input_value chain pool tx <= max_money E).
Proof.
  intros Hval Hv.
  destruct (validate_admitted _ _ _ _ _ _ Hval) as (m1 & v1 & Heq & Hsucc).
  injection Heq as <- <-.
  destruct (Hsucc Hv) as (Hct & _ & _ & Hfees & _ & _ & _ & Hpre & _).
  destruct (check_transaction_success _ _ _ Hct) as (Hbasic & _).
  destruct (check_transaction_basic_inputs _ _ _ Hbasic) as (Hne & _).
  pose proof Hpre as (_ & Hvin & Hmax & _).
  rewrite prefix_value_all in Hvin.
  assert (Hn : (0 < List.length (transaction.inputs tx))%nat).
  { destruct (transaction.inputs tx); [congruence | simpl; lia]. }
  assert (Hle : value_in (aggregates_ m') <= max_money E).
  { rewrite Hvin, <- prefix_value_all. apply Hmax. lia. }
  destruct (check_fees_accepts _ _ _ _ Hfees Hv) as (_ & Ht & _).
  apply tally_fees_true in Ht; [|rewrite Hvin; apply wrap64_range].
  split; [exact Hvin|]. split; [exact Hle|]. split; [lia|].
  intros H2 Hpos Hout.
  destruct (prefix_value_exact _ _ Hpre (Nat.le_refl _) H2 Hpos _
              (Nat.le_refl _)) as (H0 & Hm).
  specialize (Hm Hn). rewrite prefix_value_all in H0, Hm.
  assert (Hx : value_in (aggregates_ m') = sum_input_value chain pool tx).
  { rewrite Hvin. apply wrap64_small. lia. }
  destruct (check_transaction_basic_total _ _ _ Hbasic)
    as (_ & _ & Hexact).
  destruct (Hexact H2 Hout) as (Htot & _).
  split; [exact Hx|]. split; [|exact Hm]. lia.
Qed.

(** X13. [business_kind_in_] of an accepted transaction is the kind that
    the last input spending something other than etp or a message leaves:
    the fold of [output_business_kind] over the previous outputs, from
    [etp]. It is never [asset_transfer] (an asset-transfer input leaves
    [did_transfer]), and it is [etp] only if every input spends an etp or
    message output. *)
Theorem accepted_business_kind (m m' : members) (v : verdict) :
  validate E chain tx pool m = Ret (Some (m', [v])) ->
  verdict_code v = error.success ->
  business_kind_in (aggregates_ m')
  = fold_left (input_business_kind chain pool) (transaction.inputs tx)
      business_kind.etp
  /\ business_kind_in (aggregates_ m') <> business_kind.asset_transfer
  /\ (business_kind_in (aggregates_ m') = business_kind.etp ->
      forall i po,
        In i (transaction.inputs tx) ->
        resolved_previous_output chain pool i = Some po ->
        output.is_etp po = true \/ output.is_message po = true).
Proof.
  intros Hval Hv.
  destruct (validate_admitted _ _ _ _ _ _ Hval) as (m1 & v1 & Heq & Hsucc).
  injection Heq as <- <-.
  destruct (Hsucc Hv)
    as (_ & _ & _ & _ & _ & _ & _ & (_ & _ & _ & _ & _ & Hk & _) & _).
  unfold prefix_business_kind in Hk. rewrite firstn_all in Hk.
  split; [exact Hk|]. rewrite Hk. split.
  - apply prefix_business_kind_not_transfer. discriminate.
  - intros He. exact (proj2 (prefix_business_kind_etp _ _ He)).
Qed.

(** X14. [asset_certs_in_] of an accepted transaction lists, in input
    order, the types of the certificates that the inputs spend, those of
    type [none] left out; no type occurs twice. *)
Theorem accepted_certs_distinct (m m' : members) (v : verdict) :
  validate E chain tx pool m = Ret (Some (m', [v])) ->
  verdict_code v = error.success ->
  asset_certs_in (aggregates_ m')
  = flat_map (input_certs chain pool) (transaction.inputs tx)
  /\ NoDup (asset_certs_in (aggregates_ m'))
  /\ ~ In asset_cert_ns.none (asset_certs_in (aggregates_ m')).
Proof.
  intros Hval Hv.
  destruct (validate_admitted _ _ _ _ _ _ Hval) as (m1 & v1 & Heq & Hsucc).
  injection Heq as <- <-.
  destruct (Hsucc Hv)
    as (_ & _ & _ & _ & _ & _ & _ & (_ & _ & _ & Hc & Hnd & _) & _).
  unfold prefix_certs in Hc, Hnd. rewrite firstn_all in Hc, Hnd.
  rewrite Hc. split; [reflexivity|]. split; [exact Hnd|].
  intros Hin. apply in_flat_map in Hin. destruct Hin as (i & _ & Hin).
  unfold input_certs, output_certs in Hin.
  destruct (resolved_previous_output chain pool i) as [po|]; [|contradiction].
  destruct (output.is_asset_cert po); simpl in Hin; [|contradiction].
  destruct (asset_cert_ns.eqb (output.get_asset_cert_type po) _) eqn:Hq;
    simpl in Hin; [contradiction|].
  destruct Hin as [Heq|[]]. rewrite Heq in Hq. discriminate.
Qed.

(** X15. The asset, MIT and did outputs that the inputs of an accepted
    transaction spend name one symbol, the one left in [old_symbol_in_]:
    two inputs with non-empty symbols carry the same symbol. *)
Theorem accepted_inputs_one_symbol (m m' : members) (v : verdict) :
  validate E chain tx pool m = Ret (Some (m', [v])) ->
  verdict_code v = error.success ->
  (forall i,
     In i (transaction.inputs tx) ->
     input_symbol chain pool i <> "" ->
     input_symbol chain pool i = old_symbol_in (aggregates_ m'))
  /\ (forall i j,
        In i (transaction.inputs tx) -> In j (transaction.inputs tx) ->
        input_symbol chain pool i <> "" ->
        input_symbol chain pool j <> "" ->
        input_symbol chain pool i = input_symbol chain pool j).
Proof.
  intros Hval Hv.
  destruct (validate_admitted _ _ _ _ _ _ Hval) as (m1 & v1 & Heq & Hsucc).
  injection Heq as <- <-.
  destruct (Hsucc Hv)
    as (_ & _ & _ & _ & _ & _ & _ & (_ & _ & _ & _ & _ & _ & Hsym & _) & _).
  assert (H : forall i, In i (transaction.inputs tx) ->
                input_symbol chain pool i <> "" ->
                input_symbol chain pool i = old_symbol_in (aggregates_ m')).
  { intros i Hin Hne. apply In_nth_error in Hin. destruct Hin as (k & Hk).
    destruct (Hsym k i (nth_error_lt _ _ _ Hk) Hk); [contradiction|].
    assumption. }
  split; [exact H|]. intros i j Hi Hj Hni Hnj.
  rewrite (H i Hi Hni), (H j Hj Hnj). reflexivity.
Qed.

(** X16. Beyond the fee, a verdict of success stands for the check that
    [business_kind_in_] selects, run on the aggregates of all the inputs:
    [check_asset_certs] after a certificate input, [check_asset_mit] after
    a MIT input, and, for a transaction with a did-transfer output,
    [check_did_symbol_match] after a did or asset-transfer input. *)
Theorem accepted_conservation_by_kind (m m' : members) (v : verdict) :
  validate E chain tx pool m = Ret (Some (m', [v])) ->
  verdict_code v = error.success ->
  (business_kind_in (aggregates_ m') = business_kind.asset_cert ->
   check_asset_certs m' tx = true)
  /\ (business_kind_in (aggregates_ m') = business_kind.asset_mit ->
      check_asset_mit m' tx = true)
  /\ (business_kind_in (aggregates_ m') = business_kind.did_register
      \/ business_kind_in (aggregates_ m') = business_kind.did_transfer ->
      has_did_transfer E tx = true ->
      check_did_symbol_match m' tx = true).
Proof.
  intros Hval Hv.
  destruct (validate_admitted _ _ _ _ _ _ Hval) as (m1 & v1 & Heq & Hsucc).
  injection Heq as <- <-.
  destruct (Hsucc Hv) as (_ & _ & _ & Hfees & _).
  destruct (check_fees_accepts _ _ _ _ Hfees Hv) as (_ & _ & H).
  exact H.
Qed.

End AcceptedFacts.

(** ** When the validator does not throw *)

Lemma at_in_range {A : Type} (v : list A) (i : Z) :
  0 <= i < Z.of_nat (List.length v) -> exists a, at_ v i = Ret a.
Proof.
  intros Hi. unfold at_.
  destruct (Z.of_nat (List.length v) <=? i) eqn:Hle; [lia|].
  destruct (nth_error v (Z.to_nat i)) as [a|] eqn:Hn; [eauto|].
  apply nth_error_None in Hn. lia.
Qed.

Lemma for_each_o_returns {A R S : Type}
    (body : A -> S -> outcome (flow R S)) (xs : list A) :
  (forall x s, In x xs -> exists r, body x s = Ret r) ->
  forall s, exists r, for_each_o body xs s = Ret r.
Proof.
  induction xs as [|x xs IH]; intros Hbody s; simpl; [eauto|].
  destruct (Hbody x s (or_introl eq_refl)) as ([c|s'] & ->); simpl; [eauto|].
  apply IH. intros y s1 Hin. apply Hbody. now right.
Qed.

Section ReturnFacts.

Variable E : environment.
Variable chain : block_chain.t.
Variable tx : transaction.t.

Hypothesis Hrange : indexes_in_range chain tx.

(** A loop over the inputs that reads each previous output with [at]. *)
Lemma input_loop_returns {R S : Type}
    (body : input.t -> S -> outcome (flow R S))
    (k : output.t -> S -> outcome (flow R S))
    (missing : outcome (flow R S)) :
  (forall i s,
     body i s
     = match block_chain.get_transaction chain
               (output_point.hash (input.previous_output i)) with
       | None => missing
       | Some (prev_tx, prev_height) =>
           prev_output <- at_ (transaction.outputs prev_tx)
                            (output_point.index (input.previous_output i)) ;;
           k prev_output s
       end) ->
  (exists r, missing = Ret r) ->
  (forall po s, exists r, k po s = Ret r) ->
  forall s, exists r, for_each_o body (transaction.inputs tx) s = Ret r.
Proof.
  intros Hbody Hmissing Hk. apply for_each_o_returns.
  intros i s Hin. rewrite Hbody.
  destruct (block_chain.get_transaction chain _) as [[prev_tx h]|] eqn:Hget;
    [|exact Hmissing].
  destruct (at_in_range _ _ (Hrange _ _ _ Hin Hget)) as (po & ->). simpl.
  apply Hk.
Qed.

Lemma check_secondaryissue_transaction_returns :
  exists c, check_secondaryissue_transaction E tx chain = Ret c.
Proof.
  unfold check_secondaryissue_transaction.
  destruct (negb _); [eauto|].
  destruct (for_each _ _ _) as [c|l]; [eauto|].
  unfold secondaryissue_after_outputs.
  destruct (_ && _); [eauto|].
  destruct (_ >? _); [eauto|].
  destruct (negb _); [eauto|].
  destruct (input_loop_returns
              (secondaryissue_input chain (si_asset_symbol l)
                 (si_asset_address l))
              (fun prev_output (_ : unit) =>
                 if output.is_asset prev_output
                    || output.is_asset_cert prev_output
                 then
                   if output.is_asset_cert prev_output then
                     if negb (String.eqb
                                (asset_cert.get_symbol
                                   (output.get_asset_cert prev_output))
                                (si_asset_symbol l))
                        || negb (asset_cert_ns.eqb
                                   (asset_cert.get_type
                                      (output.get_asset_cert prev_output))
                                   asset_cert_ns.issue)
                     then Ret (Return error.validate_inputs_failed)
                     else Ret (Continue tt)
                   else if negb (String.eqb (si_asset_address l)
                                   (output.get_script_address prev_output))
                   then Ret (Return error.validate_inputs_failed)
                   else Ret (Continue tt)
                 else Ret (Continue tt))
              (Ret (Return error.input_not_found))) with tt as (r & ->).
  - intros i []. unfold secondaryissue_input.
    destruct (block_chain.get_transaction chain _) as [[? ?]|]; reflexivity.
  - eauto.
  - intros po s.
    repeat match goal with
      | |- context [if ?b then _ else _] => destruct b
      end; eauto.
  - simpl. destruct r; eauto.
Qed.

Lemma check_asset_mit_register_transaction_returns :
  exists c, check_asset_mit_register_transaction tx chain = Ret c.
Proof.
  unfold check_asset_mit_register_transaction.
  destruct (negb _); [eauto|].
  destruct (for_each _ _ _) as [c|[asset_symbol asset_address]]; [eauto|].
  destruct (input_loop_returns
              (mit_register_input chain asset_address)
              (fun prev_output (_ : unit) =>
                 if output.is_etp prev_output
                    && negb (String.eqb asset_address
                               (output.get_script_address prev_output))
                 then Ret (Return error.validate_inputs_failed)
                 else Ret (Continue tt))
              (Ret (Return error.input_not_found))) with tt as (r & ->).
  - intros i []. unfold mit_register_input.
    destruct (block_chain.get_transaction chain _) as [[? ?]|]; reflexivity.
  - eauto.
  - intros po s. destruct (_ && _); eauto.
  - simpl. destruct r; eauto.
Qed.

Lemma connect_did_input_returns (info : did.t) :
  exists b, connect_did_input tx chain info = Ret b.
Proof.
  unfold connect_did_input.
  destruct (_ && _); [eauto|].
  destruct (input_loop_returns
              (connect_did_input_body chain info)
              (fun prev_output (found : bool * bool) =>
                 if output.is_did_register prev_output
                    || output.is_did_transfer prev_output
                 then
                   if did.status_eqb (did.get_status info)
                        did.DID_TRANSFERABLE_TYPE
                      && String.eqb
                           (did_detail.get_symbol (did.get_data info))
                           (output.get_did_symbol prev_output)
                   then Ret (Continue (true, snd found))
                   else Ret (Continue found)
                 else if output.is_etp prev_output then
                   if String.eqb
                        (did_detail.get_address (did.get_data info))
                        (output.get_script_address prev_output)
                   then Ret (Continue (fst found, true))
                   else Ret (Continue found)
                 else Ret (Continue found))
              (Ret (Return false))) with (false, false) as (r & ->).
  - intros i [fd fa]. unfold connect_did_input_body.
    destruct (block_chain.get_transaction chain _) as [[? ?]|]; reflexivity.
  - eauto.
  - intros po s.
    repeat match goal with
      | |- context [if ?b then _ else _] => destruct b
      end; eauto.
  - simpl. destruct r as [b|[fd fa]]; eauto.
Qed.

Lemma connect_input_address_match_did_returns (o : output.t) :
  exists b, connect_input_address_match_did tx chain o = Ret b.
Proof.
  unfold connect_input_address_match_did.
  destruct (empty _); [eauto|].
  destruct (input_loop_returns
              (connect_input_address_match_did_body chain
                 (output.attach_data o))
              (fun prev_output (_ : unit) =>
                 if String.eqb
                      (attachment.get_from_did (output.attach_data o))
                      (block_chain.get_did_from_address chain
                         (output.get_script_address prev_output))
                 then Ret (Return true)
                 else Ret (Continue tt))
              (Ret (Return false))) with tt as (r & ->).
  - intros i []. unfold connect_input_address_match_did_body.
    destruct (block_chain.get_transaction chain _) as [[? ?]|]; reflexivity.
  - eauto.
  - intros po s. destruct (String.eqb _ _); eauto.
  - simpl. destruct r; eauto.
Qed.

Lemma check_did_transaction_returns :
  exists c, check_did_transaction E tx chain = Ret c.
Proof.
  unfold check_did_transaction.
  destruct (for_each_o_returns (check_did_output E tx chain)
              (transaction.outputs tx)) with (s := @None did.status)
    as (r & ->).
  - intros o type _. unfold check_did_output.
    destruct (error.is_error _); [eauto|].
    destruct (error.is_error _); [eauto|].
    destruct (connect_input_address_match_did_returns o) as (b & ->). simpl.
    destruct (negb b); [eauto|].
    destruct (connect_did_input_returns (output.get_did o)) as (b' & Hb').
    repeat match goal with
      | |- context [obind (connect_did_input _ _ _) _] =>
          rewrite Hb'; simpl
      | |- context [if ?b then _ else _] => destruct b
      | |- context [match ?t with Some _ => _ | None => _ end] => destruct t
      end; eauto.
  - simpl. destruct r; eauto.
Qed.

Lemma check_transaction_ret :
  exists c, check_transaction E tx chain = Ret c.
Proof.
  unfold check_transaction.
  destruct (error.is_error _); [eauto|].
  destruct (error.is_error _); [eauto|].
  destruct (error.is_error _); [eauto|].
  destruct check_secondaryissue_transaction_returns as (c1 & ->). simpl.
  destruct (error.is_error _); [eauto|].
  destruct check_asset_mit_register_transaction_returns as (c2 & ->). simpl.
  destruct (error.is_error _); [eauto|].
  destruct check_did_transaction_returns as (c3 & ->). simpl. eauto.
Qed.

End ReturnFacts.

(** X17. [check_transaction] returns a code, without throwing, on every
    transaction whose inputs point inside the previous transactions that
    the chain finds for them: the unchecked [at] of the stateless checks
    is the only source of an exception. *)
Theorem check_transaction_returns (E : environment) (tx : transaction.t)
    (chain : block_chain.t) :
  indexes_in_range chain tx ->
  exists c, check_transaction E tx chain = Ret c.
Proof.
  intros Hrange. now apply check_transaction_ret.
Qed.

Section RunReturns.

Variable E : environment.
Variable blockchain_ : block_chain.t.
Variable tx_ : transaction.t.
Variable pool_ : transaction_pool.t.

Hypothesis Hassert : assertions_hold E tx_ pool_.

Lemma connect_input_returns (k : nat) (i : input.t)
    (previous_tx : transaction.t) (parent_height last_block_height flags : Z)
    (a : aggregates) :
  nth_error (transaction.inputs tx_) k = Some i ->
  exists r,
    connect_input E tx_ k previous_tx parent_height last_block_height flags a
    = Ret r.
Proof.
  intros Hi. destruct Hassert as (Hidx & Hlen & _).
  pose proof (Hidx i (nth_error_In _ _ Hi)) as H0.
  pose proof (nth_error_lt _ _ _ Hi) as Hlt.
  unfold connect_input. rewrite Hi.
  destruct (_ <=? _) eqn:Hle; [eauto|].
  destruct (nth_error (transaction.outputs previous_tx) _) as [po|] eqn:Hpo;
    [|apply nth_error_None in Hpo; lia].
  destruct (_ >? _); [eauto|].
  destruct (connect_input_kind po a) as [a1|[[a1 certs] amount]]; [eauto|].
  destruct (_ && _); [eauto|].
  destruct (_ && _); [eauto|].
  unfold check_consensus. rewrite Hi.
  destruct (max_uint32 <? Z.of_nat k) eqn:Hk; [lia|]. simpl.
  destruct (negb _); eauto.
Qed.

Lemma handle_previous_tx_returns (m : members) (ec : code)
    (previous_tx : transaction.t) (parent_height : Z) (i : input.t) :
  nth_error (transaction.inputs tx_) (current_input_ m) = Some i ->
  exists s, handle_previous_tx E tx_ m ec previous_tx parent_height = Ret s.
Proof.
  intros Hi. unfold handle_previous_tx.
  destruct (error.is_error ec); [eauto|].
  destruct (connect_input_returns _ _ previous_tx parent_height
              (last_block_height_ m) (all_enabled E) (aggregates_ m) Hi)
    as ([b a] & ->). simpl.
  destruct (negb b); [eauto|]. rewrite Hi. eauto.
Qed.

Lemma serve_returns (m : members) (r : request) :
  transaction.inputs tx_ <> [] ->
  request_invariant blockchain_ tx_ pool_ m r ->
  exists s, serve E blockchain_ tx_ pool_ m r = Ret s.
Proof.
  intros Hne Hinv. destruct r as [h| |h|h ph|op]; simpl.
  - destruct (block_chain.fetch_transaction blockchain_ h). eauto.
  - destruct (block_chain.fetch_last_height blockchain_) as [ec height].
    unfold set_last_height. destruct (error.is_error ec); [eauto|].
    destruct (transaction.inputs tx_) as [|i0 rest] eqn:Hin; [congruence|].
    unfold next_previous_transaction. rewrite Hin. simpl. eauto.
  - destruct Hinv as (_ & i & Hi & ->).
    destruct (block_chain.fetch_transaction_index blockchain_ _) as [ec ph].
    unfold previous_tx_index. destruct (error.is_error ec).
    + unfold search_pool_previous_tx. rewrite Hi.
      destruct (transaction_pool.find pool_ _) as [previous_tx|] eqn:Hfind;
        [|eauto].
      destruct Hassert as (_ & _ & Hcb).
      rewrite (Hcb i previous_tx (nth_error_In _ _ Hi) Hfind).
      destruct (handle_previous_tx_returns m error.success previous_tx 0 _ Hi)
        as ([[m1 vs] posted] & ->). simpl. eauto.
    + rewrite Hi. eauto.
  - destruct Hinv as (_ & (i & Hi & ->) & _).
    destruct (block_chain.fetch_transaction blockchain_ _) as [ec ptx].
    exact (handle_previous_tx_returns m ec ptx ph _ Hi).
  - destruct Hinv as (_ & Hlt). unfold check_double_spend.
    destruct (negb _); [eauto|]. cbn [current_input_].
    destruct (Nat.ltb _ _) eqn:Hnext; [|eauto].
    apply Nat.ltb_lt in Hnext. unfold next_previous_transaction.
    cbn [current_input_].
    destruct (nth_error (transaction.inputs tx_) (S (current_input_ m)))
      eqn:Hn; [eauto|].
    apply nth_error_None in Hn. lia.
Qed.

Lemma run_returns (fuel : nat) (m : members) (verdicts : list verdict)
    (r : request) :
  transaction.inputs tx_ <> [] ->
  request_invariant blockchain_ tx_ pool_ m r ->
  exists result,
    run E blockchain_ tx_ pool_ fuel (m, verdicts, Some r) = Ret result.
Proof.
  intros Hne. revert m verdicts r.
  induction fuel as [|fuel IH]; intros m verdicts r Hinv; simpl; [eauto|].
  destruct (serve_returns m r Hne Hinv) as (s & Hs). rewrite Hs. simpl.
  destruct (serve_step _ _ _ _ _ _ _ Hne Hinv Hs)
    as [(m1 & c & idx & -> & Hc)
       |[(m1 & r1 & -> & Hinv1 & Hlt)|(m1 & -> & Hl)]].
  - destruct fuel; simpl; eauto.
  - apply IH. exact Hinv1.
  - destruct (check_fees_shape E tx_ m1) as (v & ->).
    destruct fuel; simpl; eauto.
Qed.

End RunReturns.

(** X18. A validation delivers exactly one verdict, neither throwing nor
    failing an assertion, whenever the inputs point inside the previous
    transactions that the synchronous lookup finds, output indexes and
    input positions are in the range of their types, and the pool holds no
    coinbase that an input spends. *)
Theorem validate_returns (E : environment) (chain : block_chain.t)
    (tx : transaction.t) (pool : transaction_pool.t) (m : members) :
  indexes_in_range chain tx ->
  assertions_hold E tx pool ->
  exists m' v, validate E chain tx pool m = Ret (Some (m', [v])).
Proof.
  intros Hrange Hassert.
  assert (Hret : exists result, validate E chain tx pool m = Ret result).
  { unfold validate, start, basic_checks.
    destruct (check_transaction_ret E chain tx Hrange) as (c & Hc).
    rewrite Hc. cbn [obind].
    destruct (error.is_error c) eqn:Hec; cbn [obind].
    { rewrite Hec.
      destruct (error.eqb c error.input_not_found); simpl; eauto. }
    apply is_error_false in Hec. subst c.
    destruct (check_transaction_success _ _ _ Hc) as (Hbasic & _).
    destruct (check_transaction_basic_inputs _ _ _ Hbasic) as (Hne & _).
    destruct (is_coinbase E tx); cbn [obind negb is_standard error.is_error].
    { simpl. eauto. }
    destruct (transaction_pool.is_in_pool pool _); simpl error.is_error;
      cbv iota.
    { simpl. eauto. }
    unfold post. apply run_returns; [exact Hassert | exact Hne | exact I]. }
  destruct Hret as (result & Hres).
  destruct (validate_verdict _ _ _ _ _ _ Hres) as (m' & v & -> & _).
  eauto.
Qed.

(** ** Asset issue *)

Lemma filter_nonempty_exists {A : Type} (f : A -> bool) (l : list A) :
  (0 < List.length (filter f l))%nat -> exists x, In x l /\ f x = true.
Proof.
  destruct (filter f l) as [|x xs] eqn:Hf; simpl; [lia|]. intros _.
  assert (Hin : In x (filter f l)) by (rewrite Hf; now left).
  apply filter_In in Hin. eauto.
Qed.

Lemma filter_existsb_false {A : Type} (f : A -> bool) (l : list A) :
  existsb f l = false -> filter f l = [].
Proof.
  induction l as [|x l IH]; simpl; [reflexivity|].
  destruct (f x); simpl; [discriminate | exact IH].
Qed.

Section IssueFacts.

Variable E : environment.

(** One pass of the loop of [check_asset_issue_transaction]. *)
Lemma issue_output_step (chain : block_chain.t) (o : output.t)
    (l l' : issue_locals) :
  issue_output E chain o l = Continue l' ->
  (is_asset_symbol l <> "" -> is_asset_symbol l' = is_asset_symbol l)
  /\ is_cert_type l'
     = is_cert_type l
       ++ (if output.is_asset_cert o then [output.get_asset_cert_type o]
           else [])
  /\ is_num_asset_cert_issue l'
     = is_num_asset_cert_issue l
       + (if is_cert_of asset_cert_ns.issue o then 1 else 0)
  /\ (is_cert_of asset_cert_ns.issue o = true ->
      is_num_asset_cert_issue l' <= 1)
  /\ is_num_asset_cert_domain_or_naming l'
     = is_num_asset_cert_domain_or_naming l
       + (if is_domain_or_naming_cert o then 1 else 0)
  /\ (is_domain_or_naming_cert o = true ->
      is_num_asset_cert_domain_or_naming l' <= 1)
  /\ (output.is_asset_issue o = true
      \/ is_cert_of asset_cert_ns.issue o = true
      \/ is_domain_or_naming_cert o = true
      \/ is_etp_or_message o = true)
  /\ (if output.is_asset_issue o
      then is_is_asset_issue l = false
           /\ is_is_asset_issue l' = true
           /\ is_cert_mask l'
              = asset_detail.get_asset_cert_mask (output.get_asset_detail o)
           /\ is_asset_symbol l' = output.get_asset_symbol o
           /\ is_secondaryissue_threshold_value_ok E
                (output.get_asset_detail o) = true
           /\ block_chain.is_asset_exist chain (output.get_asset_symbol o)
                false = false
           /\ attenuation_model_param_ok E o
                (asset_detail.get_maximum_supply (output.get_asset_detail o))
              = true
      else is_is_asset_issue l' = is_is_asset_issue l
           /\ is_cert_mask l' = is_cert_mask l).
Proof.
  unfold issue_output. destruct l as [seen ni nd mask types sym addr owner].
  unfold is_domain_or_naming_cert, is_cert_of, is_etp_or_message.
  unfold output.get_asset_detail, output.get_asset_cert,
    output.get_script_address.
  unfold_kinds. cbn [is_asset_symbol is_cert_type is_num_asset_cert_issue
    is_num_asset_cert_domain_or_naming is_is_asset_issue is_cert_mask].
  destruct (output.kind o) as [|msg|d|d|t|c|mt|mt|dd|dd] eqn:Hk; cbn [negb andb orb];
    cbv iota beta.
  all: try (intros H; injection H as <-; simpl;
            repeat match goal with |- _ /\ _ => split end;
            rewrite ?app_nil_r, ?Z.add_0_r; auto; try discriminate;
            tauto).
  all: try discriminate.
  - (* asset issue *)
    destruct seen; [discriminate|].
    destruct (negb (is_secondaryissue_threshold_value_ok E d)) eqn:Hth;
      [discriminate|]. apply negb_false_iff in Hth.
    destruct (check_same sym (asset_detail.get_symbol d)) as [[] sym'] eqn:Hs;
      cbn [negb]; cbv iota; [|discriminate].
    destruct (check_same addr (asset_detail.get_address d)) as [[] addr']
      eqn:Ha; cbn [negb]; cbv iota; [|discriminate].
    destruct (block_chain.is_asset_exist chain sym' false) eqn:Hex;
      [discriminate|].
    destruct (negb (attenuation_model_param_ok E o _)) eqn:Hat;
      [discriminate|]. apply negb_false_iff in Hat.
    intros H; injection H as <-; simpl.
    pose proof (check_same_true _ _ _ Hs) as Hsym. subst sym'.
    repeat match goal with |- _ /\ _ => split end;
      rewrite ?app_nil_r, ?Z.add_0_r; auto; try discriminate.
    intros Hne. symmetry. exact (eq_sym (check_same_keeps _ _ _ Hs Hne)).
  - (* asset cert *)
    destruct (asset_cert.get_type c) eqn:Ht; cbn [asset_cert_ns.eqb];
      cbv iota; try discriminate.
    + (* issue *)
      destruct (ni + 1 >? 1) eqn:Hn; [discriminate|].
      destruct (check_same sym (asset_cert.get_symbol c)) as [[] sym']
        eqn:Hs; cbn [negb]; cbv iota; [|discriminate].
      destruct (check_same addr _) as [[] addr'] eqn:Ha; cbn [negb];
        cbv iota; [|discriminate].
      intros H; injection H as <-; simpl.
      repeat match goal with |- _ /\ _ => split end;
        rewrite ?Z.add_0_r; auto; try discriminate; try lia.
      intros Hne. exact (check_same_keeps _ _ _ Hs Hne).
    + (* domain *)
      destruct (nd + 1 >? 1) eqn:Hn; [discriminate|].
      destruct (negb (empty sym) && _); [discriminate|].
      destruct (check_same owner _) as [[] owner'] eqn:Ho; cbn [negb];
        cbv iota; [|discriminate].
      intros H; injection H as <-; simpl.
      repeat match goal with |- _ /\ _ => split end;
        rewrite ?Z.add_0_r; auto; try discriminate; try lia.
    + (* naming *)
      destruct (nd + 1 >? 1) eqn:Hn; [discriminate|].
      destruct (check_same sym (asset_cert.get_symbol c)) as [[] sym']
        eqn:Hs; cbn [negb]; cbv iota; [|discriminate].
      destruct (check_same owner _) as [[] owner'] eqn:Ho; cbn [negb];
        cbv iota; [|discriminate].
      intros H; injection H as <-; simpl.
      repeat match goal with |- _ /\ _ => split end;
        rewrite ?Z.add_0_r; auto; try discriminate; try lia.
      intros Hne. exact (check_same_keeps _ _ _ Hs Hne).
Qed.

(** The loop of [check_asset_issue_transaction], from any locals. *)
Lemma issue_outputs_loop (chain : block_chain.t) (outs : list output.t)
    (l l' : issue_locals) :
  for_each (issue_output E chain) outs l = Continue l' ->
  (is_asset_symbol l <> "" -> is_asset_symbol l' = is_asset_symbol l)
  /\ is_cert_type l'
     = is_cert_type l
       ++ map output.get_asset_cert_type (filter output.is_asset_cert outs)
  /\ is_num_asset_cert_issue l'
     = is_num_asset_cert_issue l
       + Z.of_nat (List.length (filter (is_cert_of asset_cert_ns.issue) outs))
  /\ (existsb (is_cert_of asset_cert_ns.issue) outs = true ->
      is_num_asset_cert_issue l <= is_num_asset_cert_issue l' <= 1)
  /\ is_num_asset_cert_domain_or_naming l'
     = is_num_asset_cert_domain_or_naming l
       + Z.of_nat (List.length (filter is_domain_or_naming_cert outs))
  /\ (existsb is_domain_or_naming_cert outs = true ->
      is_num_asset_cert_domain_or_naming l
      <= is_num_asset_cert_domain_or_naming l' <= 1)
  /\ (forall o, In o outs ->
        output.is_asset_issue o = true
        \/ is_cert_of asset_cert_ns.issue o = true
        \/ is_domain_or_naming_cert o = true
        \/ is_etp_or_message o = true)
  /\ ((filter output.is_asset_issue outs = []
       /\ is_is_asset_issue l' = is_is_asset_issue l
       /\ is_cert_mask l' = is_cert_mask l)
      \/ (is_is_asset_issue l = false
          /\ is_is_asset_issue l' = true
          /\ exists o,
               filter output.is_asset_issue outs = [o]
               /\ is_cert_mask l'
                  = asset_detail.get_asset_cert_mask
                      (output.get_asset_detail o)
               /\ (output.get_asset_symbol o <> "" ->
                   is_asset_symbol l' = output.get_asset_symbol o)
               /\ is_secondaryissue_threshold_value_ok E
                    (output.get_asset_detail o) = true
               /\ block_chain.is_asset_exist chain
                    (output.get_asset_symbol o) false = false
               /\ attenuation_model_param_ok E o
                    (asset_detail.get_maximum_supply
                       (output.get_asset_detail o)) = true)).
Proof.
  revert l. induction outs as [|o outs IH]; intros l; cbn [for_each].
  - intros H. injection H as <-. cbn. rewrite app_nil_r, !Z.add_0_r.
    repeat match goal with |- _ /\ _ => split end; auto; try discriminate;
      try lia; try contradiction.
  - destruct (issue_output E chain o l) as [c|l1] eqn:Hb; [discriminate|].
    intros H. apply IH in H. apply issue_output_step in Hb.
    destruct Hb as (Hs1 & Ht1 & Hn1 & Hn1' & Hd1 & Hd1' & Hk1 & Hi1).
    destruct H as (Hs & Ht & Hn & Hn' & Hd & Hd' & Hk & Hi).
    assert (Hmono_n : is_num_asset_cert_issue l1
                      <= is_num_asset_cert_issue l') by lia.
    assert (Hmono_d : is_num_asset_cert_domain_or_naming l1
                      <= is_num_asset_cert_domain_or_naming l') by lia.
    cbn [filter existsb map List.length].
    repeat match goal with |- _ /\ _ => split end.
    + intros Hne. rewrite Hs; [auto | rewrite (Hs1 Hne); exact Hne].
    + rewrite Ht, Ht1, <- app_assoc. f_equal.
      destruct (output.is_asset_cert o); reflexivity.
    + rewrite Hn, Hn1.
      destruct (is_cert_of asset_cert_ns.issue o); cbn [List.length]; lia.
    + intros Hex. apply orb_true_iff in Hex.
      destruct (is_cert_of asset_cert_ns.issue o) eqn:Hc.
      * specialize (Hn1' eq_refl).
        destruct (existsb (is_cert_of asset_cert_ns.issue) outs) eqn:Hrest.
        -- specialize (Hn' eq_refl). lia.
        -- rewrite (filter_existsb_false _ _ Hrest) in Hn. simpl in Hn.
           lia.
      * destruct Hex as [?|Hex]; [discriminate|].
        specialize (Hn' Hex). lia.
    + rewrite Hd, Hd1.
      destruct (is_domain_or_naming_cert o); cbn [List.length]; lia.
    + intros Hex. apply orb_true_iff in Hex.
      destruct (is_domain_or_naming_cert o) eqn:Hc.
      * specialize (Hd1' eq_refl).
        destruct (existsb is_domain_or_naming_cert outs) eqn:Hrest.
        -- specialize (Hd' eq_refl). lia.
        -- rewrite (filter_existsb_false _ _ Hrest) in Hd. simpl in Hd.
           lia.
      * destruct Hex as [?|Hex]; [discriminate|].
        specialize (Hd' Hex). lia.
    + intros o1 [<-|Hin]; [exact Hk1 | auto].
    + destruct (output.is_asset_issue o) eqn:Hio.
      * destruct Hi1 as (Hl & Hl1 & Hm1 & Hsym1 & Hth & Hex & Hat).
        destruct Hi as [(Hnil & Hsame & Hmask)|(Habs & _)]; [|congruence].
        right. split; [exact Hl|]. split; [congruence|].
        exists o. rewrite Hnil.
        repeat match goal with |- _ /\ _ => split end; auto;
          try congruence.
        intros Hne. rewrite Hs; [exact Hsym1 | congruence].
      * destruct Hi1 as (Hsame1 & Hmask1).
        destruct Hi as [(Hnil & Hsame & Hmask)|(Hl1 & Hl' & o1 & Hf & Hrest)].
        -- left. repeat split; congruence.
        -- right. split; [congruence|]. split; [exact Hl'|].
           exists o1. split; [exact Hf | exact Hrest].
Qed.

(** X19. A transaction with an asset-issue output passes
    [check_asset_issue_transaction] only if it issues one asset: there is
    exactly one asset-issue output, its threshold is well formed, its
    symbol is not on the chain yet and its attenuation parameter is valid;
    every other output is an issue, domain or naming certificate, etp or a
    message, with at most one issue certificate and at most one domain or
    naming certificate. From the nova version on, the certificate outputs
    cover the certificate mask of the asset, and an asset under a valid
    domain comes with a domain or naming certificate. *)
Theorem check_asset_issue_transaction_one_issue (tx : transaction.t)
    (chain : block_chain.t) :
  existsb output.is_asset_issue (transaction.outputs tx) = true ->
  check_asset_issue_transaction E tx chain = error.success ->
  exists o,
    filter output.is_asset_issue (transaction.outputs tx) = [o]
    /\ is_secondaryissue_threshold_value_ok E (output.get_asset_detail o)
       = true
    /\ block_chain.is_asset_exist chain (output.get_asset_symbol o) false
       = false
    /\ attenuation_model_param_ok E o
         (asset_detail.get_maximum_supply (output.get_asset_detail o)) = true
    /\ (forall o',
          In o' (transaction.outputs tx) ->
          output.is_asset_issue o' = true
          \/ is_cert_of asset_cert_ns.issue o' = true
          \/ is_domain_or_naming_cert o' = true
          \/ is_etp_or_message o' = true)
    /\ (List.length
          (filter (is_cert_of asset_cert_ns.issue) (transaction.outputs tx))
        <= 1)%nat
    /\ (List.length
          (filter is_domain_or_naming_cert (transaction.outputs tx))
        <= 1)%nat
    /\ (version_check_nova_feature E <= transaction.version tx ->
        (forall t,
           In t (asset_detail.get_asset_cert_mask (output.get_asset_detail o))
           ->
           exists o',
             In o' (transaction.outputs tx)
             /\ output.is_asset_cert o' = true
             /\ output.get_asset_cert_type o' = t)
        /\ (output.get_asset_symbol o <> "" ->
            is_valid_domain E
              (asset_cert.get_domain (output.get_asset_symbol o)) = true ->
            exists o',
              In o' (transaction.outputs tx)
              /\ is_domain_or_naming_cert o' = true)).
Proof.
  intros Hex. unfold check_asset_issue_transaction. rewrite Hex. cbn [negb].
  destruct (for_each _ _ _) as [c|l] eqn:Hloop.
  { intros ->. apply for_each_return in Hloop.
    destruct Hloop as (o & s & _ & Hb). exfalso. revert Hb.
    unfold issue_output. destruct s. cbv zeta.
    repeat match goal with
      | |- context [let (_, _) := ?p in _] => destruct p
      | |- context [if ?b then _ else _] => destruct b
      end; discriminate. }
  apply issue_outputs_loop in Hloop.
  cbn [is_asset_symbol is_cert_type is_num_asset_cert_issue
       is_num_asset_cert_domain_or_naming is_is_asset_issue is_cert_mask]
    in Hloop.
  destruct Hloop as (_ & Ht & Hn & Hn' & Hd & Hd' & Hk & Hi).
  assert (Hone : exists o, In o (transaction.outputs tx)
                           /\ output.is_asset_issue o = true)
    by (now apply existsb_exists).
  destruct Hi as [(Hnil & _)|(_ & Hseen & o & Hf & Hmask & Hsym & Hth
                              & Hnex & Hat)].
  { exfalso. destruct Hone as (o & Hin & Ho).
    assert (Hin' : In o (filter output.is_asset_issue (transaction.outputs tx)))
      by (apply filter_In; auto).
    rewrite Hnil in Hin'. contradiction. }
  intros Hsucc. exists o.
  repeat match goal with |- _ /\ _ => split end; auto.
  - destruct (existsb (is_cert_of asset_cert_ns.issue)
                (transaction.outputs tx)) eqn:Hc.
    + specialize (Hn' eq_refl). lia.
    + rewrite (filter_existsb_false _ _ Hc). simpl. lia.
  - destruct (existsb is_domain_or_naming_cert (transaction.outputs tx))
      eqn:Hc.
    + specialize (Hd' eq_refl). lia.
    + rewrite (filter_existsb_false _ _ Hc). simpl. lia.
  - intros Hnova.
    destruct (version_check_nova_feature E <=? transaction.version tx)
      eqn:Hv; [|lia].
    destruct (negb (asset_cert.test_certs_all _ _)) eqn:Hall;
      [discriminate|].
    split.
    + intros t Hin.
      apply negb_false_iff in Hall. unfold asset_cert.test_certs_all in Hall.
      rewrite forallb_forall in Hall. rewrite Hmask in Hall.
      specialize (Hall t Hin). apply test_certs_In in Hall.
      rewrite Ht in Hall. cbn [app] in Hall. apply in_map_iff in Hall.
      destruct Hall as (o' & Ho' & Hin'). apply filter_In in Hin'.
      exists o'. tauto.
    + intros Hne Hdom.
      rewrite (Hsym Hne), Hdom in Hsucc.
      destruct (empty (is_cert_owner l)); [discriminate|].
      destruct (is_num_asset_cert_domain_or_naming l <? 1) eqn:Hlt;
        [discriminate|].
      apply filter_nonempty_exists. lia.
Qed.

End IssueFacts.

(** ** Certificate issue *)

(** An invariant of the elements gone through holds when a loop ends. *)
Lemma for_each_invariant {A R S : Type} (body : A -> S -> flow R S)
    (I : list A -> S -> Prop) (xs : list A) (s s' : S) :
  I [] s ->
  (forall done x s1 s2,
     I done s1 -> body x s1 = Continue s2 -> I (done ++ [x]) s2) ->
  for_each body xs s = Continue s' ->
  I xs s'.
Proof.
  intros H0 Hstep.
  assert (H : forall ys done s1,
             I done s1 -> for_each body ys s1 = Continue s' ->
             I (done ++ ys) s').
  { induction ys as [|y ys IH]; intros done s1 Hd; simpl.
    - intros H. injection H as <-. now rewrite app_nil_r.
    - destruct (body y s1) as [r|s2] eqn:Hb; [discriminate|].
      intros H. replace (done ++ y :: ys) with ((done ++ [y]) ++ ys)
        by (rewrite <- app_assoc; reflexivity).
      apply (IH _ s2); [eapply Hstep; eauto | exact H]. }
  exact (H xs [] s H0).
Qed.

Lemma filter_snoc {A : Type} (f : A -> bool) (l : list A) (x : A) :
  filter f (l ++ [x]) = filter f l ++ (if f x then [x] else []).
Proof.
  rewrite filter_app. simpl. destruct (f x); reflexivity.
Qed.

Lemma is_asset_cert_issue_cert (o : output.t) :
  output.is_asset_cert_issue o = true -> output.is_asset_cert o = true.
Proof.
  unfold output.is_asset_cert_issue, output.is_asset_cert.
  destruct (output.kind o); congruence.
Qed.

Section CertIssueFacts.

(** One pass of the loop of [check_asset_cert_issue_transaction]. *)
Lemma cert_issue_output_step (chain : block_chain.t) (o : output.t)
    (l l' : cert_issue_locals) :
  cert_issue_output chain o l = Continue l' ->
  if output.is_asset_cert_issue o then
    ci_num_asset_cert_issue l' = ci_num_asset_cert_issue l + 1
    /\ ci_num_asset_cert_issue l' <= 1
    /\ ci_issue_cert_type l' = output.get_asset_cert_type o
    /\ ci_cert_symbol l' = output.get_asset_cert_symbol o
    /\ block_chain.is_asset_cert_exist chain
         (output.get_asset_cert_symbol o) (output.get_asset_cert_type o)
       = false
    /\ ci_num_asset_cert_domain l' = ci_num_asset_cert_domain l
    /\ ci_cert_type l' = ci_cert_type l
    /\ ci_cert_owner l' = ci_cert_owner l
  else if output.is_asset_cert o then
    output.get_asset_cert_type o = asset_cert_ns.domain
    /\ ci_issue_cert_type l = asset_cert_ns.naming
    /\ ci_num_asset_cert_domain l' = ci_num_asset_cert_domain l + 1
    /\ ci_num_asset_cert_domain l' <= 1
    /\ (ci_cert_symbol l <> "" ->
        asset_cert.get_domain (ci_cert_symbol l)
        = output.get_asset_cert_symbol o)
    /\ (exists d,
          block_chain.get_registered_did chain
            (output.get_asset_cert_owner o) = Some d
          /\ asset_cert.get_address (output.get_asset_cert o)
             = did_detail.get_address d)
    /\ ci_cert_owner l' = output.get_asset_cert_owner o
    /\ ci_cert_type l' = ci_cert_type l ++ [asset_cert_ns.domain]
    /\ ci_num_asset_cert_issue l' = ci_num_asset_cert_issue l
    /\ ci_issue_cert_type l' = ci_issue_cert_type l
    /\ ci_cert_symbol l' = ci_cert_symbol l
  else is_etp_or_message o = true /\ l' = l.
Proof.
  unfold cert_issue_output. destruct l as [ni nd it types sym owner].
  unfold is_etp_or_message.
  cbn [ci_num_asset_cert_issue ci_num_asset_cert_domain ci_issue_cert_type
       ci_cert_type ci_cert_symbol ci_cert_owner].
  destruct (output.is_asset_cert_issue o) eqn:Hci.
  - destruct (ni + 1 >? 1) eqn:Hn; [discriminate|].
    destruct (check_same sym _) as [[] sym'] eqn:Hs; cbn [negb]; cbv iota;
      [|discriminate].
    destruct (block_chain.is_asset_cert_exist chain sym' _) eqn:Hex;
      [discriminate|].
    intros H; injection H as <-; simpl.
    pose proof (check_same_true _ _ _ Hs) as ->.
    assert (Hsym : asset_cert.get_symbol (output.get_asset_cert o)
                   = output.get_asset_cert_symbol o).
    { unfold output.get_asset_cert, output.get_asset_cert_symbol.
      revert Hci. unfold output.is_asset_cert_issue.
      destruct (output.kind o); try discriminate. reflexivity. }
    assert (Hty : asset_cert.get_type (output.get_asset_cert o)
                  = output.get_asset_cert_type o).
    { unfold output.get_asset_cert, output.get_asset_cert_type.
      destruct (output.kind o); reflexivity. }
    rewrite Hsym, Hty in *.
    repeat match goal with |- _ /\ _ => split end; auto; lia.
  - destruct (output.is_asset_cert o) eqn:Hc.
    + assert (Hsym : asset_cert.get_symbol (output.get_asset_cert o)
                     = output.get_asset_cert_symbol o).
      { unfold output.get_asset_cert, output.get_asset_cert_symbol.
        revert Hc. unfold output.is_asset_cert.
        destruct (output.kind o); try discriminate. reflexivity. }
      assert (Hown : asset_cert.get_owner (output.get_asset_cert o)
                     = output.get_asset_cert_owner o).
      { unfold output.get_asset_cert, output.get_asset_cert_owner.
        revert Hc. unfold output.is_asset_cert.
        destruct (output.kind o); try discriminate. reflexivity. }
      assert (Hty : asset_cert.get_type (output.get_asset_cert o)
                    = output.get_asset_cert_type o).
      { unfold output.get_asset_cert, output.get_asset_cert_type.
        destruct (output.kind o); reflexivity. }
      rewrite Hsym, Hown, Hty.
      destruct (asset_cert_ns.eqb (output.get_asset_cert_type o)
                  asset_cert_ns.domain) eqn:Hd; [|discriminate].
      apply cert_type_eqb_eq in Hd.
      destruct (negb (asset_cert_ns.eqb it asset_cert_ns.naming)) eqn:Hit;
        [discriminate|].
      apply negb_false_iff in Hit. apply cert_type_eqb_eq in Hit.
      destruct (nd + 1 >? 1) eqn:Hn; [discriminate|].
      destruct (negb (empty sym) && _) eqn:Hdom; [discriminate|].
      destruct (block_chain.get_registered_did chain _) as [d|] eqn:Hreg;
        [|discriminate].
      destruct (negb (String.eqb (asset_cert.get_address _) _)) eqn:Haddr;
        [discriminate|].
      apply negb_false_iff in Haddr. apply String.eqb_eq in Haddr.
      intros H; injection H as <-; simpl. rewrite Hd.
      repeat match goal with |- _ /\ _ => split end; auto; try lia.
      * intros Hne. apply andb_false_iff in Hdom.
        destruct Hdom as [Hdom|Hdom].
        -- apply negb_false_iff in Hdom. apply empty_true in Hdom.
           contradiction.
        -- apply negb_false_iff in Hdom. now apply String.eqb_eq in Hdom.
      * exists d. auto.
    + destruct (negb (output.is_etp o) && negb (output.is_message o))
        eqn:He; [discriminate|].
      intros H; injection H as <-. split; [|reflexivity].
      destruct (output.is_etp o), (output.is_message o); simpl in *;
        congruence.
Qed.

Lemma cert_issue_outputs_loop (chain : block_chain.t)
    (outs : list output.t) (l : cert_issue_locals) :
  for_each (cert_issue_output chain) outs
    (mk_cert_issue_locals 0 0 asset_cert_ns.none [] "" "") = Continue l ->
  cert_issue_invariant chain outs l.
Proof.
  apply for_each_invariant.
  - unfold cert_issue_invariant. simpl.
    repeat match goal with |- _ /\ _ => split end; auto; try lia;
      try contradiction.
  - intros done o l1 l2 (Hissue & Hall & Hnd & Hnd1 & Hdom) Hb.
    apply cert_issue_output_step in Hb.
    unfold cert_issue_invariant. rewrite !filter_snoc.
    destruct (output.is_asset_cert_issue o) eqn:Hci.
    + destruct Hb as (Hn & Hn1 & Hty & Hsym & Hex & Hd & Hct & Hown).
      cbn [negb andb]. rewrite app_nil_r.
      repeat match goal with |- _ /\ _ => split end.
      * destruct Hissue as [(Hnil & Hz & Hnone)|(o1 & _ & H1 & _)]; [|lia].
        right. exists o. rewrite Hnil.
        repeat match goal with |- _ /\ _ => split end; auto; lia.
      * intros o' Hin. apply in_app_iff in Hin.
        destruct Hin as [Hin|[<-|[]]]; [|now left].
        destruct (Hall o' Hin) as [?|[(Hc & Hnam & Hreg)|?]]; auto.
        exfalso.
        destruct Hissue as [(_ & _ & Hnone)|(o1 & _ & H1 & _)];
          [congruence | lia].
      * congruence.
      * lia.
      * rewrite Hct. intros Hin. destruct (Hdom Hin) as (o' & Hin' & Ho').
        exists o'. split; [apply in_app_iff; now left | exact Ho'].
    + destruct (output.is_asset_cert o) eqn:Hc.
      * destruct Hb as (Hty & Hnam & Hn & Hn1 & Hs & Hreg & Hown & Hct
                        & Hni & Hit & Hsym).
        cbn [negb andb].
        assert (Hco : is_cert_of asset_cert_ns.domain o = true).
        { unfold is_cert_of. rewrite Hc, Hty. reflexivity. }
        repeat match goal with |- _ /\ _ => split end.
        -- rewrite app_nil_r.
           destruct Hissue as [(Hnil & Hz & Hnone)|(o1 & Hf & H1 & Ht1 & Hs1
                                                   & Hex)].
           ++ left. repeat split; congruence.
           ++ right. exists o1. repeat split; congruence.
        -- intros o' Hin. apply in_app_iff in Hin.
           destruct Hin as [Hin|[<-|[]]].
           ++ destruct (Hall o' Hin) as [?|[(Hc' & Hnam' & Hreg')|?]]; auto.
              right. left. repeat split; auto. congruence.
           ++ right. left. repeat split; auto. congruence.
        -- rewrite Hn, Hnd, length_app. simpl. lia.
        -- exact Hn1.
        -- intros _. exists o. split; [apply in_app_iff; right; now left|].
           auto.
      * destruct Hb as (Hem & ->). cbn [negb andb]. rewrite !app_nil_r.
        repeat match goal with |- _ /\ _ => split end; auto.
        -- intros o' Hin. apply in_app_iff in Hin.
           destruct Hin as [Hin|[<-|[]]]; auto.
        -- intros Hin. destruct (Hdom Hin) as (o' & Hin' & Ho').
           exists o'. split; [apply in_app_iff; now left | exact Ho'].
Qed.

(** X20. A transaction with a certificate-issue output passes
    [check_asset_cert_issue_transaction] only if it issues one
    certificate: there is exactly one such output, its type is not [none]
    and the chain holds no certificate of that symbol and type; every
    other output is etp, a message or, when a naming certificate is
    issued, one domain certificate whose owner is a registered did at the
    certificate's address. A naming certificate is issued only along with
    that domain certificate and for a symbol that is no asset yet. *)
Theorem check_asset_cert_issue_transaction_one_issue (tx : transaction.t)
    (chain : block_chain.t) :
  existsb output.is_asset_cert_issue (transaction.outputs tx) = true ->
  check_asset_cert_issue_transaction tx chain = error.success ->
  exists o,
    filter output.is_asset_cert_issue (transaction.outputs tx) = [o]
    /\ output.get_asset_cert_type o <> asset_cert_ns.none
    /\ block_chain.is_asset_cert_exist chain
         (output.get_asset_cert_symbol o) (output.get_asset_cert_type o)
       = false
    /\ (forall o',
          In o' (transaction.outputs tx) ->
          output.is_asset_cert_issue o' = true
          \/ (is_cert_of asset_cert_ns.domain o' = true
              /\ output.get_asset_cert_type o = asset_cert_ns.naming
              /\ (exists d,
                    block_chain.get_registered_did chain
                      (output.get_asset_cert_owner o') = Some d
                    /\ asset_cert.get_address (output.get_asset_cert o')
                       = did_detail.get_address d))
          \/ is_etp_or_message o' = true)
    /\ (List.length
          (filter (fun o' => negb (output.is_asset_cert_issue o')
                             && output.is_asset_cert o')
             (transaction.outputs tx)) <= 1)%nat
    /\ (output.get_asset_cert_type o = asset_cert_ns.naming ->
        (exists o',
           In o' (transaction.outputs tx)
           /\ output.is_asset_cert_issue o' = false
           /\ is_cert_of asset_cert_ns.domain o' = true)
        /\ block_chain.is_asset_exist chain (output.get_asset_cert_symbol o)
             false = false).
Proof.
  intros Hex. unfold check_asset_cert_issue_transaction. rewrite Hex.
  cbn [negb].
  destruct (for_each _ _ _) as [c|l] eqn:Hloop.
  { intros ->. apply for_each_return in Hloop.
    destruct Hloop as (o & s & _ & Hb). exfalso. revert Hb.
    unfold cert_issue_output. destruct s. cbv zeta.
    repeat match goal with
      | |- context [let (_, _) := ?p in _] => destruct p
      | |- context [match ?t with Some _ => _ | None => _ end] => destruct t
      | |- context [if ?b then _ else _] => destruct b
      end; discriminate. }
  apply cert_issue_outputs_loop in Hloop.
  destruct Hloop as (Hissue & Hall & Hnd & Hnd1 & Hdom).
  destruct Hissue as [(Hnil & _)|(o & Hf & _ & Hty & Hsym & Hnex)].
  { exfalso. apply existsb_exists in Hex. destruct Hex as (o & Hin & Ho).
    assert (Hin' : In o (filter output.is_asset_cert_issue
                            (transaction.outputs tx)))
      by (apply filter_In; auto).
    rewrite Hnil in Hin'. contradiction. }
  rewrite Hty, Hsym.
  destruct (asset_cert_ns.eqb (output.get_asset_cert_type o)
              asset_cert_ns.none) eqn:Hnone; [discriminate|].
  intros Hsucc. exists o.
  repeat match goal with |- _ /\ _ => split end; auto.
  - intros Habs. rewrite Habs in Hnone. discriminate.
  - intros o' Hin.
    destruct (Hall o' Hin) as [?|[(Hc & Hnam & Hreg)|?]]; auto.
    right. left. repeat split; auto. congruence.
  - lia.
  - intros Hnam. rewrite Hnam in Hsucc. cbn [asset_cert_ns.eqb] in Hsucc.
    destruct (negb (asset_cert.test_certs (ci_cert_type l)
                      asset_cert_ns.domain)) eqn:Ht;
      [discriminate|].
    apply negb_false_iff in Ht. apply test_certs_In in Ht.
    cbn [orb] in Hsucc.
    destruct (empty (ci_cert_owner l)); [discriminate|].
    destruct (block_chain.is_asset_exist chain _ false) eqn:Hae;
      [discriminate|].
    split; [exact (Hdom Ht) | reflexivity].
Qed.

End CertIssueFacts.

(** ** MIT registration *)

Lemma check_same_run_nil : check_same_run [] "".
Proof.
  split; [reflexivity|]. exists [], []. repeat split; constructor.
Qed.

(** One more call of [check_same] that lets its argument through. *)
Lemma check_same_run_snoc (srcs : list string) (dest src dest' : string) :
  check_same_run srcs dest ->
  check_same dest src = (true, dest') ->
  check_same_run (srcs ++ [src]) dest'.
Proof.
  intros (Hlast & empties & same & Hsrcs & He & Hs) Hc.
  pose proof (check_same_true _ _ _ Hc) as Hd. subst dest'.
  split; [now rewrite last_last|].
  destruct (string_dec dest "") as [Hempty|Hne].
  - exists srcs, [src]. split; [reflexivity|].
    split; [|repeat constructor].
    rewrite Hsrcs. apply Forall_app. split; [exact He|].
    eapply Forall_impl; [|exact Hs]. simpl. congruence.
  - pose proof (check_same_keeps _ _ _ Hc Hne) as Hk. subst src.
    exists empties, (same ++ [dest]). split.
    + now rewrite Hsrcs, app_assoc.
    + split; [exact He|]. apply Forall_app. split; [exact Hs|].
      repeat constructor.
Qed.

(** A string that went through is empty or the one that is left. *)
Lemma check_same_run_In (srcs : list string) (final s : string) :
  check_same_run srcs final -> In s srcs -> s <> "" -> s = final.
Proof.
  intros (_ & empties & same & -> & He & Hs) Hin Hne.
  apply in_app_iff in Hin. destruct Hin as [Hin|Hin].
  - rewrite Forall_forall in He. now specialize (He _ Hin).
  - rewrite Forall_forall in Hs. exact (Hs _ Hin).
Qed.

Lemma mit_register_output_step (chain : block_chain.t) (o : output.t)
    (l l' : string * string) :
  mit_register_output chain o l = Continue l' ->
  if output.is_asset_mit_register o then
    check_same (snd l) (asset_mit.get_address (output.get_asset_mit o))
    = (true, snd l')
    /\ block_chain.get_registered_mit chain
         (asset_mit.get_symbol (output.get_asset_mit o)) = None
  else is_etp_or_message o = true /\ l' = l.
Proof.
  unfold mit_register_output, is_etp_or_message. destruct l as [sym addr].
  destruct (output.is_asset_mit_register o).
  - destruct (check_same addr _) as [[] addr'] eqn:Hs; cbn [negb]; cbv iota;
      [|discriminate].
    destruct (block_chain.get_registered_mit chain _) eqn:Hreg;
      [discriminate|].
    intros H; injection H as <-; simpl.
    split; [exact Hs | reflexivity].
  - destruct (negb (output.is_etp o) && negb (output.is_message o)) eqn:He;
      [discriminate|].
    intros H; injection H as <-. split; [|reflexivity].
    destruct (output.is_etp o), (output.is_message o); simpl in *; congruence.
Qed.

Lemma mit_register_outputs_loop (chain : block_chain.t)
    (outs : list output.t) (l : string * string) :
  for_each (mit_register_output chain) outs ("", "") = Continue l ->
  mit_register_invariant chain outs l.
Proof.
  apply for_each_invariant.
  - split; [contradiction | exact check_same_run_nil].
  - intros done o l1 l2 (Hall & Hrun) Hb.
    apply mit_register_output_step in Hb.
    unfold mit_register_invariant, mit_register_addresses.
    rewrite filter_snoc.
    destruct (output.is_asset_mit_register o) eqn:Hm.
    + destruct Hb as (Hsame & Hreg). split.
      * intros o' Hin. apply in_app_iff in Hin.
        destruct Hin as [Hin|[<-|[]]]; [auto | left; auto].
      * rewrite map_app. exact (check_same_run_snoc _ _ _ _ Hrun Hsame).
    + destruct Hb as (Hem & ->). rewrite app_nil_r. split; [|exact Hrun].
      intros o' Hin. apply in_app_iff in Hin.
      destruct Hin as [Hin|[<-|[]]]; [auto | now right].
Qed.

Lemma mit_register_input_continue (chain : block_chain.t)
    (asset_address : string) (i : input.t) (u u' : unit) :
  mit_register_input chain asset_address i u = Ret (Continue u') ->
  exists po,
    spends chain i po
    /\ (output.is_etp po = true ->
        output.get_script_address po = asset_address).
Proof.
  unfold mit_register_input.
  destruct (block_chain.get_transaction chain _) as [[prev_tx h]|] eqn:Hget;
    [|discriminate].
  destruct (at_ (transaction.outputs prev_tx) _) as [po| |] eqn:Hat; simpl;
    try discriminate.
  destruct (output.is_etp po && _) eqn:He; [discriminate|].
  intros _. exists po. split; [exists prev_tx, h; auto|].
  intros Hetp. rewrite Hetp in He. simpl in He.
  apply negb_false_iff in He. apply String.eqb_eq in He. congruence.
Qed.

(** X21. A transaction with a MIT-register output passes
    [check_asset_mit_register_transaction] only if every output is a MIT
    registration, etp or a message; no registered MIT has the symbol of a
    registration; the addresses of the registrations, in output order, are
    empty ones followed by one address repeated, as [check_same] takes any
    string while it has seen empty ones only; and every input spends an
    output that the chain knows, the etp ones from the address of the last
    registration. So the registrations with a non-empty address go to one
    address. *)
Theorem check_asset_mit_register_transaction_address
    (tx : transaction.t) (chain : block_chain.t) :
  existsb output.is_asset_mit_register (transaction.outputs tx) = true ->
  check_asset_mit_register_transaction tx chain = Ret error.success ->
  exists asset_address,
    (forall o,
       In o (transaction.outputs tx) ->
       (output.is_asset_mit_register o = true
        /\ block_chain.get_registered_mit chain
             (asset_mit.get_symbol (output.get_asset_mit o)) = None)
       \/ is_etp_or_message o = true)
    /\ check_same_run (mit_register_addresses (transaction.outputs tx))
         asset_address
    /\ (forall o o',
          In o (transaction.outputs tx) -> In o' (transaction.outputs tx) ->
          output.is_asset_mit_register o = true ->
          output.is_asset_mit_register o' = true ->
          asset_mit.get_address (output.get_asset_mit o) <> "" ->
          asset_mit.get_address (output.get_asset_mit o') <> "" ->
          asset_mit.get_address (output.get_asset_mit o)
          = asset_mit.get_address (output.get_asset_mit o'))
    /\ (forall i,
          In i (transaction.inputs tx) ->
          exists po,
            spends chain i po
            /\ (output.is_etp po = true ->
                output.get_script_address po = asset_address)).
Proof.
  intros Hex. unfold check_asset_mit_register_transaction. rewrite Hex.
  cbn [negb].
  destruct (for_each _ _ _) as [c|[sym addr]] eqn:Hloop.
  { intros H. injection H as ->. apply for_each_return in Hloop.
    destruct Hloop as (o & s & _ & Hb). exfalso. revert Hb.
    unfold mit_register_output. destruct s.
    repeat match goal with
      | |- context [let (_, _) := ?p in _] => destruct p
      | |- context [match ?t with Some _ => _ | None => _ end] => destruct t
      | |- context [if ?b then _ else _] => destruct b
      end; discriminate. }
  apply mit_register_outputs_loop in Hloop. destruct Hloop as (Hall & Hrun).
  destruct (for_each_o _ _ _) as [[c|u]| |] eqn:Hin; simpl;
    try discriminate.
  { intros H. injection H as ->. apply for_each_o_return in Hin.
    destruct Hin as (i & s & _ & Hb). exfalso. revert Hb.
    unfold mit_register_input.
    destruct (block_chain.get_transaction chain _) as [[? ?]|];
      [|discriminate].
    destruct (at_ _ _); simpl; try discriminate.
    destruct (_ && _); discriminate. }
  intros _. exists addr. simpl in Hrun.
  split; [exact Hall|]. split; [exact Hrun|]. split.
  - intros o o' Ho Ho' Hm Hm' Hne Hne'.
    assert (Hmem : forall o1,
               In o1 (transaction.outputs tx) ->
               output.is_asset_mit_register o1 = true ->
               In (asset_mit.get_address (output.get_asset_mit o1))
                 (mit_register_addresses (transaction.outputs tx))).
    { intros o1 H1 H2. unfold mit_register_addresses.
      apply in_map_iff. exists o1. split; [reflexivity|].
      apply filter_In. auto. }
    rewrite (check_same_run_In _ _ _ Hrun (Hmem o Ho Hm) Hne).
    rewrite (check_same_run_In _ _ _ Hrun (Hmem o' Ho' Hm') Hne').
    reflexivity.
  - intros i Hi.
    destruct (for_each_o_continue _ _ _ _ Hin i Hi) as ([] & [] & Hb).
    exact (mit_register_input_continue _ _ _ _ _ Hb).
Qed.

(** ** Did outputs *)

Lemma for_each_o_invariant {A R S : Type}
    (body : A -> S -> outcome (flow R S)) (I : list A -> S -> Prop)
    (xs : list A) (s s' : S) :
  I [] s ->
  (forall done x s1 s2,
     I done s1 -> body x s1 = Ret (Continue s2) -> I (done ++ [x]) s2) ->
  for_each_o body xs s = Ret (Continue s') ->
  I xs s'.
Proof.
  intros H0 Hstep.
  assert (H : forall ys done s1,
             I done s1 -> for_each_o body ys s1 = Ret (Continue s') ->
             I (done ++ ys) s').
  { induction ys as [|y ys IH]; intros done s1 Hd; simpl.
    - intros H. injection H as <-. now rewrite app_nil_r.
    - destruct (body y s1) as [[r|s2]| |] eqn:Hb; simpl; try discriminate.
      intros H. replace (done ++ y :: ys) with ((done ++ [y]) ++ ys)
        by (rewrite <- app_assoc; reflexivity).
      apply (IH _ s2); [eapply Hstep; eauto | exact H]. }
  exact (H xs [] s H0).
Qed.

Lemma connect_input_address_match_did_true (tx : transaction.t)
    (chain : block_chain.t) (o : output.t) :
  connect_input_address_match_did tx chain o = Ret true ->
  attachment.get_from_did (output.attach_data o) = ""
  \/ exists i po,
       In i (transaction.inputs tx) /\ spends chain i po
       /\ block_chain.get_did_from_address chain
            (output.get_script_address po)
          = attachment.get_from_did (output.attach_data o).
Proof.
  unfold connect_input_address_match_did.
  destruct (empty _) eqn:He; [left; now apply empty_true|].
  destruct (for_each_o _ _ _) as [[b|u]| |] eqn:Hloop; simpl;
    try discriminate.
  intros H. injection H as ->. right.
  apply for_each_o_return in Hloop. destruct Hloop as (i & s & Hin & Hb).
  revert Hb. unfold connect_input_address_match_did_body.
  destruct (block_chain.get_transaction chain _) as [[prev_tx h]|] eqn:Hget;
    [|discriminate].
  destruct (at_ (transaction.outputs prev_tx) _) as [po| |] eqn:Hat; simpl;
    try discriminate.
  destruct (String.eqb _ _) eqn:Heq; [|discriminate].
  intros _. apply String.eqb_eq in Heq.
  exists i, po. split; [exact Hin|]. split; [exists prev_tx, h; auto|].
  congruence.
Qed.

Lemma get_did_of_register (o : output.t) :
  output.is_did_register o = true ->
  did.get_status (output.get_did o) = did.DID_DETAIL_TYPE
  /\ did_detail.get_address (did.get_data (output.get_did o))
     = output.get_did_address o.
Proof.
  unfold output.is_did_register, output.get_did, output.get_did_address.
  destruct (output.kind o); try discriminate. auto.
Qed.

Lemma connect_did_input_detail (tx : transaction.t) (chain : block_chain.t)
    (info : did.t) :
  did.get_status info = did.DID_DETAIL_TYPE ->
  connect_did_input tx chain info = Ret true ->
  exists i po,
    In i (transaction.inputs tx) /\ spends chain i po
    /\ output.is_etp po = true
    /\ output.get_script_address po
       = did_detail.get_address (did.get_data info).
Proof.
  intros Hst. unfold connect_did_input. rewrite Hst. simpl.
  destruct (for_each_o _ _ _) as [[b|[fd fa]]| |] eqn:Hloop; simpl;
    try discriminate.
  { intros H. injection H as ->.
    apply for_each_o_return in Hloop. destruct Hloop as (i & f & _ & Hb).
    exfalso. revert Hb. unfold connect_did_input_body. destruct f.
    destruct (block_chain.get_transaction chain _) as [[? ?]|];
      [|discriminate].
    destruct (at_ _ _); simpl; try discriminate.
    repeat match goal with
      | |- context [if ?b then _ else _] => destruct b
      end; discriminate. }
  rewrite andb_false_r, andb_true_r. simpl. intros H. injection H as ->.
  destruct (connect_did_input_loop _ _ _ _ _ Hloop) as (_ & Ha).
  destruct (Ha eq_refl) as [Habs|H]; [discriminate | exact H].
Qed.

Section DidOutputFacts.

Variable E : environment.

Lemma check_did_output_continue (tx : transaction.t) (chain : block_chain.t)
    (o : output.t) (type type' : option did.status) :
  check_did_output E tx chain o type = Ret (Continue type') ->
  did_output_rule E tx chain o
  /\ (if output.is_did o then type = None /\ type' <> None
      else type' = type).
Proof.
  unfold check_did_output, did_output_rule.
  destruct (error.is_error (check_attachment_address E o chain)) eqn:H1;
    [discriminate|]. apply is_error_false in H1.
  destruct (error.is_error (check_attachment_did_match_address E o chain))
    eqn:H2; [discriminate|]. apply is_error_false in H2.
  destruct (connect_input_address_match_did tx chain o) as [[]| |] eqn:Hm;
    simpl; try discriminate.
  apply connect_input_address_match_did_true in Hm.
  unfold output.is_did.
  destruct (output.is_did_register o) eqn:Hr.
  - assert (Ht : output.is_did_transfer o = false).
    { revert Hr. unfold output.is_did_register, output.is_did_transfer.
      destruct (output.kind o); congruence. }
    assert (Hk : output.is_asset_issue o || output.is_asset_secondaryissue o
                 = false /\ output.is_asset_cert o = false).
    { revert Hr. unfold_kinds. destruct (output.kind o); try discriminate.
      auto. }
    destruct Hk as (Hk1 & Hk2). rewrite Ht, Hk1, Hk2.
    destruct (block_chain.is_valid_address chain _) eqn:Hva; [discriminate|].
    destruct (block_chain.is_did_exist chain _) eqn:Hde; [discriminate|].
    destruct (block_chain.is_address_registered_did chain _) eqn:Har;
      [discriminate|].
    destruct type; [discriminate|].
    destruct (connect_did_input tx chain (output.get_did o)) as [[]| |]
      eqn:Hc; simpl; try discriminate.
    intros H. injection H as <-.
    destruct (get_did_of_register _ Hr) as (Hst & Haddr).
    pose proof (connect_did_input_detail _ _ _ Hst Hc) as Hin.
    rewrite Haddr in Hin.
    repeat match goal with |- _ /\ _ => split end; auto; try discriminate.
  - destruct (output.is_did_transfer o) eqn:Ht.
    + assert (Hk : output.is_asset_issue o
                   || output.is_asset_secondaryissue o = false
                   /\ output.is_asset_cert o = false).
      { revert Ht. unfold_kinds. destruct (output.kind o); try discriminate.
        auto. }
      destruct Hk as (Hk1 & Hk2). rewrite Hk1, Hk2.
      destruct (negb (block_chain.is_did_exist chain _)) eqn:Hde;
        [discriminate|]. apply negb_false_iff in Hde.
      destruct (block_chain.is_address_registered_did chain _) eqn:Har;
        [discriminate|].
      destruct type; [discriminate|].
      destruct (connect_did_input tx chain (output.get_did o)) as [[]| |]
        eqn:Hc; simpl; try discriminate.
      intros H. injection H as <-.
      repeat match goal with |- _ /\ _ => split end; auto;
        try discriminate.
    + destruct (output.is_asset_issue o || output.is_asset_secondaryissue o)
        eqn:Hi.
      * assert (Hk2 : output.is_asset_cert o = false).
        { revert Hi. unfold_kinds. destruct (output.kind o);
            try discriminate; auto. }
        rewrite Hk2.
        destruct ((_ =? _) && negb (String.eqb _ _)) eqn:Hv; [discriminate|].
        intros H. injection H as <-. simpl.
        repeat match goal with |- _ /\ _ => split end; auto;
          try discriminate.
        intros _ Hver. apply Z.eqb_eq in Hver. rewrite Hver in Hv.
        simpl in Hv. apply negb_false_iff in Hv.
        now apply String.eqb_eq in Hv.
      * destruct (output.is_asset_cert o) eqn:Hc.
        -- destruct ((_ =? _) && negb (String.eqb _ _)) eqn:Hv;
             [discriminate|].
           intros H. injection H as <-. simpl.
           repeat match goal with |- _ /\ _ => split end; auto;
             try discriminate.
           intros _ Hver. apply Z.eqb_eq in Hver. rewrite Hver in Hv.
           simpl in Hv. apply negb_false_iff in Hv.
           now apply String.eqb_eq in Hv.
        -- intros H. injection H as <-. simpl.
           repeat match goal with |- _ /\ _ => split end; auto;
             discriminate.
Qed.

(** X22. A transaction passes [check_did_transaction] only if it has at
    most one did output, register or transfer, and every output passes the
    attachment checks: its address and to-did agree, its sender did is
    empty or belongs to the address of some input, a did it registers has
    a fresh symbol that is no address, goes to an address without did and
    is paid from that address, a did it transfers exists and goes to an
    address without did, and, at the verified attachment version, an asset
    issuer or certificate owner is the to-did. *)
Theorem check_did_transaction_one_did (tx : transaction.t)
    (chain : block_chain.t) :
  check_did_transaction E tx chain = Ret error.success ->
  (List.length (filter output.is_did (transaction.outputs tx)) <= 1)%nat
  /\ forall o, In o (transaction.outputs tx) -> did_output_rule E tx chain o.
Proof.
  unfold check_did_transaction.
  destruct (for_each_o _ _ _) as [[c|t]| |] eqn:Hloop; simpl;
    try discriminate.
  { intros H. injection H as ->.
    apply for_each_o_return in Hloop. destruct Hloop as (x & s & _ & Hb).
    now apply check_did_output_return in Hb. }
  intros _.
  apply (for_each_o_invariant _
           (fun done type =>
              ((type = None /\ filter output.is_did done = [])
               \/ (type <> None
                   /\ List.length (filter output.is_did done) = 1%nat))
              /\ forall o, In o done -> did_output_rule E tx chain o))
    in Hloop.
  - destruct Hloop as ([(_ & ->)|(_ & ->)] & Hall); simpl; auto.
  - split; [left; auto | contradiction].
  - intros done o t1 t2 (Hcount & Hall) Hb.
    apply check_did_output_continue in Hb. destruct Hb as (Hrule & Hty).
    rewrite filter_snoc, length_app. split.
    + destruct (output.is_did o).
      * destruct Hty as (-> & Hne).
        destruct Hcount as [(_ & ->)|(Habs & _)]; [|congruence].
        right. split; [exact Hne | reflexivity].
      * subst t2. rewrite app_nil_r. simpl.
        destruct Hcount as [(-> & Hnil)|(Hne & Hlen)]; [left | right]; auto.
        split; [exact Hne | lia].
    + intros o' Hin. apply in_app_iff in Hin.
      destruct Hin as [Hin|[<-|[]]]; auto.
Qed.

End DidOutputFacts.

(** ** The outputs and inputs of a secondary issue *)

Section SecondaryIssueShape.

Variable E : environment.

(** One pass of the loop of [check_secondaryissue_transaction]. *)
Lemma secondaryissue_output_kind (o : output.t)
    (l l' : secondaryissue_locals) :
  secondaryissue_output E o l = Continue l' ->
  (forall srcs,
     check_same_run srcs (si_asset_symbol l) ->
     check_same_run (srcs ++ secondaryissue_symbol o) (si_asset_symbol l'))
  /\ (forall srcs,
        check_same_run srcs (si_asset_address l) ->
        check_same_run (srcs ++ secondaryissue_address o)
          (si_asset_address l'))
  /\ secondaryissue_output_rule E o
  /\ si_num_asset_secondaryissue l'
     = si_num_asset_secondaryissue l
       + (if output.is_asset_secondaryissue o then 1 else 0)
  /\ si_num_asset_secondaryissue l' <= Z.max 1 (si_num_asset_secondaryissue l)
  /\ si_num_asset_cert l'
     = si_num_asset_cert l + (if output.is_asset_cert o then 1 else 0)
  /\ si_num_asset_cert l' <= Z.max 1 (si_num_asset_cert l)
  /\ si_certs_out l'
     = si_certs_out l
       ++ (if is_cert_of asset_cert_ns.issue o then [asset_cert_ns.issue]
           else []).
Proof.
  unfold secondaryissue_output, secondaryissue_output_rule,
    secondaryissue_symbol, secondaryissue_address.
  destruct l as [sym addr owner th amt vol nsi nt nc certs].
  unfold is_cert_of, is_etp_or_message.
  unfold output.get_asset_detail, output.get_asset_cert,
    output.get_asset_transfer, output.get_asset_cert_type.
  unfold_kinds.
  cbn [si_asset_symbol si_asset_address si_num_asset_secondaryissue
       si_num_asset_cert si_certs_out].
  destruct (output.kind o) as [|msg|d|d|t|c|mt|mt|dd|dd] eqn:Hk;
    cbn [negb andb orb]; cbv iota beta.
  all: try (intros H; injection H as <-; simpl;
            repeat match goal with |- _ /\ _ => split end;
            try (intros srcs Hrun; rewrite app_nil_r; exact Hrun);
            rewrite ?app_nil_r, ?Z.add_0_r; auto; try discriminate;
            try lia; tauto).
  all: try discriminate.
  - (* secondary issue *)
    destruct (nsi + 1 >? 1) eqn:Hn; [discriminate|].
    destruct (negb (asset_detail.is_asset_secondaryissue d)
              || negb (is_secondaryissue_threshold_value_ok E d)) eqn:Hth;
      [discriminate|].
    apply orb_false_iff in Hth. destruct Hth as (Hsi & Hth).
    apply negb_false_iff in Hsi, Hth.
    destruct (check_same sym (asset_detail.get_symbol d)) as [[] sym'] eqn:Hs;
      cbn [negb]; cbv iota; [|discriminate].
    destruct (check_same addr (asset_detail.get_address d)) as [[] addr']
      eqn:Ha; cbn [negb]; cbv iota; [|discriminate].
    destruct (negb (attenuation_model_param_ok E o _)) eqn:Hat;
      [discriminate|]. apply negb_false_iff in Hat.
    intros H; injection H as <-; simpl.
    repeat match goal with |- _ /\ _ => split end;
      rewrite ?app_nil_r, ?Z.add_0_r; auto; try lia.
    + intros srcs Hrun. exact (check_same_run_snoc _ _ _ _ Hrun Hs).
    + intros srcs Hrun. exact (check_same_run_snoc _ _ _ _ Hrun Ha).
  - (* asset transfer *)
    destruct (check_same sym (asset_transfer.get_symbol t)) as [[] sym']
      eqn:Hs; cbn [negb]; cbv iota; [|discriminate].
    destruct (check_same addr _) as [[] addr'] eqn:Ha; cbn [negb]; cbv iota;
      [|discriminate].
    intros H; injection H as <-; simpl.
    repeat match goal with |- _ /\ _ => split end;
      rewrite ?app_nil_r, ?Z.add_0_r; auto; try lia.
    + intros srcs Hrun. exact (check_same_run_snoc _ _ _ _ Hrun Hs).
    + intros srcs Hrun. exact (check_same_run_snoc _ _ _ _ Hrun Ha).
  - (* asset cert *)
    destruct (nc + 1 >? 1) eqn:Hn; [discriminate|].
    destruct (asset_cert_ns.eqb (asset_cert.get_type c) asset_cert_ns.issue)
      eqn:Ht; [|discriminate].
    destruct (check_same sym (asset_cert.get_symbol c)) as [[] sym'] eqn:Hs;
      cbn [negb]; cbv iota; [|discriminate].
    destruct (check_same owner _) as [[] owner'] eqn:Ho; cbn [negb];
      cbv iota; [|discriminate].
    intros H; injection H as <-; simpl.
    apply cert_type_eqb_eq in Ht. rewrite Ht.
    repeat match goal with |- _ /\ _ => split end;
      rewrite ?Z.add_0_r; auto; try lia.
    + intros srcs Hrun. exact (check_same_run_snoc _ _ _ _ Hrun Hs).
    + intros srcs Hrun. rewrite app_nil_r. exact Hrun.
Qed.

Lemma secondaryissue_outputs_shape (outs : list output.t)
    (l : secondaryissue_locals) :
  for_each (secondaryissue_output E) outs secondaryissue_locals_init
  = Continue l ->
  secondaryissue_invariant E outs l.
Proof.
  apply for_each_invariant.
  - unfold secondaryissue_invariant. simpl.
    repeat match goal with |- _ /\ _ => split end; auto; try lia;
      try exact check_same_run_nil; contradiction.
  - intros done o l1 l2 (Hn & Hn1 & Hc & Hc1 & Hall & Hsym & Haddr & Hcert)
      Hb.
    apply secondaryissue_output_kind in Hb.
    destruct Hb
      as (Hks & Hka & Hrule & Hn' & Hn1' & Hc' & Hc1' & Hcerts).
    unfold secondaryissue_invariant.
    rewrite !filter_snoc, !length_app, !flat_map_app. cbn [flat_map].
    rewrite !app_nil_r.
    repeat match goal with |- _ /\ _ => split end.
    + rewrite Hn', Hn. destruct (output.is_asset_secondaryissue o);
        simpl; lia.
    + lia.
    + rewrite Hc', Hc. destruct (output.is_asset_cert o); simpl; lia.
    + lia.
    + intros o' Hin. apply in_app_iff in Hin.
      destruct Hin as [Hin|[<-|[]]]; [exact (Hall o' Hin) | exact Hrule].
    + exact (Hks _ Hsym).
    + exact (Hka _ Haddr).
    + rewrite Hcerts. intros Hin. apply in_app_iff in Hin.
      destruct Hin as [Hin|Hin].
      * destruct (Hcert Hin) as (o' & Hin' & Ho').
        exists o'. split; [apply in_app_iff; now left | exact Ho'].
      * destruct (is_cert_of asset_cert_ns.issue o) eqn:Ho;
          [|contradiction].
        exists o. split; [apply in_app_iff; right; now left | exact Ho].
Qed.

Lemma secondaryissue_input_continue (chain : block_chain.t)
    (asset_symbol asset_address : string) (i : input.t) (u u' : unit) :
  secondaryissue_input chain asset_symbol asset_address i u
  = Ret (Continue u') ->
  exists po,
    spends chain i po
    /\ (output.is_asset_cert po = true ->
        asset_cert.get_symbol (output.get_asset_cert po) = asset_symbol
        /\ output.get_asset_cert_type po = asset_cert_ns.issue)
    /\ (output.is_asset po = true ->
        output.get_script_address po = asset_address).
Proof.
  unfold secondaryissue_input.
  destruct (block_chain.get_transaction chain _) as [[prev_tx h]|] eqn:Hget;
    [|discriminate].
  destruct (at_ (transaction.outputs prev_tx) _) as [po| |] eqn:Hat; simpl;
    try discriminate.
  assert (Hsp : spends chain i po) by (exists prev_tx, h; auto).
  assert (Hty : asset_cert.get_type (output.get_asset_cert po)
                = output.get_asset_cert_type po).
  { unfold output.get_asset_cert, output.get_asset_cert_type.
    destruct (output.kind po); reflexivity. }
  rewrite Hty.
  destruct (output.is_asset_cert po) eqn:Hc.
  - assert (Ha : output.is_asset po = false).
    { revert Hc. unfold_kinds. destruct (output.kind po); try discriminate.
      reflexivity. }
    rewrite Ha. cbn [orb].
    destruct (negb (String.eqb _ _) || negb (asset_cert_ns.eqb _ _)) eqn:Hs;
      [discriminate|].
    intros _. apply orb_false_iff in Hs. destruct Hs as (Hs & Ht).
    apply negb_false_iff in Hs, Ht. apply String.eqb_eq in Hs.
    apply cert_type_eqb_eq in Ht.
    exists po. split; [exact Hsp|]. split; [auto | congruence].
  - rewrite orb_false_r. destruct (output.is_asset po) eqn:Ha.
    + destruct (negb (String.eqb _ _)) eqn:Hs; [discriminate|].
      intros _. apply negb_false_iff in Hs. apply String.eqb_eq in Hs.
      exists po. split; [exact Hsp|]. split; [congruence | auto].
    + intros _. exists po. split; [exact Hsp|]. split; congruence.
Qed.

(** X23. A transaction with a secondary-issue output passes
    [check_secondaryissue_transaction] only if it has exactly one such
    output, of a well-formed threshold and attenuation parameter; every
    other output is an asset transfer, an issue certificate, etp or a
    message, with one certificate at most; the symbols of the secondary
    issue, the transfers and the certificate, in output order, are empty
    ones followed by one symbol repeated, and so are the addresses of the
    secondary issue and the transfers, as [check_same] takes any string
    while it has seen empty ones only; from the nova version on the issue
    certificate is there. Every input spends an output that the chain
    knows: an asset from the last of these addresses, or an issue
    certificate of the last of these symbols. *)
Theorem check_secondaryissue_transaction_shape (tx : transaction.t)
    (chain : block_chain.t) :
  existsb output.is_asset_secondaryissue (transaction.outputs tx) = true ->
  check_secondaryissue_transaction E tx chain = Ret error.success ->
  exists symbol address,
    List.length
      (filter output.is_asset_secondaryissue (transaction.outputs tx))
    = 1%nat
    /\ (List.length (filter output.is_asset_cert (transaction.outputs tx))
        <= 1)%nat
    /\ (forall o,
          In o (transaction.outputs tx) -> secondaryissue_output_rule E o)
    /\ check_same_run
         (flat_map secondaryissue_symbol (transaction.outputs tx)) symbol
    /\ check_same_run
         (flat_map secondaryissue_address (transaction.outputs tx)) address
    /\ (version_check_nova_feature E <= transaction.version tx ->
        exists o,
          In o (transaction.outputs tx)
          /\ is_cert_of asset_cert_ns.issue o = true)
    /\ (forall i,
          In i (transaction.inputs tx) ->
          exists po,
            spends chain i po
            /\ (output.is_asset_cert po = true ->
                asset_cert.get_symbol (output.get_asset_cert po) = symbol
                /\ output.get_asset_cert_type po = asset_cert_ns.issue)
            /\ (output.is_asset po = true ->
                output.get_script_address po = address)).
Proof.
  intros Hex. unfold check_secondaryissue_transaction. rewrite Hex.
  cbn [negb].
  destruct (for_each _ _ _) as [c|l] eqn:Hloop.
  { intros H. injection H as ->. apply for_each_return in Hloop.
    destruct Hloop as (o & s & _ & Hb).
    now apply secondaryissue_output_return in Hb. }
  apply secondaryissue_outputs_shape in Hloop.
  destruct Hloop as (Hn & Hn1 & Hc & Hc1 & Hall & Hsym & Haddr & Hcert).
  unfold secondaryissue_after_outputs.
  destruct ((version_check_nova_feature E <=? transaction.version tx)
            && negb (asset_cert.test_certs (si_certs_out l)
                       asset_cert_ns.issue)) eqn:Hnova; [discriminate|].
  destruct (_ >? _); [discriminate|].
  destruct (negb (is_secondaryissue_owns_enough E _ _ _)); [discriminate|].
  destruct (for_each_o _ _ _) as [[c|u]| |] eqn:Hin; simpl;
    try discriminate.
  { intros H. injection H as ->. apply for_each_o_return in Hin.
    destruct Hin as (i & s & _ & Hb). exfalso. revert Hb.
    unfold secondaryissue_input.
    destruct (block_chain.get_transaction chain _) as [[? ?]|];
      [|discriminate].
    destruct (at_ _ _); simpl; try discriminate.
    repeat match goal with
      | |- context [if ?b then _ else _] => destruct b
      end; discriminate. }
  intros _. exists (si_asset_symbol l), (si_asset_address l).
  assert (Hpos : (0 < List.length
                        (filter output.is_asset_secondaryissue
                           (transaction.outputs tx)))%nat).
  { apply existsb_exists in Hex. destruct Hex as (o & Hino & Ho).
    assert (Hf : In o (filter output.is_asset_secondaryissue
                         (transaction.outputs tx)))
      by (apply filter_In; auto).
    destruct (filter _ _); [contradiction | simpl; lia]. }
  repeat match goal with |- _ /\ _ => split end.
  - lia.
  - lia.
  - exact Hall.
  - exact Hsym.
  - exact Haddr.
  - intros Hv. apply Hcert. apply test_certs_In.
    destruct (version_check_nova_feature E <=? transaction.version tx)
      eqn:Hle; [|lia].
    simpl in Hnova. now apply negb_false_iff in Hnova.
  - intros i Hi.
    destruct (for_each_o_continue _ _ _ _ Hin i Hi) as ([] & [] & Hb).
    exact (secondaryissue_input_continue _ _ _ _ _ _ Hb).
Qed.

End SecondaryIssueShape.

(** ** The indexes of a rejection *)

Section RejectionFacts.

Variable E : environment.
Variable blockchain_ : block_chain.t.
Variable tx_ : transaction.t.
Variable pool_ : transaction_pool.t.

Lemma handle_previous_tx_rejection (m : members) (ec : code)
    (previous_tx : transaction.t) (parent_height : Z) (i : input.t)
    (m' : members) (v : verdict) (posted : option request) :
  nth_error (transaction.inputs tx_) (current_input_ m) = Some i ->
  last_block_height_ m = snd (block_chain.fetch_last_height blockchain_) ->
  (if error.is_error ec
   then resolve_previous_tx blockchain_ pool_ i = None
   else resolve_previous_tx blockchain_ pool_ i
        = Some (previous_tx, parent_height)) ->
  handle_previous_tx E tx_ m ec previous_tx parent_height
  = Ret (m', [v], posted) ->
  input_rejection E blockchain_ tx_ pool_ (current_input_ m) i
    (aggregates_ m) v.
Proof.
  intros Hi Hh Hres. unfold handle_previous_tx, input_rejection.
  destruct (error.is_error ec).
  { intros H; injection H as _ <- _. simpl. auto. }
  destruct (connect_input E tx_ _ _ _ _ _ _) as [[[] a]| |] eqn:Hc; simpl;
    try discriminate.
  - rewrite Hi. discriminate.
  - intros H; injection H as _ <- _. simpl. split; [reflexivity|].
    right. split; [reflexivity|].
    exists previous_tx, parent_height, a. rewrite <- Hh. auto.
Qed.

Lemma check_fees_rejects (m m' : members) (v : verdict)
    (posted : option request) :
  check_fees E tx_ m = (m', [v], posted) ->
  verdict_code v <> error.success ->
  verdict_indexes v = [].
Proof.
  unfold check_fees, handle_validate_.
  destruct (tally_fees E tx_ _ 0) as [[] fee]; simpl;
    [|intros H; injection H as _ <- _; reflexivity].
  destruct (if _ || _ then _ else _);
    [intros H; injection H as _ <- _; reflexivity|].
  destruct (_ && _); intros H; injection H as _ <- _; simpl;
    [reflexivity | congruence].
Qed.

Lemma connected_prefix_up_to (m : members) (k : nat) :
  height_known blockchain_ m ->
  connected_prefix E blockchain_ tx_ pool_ m k ->
  connected_up_to E blockchain_ tx_ pool_ k (aggregates_ m).
Proof.
  intros (_ & Hh) (_ & _ & _ & _ & _ & _ & _ & Hseq).
  unfold connected_up_to. rewrite <- Hh. exact Hseq.
Qed.

(** The verdict that serving a read gives, when it is no success. *)
Lemma serve_rejection (u0 : list nat) (m : members) (r : request)
    (m' : members) (v : verdict) (posted : option request) :
  request_invariant blockchain_ tx_ pool_ m r ->
  admission_invariant E blockchain_ tx_ pool_ u0 m r ->
  serve E blockchain_ tx_ pool_ m r = Ret (m', [v], posted) ->
  verdict_code v <> error.success ->
  pipeline_rejection E blockchain_ tx_ pool_ m' v.
Proof.
  intros Hinv Hainv. unfold pipeline_rejection.
  destruct r as [h| |h|h ph|op]; simpl.
  - (* handle_duplicate_check *)
    destruct Hainv as (-> & _).
    destruct (block_chain.fetch_transaction blockchain_ _) as [ec t] eqn:Hf.
    unfold handle_duplicate_check. cbn [fst].
    destruct (negb (error.eqb ec error.not_found)) eqn:Hnf.
    { intros H; injection H as _ <- _. intros _. left. simpl.
      repeat split. intros ->. discriminate. }
    apply negb_false_iff in Hnf. apply error_eqb_eq in Hnf.
    destruct (transaction_pool.is_spent_in_pool pool_ tx_) eqn:Hsp;
      [|discriminate].
    intros H; injection H as _ <- _. intros _. right. left. simpl. auto.
  - (* set_last_height *)
    destruct Hainv as (Hnk & _).
    destruct (block_chain.fetch_last_height blockchain_) as [ec height].
    unfold set_last_height. cbn [fst].
    destruct (error.is_error ec) eqn:Hec.
    { intros H; injection H as _ <- _. intros _. right. right. left.
      simpl. auto. }
    destruct (transaction.inputs tx_) as [|i0 rest]; [discriminate|].
    intros H. apply next_previous_transaction_post in H.
    destruct H as (hash & H). discriminate.
  - (* previous_tx_index *)
    destruct Hainv as (Hnk & Hh & Hpre & Hun & _).
    destruct Hinv as (_ & i & Hi & ->).
    destruct (block_chain.fetch_transaction_index blockchain_ _) as [ec ph]
      eqn:Hidx.
    unfold previous_tx_index.
    destruct (error.is_error ec) eqn:Hec; [|rewrite Hi; discriminate].
    unfold search_pool_previous_tx. rewrite Hi.
    destruct (transaction_pool.find pool_ _) as [previous_tx|] eqn:Hfind.
    + destruct (is_coinbase E previous_tx); [discriminate|].
      destruct (handle_previous_tx E tx_ m error.success previous_tx 0)
        as [[[m1 vs] posted1]| |] eqn:Hhandle; simpl; try discriminate.
      intros H. injection H as _ -> _. intros _.
      right. right. right. split; [exact Hnk|].
      split; [exact (proj1 Hh)|]. left.
      exists (current_input_ m), i, (aggregates_ m).
      split; [exact Hi|].
      split; [exact (connected_prefix_up_to _ _ Hh Hpre)|].
      split; [exact Hun|].
      apply (handle_previous_tx_rejection _ _ _ _ _ _ _ _ Hi (proj2 Hh))
        in Hhandle; [exact Hhandle|].
      simpl. unfold resolve_previous_tx. rewrite Hidx, Hec, Hfind.
      reflexivity.
    + intros H; injection H as _ <- _. intros _.
      right. right. right. split; [exact Hnk|].
      split; [exact (proj1 Hh)|]. left.
      exists (current_input_ m), i, (aggregates_ m).
      split; [exact Hi|].
      split; [exact (connected_prefix_up_to _ _ Hh Hpre)|].
      split; [exact Hun|].
      unfold input_rejection. simpl. split; [reflexivity|]. left.
      split; [reflexivity|].
      unfold resolve_previous_tx. rewrite Hidx, Hec, Hfind. reflexivity.
  - (* handle_previous_tx *)
    destruct Hainv as (Hnk & Hh & Hpre & Hun & _).
    destruct Hinv as (_ & (i & Hi & ->) & ec & Hidx & Hec).
    destruct (block_chain.fetch_transaction blockchain_ _)
      as [ec' previous_tx] eqn:Hft.
    intros H _.
    right. right. right. split; [exact Hnk|].
    split; [exact (proj1 Hh)|]. left.
    exists (current_input_ m), i, (aggregates_ m).
    split; [exact Hi|].
    split; [exact (connected_prefix_up_to _ _ Hh Hpre)|].
    split; [exact Hun|].
    apply (handle_previous_tx_rejection _ _ _ _ _ _ _ _ Hi (proj2 Hh)) in H;
      [exact H|].
    unfold resolve_previous_tx. rewrite Hidx, Hec, Hft.
    destruct (error.is_error ec'); reflexivity.
  - (* check_double_spend *)
    destruct Hainv as (Hnk & Hh & Hpre & Hun & _ & i & Hi & ->).
    destruct Hinv as (_ & Hlt).
    unfold check_double_spend.
    destruct (negb (error.eqb _ _)) eqn:Hsp.
    { intros H; injection H as _ <- _. intros _.
      right. right. right. split; [exact Hnk|].
      split; [exact (proj1 Hh)|]. right. left.
      exists (current_input_ m), i, (aggregates_ m).
      split; [exact Hi|].
      split; [exact (connected_prefix_up_to _ _ Hh Hpre)|].
      split; [exact Hun|]. simpl.
      split; [|auto]. intros Habs. rewrite Habs in Hsp. discriminate. }
    apply negb_false_iff in Hsp. apply error_eqb_eq in Hsp.
    cbn [current_input_].
    destruct (Nat.ltb _ _) eqn:Hnext.
    + intros H. apply next_previous_transaction_post in H.
      destruct H as (hash & H). discriminate.
    + apply Nat.ltb_ge in Hnext.
      assert (Hn : List.length (transaction.inputs tx_)
                   = S (current_input_ m)) by lia.
      destruct (check_fees_shape E tx_
                  (mk_members (last_block_height_ m)
                     (S (current_input_ m)) (aggregates_ m)
                     (unconfirmed_ m))) as (v' & Hv).
      rewrite Hv. intros H. injection H as <- <- _. intros Hrej.
      right. right. right. split; [exact Hnk|].
      split; [exact (proj1 Hh)|]. right. right. rewrite Hn.
      cbn [aggregates_].
      split; [exact (connected_prefix_up_to _ _ Hh Hpre)|].
      split; [|split; [exact Hv | exact (check_fees_rejects _ _ _ _ Hv Hrej)]].
      intros j i' Hj Hi'. destruct (Nat.eq_dec j (current_input_ m))
        as [->|Hne].
      * rewrite Hi in Hi'. injection Hi' as <-. exact Hsp.
      * apply (Hun j); [lia | exact Hi'].
Qed.

Lemma run_rejection (u0 : list nat) (fuel : nat) (m : members)
    (r : request) (m' : members) (v : verdict) :
  transaction.inputs tx_ <> [] ->
  request_invariant blockchain_ tx_ pool_ m r ->
  admission_invariant E blockchain_ tx_ pool_ u0 m r ->
  run E blockchain_ tx_ pool_ fuel (m, [], Some r) = Ret (Some (m', [v])) ->
  verdict_code v <> error.success ->
  pipeline_rejection E blockchain_ tx_ pool_ m' v.
Proof.
  intros Hne. revert m r.
  induction fuel as [|fuel IH]; intros m r Hinv Hainv; simpl;
    [discriminate|].
  destruct (serve E blockchain_ tx_ pool_ m r) as [s| |] eqn:Hs;
    simpl; try discriminate.
  destruct (serve_step _ _ _ _ _ _ _ Hne Hinv Hs)
    as [(m1 & c & idx & -> & Hc)
       |[(m1 & r1 & -> & Hinv1 & Hlt)|(m1 & -> & Hl)]].
  - destruct fuel; simpl; intros H; injection H as <- <-;
      intros Hv; exact (serve_rejection _ _ _ _ _ _ Hinv Hainv Hs Hv).
  - simpl. apply IH; [exact Hinv1|].
    exact (serve_keeps _ _ _ _ _ _ _ _ _ Hinv Hainv Hs).
  - destruct (check_fees_shape E tx_ m1) as (v1 & Hv1). rewrite Hv1 in *.
    destruct fuel; simpl; intros H; injection H as <- <-;
      intros Hv; exact (serve_rejection _ _ _ _ _ _ Hinv Hainv Hs Hv).
Qed.

End RejectionFacts.

(** X24. A rejection, traced to the callback that gives it. A rejection
    from the stateless checks carries no index, except for
    [input_not_found], which carries [current_input_] as the run found it:
    that member is not written before [set_last_height]. A rejection from
    the pipeline is one of these: [duplicate] when the chain holds the
    transaction, [double_spend] when the pool spends one of its previous
    outputs, the chain's error when it gives no last height, all three
    without index; or, the inputs before position [k] being connected in
    turn and unspent, [input_not_found] with the index [k] alone when
    neither the chain nor the pool gives the previous transaction of the
    input at [k], [validate_inputs_failed] with the index [k] alone when
    [connect_input] refuses that input, [double_spend] without index when
    that input connects and the chain does not report its previous output
    unspent; or, every input being connected and unspent, the verdict of
    [check_fees], without index. *)
Theorem rejected_verdict_indexes (E : environment) (chain : block_chain.t)
    (tx : transaction.t) (pool : transaction_pool.t) (m m' : members)
    (v : verdict) :
  validate E chain tx pool m = Ret (Some (m', [v])) ->
  verdict_code v <> error.success ->
  (basic_checks E tx pool chain = Ret (verdict_code v)
   /\ verdict_indexes v
      = (if error.eqb (verdict_code v) error.input_not_found
         then [current_input_ m] else []))
  \/ (basic_checks E tx pool chain = Ret error.success
      /\ pipeline_rejection E chain tx pool m' v).
Proof.
  unfold validate, start.
  destruct (basic_checks E tx pool chain) as [ec| |] eqn:Hb;
    cbn [obind]; try discriminate.
  destruct (error.is_error ec) eqn:Hec.
  - destruct (error.eqb ec error.input_not_found) eqn:Hq; simpl;
      intros H; injection H as <- <-; intros _; left; simpl;
      rewrite Hq; auto.
  - destruct (basic_checks_success _ _ _ _ _ Hb Hec) as (-> & Hct & _ & _).
    destruct (check_transaction_success _ _ _ Hct) as (Hbasic & _).
    destruct (check_transaction_basic_inputs _ _ _ Hbasic) as (Hne & _).
    unfold post. cbn [obind]. intros H Hv. right. split; [reflexivity|].
    eapply (run_rejection _ _ _ _ (unconfirmed_ m));
      [exact Hne | | | exact H | exact Hv].
    + exact I.
    + simpl. auto.
Qed.

(** ** Acceptance, characterised *)

Section ForwardFacts.

Variable E : environment.
Variable blockchain_ : block_chain.t.
Variable tx_ : transaction.t.
Variable pool_ : transaction_pool.t.

Local Abbreviation inputs := (transaction.inputs tx_).

Lemma run_S (fuel : nat) (m : members) (verdicts : list verdict)
    (r : request) :
  run E blockchain_ tx_ pool_ (S fuel) (m, verdicts, Some r)
  = (s' <- serve E blockchain_ tx_ pool_ m r ;;
     let '(m', verdicts', posted') := s' in
     run E blockchain_ tx_ pool_ fuel (m', verdicts ++ verdicts', posted')).
Proof. reflexivity. Qed.

Lemma run_done (fuel : nat) (m : members) (verdicts : list verdict) :
  run E blockchain_ tx_ pool_ fuel (m, verdicts, None)
  = Ret (Some (m, verdicts)).
Proof. destruct fuel; reflexivity. Qed.

(** From [previous_tx_index] to the read of [check_double_spend], for an
    input that connects: two reads when the chain knows the previous
    transaction, one when the pool does. *)
Lemma run_to_spend (fuel : nat) (m : members) (verdicts : list verdict)
    (i : input.t) (a1 : aggregates) :
  nth_error inputs (current_input_ m) = Some i ->
  connect_resolved E blockchain_ tx_ pool_ (last_block_height_ m)
    (current_input_ m) i (aggregates_ m) = Ret (Some a1) ->
  exists fuel',
    (fuel <= fuel')%nat
    /\ run E blockchain_ tx_ pool_ (S (S fuel))
         (m, verdicts,
          Some (fetch_transaction_index
                  (output_point.hash (input.previous_output i))))
       = run E blockchain_ tx_ pool_ fuel'
           (mk_members (last_block_height_ m) (current_input_ m) a1
              (unconfirmed_ m
               ++ (if resolved_from_pool blockchain_ i
                   then [current_input_ m] else [])),
            verdicts, Some (fetch_spend (input.previous_output i))).
Proof.
  intros Hi. unfold connect_resolved, resolve_previous_tx, resolved_from_pool.
  rewrite run_S. cbn [serve].
  destruct (block_chain.fetch_transaction_index blockchain_ _) as [ec ph]
    eqn:Hidx.
  cbn [fst]. unfold previous_tx_index.
  destruct (error.is_error ec) eqn:Hec.
  - (* the pool *)
    unfold search_pool_previous_tx. rewrite Hi.
    destruct (transaction_pool.find pool_ _) as [ptx|]; [|discriminate].
    cbn [andb].
    destruct (is_coinbase E ptx); [discriminate|].
    unfold handle_previous_tx. cbn [error.is_error error.eqb].
    replace (error.is_error error.success) with false by reflexivity.
    destruct (connect_input E tx_ _ _ _ _ _ _) as [[[] a]| |]; cbn [obind];
      try discriminate.
    intros H. injection H as <-. cbn [negb current_input_]. rewrite Hi.
    cbn [obind post last_block_height_ current_input_ aggregates_
         unconfirmed_].
    rewrite app_nil_r. exists (S fuel). split; [lia | reflexivity].
  - (* the chain *)
    rewrite Hi. cbn [obind post]. rewrite app_nil_r, run_S. cbn [serve].
    destruct (block_chain.fetch_transaction blockchain_ _) as [ec' ptx].
    destruct (error.is_error ec') eqn:Hec'; [discriminate|].
    cbn [andb]. unfold handle_previous_tx. rewrite Hec'.
    destruct (connect_input E tx_ _ _ _ _ _ _) as [[[] a]| |]; cbn [obind];
      try discriminate.
    intros H. injection H as <-. cbn [negb current_input_]. rewrite Hi.
    cbn [obind post]. rewrite !app_nil_r.
    exists fuel. split; [lia | reflexivity].
Qed.

Lemma skipn_cons_nth_error {A : Type} (l : list A) (k : nat) (x : A)
    (rest : list A) :
  skipn k l = x :: rest ->
  nth_error l k = Some x /\ skipn (S k) l = rest
  /\ List.length l = (k + S (List.length rest))%nat.
Proof.
  revert l. induction k as [|k IH]; intros [|y l]; simpl; try discriminate.
  - intros H. injection H as -> ->. auto.
  - intros H. destruct (IH _ H) as (H1 & H2 & H3). simpl in H2.
    repeat split; auto.
Qed.

Lemma connect_inputs_cons (last_block_height : Z) (i : input.t)
    (rest : list input.t) (k : nat) (a a' : aggregates) :
  connect_inputs E blockchain_ tx_ pool_ last_block_height (i :: rest) k a
  = Ret (Some a') ->
  exists a1,
    connect_resolved E blockchain_ tx_ pool_ last_block_height k i a
    = Ret (Some a1)
    /\ connect_inputs E blockchain_ tx_ pool_ last_block_height rest (S k) a1
       = Ret (Some a').
Proof.
  cbn [connect_inputs].
  destruct (connect_resolved E blockchain_ tx_ pool_ _ k i a)
    as [[a1|]| |]; cbn [obind]; try discriminate.
  intros H. exists a1. auto.
Qed.

(** The pipeline from the first read for the input at [current_input_] to
    the verdict of [check_fees], when the inputs from there on connect and
    are unspent. *)
Lemma run_connects (u0 : list nat) (rest : list input.t) :
  forall (i : input.t) (m : members) (verdicts : list verdict) (fuel : nat)
         (a : aggregates),
    skipn (current_input_ m) inputs = i :: rest ->
    unconfirmed_ m = u0 ++ pool_indexes blockchain_ tx_ (current_input_ m) ->
    connect_inputs E blockchain_ tx_ pool_ (last_block_height_ m) (i :: rest)
      (current_input_ m) (aggregates_ m) = Ret (Some a) ->
    (forall j, In j (i :: rest) ->
       block_chain.fetch_spend blockchain_ (input.previous_output j)
       = error.unspent_output) ->
    (3 * S (List.length rest) <= fuel)%nat ->
    let m' :=
      mk_members (last_block_height_ m) (List.length inputs) a
        (u0 ++ pool_indexes blockchain_ tx_ (List.length inputs)) in
    exists v,
      check_fees E tx_ m' = (m', [v], None)
      /\ run E blockchain_ tx_ pool_ fuel
           (m, verdicts,
            Some (fetch_transaction_index
                    (output_point.hash (input.previous_output i))))
         = Ret (Some (m', verdicts ++ [v])).
Proof.
  induction rest as [|i' rest IH]; intros i m verdicts fuel a Hskip Hu Hseq
    Hunspent Hfuel; cbv zeta.
  all: destruct (skipn_cons_nth_error _ _ _ _ Hskip) as (Hi & Hrest & Hlen).
  all: destruct (connect_inputs_cons _ _ _ _ _ _ Hseq) as (a1 & Hres & Hseq').
  all: destruct fuel as [|[|fuel]]; try (simpl in Hfuel; lia).
  all: destruct (run_to_spend fuel m verdicts i a1 Hi Hres)
         as (fuel' & Hfuel' & ->).
  all: destruct fuel' as [|fuel']; [simpl in Hfuel; lia|].
  all: rewrite run_S; cbn [serve]; unfold check_double_spend.
  all: rewrite (Hunspent i (or_introl eq_refl)).
  all: replace (error.eqb error.unspent_output error.unspent_output)
         with true by reflexivity.
  all: cbn [negb current_input_ last_block_height_ aggregates_ unconfirmed_].
  all: rewrite Hu, <- app_assoc, <- (pool_indexes_S _ _ _ _ Hi).
  - (* the last input *)
    injection Hseq' as <-. simpl in Hlen.
    assert (Hn : List.length inputs = S (current_input_ m)) by lia.
    rewrite Hn.
    destruct (Nat.ltb _ _) eqn:Hlt; [apply Nat.ltb_lt in Hlt; lia|].
    destruct (check_fees_shape E tx_
                (mk_members (last_block_height_ m) (S (current_input_ m)) a1
                   (u0 ++ pool_indexes blockchain_ tx_
                            (S (current_input_ m))))) as (v & Hv).
    exists v. split; [exact Hv|]. rewrite Hv. cbn [obind].
    apply run_done.
  - (* an input before the last *)
    simpl in Hlen.
    destruct (Nat.ltb _ _) eqn:Hlt; [|apply Nat.ltb_ge in Hlt; lia].
    destruct (skipn_cons_nth_error _ _ _ _ Hrest) as (Hi' & _ & _).
    unfold next_previous_transaction. cbn [current_input_]. rewrite Hi'.
    cbn [obind post]. rewrite !app_nil_r.
    destruct (IH i'
                (mk_members (last_block_height_ m) (S (current_input_ m)) a1
                   (u0 ++ pool_indexes blockchain_ tx_
                            (S (current_input_ m))))
                verdicts fuel' a) as (v & Hv & Hrun).
    + exact Hrest.
    + reflexivity.
    + exact Hseq'.
    + intros j Hj. apply Hunspent. now right.
    + simpl in Hfuel |- *. lia.
    + exists v. split; [exact Hv | exact Hrun].
Qed.

End ForwardFacts.

(** X25. Acceptance, characterised. The validator accepts a transaction,
    ending with the members [m'], exactly when [basic_checks] passes, the
    chain does not hold the transaction, the pool spends none of its
    previous outputs, the chain gives its last height, the inputs connect
    one after the other from the initial aggregates (each resolved on the
    chain or else in the pool, and accepted by [connect_input]), the chain
    reports every previous output unspent, and [check_fees] passes on the
    aggregates so obtained: the callbacks and the dispatcher compute the
    sequential rule, and nothing else decides. *)
Theorem validate_accepts_iff (E : environment) (chain : block_chain.t)
    (tx : transaction.t) (pool : transaction_pool.t) (m m' : members)
    (v : verdict) :
  validate E chain tx pool m = Ret (Some (m', [v]))
  /\ verdict_code v = error.success
  <-> basic_checks E tx pool chain = Ret error.success
      /\ fst (block_chain.fetch_transaction chain (hash E tx))
         = error.not_found
      /\ transaction_pool.is_spent_in_pool pool tx = false
      /\ error.is_error (fst (block_chain.fetch_last_height chain)) = false
      /\ (exists a,
            connect_inputs E chain tx pool
              (snd (block_chain.fetch_last_height chain))
              (transaction.inputs tx) 0
              (mk_aggregates 0 0 [] "" "" business_kind.etp)
            = Ret (Some a)
            /\ m' = mk_members (snd (block_chain.fetch_last_height chain))
                      (List.length (transaction.inputs tx)) a
                      (unconfirmed_ m
                       ++ pool_indexes chain tx
                            (List.length (transaction.inputs tx))))
      /\ (forall i,
            In i (transaction.inputs tx) ->
            block_chain.fetch_spend chain (input.previous_output i)
            = error.unspent_output)
      /\ check_fees E tx m' = (m', [v], None)
      /\ verdict_code v = error.success.
Proof.
  split.
  - intros (Hval & Hv).
    destruct (validate_admitted _ _ _ _ _ _ Hval) as (m1 & v1 & Heq & Hsucc).
    injection Heq as <- <-.
    destruct (Hsucc Hv)
      as (Hct & Hcb & Hpool & Hfees & (Hdup & Hspent) & (Hh1 & Hh2) & Hk
          & Hpre & Hun & Hu).
    pose proof Hpre as (_ & _ & _ & _ & _ & _ & _ & Hseq).
    rewrite firstn_all, Hh2 in Hseq.
    repeat match goal with |- _ /\ _ => split end; auto.
    + unfold basic_checks. rewrite Hct. cbn [obind].
      replace (error.is_error error.success) with false by reflexivity.
      rewrite Hcb. unfold is_standard. cbn [negb].
      unfold tx_hash_ in Hpool. unfold tx_hash_. rewrite Hpool. reflexivity.
    + exists (aggregates_ m'). split; [exact Hseq|].
      destruct m' as [lh k a u]. simpl in *. congruence.
    + intros i Hin. apply In_nth_error in Hin. destruct Hin as (k & Hi).
      exact (Hun k i (nth_error_lt _ _ _ Hi) Hi).
  - intros (Hb & Hdup & Hspent & Hh & (a & Hseq & Hm') & Hun & Hfees & Hv).
    split; [|exact Hv].
    destruct (basic_checks_success _ _ _ _ _ Hb eq_refl)
      as (_ & Hct & _ & _).
    destruct (check_transaction_success _ _ _ Hct) as (Hbasic & _).
    destruct (check_transaction_basic_inputs _ _ _ Hbasic) as (Hne & _).
    unfold validate, start. rewrite Hb. cbn [obind].
    replace (error.is_error error.success) with false by reflexivity.
    unfold post.
    remember (List.length (transaction.inputs tx)) as n eqn:Hn.
    cbn [obind].
    change (2 + 3 * n)%nat with (S (S (3 * n))).
    rewrite run_S. cbn [serve]. unfold tx_hash_.
    destruct (block_chain.fetch_transaction chain (hash E tx)) as [ec t].
    cbn [fst] in Hdup. subst ec. unfold handle_duplicate_check.
    replace (error.eqb error.not_found error.not_found) with true
      by reflexivity.
    cbn [negb]. rewrite Hspent. unfold post. cbn [obind].
    rewrite run_S. cbn [serve].
    destruct (block_chain.fetch_last_height chain) as [ec lh].
    cbn [fst snd] in *. unfold set_last_height. rewrite Hh.
    destruct (transaction.inputs tx) as [|i0 rest] eqn:Hin; [congruence|].
    unfold next_previous_transaction. cbn [current_input_]. rewrite Hin.
    cbn [nth_error obind post]. rewrite !app_nil_r.
    rewrite <- Hin in Hn.
    destruct (run_connects E chain tx pool (unconfirmed_ m) rest i0
                (mk_members lh 0
                   (mk_aggregates 0 0 [] "" "" business_kind.etp)
                   (unconfirmed_ m)) [] (3 * n) a)
      as (v' & Hv' & Hrun).
    + cbn [current_input_]. rewrite Hin. reflexivity.
    + cbn [unconfirmed_ current_input_]. unfold pool_indexes. simpl.
      now rewrite app_nil_r.
    + exact Hseq.
    + intros j Hj. apply Hun. exact Hj.
    + subst n. rewrite Hin. simpl. lia.
    + cbn [last_block_height_] in Hv', Hrun.
      rewrite <- Hn in Hrun, Hv'. rewrite <- Hm' in Hrun, Hv'.
      rewrite Hfees in Hv'. injection Hv' as <-. exact Hrun.
Qed.

(** ** Witnesses: the further theorems at work on the scenarios *)

Lemma check_asset_symbol_iff_witness :
  output.get_asset_symbol
    (output.mk 0 (Scenario.pay_to "B")
       (Scenario.plain (attach_asset_transfer (asset_transfer.mk "ABC" 100))))
  = "ABC".
Proof.
  refine (proj1 (proj1 (check_asset_symbol_iff
                          (Scenario.connected 2000 1
                             (mk_aggregates 20000 100 [] "ABC" "ABC"
                                business_kind.asset_issue))
                          Scenario.transfer_all) eq_refl)
            _ (or_introl eq_refl) _).
  discriminate.
Defined.

Lemma check_did_symbol_match_iff_witness :
  output.get_did_symbol Scenario.alice_to_b = "alice".
Proof.
  refine (proj1 (proj1 (check_did_symbol_match_iff
                          (Scenario.connected 2000 2
                             (mk_aggregates 20000 0 [] "alice" "alice"
                                business_kind.did_register))
                          Scenario.did_transfer_two) eq_refl)
            _ (or_introl eq_refl) _).
  discriminate.
Defined.

Lemma check_asset_mit_iff_witness :
  List.length
    (filter output.is_asset_mit_transfer
       (transaction.outputs Scenario.mit_transfer_tx)) = 1%nat.
Proof.
  exact (proj1 (proj1 (check_asset_mit_iff
                         (Scenario.connected 2000 1
                            (mk_aggregates 0 0 [] "M1" "M1"
                               business_kind.asset_mit))
                         Scenario.mit_transfer_tx) eq_refl)).
Defined.

Lemma check_asset_certs_true_witness :
  In asset_cert_ns.naming
    (map output.get_asset_cert_type
       (filter output.is_asset_cert
          (transaction.outputs Scenario.move_cert))).
Proof.
  exact (proj1 (proj2 (check_asset_certs_true
                         (Scenario.connected 2000 2
                            (mk_aggregates 20000 0 [asset_cert_ns.naming]
                               "ABC" "ABC" business_kind.asset_cert))
                         Scenario.move_cert eq_refl))
           asset_cert_ns.naming (or_introl eq_refl)).
Defined.

Lemma connect_input_latches_symbol_witness :
  old_symbol_in
    (mk_aggregates 0 600000 [] "ABC" "ABC" business_kind.did_transfer)
  = "ABC".
Proof.
  refine (proj1 (proj2
            (connect_input_latches_symbol Scenario.env
               (Scenario.secondaryissue_tx 600000) 0 Scenario.abc_holding
               10 2000 (all_enabled Scenario.env)
               (aggregates_ Scenario.fresh)
               (mk_aggregates 0 600000 [] "ABC" "ABC"
                  business_kind.did_transfer)
               (Scenario.spend 201 0)
               (output.mk 0 (Scenario.pay_to "A")
                  (Scenario.plain
                     (attach_asset_transfer
                        (asset_transfer.mk "ABC" 600000))))
               eq_refl eq_refl _)) (or_introl eq_refl) _).
  - vm_compute. reflexivity.
  - discriminate.
Defined.

Lemma connect_input_certs_distinct_witness :
  NoDup [asset_cert_ns.domain; asset_cert_ns.naming].
Proof.
  refine (proj1 (proj2
            (connect_input_certs_distinct Scenario.env Scenario.spend_cert 0
               Scenario.cert_holding 5 2000 (all_enabled Scenario.env)
               Scenario.after_domain_cert
               (mk_aggregates 0 0
                  [asset_cert_ns.domain; asset_cert_ns.naming]
                  "ABC.X" "ABC" business_kind.asset_cert)
               (Scenario.spend 501 0) Scenario.naming_cert
               eq_refl eq_refl _)) _).
  - vm_compute. reflexivity.
  - constructor; [simpl; tauto | constructor].
Defined.

Lemma check_transaction_basic_values_witness :
  transaction.total_output_value (Scenario.pay 10000)
  = sum_output_value (Scenario.pay 10000)
  /\ 0 <= sum_output_value (Scenario.pay 10000)
     <= max_money Scenario.env.
Proof.
  refine (proj2 (proj2 (proj2 (proj2 (proj2 (proj2
            (check_transaction_basic_values Scenario.env
               (Scenario.pay 10000) Scenario.funded_chain eq_refl))))))
            _ _).
  - vm_compute. discriminate.
  - intros o [<-|[]]. simpl. lia.
Defined.

Lemma check_transaction_basic_details_witness :
  check_model_param_tx Scenario.env Scenario.nova_tx
    (Scenario.nova_chain 1270001) = error.success.
Proof.
  refine (proj2 (proj2 (proj2 (proj2 (proj2
            (check_transaction_basic_details Scenario.env Scenario.nova_tx
               (Scenario.nova_chain 1270001) eq_refl))) eq_refl)) _).
  simpl. lia.
Defined.

Lemma accepted_transaction_is_new_witness :
  transaction_pool.is_in_pool Scenario.funded_pool
    (hash Scenario.env Scenario.pay_mixed) = false
  /\ last_block_height_
       (mk_members 2000 2 (mk_aggregates 40000 0 [] "" "" business_kind.etp)
          [1%nat])
     = snd (block_chain.fetch_last_height Scenario.funded_chain).
Proof.
  pose proof (accepted_transaction_is_new Scenario.env Scenario.funded_chain
                Scenario.pay_mixed Scenario.funded_pool Scenario.fresh
                (mk_members 2000 2
                   (mk_aggregates 40000 0 [] "" "" business_kind.etp)
                   [1%nat])
                (mk_verdict error.success [1%nat])
                ltac:(vm_compute; reflexivity) eq_refl) as H.
  split; apply H.
Defined.

Lemma accepted_inputs_connected_witness :
  block_chain.fetch_spend Scenario.funded_chain
    (input.previous_output (Scenario.spend 601 0)) = error.unspent_output.
Proof.
  exact (proj2 (accepted_inputs_connected Scenario.env Scenario.funded_chain
                  Scenario.pay_mixed Scenario.funded_pool Scenario.fresh
                  (mk_members 2000 2
                     (mk_aggregates 40000 0 [] "" "" business_kind.etp)
                     [1%nat])
                  (mk_verdict error.success [1%nat]) 1
                  (Scenario.spend 601 0)
                  ltac:(vm_compute; reflexivity) eq_refl eq_refl)).
Defined.

Lemma accepted_verdict_indexes_witness :
  verdict_indexes (mk_verdict error.success [1%nat])
  = unconfirmed_ Scenario.fresh
    ++ pool_indexes Scenario.funded_chain Scenario.pay_mixed
         (List.length (transaction.inputs Scenario.pay_mixed)).
Proof.
  exact (proj1 (accepted_verdict_indexes Scenario.env Scenario.funded_chain
                  Scenario.pay_mixed Scenario.funded_pool Scenario.fresh
                  (mk_members 2000 2
                     (mk_aggregates 40000 0 [] "" "" business_kind.etp)
                     [1%nat])
                  (mk_verdict error.success [1%nat])
                  ltac:(vm_compute; reflexivity) eq_refl)).
Defined.

Lemma accepted_value_conserved_witness :
  sum_output_value Scenario.pay_mixed + min_tx_fee
  <= sum_input_value Scenario.funded_chain Scenario.funded_pool
       Scenario.pay_mixed
  /\ sum_input_value Scenario.funded_chain Scenario.funded_pool
       Scenario.pay_mixed <= max_money Scenario.env.
Proof.
  refine (proj2 (proj2 (proj2 (proj2
            (accepted_value_conserved Scenario.env Scenario.funded_chain
               Scenario.pay_mixed Scenario.funded_pool Scenario.fresh
               (mk_members 2000 2
                  (mk_aggregates 40000 0 [] "" "" business_kind.etp)
                  [1%nat])
               (mk_verdict error.success [1%nat]) _ eq_refl))) _ _ _)).
  - vm_compute. reflexivity.
  - vm_compute. discriminate.
  - intros i po [<-|[<-|[]]] H; vm_compute in H; injection H as <-;
      simpl; lia.
  - intros o [<-|[]]. simpl. lia.
Defined.

Lemma accepted_business_kind_witness :
  business_kind.did_register
  = fold_left (input_business_kind Scenario.alice_chain Scenario.empty_pool)
      (transaction.inputs Scenario.did_transfer_two) business_kind.etp.
Proof.
  exact (proj1
           (accepted_business_kind Scenario.env Scenario.alice_chain
              Scenario.did_transfer_two Scenario.empty_pool Scenario.fresh
              (Scenario.connected 2000 2
                 (mk_aggregates 20000 0 [] "alice" "alice"
                    business_kind.did_register))
              (mk_verdict error.success [])
              ltac:(vm_compute; reflexivity) eq_refl)).
Defined.

Lemma accepted_certs_distinct_witness :
  [asset_cert_ns.naming]
  = flat_map (input_certs Scenario.cert_chain Scenario.empty_pool)
      (transaction.inputs Scenario.move_cert).
Proof.
  exact (proj1
           (accepted_certs_distinct Scenario.env Scenario.cert_chain
              Scenario.move_cert Scenario.empty_pool Scenario.fresh
              (Scenario.connected 2000 2
                 (mk_aggregates 20000 0 [asset_cert_ns.naming] "ABC" "ABC"
                    business_kind.asset_cert))
              (mk_verdict error.success [])
              ltac:(vm_compute; reflexivity) eq_refl)).
Defined.

Lemma accepted_inputs_one_symbol_witness :
  input_symbol Scenario.alice_chain Scenario.empty_pool
    (Scenario.spend 301 0) = "alice".
Proof.
  refine (proj1
            (accepted_inputs_one_symbol Scenario.env Scenario.alice_chain
               Scenario.did_transfer_two Scenario.empty_pool Scenario.fresh
               (Scenario.connected 2000 2
                  (mk_aggregates 20000 0 [] "alice" "alice"
                     business_kind.did_register))
               (mk_verdict error.success []) _ eq_refl)
            (Scenario.spend 301 0) (or_introl eq_refl) _).
  - vm_compute. reflexivity.
  - vm_compute. discriminate.
Defined.

Lemma accepted_conservation_by_kind_witness :
  check_asset_certs
    (Scenario.connected 2000 2
       (mk_aggregates 20000 0 [asset_cert_ns.naming] "ABC" "ABC"
          business_kind.asset_cert))
    Scenario.move_cert = true.
Proof.
  exact (proj1
           (accepted_conservation_by_kind Scenario.env Scenario.cert_chain
              Scenario.move_cert Scenario.empty_pool Scenario.fresh
              (Scenario.connected 2000 2
                 (mk_aggregates 20000 0 [asset_cert_ns.naming] "ABC" "ABC"
                    business_kind.asset_cert))
              (mk_verdict error.success [])
              ltac:(vm_compute; reflexivity) eq_refl) eq_refl).
Defined.

Lemma check_transaction_returns_witness :
  exists c,
    check_transaction Scenario.env (Scenario.pay 10000)
      Scenario.funded_chain = Ret c.
Proof.
  apply (check_transaction_returns Scenario.env (Scenario.pay 10000)
           Scenario.funded_chain).
  intros i prev_tx prev_height [<-|[]] H. vm_compute in H.
  injection H as <- _. simpl. lia.
Defined.

Lemma validate_returns_witness :
  exists m' v,
    validate Scenario.env Scenario.funded_chain Scenario.pay_mixed
      Scenario.funded_pool Scenario.fresh = Ret (Some (m', [v])).
Proof.
  apply (validate_returns Scenario.env Scenario.funded_chain
           Scenario.pay_mixed Scenario.funded_pool Scenario.fresh).
  - intros i prev_tx prev_height [<-|[<-|[]]] H; vm_compute in H;
      [injection H as <- _; simpl; lia | discriminate].
  - split; [|split].
    + intros i [<-|[<-|[]]]; simpl; lia.
    + vm_compute. discriminate.
    + intros i previous_tx [<-|[<-|[]]] H; vm_compute in H;
        [discriminate | injection H as <-; reflexivity].
Defined.

Lemma check_asset_issue_transaction_one_issue_witness :
  exists o,
    filter output.is_asset_issue (transaction.outputs Scenario.issue_tx)
    = [o]
    /\ block_chain.is_asset_exist Scenario.funded_chain
         (output.get_asset_symbol o) false = false.
Proof.
  destruct (check_asset_issue_transaction_one_issue Scenario.env
              Scenario.issue_tx Scenario.funded_chain eq_refl eq_refl)
    as (o & Hf & _ & Hex & _).
  exists o. split; [exact Hf | exact Hex].
Defined.

Lemma check_asset_cert_issue_transaction_one_issue_witness :
  exists o,
    filter output.is_asset_cert_issue
      (transaction.outputs Scenario.cert_issue_tx) = [o]
    /\ output.get_asset_cert_type o <> asset_cert_ns.none.
Proof.
  destruct (check_asset_cert_issue_transaction_one_issue
              Scenario.cert_issue_tx Scenario.funded_chain eq_refl eq_refl)
    as (o & Hf & Hty & _).
  exists o. split; [exact Hf | exact Hty].
Defined.

Lemma check_asset_mit_register_transaction_address_witness :
  exists asset_address,
    forall i,
      In i (transaction.inputs Scenario.mit_register_tx) ->
      exists po,
        spends Scenario.funded_chain i po
        /\ (output.is_etp po = true ->
            output.get_script_address po = asset_address).
Proof.
  destruct (check_asset_mit_register_transaction_address
              Scenario.mit_register_tx Scenario.funded_chain eq_refl eq_refl)
    as (address & _ & _ & _ & Hin).
  exists address. exact Hin.
Defined.

Lemma check_did_transaction_one_did_witness :
  (List.length
     (filter output.is_did (transaction.outputs Scenario.did_transfer_two))
   <= 1)%nat.
Proof.
  exact (proj1 (check_did_transaction_one_did Scenario.env
                  Scenario.did_transfer_two Scenario.alice_chain eq_refl)).
Defined.

Lemma check_secondaryissue_transaction_shape_witness :
  exists symbol address,
    check_same_run
      (flat_map secondaryissue_symbol
         (transaction.outputs (Scenario.secondaryissue_tx 600000))) symbol
    /\ check_same_run
         (flat_map secondaryissue_address
            (transaction.outputs (Scenario.secondaryissue_tx 600000)))
         address.
Proof.
  destruct (check_secondaryissue_transaction_shape Scenario.env
              (Scenario.secondaryissue_tx 600000) Scenario.abc_chain
              eq_refl ltac:(vm_compute; reflexivity))
    as (symbol & address & _ & _ & _ & Hsym & Haddr & _).
  exists symbol, address. split; [exact Hsym | exact Haddr].
Defined.

Lemma rejected_verdict_indexes_witness :
  basic_checks Scenario.env Scenario.dangling_plain Scenario.empty_pool
    Scenario.funded_chain = Ret error.success
  /\ pipeline_rejection Scenario.env Scenario.funded_chain
       Scenario.dangling_plain Scenario.empty_pool
       (mk_members 2000 0 (aggregates_ Scenario.fresh) [])
       (mk_verdict error.validate_inputs_failed [0%nat]).
Proof.
  destruct (rejected_verdict_indexes Scenario.env Scenario.funded_chain
              Scenario.dangling_plain Scenario.empty_pool Scenario.fresh
              (mk_members 2000 0 (aggregates_ Scenario.fresh) [])
              (mk_verdict error.validate_inputs_failed [0%nat])
              ltac:(vm_compute; reflexivity) ltac:(discriminate))
    as [(H & _)|H]; [|exact H].
  vm_compute in H. discriminate.
Defined.

Lemma validate_accepts_iff_witness :
  validate Scenario.env Scenario.funded_chain Scenario.pay_mixed
    Scenario.funded_pool Scenario.fresh
  = Ret (Some
           (mk_members 2000 2
              (mk_aggregates 40000 0 [] "" "" business_kind.etp) [1%nat],
            [mk_verdict error.success [1%nat]]))
  /\ verdict_code (mk_verdict error.success [1%nat]) = error.success.
Proof.
  apply (proj2 (validate_accepts_iff Scenario.env Scenario.funded_chain
                  Scenario.pay_mixed Scenario.funded_pool Scenario.fresh
                  (mk_members 2000 2
                     (mk_aggregates 40000 0 [] "" "" business_kind.etp)
                     [1%nat])
                  (mk_verdict error.success [1%nat]))).
  split; [vm_compute; reflexivity|].
  split; [vm_compute; reflexivity|].
  split; [reflexivity|].
  split; [reflexivity|].
  split.
  { exists (mk_aggregates 40000 0 [] "" "" business_kind.etp).
    split; vm_compute; reflexivity. }
  split; [intros i _; reflexivity|].
  split; vm_compute; reflexivity.
Defined.
